(* ===== verification/_CoqProject ===== *)
-Q . S2P
Prelude.v
Numbers.v
StringUtils.v
IniParser.v
Configuration.v
NullableValue.v
Json.v
Reader.v
PrettyWriter.v
DoubleText.v
Memory.v
ByteStack.v
DomValue.v
DomSpec.v
Job.v
QuitableQueue.v
JobStorage.v
CleanupThread.v
LibPQ.v
Connection.v
Transaction.v
ParamArrays.v
PostGis.v
Requests.v
Gdal.v
FieldConversion.v
PullSource.v
Pull.v
PullSpec.v
PullTyped.v
Calls.v
Sql.v
Sync.v
Worker.v
WorkerSpec.v
Removal.v
Http.v
HttpSpec.v
EndToEnd.v
System.v
Server.v
Threads.v
Atomic.v
StorageThreads.v
Lifetime.v
