(* ===== verification/Prelude.v ===== *)
(** * batyr: a verification library

    batyr is a server that pulls vector layers from GDAL/OGR sources into tables
    of a PostGIS database.  HTTP clients post jobs; the jobs wait in a queue;
    worker threads take them, and each works on one job in one transaction of its
    own database connection.  This library holds the core of the server as
    executable definitions, translated from the C++ sources under [src/src/], and
    theorems about them.

    ** The parts and where they are modelled

    - [Prelude]: exceptions ([exn], with the subclass relation of the C++ classes),
      results of calls ([result]: a value, an exception, or [std::terminate]),
      calls with a state that survives exceptions ([M]), [size_t] with its
      wrap-around, [std::string] and [std::map], the tactics [wp_steps] and
      [keeps_steps] and the hint databases [cpp] and [keeps].
    - [Numbers]: the decimal texts of [snprintf], [std::to_string] and [ostream]
      for integers and doubles.
    - [StringUtils]: [common/stringutils.cpp].  [IniParser]:
      [common/iniparser.cpp], a store of levels with parent pointers.
      [NullableValue]: [common/nullablevalue.h].
    - [Configuration]: [server/configuration.cpp], the settings and the layers.
    - [Json]: [server/json.cpp] and the writer of the vendored rapidjson.
      [Reader]: rapidjson's reader and the document it builds ([reader.h] and
      [document.h]), from the bytes of a request to a value.  [PrettyWriter]: the
      digit loops of [writer.h] and the writer of a debug build
      ([prettywriter.h]).  [DoubleText]: the text of a double and its buffer.
      [Job]: [server/job.cpp], the job and its JSON form.
    - [DomValue], [DomSpec]: [GenericValue] as it lies in memory ([document.h]),
      with flags, union, capacities and moves, and [Accept] for the writer and for
      a document.  [Memory]: the pool that gives documents their memory
      ([rapidjson.h]), and [Allocator], the promise its clients rely on.
      [ByteStack]: the stack of parser and writer and the text buffer
      ([internal/stack.h], [stringbuffer.h]), proved against [Allocator].
    - [QuitableQueue]: [server/quitablequeue.h], the operations, and a step
      relation for threads that block in [popWait].  [JobStorage]:
      [server/jobstorage.cpp], the map and the queue of jobs, the cleanup thread,
      and the life of a job under any interleaving.  [CleanupThread]: its
      constructor and destructor with the timed mutex that ends the thread.
    - [Threads]: a machine that runs threads access by access, with mutexes, the
      condition variable and spurious wakeups, its data races, and a small program
      logic for them.  [Atomic]: which accesses of a critical section are movers,
      what the machine reaches as reached by blocks, and sections of one block.
      [StorageThreads]: the code of queue, storage and job as programs of single
      accesses, and what the server's threads run.
      [Lifetime]: the shared and weak pointers to the storage, from
      [Broker::Broker] to the last handler.
    - [LibPQ]: the interface of libpq as a class (a parameter), with a mock for
      the witnesses.  [Connection], [Transaction], [PostGis]: [server/db/].  A
      connection keeps the list of the requests it has sent with their results;
      the theorems about the database are statements about that list.
      [ParamArrays]: the C arrays of [PGParams] in a heap.
    - [Requests]: which statements remove rows, and the calls that send none.
      [Calls]: what may be assumed of a server ([Server], [Transactional]), and
      what each call of a transaction then does to the state that is observed.
    - [Gdal]: the interface of OGR as data and a class (a parameter).
      [FieldConversion], [PullSource], [Pull], [Worker]: [server/worker.cpp], in
      the order conversion of fields, opening of the source, the statements of a
      pull, and [removeByAttributes] with the loop [run].
    - [Http]: [server/http/] and [server/error.cpp], the handlers and the factory
      that routes a request to one of them.
    - [Server]: [server/server.cpp], [server/broker.cpp] and the listener: startup
      with a database connection for every worker, and shutdown.
    - [Sql]: the meaning that the PostgreSQL and PostGIS manuals give to the
      statements of a pull, on abstract tables: the specification for [Sync].
    - [PullSpec], [PullTyped], [Sync], [WorkerSpec], [Removal], [HttpSpec],
      [EndToEnd], [System]: theorems.  [Sync] runs a whole pull, and [Removal] a
      whole removal, against any server that answers their requests as the manual
      says.  [EndToEnd] follows a job from the request that posts it through the
      queue and a worker to the table and to the request that asks for it.
      [PullTyped] checks the use of prepared statements.  [System] puts requests,
      workers, cleanup passes and [quit] into one transition system.

    Definitions have the names of the C++ functions; where two classes share a
    name, the second is prefixed ([storage_push], [nv_get], [listener_run]).  A
    pointer to a shared job is an address of the heap in the job storage.  The
    state of a call is its last argument: the level store of the parser, the
    writer's stack, the storage, the connection, the transaction, or a pair of
    the job and one of these.

    ** What the theorems show

    - Data: [trim], [replaceAll] and [levenshteinDistance] do what they promise on
      all strings; the INI parser never leaves its tree; a configuration that was
      read has at least one worker, a connection string and complete layers, and
      reading it throws [ConfigurationError] only; the JSON writer produces the
      text of the document, in a debug build with white space, and its digit
      loops stay in their buffers; reading JSON ends for every text without a
      failed assertion, white space does not matter, integers of 64 bits are
      exact; what is written is read back, and so is a job.
    - Documents in memory: programs that build documents see the same of
      rapidjson's values as of the abstract ones that the other files use; a
      document that accepts a value has cloned it; the pool keeps its blocks
      apart and their contents through every move, and the stack in it is a list
      of bytes.
    - Concurrency: the queue is first in, first out and loses no wakeup; a job
      that is not done is always found by its id and belongs to the queue or to
      one worker; the cleanup pass removes what has expired, and the race with
      [setStatus], which removes more; the storage refines an abstract machine of
      accepted, started, finished and forgotten jobs; its destructor ends, with
      the cleanup thread, when it runs in the thread of the constructor.
    - Threads: handlers, workers, cleanup thread and [quit] never deadlock and
      never call [front] on an empty queue, under any interleaving of their single
      accesses; the complete list of their data races; every state is
      reached by blocks that nobody interrupts.  The sections of [push], [popNoWait], [popWait] and
      [getOrderedJobs] are one block each, which does what the function of the
      other files does, and so are those of [addJob] and [removeJob] when nobody
      asks for a single job.  This is why the step relations of queue and storage
      may take a push and the pops as steps.  The sections of [cleanup],
      [getStats] and [quit] read fields of jobs and write [continue_], which other
      threads write and read without the mutex: that the step relations take a pass
      of [cleanup] and a [quit] as one step is a choice of these models.  The storage outlives everybody who may
      use it.
    - The database: a committed pull brings the table to the features of the
      source, in bulk mode by replacing it, on every server that does what the
      manual says; a transaction is committed or rolled back as a whole; a pull
      removes rows only with permission and without a filter, bulk mode excepted;
      a pull executes its prepared insert as it was declared; a removal has
      conditions with parameters, needs permission, and leaves exactly the rows
      that match none of its attribute sets; a pull on a
      configured layer ends as FINISHED, with an error the worker handles, or
      with the process.  The arrays that libpq reads hold the values, and are
      released on every exit.
    - The server: every routed request is answered; a posted job is stored exactly
      when it is valid; no request can end a worker by an exception; after [quit]
      a worker handles what is left and stops; startup, for every sequence of
      options, and shutdown.  A posted pull and a posted removal do to the table
      what the manual says, and the job that is asked for shows the outcome.
    - Deviations that the model made visible: list fields are never converted; a
      feature that [ignore_failures] skips loses the whole pull; a job URL
      without its suffix makes the factory throw; bulk mode ignores filters; a
      feature with a NULL key stops the deletion, and a NULL geometry is not
      replaced; [getJob] may use an element that has been erased; a job is shown
      as finished before it is counted; a handler that outlives the broker
      destroys the storage in the wrong thread; [PGParams] must not be copied.

    ** Parameters

    Code outside of the repository is a parameter: [LibPQ] (requests are answered
    by any server), [Gdal] (any datasets and features), Poco's sockets, log
    channels and UUIDs, the clock, and the order of [std::unordered_map], whose
    only assumption is that it is a permutation of the entries.  The build
    switches ([_DEBUG], [HAVE_PQ_ESCAPE_IDENTIFIER], the GDAL version, the web
    interface) are arguments too.  Only [Sync] and [Removal] assume something of
    the server: [postgres] and [removal_server] list it, request by request, for
    one job while nobody else writes the table, and their witnesses run on servers
    for which all of it is proved.

    ** Fuel

    [replaceAll] has the length of the subject plus one as fuel, and
    [replaceAll_correct] shows that this is always enough.  The JSON reader has
    three times the length of the text, which is enough by [parse_total]; the
    digit loops of the writer recurse on the free bytes of their buffer, and
    [StrLen] has the size of its buffer plus one, enough by [GetString_run].
    [format_g] searches an exponent within the range of a double, which is enough
    for every double ([six_digits_correct]).
    [await_connection] waits for a server that may never come back; its fuel is
    the number of attempts, and when it is used up the job is still IN_PROCESS.
    [run] has a number of turns; after [quit] the number of queued jobs plus one
    is enough ([run_drains_queue]).

    ** Not modelled

    Logging and console output; the memory of the server's own objects, apart from
    the pointers to the storage and the arrays of [PGParams]; weak memory, since
    [Threads] interleaves accesses and only says which of them race; the
    undefined behaviour of [levenshteinDistance], which writes into reserved
    storage; the notice processor, which only logs; of rapidjson the in-situ and
    wide-character variants, [FileStream], and the iterators; Poco's
    own HTTP parsing and its parser of the command line; the web interface, the
    build scripts and the packaging.  [Memory] never runs out of memory, and its
    sizes stay below 2^62 ([size_ok]; [align4_wraps] shows what happens beyond);
    [DomValue] keeps elements and strings as lists, a size below 2^31.
    [Sql] is for tables without triggers, and leaves constraints to the server,
    which may refuse any statement.  A worker turn and a request are single
    steps of [System]; their finer interleaving is the subject of [JobStorage],
    [StorageThreads] and [Sync], the last for one pull only: two pulls into one
    table at once are left to the locks of the database.  In [Server] a [join]
    returns; that the workers end after [quit] is [run_drains_queue].

    No axioms are used but functional extensionality, for the continuations in
    [Threads]. *)
From Stdlib Require Export Ascii String ZArith Lia.
From Stdlib Require Import DecimalString.
From stdpp Require Export sorting.
From stdpp Require Export base tactics strings gmap numbers list.

Declare Scope cpp_scope.
Delimit Scope cpp_scope with cpp.
Open Scope cpp_scope.

(** ** Exceptions

    The exception classes that the sources throw or catch, with the data they
    carry.  [what] is the text of [std::exception::what()]. *)
Inductive exn :=
  | InvalidArgument (msg : string)
  | OutOfRange (msg : string)
  | RuntimeError (msg : string)
  | ConfigurationError (msg : string)
  | WorkerError (msg : string)
  | DbError (msg sqlstate context : string).

#[export] Instance exn_eq_dec : EqDecision exn.
Proof. solve_decision. Defined.

Definition what (e : exn) : string :=
  match e with
  | InvalidArgument m | OutOfRange m | RuntimeError m
  | ConfigurationError m | WorkerError m | DbError m _ _ => m
  end.

(** [catch (std::runtime_error &)]: [ConfigurationError], [WorkerError] and
    [DbError] are declared as subclasses; the two [std::logic_error]s are not. *)
Definition is_runtime_error (e : exn) : bool :=
  match e with
  | InvalidArgument _ | OutOfRange _ => false
  | _ => true
  end.

(** ** Results of calls

    [Terminated] is a call of [std::terminate()]: no handler can catch it. *)
Inductive result (A : Type) :=
  | Ret (a : A)
  | Throw (e : exn)
  | Terminated.
Arguments Ret {A} _.
Arguments Throw {A} _.
Arguments Terminated {A}.

#[export] Instance result_ret : MRet result := fun _ a => Ret a.
#[export] Instance result_fmap : FMap result := fun _ _ f m =>
  match m with
  | Ret a => Ret (f a)
  | Throw e => Throw e
  | Terminated => Terminated
  end.
#[export] Instance result_bind : MBind result := fun _ _ f m =>
  match m with
  | Ret a => f a
  | Throw e => Throw e
  | Terminated => Terminated
  end.

Definition is_ret {A} (r : result A) : bool :=
  match r with Ret _ => true | _ => false end.

(** ** Stateful calls: a state that survives exceptions *)
Definition M (S A : Type) : Type := S -> result A * S.

#[export] Instance M_ret {S} : MRet (M S) := fun _ a s => (Ret a, s).
#[export] Instance M_bind {S} : MBind (M S) := fun _ _ f m s =>
  match m s with
  | (Ret a, s') => f a s'
  | (Throw e, s') => (Throw e, s')
  | (Terminated, s') => (Terminated, s')
  end.

Definition throw {S A} (e : exn) : M S A := fun s => (Throw e, s).
Definition terminate {S A} : M S A := fun s => (Terminated, s).
Definition get {S} : M S S := fun s => (Ret s, s).
Definition gets {S A} (f : S -> A) : M S A := fun s => (Ret (f s), s).
Definition modify {S} (f : S -> S) : M S unit := fun s => (Ret tt, f s).
Definition lift {S A} (r : result A) : M S A := fun s => (r, s).

(** [try { m } catch (...) { h e }]: [h] decides which exceptions it handles
    and rethrows the others. *)
Definition try_catch {S A} (m : M S A) (h : exn -> M S A) : M S A := fun s =>
  match m s with
  | (Throw e, s') => h e s'
  | r => r
  end.

(** A range-based [for] loop whose body may throw. *)
Fixpoint foreach {S A} (l : list A) (f : A -> M S unit) : M S unit :=
  match l with
  | [] => mret tt
  | x :: l' => _ ← f x; foreach l' f
  end.

(** The same loop in a call without state of its own. *)
Fixpoint fold_result {A B} (f : B -> A -> result B) (l : list A) (b : B) : result B :=
  match l with
  | [] => Ret b
  | x :: l' => b' ← f b x; fold_result f l' b'
  end.

(** ** [size_t] and [std::string]

    [size_t] is a 64 bit unsigned integer kept in [Z]; subtraction and addition
    wrap.  A [std::string] is its byte sequence. *)
Definition size_modulus : Z := 2 ^ 64.
Definition npos : Z := size_modulus - 1.
Definition size_add (a b : Z) : Z := (a + b) mod size_modulus.
Definition size_sub (a b : Z) : Z := (a - b) mod size_modulus.

(** [unsigned int] and [int], 32 bit. *)
Definition to_uint (z : Z) : Z := z mod 2 ^ 32.
Definition int_min : Z := - 2 ^ 31.
Definition int_max : Z := 2 ^ 31 - 1.

Definition len (s : string) : Z := Z.of_nat (String.length s).
Definition is_empty (s : string) : bool := String.eqb s "".

Abbreviation chars := list_ascii_of_string.
Abbreviation unchars := string_of_list_ascii.

(** [std::string::substr(pos, n)]: throws when [pos] is past the end, clips [n]. *)
Definition substr (s : string) (pos n : Z) : result string :=
  if decide (len s < pos)%Z then Throw (OutOfRange "basic_string::substr")
  else Ret (String.substring (Z.to_nat pos) (Z.to_nat (Z.min n (len s - pos))) s).

Definition char_in (set : string) (c : ascii) : bool := existsb (Ascii.eqb c) (chars set).

(** Index of the first element from [i] on that satisfies [p], [npos] if none. *)
Fixpoint find_from (p : ascii -> bool) (l : list ascii) (i : Z) : Z :=
  match l with
  | [] => npos
  | c :: l' => if p c then i else find_from p l' (i + 1)
  end.

Definition find_first_not_of (s set : string) (pos : Z) : Z :=
  find_from (fun c => negb (char_in set c)) (drop (Z.to_nat pos) (chars s)) pos.
Definition find_first_of (s set : string) : Z := find_from (char_in set) (chars s) 0.
Definition find_char (s : string) (c : ascii) : Z := find_from (Ascii.eqb c) (chars s) 0.

(** [find_last_not_of]: the last index whose byte is not in [set]. *)
Fixpoint find_last (p : ascii -> bool) (l : list ascii) (i : Z) (acc : Z) : Z :=
  match l with
  | [] => acc
  | c :: l' => find_last p l' (i + 1) (if p c then i else acc)
  end.
Definition find_last_not_of (s set : string) : Z :=
  find_last (fun c => negb (char_in set c)) (chars s) 0 npos.

(** [s.c_str()] read as a C string: the bytes before the first NUL. *)
Fixpoint c_str (s : string) : string :=
  match s with
  | EmptyString => EmptyString
  | String c s' => if Ascii.eqb c "000" then EmptyString else String c (c_str s')
  end.

(** [std::to_string] and [ostream << int]: decimal without padding. *)
Definition to_string (z : Z) : string := NilZero.string_of_int (Z.to_int z).

(** [os << a << b << ...] on a [std::stringstream]. *)
Definition cat (l : list string) : string := String.concat "" l.

Definition dquote : string := String "034"%char EmptyString.


(** ** Lemmas on strings *)
Lemma chars_app (a b : string) : chars (a +:+ b) = chars a ++ chars b.
Proof. induction a as [|c a IH]; simpl; [done|]. by rewrite IH. Qed.

Lemma chars_length (s : string) : length (chars s) = String.length s.
Proof. induction s; simpl; congruence. Qed.

Lemma unchars_chars (s : string) : unchars (chars s) = s.
Proof. apply string_of_list_ascii_of_string. Qed.

Lemma chars_unchars (l : list ascii) : chars (unchars l) = l.
Proof. apply list_ascii_of_string_of_list_ascii. Qed.

Lemma chars_inj (a b : string) : chars a = chars b -> a = b.
Proof. intros H. by rewrite <- (unchars_chars a), H, unchars_chars. Qed.

Lemma chars_substring (n m : nat) (s : string) :
  chars (String.substring n m s) = take m (drop n (chars s)).
Proof.
  revert n m. induction s as [|c s IH]; intros [|n] [|m]; simpl; rewrite ?IH, ?drop_0; done.
Qed.

Lemma len_chars (s : string) : len s = Z.of_nat (length (chars s)).
Proof. unfold len. by rewrite chars_length. Qed.

Lemma len_nonneg (s : string) : (0 <= len s)%Z.
Proof. unfold len. lia. Qed.

Lemma string_app_assoc (a b c : string) : (a +:+ b) +:+ c = a +:+ (b +:+ c).
Proof. apply chars_inj. by rewrite !chars_app, app_assoc. Qed.

Lemma string_app_nil_r (a : string) : a +:+ "" = a.
Proof. apply chars_inj. by rewrite chars_app, app_nil_r. Qed.

Lemma cat_cons (a : string) (l : list string) : cat (a :: l) = a +:+ cat l.
Proof. unfold cat. destruct l; simpl; [by rewrite string_app_nil_r|done]. Qed.

Lemma char_in_spec (set : string) (c : ascii) : char_in set c = true <-> c ∈ chars set.
Proof.
  unfold char_in. rewrite existsb_exists, list_elem_of_In. split.
  - intros (x & Hx & ->%Ascii.eqb_eq). done.
  - intros H. exists c. by rewrite Ascii.eqb_refl.
Qed.

#[export] Instance char_in_dec_prop (set : string) (c : ascii) :
  Decision (Is_true (char_in set c)) := _.

Create HintDb cpp discriminated.
Create Rewrite HintDb chars.
#[export] Hint Rewrite chars_app chars_length chars_substring chars_unchars unchars_chars : chars.
#[export] Hint Resolve len_nonneg : cpp.

(** The searches, on a list split at the byte they look for. *)
Lemma find_from_none (p : ascii -> bool) (l : list ascii) (i : Z) :
  Forall (fun c => p c = false) l -> find_from p l i = npos.
Proof. intros H. revert i. induction H as [|c l Hc H IH]; intros i; simpl; [done|]. by rewrite Hc. Qed.

Lemma find_from_at (p : ascii -> bool) (pre post : list ascii) (c : ascii) (i : Z) :
  Forall (fun c => p c = false) pre -> p c = true ->
  find_from p (pre ++ c :: post) i = (i + Z.of_nat (length pre))%Z.
Proof.
  intros H Hc. revert i. induction H as [|d pre Hd H IH]; intros i; simpl.
  - rewrite Hc. lia.
  - rewrite Hd, IH. lia.
Qed.

Lemma find_last_none (p : ascii -> bool) (l : list ascii) (i acc : Z) :
  Forall (fun c => p c = false) l -> find_last p l i acc = acc.
Proof. intros H. revert i. induction H as [|c l Hc H IH]; intros i; simpl; [done|]. by rewrite Hc. Qed.

Lemma find_last_at (p : ascii -> bool) (pre post : list ascii) (c : ascii) (i acc : Z) :
  Forall (fun c => p c = false) post -> p c = true ->
  find_last p (pre ++ c :: post) i acc = (i + Z.of_nat (length pre))%Z.
Proof.
  intros H Hc. revert i acc. induction pre as [|d pre IH]; intros i acc; simpl.
  - rewrite Hc, find_last_none by done. lia.
  - rewrite IH. lia.
Qed.

(** Every list splits at the first, or the last, element that fails [P]. *)
Lemma split_first {A} (P : A -> Prop) `{!forall x, Decision (P x)} (l : list A) :
  Forall P l \/ exists pre c post, l = pre ++ c :: post /\ Forall P pre /\ ~ P c.
Proof.
  induction l as [|x l IH]; [by left|].
  destruct (decide (P x)) as [Hx|Hx].
  - destruct IH as [Hl|(pre & c & post & -> & Hpre & Hc)]; [left; by constructor|right].
    exists (x :: pre), c, post. auto using Forall_cons_2.
  - right. by exists [], x, l.
Qed.

Lemma split_last {A} (P : A -> Prop) `{!forall x, Decision (P x)} (l : list A) :
  Forall P l \/ exists pre c post, l = pre ++ c :: post /\ Forall P post /\ ~ P c.
Proof.
  destruct (split_first P (rev l)) as [Hr|(pre & c & post & Hl & Hpre & Hc)].
  - left. apply Forall_rev in Hr. by rewrite rev_involutive in Hr.
  - right. exists (rev post), c, (rev pre). split; [|split; [by apply Forall_rev|done]].
    rewrite <- (rev_involutive l), Hl, rev_app_distr. simpl. by rewrite <- app_assoc.
Qed.

Lemma substr_ok (s : string) (pos n : Z) :
  (0 <= pos <= len s)%Z ->
  substr s pos n = Ret (String.substring (Z.to_nat pos) (Z.to_nat (Z.min n (len s - pos))) s).
Proof. intros H. unfold substr. rewrite decide_False; [done|lia]. Qed.

(** Wrap-around does not happen in range; [0 - 1 + 1] wraps back to [0]. *)
Lemma size_sub_small (a b : Z) : (0 <= b <= a)%Z -> (a < size_modulus)%Z -> size_sub a b = (a - b)%Z.
Proof. intros. unfold size_sub. apply Z.mod_small. lia. Qed.

Lemma size_add_small (a b : Z) :
  (0 <= a)%Z -> (0 <= b)%Z -> (a + b < size_modulus)%Z -> size_add a b = (a + b)%Z.
Proof. intros. unfold size_add. apply Z.mod_small. lia. Qed.

Lemma size_add_sub_wrap (a b : Z) : (0 <= a < size_modulus)%Z -> size_add (size_sub a b) b = a.
Proof.
  intros. unfold size_add, size_sub. rewrite Zplus_mod_idemp_l, Z.sub_add.
  apply Z.mod_small. lia.
Qed.

#[export] Hint Resolve size_sub_small size_add_small : cpp.

(** ** [std::map<std::string, V>]

    A [gmap]; iteration goes through the keys in byte order. *)
Definition key_le {V} (x y : string * V) : Prop := String.leb x.1 y.1 = true.

#[export] Instance key_le_dec {V} : RelDecision (@key_le V) := fun x y => decide (_ = _).

#[export] Instance key_le_total {V} : Total (@key_le V).
Proof. intros x y. apply String.leb_total. Qed.

Definition ordered {V} (m : gmap string V) : list (string * V) :=
  merge_sort key_le (map_to_list m).

Lemma leb_cons (c d : ascii) (x y : string) :
  String.leb (String c x) (String d y) = true <->
  (N_of_ascii c < N_of_ascii d)%N \/ (c = d /\ String.leb x y = true).
Proof.
  unfold String.leb. cbn [String.compare]. unfold Ascii.compare.
  destruct (N.compare_spec (N_of_ascii c) (N_of_ascii d)) as [He|Hl|Hg].
  - assert (c = d) as -> by (rewrite <- (ascii_N_embedding c), He; apply ascii_N_embedding).
    split; [auto|]. intros [?|[_ ?]]; [lia|done].
  - split; auto.
  - split; [done|]. intros [?|[-> _]]; lia.
Qed.

Lemma String_leb_trans (x y z : string) :
  String.leb x y = true -> String.leb y z = true -> String.leb x z = true.
Proof.
  revert y z. induction x as [|c x IH]; intros [|d y] [|e z]; try done.
  rewrite !leb_cons. intros [?|[-> ?]] [?|[-> ?]]; [left; lia|auto|auto|right].
  split; [done|]. eauto.
Qed.

Lemma elem_of_ordered {V} (m : gmap string V) k v : (k, v) ∈ ordered m <-> m !! k = Some v.
Proof. unfold ordered. rewrite merge_sort_Permutation. apply elem_of_map_to_list. Qed.

Lemma ordered_sorted {V} (m : gmap string V) : Sorted key_le (ordered m).
Proof. apply Sorted_merge_sort, _. Qed.

Lemma ordered_NoDup {V} (m : gmap string V) : NoDup (ordered m).*1.
Proof. unfold ordered. rewrite merge_sort_Permutation. apply NoDup_fst_map_to_list. Qed.

#[export] Hint Resolve ordered_NoDup ordered_sorted : cpp.

(** ** Weakest preconditions of stateful calls *)
Definition wp {S A} (m : M S A) (Q : result A -> S -> Prop) (s : S) : Prop :=
  let '(r, s') := m s in Q r s'.

Section Wp.
Context {S : Type}.
Implicit Types (s : S).

Lemma wp_ret {A} (a : A) (Q : result A -> S -> Prop) s : Q (Ret a) s -> wp (mret a : M S A) Q s.
Proof. done. Qed.

Lemma wp_throw {A} e (Q : result A -> S -> Prop) s : Q (Throw e) s -> wp (throw e) Q s.
Proof. done. Qed.

Lemma wp_lift {A} r (Q : result A -> S -> Prop) s : Q r s -> wp (lift r) Q s.
Proof. done. Qed.

Lemma wp_modify f (Q : result unit -> S -> Prop) s : Q (Ret tt) (f s) -> wp (modify f) Q s.
Proof. done. Qed.

Lemma wp_mono {A} (m : M S A) (Q Q' : result A -> S -> Prop) s :
  wp m Q s -> (forall r s', Q r s' -> Q' r s') -> wp m Q' s.
Proof. unfold wp. destruct (m s) as [r s']. eauto. Qed.

(** What follows a bind runs only after a normal return. *)
Definition seq_post {A B} (k : A -> M S B) (Q : result B -> S -> Prop)
  (r : result A) (s : S) : Prop :=
  match r with
  | Ret a => wp (k a) Q s
  | Throw e => Q (Throw e) s
  | Terminated => Q Terminated s
  end.

Lemma wp_bind {A B} (m : M S A) (k : A -> M S B) (Q : result B -> S -> Prop) s :
  wp m (seq_post k Q) s -> wp (m ≫= k) Q s.
Proof. unfold wp, mbind, M_bind, seq_post, wp. destruct (m s) as [[] s']; done. Qed.

Lemma wp_try_catch {A} (m : M S A) (h : exn -> M S A) (Q : result A -> S -> Prop) s :
  wp m (fun r s' => match r with Throw e => wp (h e) Q s' | _ => Q r s' end) s ->
  wp (try_catch m h) Q s.
Proof. unfold wp, try_catch, wp. destruct (m s) as [[] s']; done. Qed.

(** A loop keeps an invariant that every turn keeps. *)
Lemma wp_foreach {A} (l : list A) (f : A -> M S unit) (I : S -> Prop)
  (E : result unit -> S -> Prop) s :
  (forall x s, x ∈ l -> I s -> wp (f x) (fun r s' => match r with Ret _ => I s' | _ => E r s' end) s) ->
  I s -> wp (foreach l f) (fun r s' => match r with Ret _ => I s' | _ => E r s' end) s.
Proof.
  intros Hf. revert s. induction l as [|x l IH]; intros s HI; [done|].
  simpl. apply wp_bind. eapply wp_mono; [apply Hf; [left|done]|].
  intros [a|e|] s' HQ; simpl; try done. apply IH; [|done].
  intros y t Hy. apply Hf. by right.
Qed.
End Wp.

(** One step of a proof by weakest preconditions. *)
Ltac wp_step :=
  match goal with
  | |- wp (_ ≫= _) _ _ => apply wp_bind
  | |- wp (mret _) _ _ => apply wp_ret
  | |- wp (throw _) _ _ => apply wp_throw
  | |- wp (lift _) _ _ => apply wp_lift
  | |- wp (modify _) _ _ => apply wp_modify
  | |- seq_post _ _ (Ret _) _ => cbn [seq_post]
  | |- seq_post _ _ (Throw _) _ => cbn [seq_post]
  | |- seq_post _ _ Terminated _ => cbn [seq_post]
  end.
Ltac wp_steps := repeat wp_step.

(** ** Calls that respect a relation between the states before and after

    [keeps R E T m]: from every state, [m] ends in a state that [R] relates to
    it; it throws only exceptions of [E], and crashes only if [T]. *)
Definition keeps {S A} (R : S -> S -> Prop) (E : exn -> Prop) (T : Prop) (m : M S A) : Prop :=
  forall s, wp m (fun r s' => R s s' /\ match r with Ret _ => True | Throw e => E e | Terminated => T end) s.

Create HintDb keeps discriminated.

Section Keeps.
Context {S : Type} (R : S -> S -> Prop) (E : exn -> Prop) (T : Prop) `{!PreOrder R}.

Lemma keeps_ret {A} (a : A) : keeps R E T (mret a).
Proof. intros s. split; [apply PreOrder_Reflexive|done]. Qed.
Lemma keeps_get : keeps R E T get.
Proof. intros s. split; [apply PreOrder_Reflexive|done]. Qed.
Lemma keeps_gets {A} (f : S -> A) : keeps R E T (gets f).
Proof. intros s. split; [apply PreOrder_Reflexive|done]. Qed.
Lemma keeps_throw {A} e : E e -> keeps R E T (throw e : M S A).
Proof. intros H s. split; [apply PreOrder_Reflexive|done]. Qed.
Lemma keeps_terminate {A} : T -> keeps R E T (terminate : M S A).
Proof. intros H s. split; [apply PreOrder_Reflexive|done]. Qed.
Lemma keeps_lift {A} (r : result A) :
  match r with Ret _ => True | Throw e => E e | Terminated => T end -> keeps R E T (lift r).
Proof. intros H s. split; [apply PreOrder_Reflexive|done]. Qed.
Lemma keeps_modify f : (forall s, R s (f s)) -> keeps R E T (modify f).
Proof. intros H s. split; [apply H|done]. Qed.

Lemma keeps_bind {A B} (m : M S A) (k : A -> M S B) :
  keeps R E T m -> (forall a, keeps R E T (k a)) -> keeps R E T (m ≫= k).
Proof.
  intros Hm Hk s. apply wp_bind. eapply wp_mono; [apply Hm|].
  intros [a|e|] s' [Hs Hr]; simpl; [|done..].
  eapply wp_mono; [apply Hk|]. intros r s'' [Hs' Hr']. split; [by etrans|done].
Qed.

Lemma keeps_foreach {A} (l : list A) (f : A -> M S unit) :
  (forall x, x ∈ l -> keeps R E T (f x)) -> keeps R E T (foreach l f).
Proof.
  induction l as [|x l IH]; intros Hf; [apply keeps_ret|].
  apply keeps_bind; [apply Hf; left|]. intros _. apply IH. intros y Hy. apply Hf. by right.
Qed.

(** The handler may be reached by every exception of the body. *)
Lemma keeps_try_catch {A} (E' : exn -> Prop) (m : M S A) (h : exn -> M S A) :
  keeps R E' T m -> (forall e, E' e -> keeps R E T (h e)) -> keeps R E T (try_catch m h).
Proof.
  intros Hm Hh s. apply wp_try_catch. eapply wp_mono; [apply Hm|].
  intros [a|e|] s' [Hs Hr]; [done| |done].
  eapply wp_mono; [by apply Hh|]. intros r s'' [Hs' Hr']. split; [by etrans|done].
Qed.

Lemma keeps_run {A} (m : M S A) s r s' : keeps R E T m -> m s = (r, s') -> R s s'.
Proof. intros Hm Hr. specialize (Hm s). unfold wp in Hm. rewrite Hr in Hm. apply Hm. Qed.
End Keeps.

Lemma keeps_weaken {S A} R (E E' : exn -> Prop) (T T' : Prop) (m : M S A) :
  (forall e, E e -> E' e) -> (T -> T') -> keeps R E T m -> keeps R E' T' m.
Proof.
  intros HE HT Hm s. eapply wp_mono; [apply Hm|]. intros [a|e|] s' [Hs Hr]; auto.
Qed.

#[export] Hint Resolve keeps_ret keeps_get keeps_gets : keeps.
#[export] Hint Extern 0 (PreOrder _) => apply _ : keeps.

(** Decomposes a call down to the calls that the hints [keeps] know. *)
Ltac keeps_step :=
  match goal with
  | |- forall _, _ => intros ?
  | |- keeps _ _ _ _ => solve [eauto 3 with keeps]
  | |- keeps _ _ _ (throw _) => apply keeps_throw; [apply _|solve [reflexivity | simpl; eauto]]
  | |- keeps _ _ _ (_ ≫= _) => apply keeps_bind; [apply _|..]
  | |- keeps _ _ _ (foreach _ _) => apply keeps_foreach; [apply _|..]
  | |- keeps _ _ _ (match ?x with _ => _ end) => destruct x
  end.
Ltac keeps_steps := repeat keeps_step.

(** ** Loops over [result] *)
Lemma fold_result_inv {A B} (f : B -> A -> result B) (I : B -> Prop) (l : list A) b b' :
  (forall b x b', x ∈ l -> I b -> f b x = Ret b' -> I b') ->
  I b -> fold_result f l b = Ret b' -> I b'.
Proof.
  intros Hf. revert b. induction l as [|x l IH]; intros b HI; simpl.
  - by intros [= <-].
  - destruct (f b x) as [b1| |] eqn:Hx; simpl; try done. apply IH.
    + intros ???. set_solver.
    + eapply Hf; eauto. left.
Qed.

(** Only exceptions of [E], and no crash, when every turn has only those. *)
Definition only_throws {A} (E : exn -> Prop) (r : result A) : Prop :=
  match r with
  | Ret _ => True
  | Throw e => E e
  | Terminated => False
  end.

Lemma only_throws_bind {A B} E (r : result A) (k : A -> result B) :
  only_throws E r -> (forall a, r = Ret a -> only_throws E (k a)) -> only_throws E (r ≫= k).
Proof. destruct r; simpl; auto. Qed.

Lemma only_throws_fold {A B} E (f : B -> A -> result B) (l : list A) b :
  (forall b x, x ∈ l -> only_throws E (f b x)) -> only_throws E (fold_result f l b).
Proof.
  revert b. induction l as [|x l IH]; intros b Hf; simpl; [done|].
  apply only_throws_bind; [apply Hf; left|]. intros b' _. apply IH. intros. apply Hf. by right.
Qed.

Lemma bind_Ret_inv {A B} (r : result A) (k : A -> result B) b :
  r ≫= k = Ret b -> exists a, r = Ret a /\ k a = Ret b.
Proof. destruct r; simpl; naive_solver. Qed.

(** ** [strtol] and [std::stoi], base 10 *)
Definition is_space (c : ascii) : bool :=
  let n := nat_of_ascii c in Nat.eqb n 32 || (Nat.leb 9 n && Nat.leb n 13).

Definition digit_of (c : ascii) : option Z :=
  let n := nat_of_ascii c in
  if decide (48 <= n <= 57) then Some (Z.of_nat n - 48)%Z else None.

Fixpoint drop_spaces (l : list ascii) : list ascii :=
  match l with
  | c :: l' => if is_space c then drop_spaces l' else l
  | [] => []
  end.

Fixpoint read_digits (l : list ascii) (acc : Z) : Z :=
  match l with
  | c :: l' => match digit_of c with
               | Some d => read_digits l' (acc * 10 + d)%Z
               | None => acc
               end
  | [] => acc
  end.

(** The value of the longest prefix of digits, [None] without any digit. *)
Definition read_number (l : list ascii) : option Z :=
  match l with
  | c :: _ => if decide (digit_of c = None) then None else Some (read_digits l 0)
  | [] => None
  end.

Definition strtol (s : string) : option Z :=
  match drop_spaces (chars (c_str s)) with
  | c :: l =>
    if Ascii.eqb c "-" then Z.opp <$> read_number l
    else if Ascii.eqb c "+" then read_number l
    else read_number (c :: l)
  | [] => None
  end.

Definition stoi (s : string) : result Z :=
  match strtol s with
  | None => Throw (InvalidArgument "stoi")
  | Some z => if decide (int_min <= z <= int_max)%Z then Ret z else Throw (OutOfRange "stoi")
  end.

(** [std::atoi]: [0] without digits; out of range is undefined, taken as the
    value's low 32 bits. *)
Definition atoi (s : string) : Z :=
  let z := default 0%Z (strtol s) in
  ((z + 2 ^ 31) mod 2 ^ 32 - 2 ^ 31)%Z.

Lemma stoi_range s z : stoi s = Ret z -> (int_min <= z <= int_max)%Z.
Proof. unfold stoi. repeat case_match; naive_solver. Qed.

Definition nl : string := String "010" EmptyString.

(** ** Running a call step by step *)
Lemma bind_step {S A B} (m : M S A) (k : A -> M S B) s s' a :
  m s = (Ret a, s') -> (m ≫= k) s = k a s'.
Proof. intros H. unfold mbind, M_bind. by rewrite H. Qed.

Lemma bind_throw {S A B} (m : M S A) (k : A -> M S B) s s' e :
  m s = (Throw e, s') -> (m ≫= k) s = (Throw e, s').
Proof. intros H. unfold mbind, M_bind. by rewrite H. Qed.

Lemma bind_terminated {S A B} (m : M S A) (k : A -> M S B) s :
  (m s).1 = Terminated -> ((m ≫= k) s).1 = Terminated.
Proof. unfold mbind, M_bind. by destruct (m s) as [[] ?]. Qed.

(** ** C strings and numbers *)
Definition nul : ascii := "000"%char.
Definition nul_free (s : string) : Prop := nul ∉ chars s.

Lemma c_str_id s : nul_free s -> c_str s = s.
Proof.
  unfold nul_free. induction s as [|c s IH]; simpl; [done|].
  rewrite not_elem_of_cons. intros [Hc Hs]. destruct (Ascii.eqb_spec c "000"); [done|].
  by rewrite IH.
Qed.

Lemma nul_free_app a b : nul_free (a +:+ b) <-> nul_free a /\ nul_free b.
Proof. unfold nul_free. rewrite chars_app, elem_of_app. naive_solver. Qed.

Lemma c_str_nul_free s : nul_free (c_str s).
Proof.
  unfold nul_free. induction s as [|c s IH]; simpl; [set_solver|].
  destruct (Ascii.eqb_spec c "000"); simpl; [set_solver|]. by apply not_elem_of_cons.
Qed.

Lemma uint_nul_free (d : Decimal.uint) : nul_free (NilEmpty.string_of_uint d).
Proof.
  unfold nul_free. induction d; simpl; [apply not_elem_of_nil|..];
    (apply not_elem_of_cons; split; [done|]; done).
Qed.

Lemma to_string_nul_free z : nul_free (to_string z).
Proof.
  unfold to_string, NilZero.string_of_int.
  assert (H : forall d, nul_free (NilZero.string_of_uint d)).
  { intros d. assert (Hd : NilZero.string_of_uint d = NilEmpty.string_of_uint d \/
      NilZero.string_of_uint d = "0") by (destruct d; auto).
    destruct Hd as [-> | ->]; [apply uint_nul_free|].
    apply not_elem_of_cons. split; [done|apply not_elem_of_nil]. }
  destruct (Z.to_int z); [apply H|]. unfold nul_free. simpl.
  apply not_elem_of_cons. split; [done|apply H].
Qed.

#[export] Hint Resolve c_str_nul_free to_string_nul_free : cpp.

(** ** Sorting commutes with a function that keeps the order *)
Section MergeSort.
Context {A B} (f : A -> B) (R : relation A) (R' : relation B) `{!RelDecision R, !RelDecision R'}.
Context (HR : forall x y, R' (f x) (f y) <-> R x y).

#[local] Abbreviation f_list := (fmap (M := list) f).
#[local] Abbreviation f_stack := (fmap (M := list) (fmap (M := option) f_list)).

Lemma list_merge_fmap l1 l2 : list_merge R' (f_list l1) (f_list l2) = f_list (list_merge R l1 l2).
Proof.
  revert l2. induction l1 as [|x l1 IH1]; intros l2; [by destruct l2|].
  induction l2 as [|y l2 IH2]; [done|]. cbn. rewrite (decide_ext _ _ _ _ (HR x y)).
  destruct (decide (R x y)); cbn; f_equal; [apply (IH1 (y :: l2))|exact IH2].
Qed.

Lemma merge_list_to_stack_fmap st l :
  merge_list_to_stack R' (f_stack st) (f_list l) = f_stack (merge_list_to_stack R st l).
Proof.
  revert l. induction st as [|[l'|] st IH]; intros l; cbn; [done| |done]. f_equal. rewrite list_merge_fmap. apply IH.
Qed.

Lemma merge_sort_fmap l : merge_sort R' (f_list l) = f_list (merge_sort R l).
Proof.
  unfold merge_sort. change (@nil (option (list B))) with (f_stack []). generalize (@nil (option (list A))).
  induction l as [|x l IH]; intros st; cbn.
  - induction st as [|[l'|] st IH]; cbn; [done| |done]. rewrite IH. apply list_merge_fmap.
  - rewrite <- IH. f_equal. apply (merge_list_to_stack_fmap st [x]).
Qed.
End MergeSort.

(** ** How many threads of a map are in a state *)
Section Count.
Context {A : Type} `{!EqDecision A}.
Implicit Types (m : gmap nat A) (p : A).

Definition count_value p m : nat := length (filter (fun x => x.2 = p) (map_to_list m)).

Lemma count_value_new p m t new :
  m !! t = None -> count_value p (<[t := new]> m) = (if decide (new = p) then 1 else 0) + count_value p m.
Proof.
  intros Ht. unfold count_value. rewrite map_to_list_insert by done. rewrite filter_cons. simpl. by case_decide.
Qed.

Lemma count_value_insert p m t old new :
  m !! t = Some old ->
  count_value p (<[t := new]> m) + (if decide (old = p) then 1 else 0) =
  count_value p m + (if decide (new = p) then 1 else 0).
Proof.
  intros Ht. rewrite <- (insert_delete_id m t old Ht) at 2. rewrite <- insert_delete_eq.
  rewrite !count_value_new by apply lookup_delete_eq. lia.
Qed.

Lemma count_value_pos p m t : m !! t = Some p -> 0 < count_value p m.
Proof.
  intros Ht. rewrite <- (insert_delete_id m t p Ht), count_value_new by apply lookup_delete_eq.
  rewrite decide_True by done. lia.
Qed.

Lemma count_value_exists p m : 0 < count_value p m -> exists t, m !! t = Some p.
Proof.
  unfold count_value. destruct (filter _ _) as [|[t p'] l] eqn:Hf; simpl; [lia|]. intros _.
  assert (Hin : (t, p') ∈ filter (fun x => x.2 = p) (map_to_list m)) by (rewrite Hf; left).
  apply list_elem_of_filter in Hin as [Hp Hin]. simpl in Hp. subst p'.
  exists t. by apply elem_of_map_to_list.
Qed.

Lemma count_value_zero p m : count_value p m = 0 <-> forall t, m !! t <> Some p.
Proof.
  split; [intros H t Ht; apply count_value_pos in Ht; lia|]. intros H.
  destruct (count_value p m) eqn:E; [done|]. destruct (count_value_exists p m) as [t Ht]; [lia|]. by destruct (H t).
Qed.
End Count.
