(* ===== verification/Numbers.v ===== *)
(** * Numbers as text

    What the sources use of [printf], [std::to_string] and [std::atoi]: decimal
    integers, padded ones, and doubles with six decimals.  A double is its sign,
    mantissa and binary exponent. *)
From Stdlib Require DecimalZ DecimalString.
From Stdlib Require Export SpecFloat.
From S2P Require Import Prelude.

(** [%0<n>d] for a number that is not negative. *)
Definition pad0 (n : nat) (z : Z) : string :=
  let t := to_string z in
  unchars (replicate (n - String.length t) "0"%char) +:+ t.

(** [%0<n>d]: the sign counts, and comes before the padding. *)
Definition printf_0d (n : nat) (z : Z) : string :=
  if decide (z < 0)%Z then "-" +:+ pad0 (n - 1) (- z) else pad0 n z.

(** ** Doubles *)
Abbreviation double := spec_float.

(** [n / d] rounded to the nearest integer, ties to even. *)
Definition round_div (n d : Z) : Z :=
  let q := (n / d)%Z in
  let r := (n mod d)%Z in
  if decide (2 * r < d)%Z then q
  else if decide (2 * r = d)%Z then if Z.even q then q else (q + 1)%Z
  else (q + 1)%Z.

(** [%f] of [m * 2^e], [m] not negative. *)
Definition format_f (m e : Z) : string :=
  let scaled := if decide (0 <= e)%Z then (m * 2 ^ e * 1000000)%Z
                else round_div (m * 1000000) (2 ^ (- e)) in
  cat [to_string (scaled / 1000000); "."; pad0 6 (scaled mod 1000000)].

(** [std::to_string(double)]. *)
Definition to_string_double (x : double) : string :=
  match x with
  | S754_zero s => cat [if s then "-" else ""; "0.000000"]
  | S754_infinity s => cat [if s then "-" else ""; "inf"]
  | S754_nan => "nan"
  | S754_finite s m e => cat [if s then "-" else ""; format_f (Zpos m) e]
  end.

Example to_string_double_half : to_string_double (S754_finite false 1 (-1)) = "0.500000".
Proof. vm_compute. reflexivity. Qed.

(** [ostream << double]: [%g] with six significant digits. *)
Fixpoint exponent_up (fuel : nat) (n d x : Z) : Z * Z :=
  match fuel with
  | 0 => (d, x)
  | S fuel' => if decide (10 * d <= n)%Z then exponent_up fuel' n (10 * d) (x + 1) else (d, x)
  end.
Fixpoint exponent_down (fuel : nat) (n d x : Z) : Z * Z :=
  match fuel with
  | 0 => (n, x)
  | S fuel' => if decide (n < d)%Z then exponent_down fuel' (10 * n) d (x - 1) else (n, x)
  end.

(** The six digits of [n / d] and the exponent of the first. *)
Definition six_digits (n d : Z) : Z * Z :=
  let '(d1, x1) := exponent_up 400 n d 0 in
  let '(n2, x2) := exponent_down 400 n d1 x1 in
  let m := round_div (n2 * 100000) d1 in
  if decide (m = 1000000)%Z then (100000%Z, (x2 + 1)%Z) else (m, x2).

Fixpoint strip_zeros (l : list ascii) : list ascii :=
  match l with
  | c :: l' => if Ascii.eqb c "0" then strip_zeros l' else l
  | [] => []
  end.
(** Without trailing zeros in the fraction, nor the point if nothing follows. *)
Definition with_fraction (i frac : string) : string :=
  let f := unchars (rev (strip_zeros (rev (chars frac)))) in
  if is_empty f then i else cat [i; "."; f].

Definition format_g (m e : Z) : string :=
  let '(digits, x) := if decide (0 <= e)%Z then six_digits (m * 2 ^ e) 1 else six_digits m (2 ^ (- e)) in
  if decide (-4 <= x < 6)%Z then
    if decide (0 <= x)%Z then
      with_fraction (to_string (digits / 10 ^ (5 - x))) (pad0 (Z.to_nat (5 - x)) (digits mod 10 ^ (5 - x)))
    else with_fraction "0" (unchars (replicate (Z.to_nat (- x - 1)) "0"%char) +:+ to_string digits)
  else
    cat [with_fraction (to_string (digits / 100000)) (pad0 5 (digits mod 100000)); "e";
         if decide (x < 0)%Z then "-" else "+"; pad0 2 (Z.abs x)].

Definition double_text (x : double) : string :=
  match x with
  | S754_zero s => cat [if s then "-" else ""; "0"]
  | S754_infinity s => cat [if s then "-" else ""; "inf"]
  | S754_nan => "nan"
  | S754_finite s m e => cat [if s then "-" else ""; format_g (Zpos m) e]
  end.

Example double_text_examples :
  double_text (S754_finite false 5 (-1)) = "2.5" /\
  double_text (S754_finite true 1 30) = "-1.07374e+09" /\
  double_text (S754_finite false 1 (-20)) = "9.53674e-07" /\
  double_text (S754_finite false 100000 0) = "100000".
Proof. vm_compute. repeat split. Qed.

(** ** Numbers in text *)
Section Numbers.
(** [to_string] writes digits that [atoi] reads back. *)
Fixpoint value_of (d : Decimal.uint) (acc : Z) : Z :=
  match d with
  | Decimal.Nil => acc
  | Decimal.D0 d => value_of d (acc * 10)
  | Decimal.D1 d => value_of d (acc * 10 + 1)
  | Decimal.D2 d => value_of d (acc * 10 + 2)
  | Decimal.D3 d => value_of d (acc * 10 + 3)
  | Decimal.D4 d => value_of d (acc * 10 + 4)
  | Decimal.D5 d => value_of d (acc * 10 + 5)
  | Decimal.D6 d => value_of d (acc * 10 + 6)
  | Decimal.D7 d => value_of d (acc * 10 + 7)
  | Decimal.D8 d => value_of d (acc * 10 + 8)
  | Decimal.D9 d => value_of d (acc * 10 + 9)
  end.

Lemma read_digits_uint d acc :
  read_digits (chars (DecimalString.NilEmpty.string_of_uint d)) acc = value_of d acc.
Proof.
  revert acc. induction d; intros acc; simpl; rewrite ?IHd; try done;
    apply (f_equal (value_of d));
    match goal with |- context [nat_of_ascii ?c] =>
      let v := eval vm_compute in (nat_of_ascii c) in change (nat_of_ascii c) with v end; lia.
Qed.

Lemma value_of_pos d p : value_of d (Z.pos p) = Z.pos (Pos.of_uint_acc d p).
Proof.
  revert p. induction d; intros p; cbn [value_of Pos.of_uint_acc]; [done|..]; rewrite <- IHd;
    apply (f_equal (value_of d)); lia.
Qed.

Lemma value_of_uint d : value_of d 0 = Z.of_N (Pos.of_uint d).
Proof.
  induction d; cbn [value_of Pos.of_uint];
    first [done | exact IHd | exact (value_of_pos d _)].
Qed.

(** The first byte of a number is a digit. *)
Definition is_digit (c : ascii) : Prop := digit_of c <> None.

Lemma uint_digits d : Forall is_digit (chars (DecimalString.NilEmpty.string_of_uint d)).
Proof. induction d; simpl; constructor; done. Qed.

Lemma digit_not_space c : is_digit c -> is_space c = false /\ c <> "-"%char /\ c <> "+"%char /\ c <> "000"%char /\ c <> "."%char.
Proof.
  intros H. assert (Hc : is_digit c -> is_space c = false /\ c <> "-"%char /\ c <> "+"%char /\
    c <> "000"%char /\ c <> "."%char); [|auto].
  apply (bool_decide_unpack (digit_of c <> None -> _)). clear H.
  destruct c as [[] [] [] [] [] [] [] []]; vm_compute; done.
Qed.

Lemma digits_nul_free s : Forall is_digit (chars s) -> nul_free s.
Proof.
  intros H Hin. rewrite Forall_forall in H. by destruct (digit_not_space _ (H _ Hin)) as (_ & _ & _ & ? & _).
Qed.

Lemma strtol_digits s :
  Forall is_digit (chars s) -> s <> "" -> strtol s = Some (read_digits (chars s) 0).
Proof.
  intros H Hne. unfold strtol. rewrite c_str_id by (by apply digits_nul_free).
  destruct s as [|c s]; [done|]. simpl in *. apply Forall_cons in H as [Hc H].
  destruct (digit_not_space c Hc) as (Hs & Hm & Hp & _). rewrite Hs.
  destruct (Ascii.eqb_spec c "-"); [done|]. destruct (Ascii.eqb_spec c "+"); [done|].
  unfold read_number. by rewrite decide_False.
Qed.

(** The text of a number that is not negative: digits, at least one. *)
Lemma to_string_digits z :
  (0 <= z)%Z -> Forall is_digit (chars (to_string z)) /\ to_string z <> "" /\
                read_digits (chars (to_string z)) 0 = z.
Proof.
  intros Hz. unfold to_string, DecimalString.NilZero.string_of_int.
  pose proof (DecimalZ.of_to z) as Hof. destruct (Z.to_int z) as [d|d] eqn:Hd.
  - simpl in Hof. assert (Hv : value_of d 0 = z)
      by (rewrite value_of_uint; exact Hof).
    assert (Hs : DecimalString.NilZero.string_of_uint d = DecimalString.NilEmpty.string_of_uint d \/
                 d = Decimal.Nil) by (destruct d; auto).
    destruct Hs as [Hs| ->].
    + rewrite Hs. split; [apply uint_digits|]. split; [destruct d; done|].
      by rewrite read_digits_uint.
    + split; [by repeat constructor|]. split; [done|]. by rewrite <- Hv.
  - destruct z; simpl in Hd; try discriminate. lia.
Qed.

Lemma atoi_to_string z : (0 <= z <= int_max)%Z -> atoi (to_string z) = z.
Proof.
  intros Hz. destruct (to_string_digits z) as (H1 & H2 & H3); [lia|].
  unfold atoi. rewrite strtol_digits by done. simpl. rewrite H3.
  unfold int_max in Hz. rewrite Z.mod_small; lia.
Qed.
End Numbers.

(** The rounding of [%f]: at most half of the last decimal away. *)
Lemma round_div_error n d :
  (0 < d)%Z -> (2 * Z.abs (n - round_div n d * d) <= d)%Z.
Proof.
  intros Hd. unfold round_div. pose proof (Z.div_mod n d ltac:(lia)) as Hn.
  pose proof (Z.mod_pos_bound n d Hd) as Hr.
  set (q := (n / d)%Z) in *. set (r := (n mod d)%Z) in *.
  repeat case_decide; [|destruct (Z.even q)|]; nia.
Qed.
