(* ===== verification/StringUtils.v ===== *)
(** * String utilities

    [src/common/stringutils.cpp]: [trim], [join], [split], [tolower],
    [levenshteinDistance] and [replaceAll].  Each function is the loop of the
    source; the theorems give the list function it computes. *)
From S2P Require Import Prelude.

(** The default argument of [trim]. *)
Definition ws : string :=
  String " " (String "009" (String "013" (String "010" EmptyString))).

Definition trim (s characters : string) : result string :=
  let sec_start := find_first_not_of s characters 0 in
  let sec_end := find_last_not_of s characters in
  let sec_start := if decide (sec_start = npos) then 0%Z else sec_start in
  let sec_end := if decide (sec_end = npos) then size_sub (len s) 1 else sec_end in
  substr s sec_start (size_add (size_sub sec_end sec_start) 1).

Definition join (elements : list string) (separator : string) : string :=
  match elements with
  | [] => ""
  | [e] => e
  | _ =>
    foldr (fun e os => e +:+ separator +:+ os)
      (List.last elements "") (removelast elements)
  end.

(** [beg, cur) of the source is the segment [seg] read since the last separator. *)
Fixpoint split_loop (rest : list ascii) (seperator : ascii) (seg : list ascii)
  (elements : list string) : list string :=
  match rest with
  | [] => elements ++ [unchars seg]
  | c :: rest' =>
    if Ascii.eqb c seperator
    then split_loop rest' seperator [] (elements ++ [unchars seg])
    else split_loop rest' seperator (seg ++ [c]) elements
  end.

Definition split (joined : string) (seperator : ascii) : list string :=
  split_loop (chars joined) seperator [] [].

(** [::tolower] in the C locale. *)
Definition tolower_char (c : ascii) : ascii :=
  let n := nat_of_ascii c in
  if decide (65 <= n <= 90) then ascii_of_nat (n + 32) else c.

Definition tolower (s : string) : string := unchars (tolower_char <$> chars s).

(** One pass of the inner loop: [corner], [j] and the row [costs]. *)
Fixpoint lev_inner (c1 : ascii) (s2 : list ascii) (j : nat) (corner : nat)
  (costs : list nat) : list nat :=
  match s2 with
  | [] => costs
  | c2 :: s2' =>
    let upper := costs !!! (j + 1) in
    let costs' :=
      if Ascii.eqb c1 c2 then <[j + 1 := corner]> costs
      else
        let t := if upper <? corner then upper else corner in
        <[j + 1 := (if costs !!! j <? t then costs !!! j else t) + 1]> costs in
    lev_inner c1 s2' (j + 1) upper costs'
  end.

Fixpoint lev_outer (s1 s2 : list ascii) (i : nat) (costs : list nat) : list nat :=
  match s1 with
  | [] => costs
  | c1 :: s1' =>
    lev_outer s1' s2 (i + 1) (lev_inner c1 s2 0 i (<[0 := i + 1]> costs))
  end.

Definition levenshteinDistance (s1 s2 : string) : nat :=
  let m := String.length s1 in
  let n := String.length s2 in
  if decide (m = 0) then n
  else if decide (n = 0) then m
  else lev_outer (chars s1) (chars s2) 0 (seq 0 (n + 1)) !!! n.

(** [std::string::find(from, pos)] and [std::string::replace(pos, n, to)]. *)
Fixpoint find_list (from l : list ascii) (i : nat) : option nat :=
  if decide (from `prefix_of` l) then Some i
  else match l with
       | [] => None
       | _ :: l' => find_list from l' (S i)
       end.

Definition str_find (s from : string) (pos : nat) : option nat :=
  find_list (chars from) (drop pos (chars s)) pos.

Definition str_replace (s : string) (pos n : nat) (to : string) : string :=
  unchars (take pos (chars s) ++ chars to ++ drop (pos + n) (chars s)).

(** The [while] loop, [None] when the fuel does not suffice. *)
Fixpoint replace_loop (fuel : nat) (subject from to : string) (start_pos : nat)
  : option string :=
  match fuel with
  | 0 => None
  | S fuel' =>
    match str_find subject from start_pos with
    | None => Some subject
    | Some p =>
      replace_loop fuel' (str_replace subject p (String.length from) to) from to
        (p + String.length to)
    end
  end.

Definition replaceAll (subject from to : string) : option string :=
  if is_empty from then Some subject
  else replace_loop (S (String.length subject)) subject from to 0.

Example trim_ex1 : trim "  a b " ws = Ret "a b". Proof. vm_compute. reflexivity. Qed.
Example trim_ex2 : trim "   " ws = Ret "   ". Proof. vm_compute. reflexivity. Qed.
Example trim_ex3 : trim "" ws = Ret "". Proof. vm_compute. reflexivity. Qed.
Example lev_ex : levenshteinDistance "kitten" "sitting" = 3. Proof. vm_compute. reflexivity. Qed.
Example rep_ex : replaceAll "xaxx" "x" "yx" = Some "yxayxyx". Proof. vm_compute. reflexivity. Qed.
Example split_ex : split "a,b,,c" "," = ["a";"b";"";"c"]. Proof. vm_compute. reflexivity. Qed.
Example join_ex : join ["a";"b";"c"] ", " = "a, b, c". Proof. vm_compute. reflexivity. Qed.

(** ** trim *)
Section Trim.
Context (set : string).
Implicit Types (s t : string).

Definition in_set (c : ascii) : Prop := char_in set c = true.

(** Not empty, and neither end is in the set. *)
Definition trimmed s : Prop :=
  exists c d, head (chars s) = Some c /\ list.last (chars s) = Some d /\
    char_in set c = false /\ char_in set d = false.

#[local] Instance in_set_dec c : Decision (in_set c) := _.

Lemma Forall_in_set l :
  Forall (fun c => negb (char_in set c) = false) l <-> Forall in_set l.
Proof. apply Forall_iff. intros c. unfold in_set. by rewrite negb_false_iff. Qed.

(** No byte to keep: both searches fail and the whole string is returned. *)
Lemma trim_all_in_set s :
  (len s < npos)%Z -> Forall in_set (chars s) -> trim s set = Ret s.
Proof.
  intros Hlen Hall%Forall_in_set. pose proof (len_nonneg s) as Hpos.
  unfold trim, find_first_not_of, find_last_not_of. rewrite drop_0.
  rewrite find_from_none, find_last_none by done.
  rewrite !decide_True by done. rewrite substr_ok by lia.
  f_equal. apply chars_inj. rewrite chars_substring, drop_0, take_ge; [done|].
  replace (size_sub (size_sub (len s) 1) 0) with (size_sub (len s) 1)
    by (unfold size_sub; rewrite Z.sub_0_r, Zmod_mod; done).
  rewrite size_add_sub_wrap by (unfold npos in *; lia). rewrite len_chars. lia.
Qed.

(** Bytes to keep: the result is what lies between the first and the last. *)
Lemma trim_between s pre c mid post :
  (len s < npos)%Z -> chars s = pre ++ mid ++ post ->
  Forall in_set pre -> Forall in_set post ->
  head mid = Some c -> ~ in_set c ->
  (exists d, list.last mid = Some d /\ ~ in_set d) ->
  trim s set = Ret (unchars mid).
Proof.
  intros Hlen Hs Hpre%Forall_in_set Hpost%Forall_in_set Hc Hnc (d & Hd & Hnd).
  unfold in_set in Hnc, Hnd. apply not_true_is_false in Hnc, Hnd.
  rewrite len_chars in Hlen. unfold npos in Hlen.
  destruct mid as [|c' mid']; [done|]. injection Hc as ->.
  apply last_Some in Hd as (mid'' & Hd).
  assert (Hn : length (chars s) = length pre + length (c :: mid') + length post)
    by (rewrite Hs, !length_app; lia).
  assert (Hm : length (c :: mid') = S (length mid''))
    by (rewrite Hd, length_app; simpl; lia).
  assert (Hfirst : find_first_not_of s set 0 = Z.of_nat (length pre)).
  { unfold find_first_not_of. rewrite drop_0, Hs. simpl.
    rewrite find_from_at; [lia|done|by rewrite Hnc]. }
  assert (Hlast : find_last_not_of s set = Z.of_nat (length pre + length mid'')).
  { unfold find_last_not_of. rewrite Hs, Hd, <- (app_assoc mid''), (app_assoc pre). simpl.
    rewrite find_last_at; [rewrite length_app; lia|done|by rewrite Hnd]. }
  unfold trim. rewrite Hfirst, Hlast.
  rewrite !decide_False by (unfold npos, size_modulus in *; lia).
  rewrite size_sub_small, size_add_small by (unfold size_modulus in *; lia).
  rewrite substr_ok by (rewrite len_chars; lia).
  f_equal. apply chars_inj. rewrite chars_substring, chars_unchars, Hs, len_chars.
  rewrite Nat2Z.id, drop_app_length.
  rewrite take_app_le by (rewrite Hn; lia).
  apply take_ge. rewrite Hn. lia.
Qed.

(** The byte string [trim] computes, in every case. *)
Lemma trim_spec s :
  (len s < npos)%Z ->
  (Forall in_set (chars s) /\ trim s set = Ret s) \/
  (exists pre t post, chars s = pre ++ chars t ++ post /\ Forall in_set pre /\
     Forall in_set post /\ trimmed t /\ trim s set = Ret t).
Proof.
  intros Hlen.
  destruct (split_first in_set (chars s)) as [Hall|(pre & c & rest & Hs & Hpre & Hc)].
  { left. auto using trim_all_in_set. }
  right.
  destruct (split_last in_set (c :: rest)) as [Hall|(mid & d & post & Hr & Hpost & Hd)].
  { by inversion Hall. }
  assert (Hmid : exists c', head (mid ++ [d]) = Some c' /\ ~ in_set c').
  { destruct mid; injection Hr as -> ->; eauto. }
  assert (Hlast : list.last (mid ++ [d]) = Some d) by apply last_snoc.
  exists pre, (unchars (mid ++ [d])), post. rewrite chars_unchars.
  assert (Hs' : chars s = pre ++ (mid ++ [d]) ++ post) by (rewrite Hs, Hr, <- app_assoc; done).
  destruct Hmid as (c' & Hhd & Hc'). repeat split; try done.
  - exists c', d. rewrite chars_unchars. unfold in_set in *.
    repeat split; try done; by apply not_true_is_false.
  - eapply trim_between; eauto.
Qed.

(** The start position is never past the end, so [substr] does not throw. *)
Lemma trim_total s : exists t, trim s set = Ret t.
Proof.
  unfold trim. eexists. apply substr_ok.
  pose proof (len_nonneg s). case_decide as Hn; [lia|].
  unfold find_first_not_of in *. rewrite drop_0 in *.
  destruct (split_first (fun c => negb (char_in set c) = false) (chars s))
    as [Hall|(pre & c & post & Hs & Hpre & Hc)].
  - by rewrite find_from_none in Hn.
  - rewrite len_chars, Hs, find_from_at; [|done|by apply not_false_is_true].
    rewrite length_app. simpl. lia.
Qed.

Lemma trim_trimmed s : (len s < npos)%Z -> trimmed s -> trim s set = Ret s.
Proof.
  intros Hlen (c & d & Hc & Hd & Hnc & Hnd).
  pose proof (trim_between s [] c (chars s) []) as H. rewrite unchars_chars in H.
  apply H; try done.
  - by rewrite app_nil_r.
  - unfold in_set. by rewrite Hnc.
  - exists d. unfold in_set. by rewrite Hnd.
Qed.

Lemma trim_shorter s t : (len s < npos)%Z -> trim s set = Ret t -> (len t <= len s)%Z.
Proof.
  intros Hlen Ht. destruct (trim_spec s Hlen) as [[_ Hs]|(pre & t' & post & Hs & _ & _ & _ & Ht')].
  - rewrite Ht in Hs. injection Hs as ->. lia.
  - rewrite Ht in Ht'. injection Ht' as ->. rewrite !len_chars, Hs, !length_app. lia.
Qed.

Lemma trim_idempotent_raw s t : (len s < npos)%Z -> trim s set = Ret t -> trim t set = Ret t.
Proof.
  intros Hlen Ht. pose proof (trim_shorter s t Hlen Ht).
  destruct (trim_spec s Hlen) as [[Hall Hs]|(pre & t' & post & Hs & _ & _ & Htr & Ht')].
  - rewrite Ht in Hs. injection Hs as ->. auto using trim_all_in_set.
  - rewrite Ht in Ht'. injection Ht' as ->. apply trim_trimmed; [lia|done].
Qed.
End Trim.

(** ** split and join *)
Section SplitJoin.
#[local] Arguments join : simpl never.
Lemma join_cons (x y : string) (l : list string) (sep : string) :
  join (x :: y :: l) sep = x +:+ sep +:+ join (y :: l) sep.
Proof. by destruct l. Qed.

Lemma join_concat (l : list string) (sep : string) : join l sep = String.concat sep l.
Proof.
  induction l as [|x [|y l] IH]; [done|done|].
  rewrite join_cons, IH. done.
Qed.

Lemma split_loop_app rest c seg l :
  split_loop rest c seg l = l ++ split_loop rest c seg [].
Proof.
  revert seg l. induction rest as [|d rest IH]; intros seg l; simpl; [done|].
  destruct (Ascii.eqb d c); [|by rewrite IH].
  rewrite IH, (IH [] [unchars seg]). by rewrite <- app_assoc.
Qed.

Lemma split_loop_cons rest c seg :
  exists x l, split_loop rest c seg [] = x :: l.
Proof.
  revert seg. induction rest as [|d rest IH]; intros seg; simpl; [eauto|].
  destruct (Ascii.eqb d c); [|apply IH]. rewrite split_loop_app. simpl. eauto.
Qed.

Lemma join_split_loop rest c seg :
  join (split_loop rest c seg []) (String c EmptyString) = unchars (seg ++ rest).
Proof.
  revert seg. induction rest as [|d rest IH]; intros seg; simpl; [by rewrite app_nil_r|].
  destruct (Ascii.eqb_spec d c) as [->|Hne].
  - rewrite split_loop_app. simpl. destruct (split_loop_cons rest c []) as (x & l & Hl).
    rewrite Hl, join_cons, <- Hl, IH. apply chars_inj. autorewrite with chars. done.
  - rewrite IH, <- app_assoc. done.
Qed.

Lemma split_loop_pieces rest c seg :
  c ∉ seg -> Forall (fun e => c ∉ chars e) (split_loop rest c seg []).
Proof.
  revert seg. induction rest as [|d rest IH]; intros seg Hseg; simpl.
  - constructor; [by rewrite chars_unchars|constructor].
  - destruct (Ascii.eqb_spec d c) as [->|Hne].
    + rewrite split_loop_app. simpl. constructor; [by rewrite chars_unchars|].
      apply IH. apply not_elem_of_nil.
    + apply IH. rewrite elem_of_app, list_elem_of_singleton. intros [Hin|Hin]; [done|congruence].
Qed.
End SplitJoin.

(** ** tolower *)
Lemma tolower_char_idempotent (c : ascii) : tolower_char (tolower_char c) = tolower_char c.
Proof. destruct c as [[] [] [] [] [] [] [] []]; vm_compute; done. Qed.

Lemma tolower_idempotent (s : string) : tolower (tolower s) = tolower s.
Proof.
  unfold tolower. rewrite chars_unchars. f_equal.
  rewrite <- list_fmap_compose. apply list_fmap_ext. intros. apply tolower_char_idempotent.
Qed.

(** ** Edit scripts: what [levenshteinDistance] measures *)
Inductive edits : list ascii -> list ascii -> nat -> Prop :=
  | edits_nil : edits [] [] 0
  | edits_keep c s t n : edits s t n -> edits (c :: s) (c :: t) n
  | edits_subst c d s t n : edits s t n -> edits (c :: s) (d :: t) (S n)
  | edits_delete c s t n : edits s t n -> edits (c :: s) t (S n)
  | edits_insert d s t n : edits s t n -> edits s (d :: t) (S n).

(** [n] is the length of a shortest edit script. *)
Definition min_edits (s t : list ascii) (n : nat) : Prop :=
  edits s t n /\ forall m, edits s t m -> n <= m.

Section Edits.
#[local] Hint Constructors edits : core.

Lemma edits_app s t n s' t' n' :
  edits s t n -> edits s' t' n' -> edits (s ++ s') (t ++ t') (n + n').
Proof. induction 1; simpl; auto. Qed.

Lemma edits_rev s t n : edits s t n -> edits (rev s) (rev t) n.
Proof.
  induction 1; simpl; try done.
  - replace n with (n + 0) by lia. auto using edits_app.
  - replace (S n) with (n + 1) by lia. auto using edits_app.
  - rewrite <- (app_nil_r (rev t)). replace (S n) with (n + 1) by lia. auto using edits_app.
  - rewrite <- (app_nil_r (rev s)). replace (S n) with (n + 1) by lia. auto using edits_app.
Qed.

Lemma min_edits_rev s t n : min_edits (rev s) (rev t) n <-> min_edits s t n.
Proof.
  split; intros [He Hm]; split.
  - apply edits_rev in He. by rewrite !rev_involutive in He.
  - intros m Hs. apply Hm. by apply edits_rev.
  - by apply edits_rev.
  - intros m Hs. apply Hm. apply edits_rev in Hs. by rewrite !rev_involutive in Hs.
Qed.

(** Dropping one byte on either side costs at most one edit. *)
Lemma edits_drop_r s c t n : edits s (c :: t) n -> exists k, k <= S n /\ edits s t k.
Proof.
  intros H. remember (c :: t) as t' eqn:Ht. induction H; try done.
  - injection Ht as -> ->. eauto.
  - injection Ht as -> ->. eauto.
  - destruct (IHedits Ht) as (k & Hk & He). exists (S k). split; [lia|auto].
  - injection Ht as -> ->. exists n. auto with lia.
Qed.

Lemma edits_sym s t n : edits s t n -> edits t s n.
Proof. induction 1; auto. Qed.

Lemma edits_drop_l s c t n : edits (c :: s) t n -> exists k, k <= S n /\ edits s t k.
Proof.
  intros (k & Hk & He)%edits_sym%edits_drop_r. eauto using edits_sym.
Qed.

Lemma min_edits_nil_r s : min_edits s [] (length s).
Proof.
  split; [induction s; simpl; auto|].
  intros m H. remember [] as t eqn:Ht. induction H; simpl; try done.
  apply IHedits in Ht. lia.
Qed.

Lemma min_edits_nil_l t : min_edits [] t (length t).
Proof.
  destruct (min_edits_nil_r t) as [He Hm]. split; auto using edits_sym.
Qed.

Lemma min_edits_cons_eq c s t n : min_edits s t n -> min_edits (c :: s) (c :: t) n.
Proof.
  intros [He Hm]. split; [auto|]. intros m H. inversion H as [|? ? ? ? H'|? ? ? ? ? H'|? ? ? ? H'|? ? ? ? H']; subst.
  - auto.
  - apply Hm in H'. lia.
  - destruct (edits_drop_r _ _ _ _ H') as (k & ? & Hk). apply Hm in Hk. lia.
  - destruct (edits_drop_l _ _ _ _ H') as (k & ? & Hk). apply Hm in Hk. lia.
Qed.

Lemma min_edits_cons_ne c d s t a b e :
  c <> d -> min_edits (c :: s) t a -> min_edits s (d :: t) b -> min_edits s t e ->
  min_edits (c :: s) (d :: t) (Nat.min a (Nat.min b e) + 1).
Proof.
  intros Hne [Ha Hma] [Hb Hmb] [He Hme]. rewrite Nat.add_1_r. split.
  - destruct (Nat.min_spec b e) as [[_ ->]|[_ ->]];
      destruct (Nat.min_spec a b) as [[_ Hx]|[_ Hx]];
      destruct (Nat.min_spec a e) as [[_ Hy]|[_ Hy]]; rewrite ?Hx, ?Hy; auto.
  - intros m H. inversion H as [|? ? ? ? H'|? ? ? ? ? H'|? ? ? ? H'|? ? ? ? H']; subst.
    + done.
    + apply Hme in H'. lia.
    + apply Hmb in H'. lia.
    + apply Hma in H'. lia.
Qed.

(** The same recurrences at the end of the lists, where the rows grow. *)
Lemma min_edits_snoc_eq c s t n : min_edits s t n -> min_edits (s ++ [c]) (t ++ [c]) n.
Proof.
  intros H. apply min_edits_rev. rewrite !rev_app_distr. simpl.
  apply min_edits_cons_eq, min_edits_rev, H.
Qed.

Lemma min_edits_snoc_ne c d s t a b e :
  c <> d -> min_edits (s ++ [c]) t a -> min_edits s (t ++ [d]) b -> min_edits s t e ->
  min_edits (s ++ [c]) (t ++ [d]) (Nat.min a (Nat.min b e) + 1).
Proof.
  intros Hne Ha%min_edits_rev Hb%min_edits_rev He%min_edits_rev. apply min_edits_rev.
  rewrite rev_app_distr in Ha, Hb |- *. rewrite rev_app_distr. simpl in *.
  by apply min_edits_cons_ne.
Qed.
End Edits.

(** ** levenshteinDistance

    Row [i] of the table holds the distances between the first [i] bytes of
    [s1] and every prefix of [s2]. *)
Section Levenshtein.
Context (s2 : list ascii).

Definition row_ok (p1 : list ascii) (costs : list nat) : Prop :=
  length costs = S (length s2) /\
  forall k, k <= length s2 -> min_edits p1 (take k s2) (costs !!! k).

(** Up to column [j] the row of [p1 ++ [c1]], after it still that of [p1]. *)
Definition half_row (p1 : list ascii) (c1 : ascii) (j : nat) (costs : list nat) : Prop :=
  length costs = S (length s2) /\
  (forall k, k <= j -> min_edits (p1 ++ [c1]) (take k s2) (costs !!! k)) /\
  (forall k, j < k <= length s2 -> min_edits p1 (take k s2) (costs !!! k)).

Lemma min3 (a b e : nat) :
  (if a <? (if b <? e then b else e) then a else (if b <? e then b else e))
  = Nat.min a (Nat.min b e).
Proof. repeat case_match; rewrite ?Nat.ltb_lt, ?Nat.ltb_ge in *; lia. Qed.

Lemma half_row_step p1 c1 p2 c2 rest costs corner x :
  s2 = p2 ++ c2 :: rest -> half_row p1 c1 (length p2) costs ->
  min_edits p1 p2 corner ->
  x = (if Ascii.eqb c1 c2 then corner
       else Nat.min (costs !!! length p2) (Nat.min (costs !!! (length p2 + 1)) corner) + 1) ->
  half_row p1 c1 (length p2 + 1) (<[length p2 + 1 := x]> costs).
Proof.
  intros Hs (Hlen & Hlo & Hhi) Hcorner ->.
  assert (Hl : length s2 = length p2 + S (length rest)) by (rewrite Hs, length_app; done).
  assert (Ht : take (length p2) s2 = p2) by (rewrite Hs, take_app_length; done).
  assert (Ht' : take (length p2 + 1) s2 = p2 ++ [c2]).
  { rewrite Hs, take_app_ge by lia. replace (_ - _) with 1 by lia. done. }
  split; [|split].
  - by rewrite length_insert.
  - intros k Hk. destruct (decide (k = length p2 + 1)) as [->|Hne].
    + rewrite list_lookup_total_insert_eq by lia. rewrite Ht'.
      destruct (Ascii.eqb_spec c1 c2) as [->|Hc]; [by apply min_edits_snoc_eq|].
      apply min_edits_snoc_ne; [done| | |done].
      * specialize (Hlo (length p2) ltac:(lia)). by rewrite Ht in Hlo.
      * specialize (Hhi (length p2 + 1) ltac:(lia)). by rewrite Ht' in Hhi.
    + rewrite list_lookup_total_insert_ne by lia. apply Hlo. lia.
  - intros k Hk. rewrite list_lookup_total_insert_ne by lia. apply Hhi. lia.
Qed.

Lemma lev_inner_ok p1 c1 p2 rest corner costs :
  s2 = p2 ++ rest -> half_row p1 c1 (length p2) costs -> min_edits p1 p2 corner ->
  row_ok (p1 ++ [c1]) (lev_inner c1 rest (length p2) corner costs).
Proof.
  revert p2 corner costs. induction rest as [|c2 rest IH]; intros p2 corner costs Hs Hrow Hc;
    cbn [lev_inner].
  - destruct Hrow as (Hlen & Hlo & _). split; [done|]. intros k Hk. apply Hlo.
    rewrite Hs, app_nil_r in Hk. done.
  - assert (Hup : min_edits p1 (p2 ++ [c2]) (costs !!! (length p2 + 1))).
    { destruct Hrow as (_ & _ & Hhi). specialize (Hhi (length p2 + 1)).
      rewrite Hs, take_app_ge in Hhi by lia. replace (length p2 + 1 - length p2) with 1 in Hhi by lia.
      apply Hhi. rewrite length_app. simpl. lia. }
    rewrite min3. pose proof (half_row_step p1 c1 p2 c2 rest costs corner _ Hs Hrow Hc eq_refl) as Hstep.
    replace (length p2 + 1) with (length (p2 ++ [c2])) in * by (rewrite length_app; done).
    destruct (Ascii.eqb c1 c2); apply IH; try done; by rewrite Hs, <- app_assoc.
Qed.

Lemma lev_outer_ok p1 s1 costs :
  row_ok p1 costs -> row_ok (p1 ++ s1) (lev_outer s1 s2 (length p1) costs).
Proof.
  revert p1 costs. induction s1 as [|c1 s1 IH]; intros p1 costs [Hlen Hrow]; cbn [lev_outer].
  - by rewrite app_nil_r.
  - rewrite (app_assoc p1 [c1] s1 : p1 ++ c1 :: s1 = _).
    replace (length p1 + 1) with (length (p1 ++ [c1])) by (rewrite length_app; done).
    apply IH. apply (lev_inner_ok p1 c1 []); [done| |].
    + split; [by rewrite length_insert|]. split; intros k Hk.
      * replace k with 0 by (simpl in Hk; lia).
        rewrite list_lookup_total_insert_eq by lia. rewrite take_0.
        apply min_edits_nil_r.
      * simpl in Hk. rewrite list_lookup_total_insert_ne by lia. apply Hrow. lia.
    + pose proof (min_edits_nil_r p1). done.
Qed.
End Levenshtein.

Lemma levenshtein_min (s1 s2 : string) :
  min_edits (chars s1) (chars s2) (levenshteinDistance s1 s2).
Proof.
  unfold levenshteinDistance. rewrite <- !chars_length.
  case_decide as Hm; [|case_decide as Hn].
  - apply length_zero_iff_nil in Hm. rewrite Hm. apply min_edits_nil_l.
  - apply length_zero_iff_nil in Hn. rewrite Hn. apply min_edits_nil_r.
  - destruct (lev_outer_ok (chars s2) [] (chars s1) (seq 0 (length (chars s2) + 1)))
      as [_ Hrow].
    + split; [by rewrite length_seq; lia|]. intros k Hk.
      rewrite (list_lookup_total_correct _ _ k) by (apply lookup_seq; lia).
      rewrite <- (length_take_le (chars s2) k) at 2 by lia. apply min_edits_nil_l.
    + specialize (Hrow (length (chars s2)) ltac:(lia)). rewrite take_ge in Hrow by lia. done.
Qed.

(** ** replaceAll *)
Section ReplaceAll.
Lemma find_list_found from l i p :
  find_list from l i = Some p ->
  exists pre post, l = pre ++ from ++ post /\ p = i + length pre.
Proof.
  revert i. induction l as [|c l IH]; intros i; simpl; case_decide as Hd; intros Hf; try done.
  - injection Hf as <-. destruct Hd as [post ->]. exists [], post. simpl. auto with lia.
  - injection Hf as <-. destruct Hd as [post ->]. exists [], post. simpl. auto with lia.
  - apply IH in Hf as (pre & post & -> & ->). exists (c :: pre), post. simpl. auto with lia.
Qed.

(** Each round leaves a shorter rest to search: the loop terminates. *)
Lemma replace_loop_total fuel subject from to start :
  0 < String.length from -> String.length subject - start < fuel ->
  exists s', replace_loop fuel subject from to start = Some s'.
Proof.
  intros Hfrom. revert subject start. induction fuel as [|fuel IH]; intros subject start Hf; [lia|].
  simpl. destruct (str_find subject from start) as [p|] eqn:Hp; [|eauto].
  apply find_list_found in Hp as (pre & post & Hd & ->). apply IH.
  assert (Hl : length (drop start (chars subject)) = length pre + String.length from + length post).
  { rewrite Hd, !length_app, chars_length. lia. }
  rewrite length_drop, chars_length in Hl.
  unfold str_replace. rewrite <- chars_length, chars_unchars, !length_app, length_take, length_drop, !chars_length.
  lia.
Qed.

(** The single byte pattern, which is what the sources pass. *)
Definition subst_char (x : ascii) (to : string) (l : list ascii) : list ascii :=
  flat_map (fun c => if Ascii.eqb c x then chars to else [c]) l.

Lemma find_list_char x l i :
  ((x ∉ l) /\ find_list [x] l i = None) \/
  (exists pre post, l = pre ++ x :: post /\ (x ∉ pre) /\ find_list [x] l i = Some (i + length pre)).
Proof.
  revert i. induction l as [|c l IH]; intros i; cbn [find_list].
  - left. rewrite decide_False; [split; [apply not_elem_of_nil|done]|]. by intros [? ?].
  - destruct (decide (c = x)) as [->|Hne].
    + right. exists [], l. rewrite decide_True by (by exists l). simpl.
      repeat split; [apply not_elem_of_nil|f_equal; lia].
    + rewrite decide_False by (intros [? [=]]; done).
      destruct (IH (S i)) as [[Hx ->]|(pre & post & -> & Hx & ->)].
      * left. split; [apply not_elem_of_cons; auto|done].
      * right. exists (c :: pre), post.
        repeat split; [apply not_elem_of_cons; auto|simpl; f_equal; lia].
Qed.

Lemma subst_char_none x to l : x ∉ l -> subst_char x to l = l.
Proof.
  induction l as [|c l IH]; [done|]. intros [Hc Hl]%not_elem_of_cons. unfold subst_char in *.
  simpl. rewrite IH by done. destruct (Ascii.eqb_spec c x); [congruence|done].
Qed.

Lemma replace_loop_char x to fuel done_ rest :
  length rest < fuel ->
  replace_loop fuel (unchars (done_ ++ rest)) (String x EmptyString) to (length done_)
  = Some (unchars (done_ ++ subst_char x to rest)).
Proof.
  revert done_ rest. induction fuel as [|fuel IH]; intros done_ rest Hf; [lia|].
  cbn [replace_loop]. unfold str_find. rewrite chars_unchars, drop_app_length. simpl chars.
  destruct (find_list_char x rest (length done_)) as [[Hx ->]|(pre & post & -> & Hx & ->)].
  - by rewrite subst_char_none.
  - unfold str_replace. rewrite chars_unchars.
    assert (Heq : take (length done_ + length pre) (done_ ++ pre ++ x :: post) ++ chars to ++
              drop (length done_ + length pre + String.length (String x EmptyString))
                (done_ ++ pre ++ x :: post) = (done_ ++ pre ++ chars to) ++ post).
    { rewrite (app_assoc done_ pre), <- length_app, take_app_length. simpl.
      rewrite drop_app_ge by lia. replace (_ - _) with 1 by lia. simpl. rewrite drop_0.
      by rewrite <- !app_assoc. }
    rewrite Heq. replace (length done_ + length pre + String.length to)
      with (length (done_ ++ pre ++ chars to)) by (rewrite !length_app, chars_length; lia).
    rewrite length_app in Hf. simpl in Hf. rewrite IH by lia.
    do 2 f_equal. rewrite <- !app_assoc. f_equal.
    unfold subst_char. rewrite flat_map_app. simpl. rewrite Ascii.eqb_refl.
    fold (subst_char x to pre). by rewrite subst_char_none.
Qed.

Lemma replaceAll_char_eq x to s :
  replaceAll s (String x EmptyString) to = Some (unchars (subst_char x to (chars s))).
Proof.
  unfold replaceAll. change (is_empty (String x "")) with false. cbn iota.
  pose proof (replace_loop_char x to (S (String.length s)) [] (chars s)) as H.
  simpl app in H. rewrite unchars_chars in H. apply H. rewrite chars_length. lia.
Qed.
End ReplaceAll.

(** ** Properties *)

(** [trim] never throws.  On a string with a byte outside the set it strips
    exactly the longest prefix and suffix of bytes of the set, the result starts
    and ends outside the set, and trimming again changes nothing.  On a string
    of bytes of the set only, it returns the string unchanged. *)
Theorem trim_correct (set s : string) :
  (len s < npos)%Z ->
  (Forall (in_set set) (chars s) -> trim s set = Ret s) /\
  (~ Forall (in_set set) (chars s) ->
   exists pre t post, chars s = pre ++ chars t ++ post /\ Forall (in_set set) pre /\
     Forall (in_set set) post /\ trimmed set t /\ trim s set = Ret t /\ trim t set = Ret t).
Proof.
  intros Hlen. split; [by apply trim_all_in_set|]. intros Hn.
  destruct (trim_spec set s Hlen) as [[? _]|(pre & t & post & ? & ? & ? & ? & Ht)]; [done|].
  exists pre, t, post. repeat (split; [done|]). by eapply trim_idempotent_raw.
Qed.

Lemma trim_correct_witness :
  (len " ab " < npos)%Z /\ trim " ab " ws = Ret "ab" /\ trim "ab" ws = Ret "ab".
Proof.
  split; [done|].
  destruct (trim_correct ws " ab " ltac:(done)) as [_ H].
  destruct H as (pre & t & post & _ & _ & _ & _ & Ht & Ht').
  { intros HF. apply Forall_cons in HF as [_ HF]. apply Forall_cons in HF as [Ha _]. discriminate Ha. }
  vm_compute in Ht. injection Ht as <-. split; [vm_compute; reflexivity|exact Ht'].
Defined.

(** [levenshteinDistance] is the edit distance: some sequence of that many
    deletions, insertions and substitutions of bytes turns [s1] into [s2], and
    no shorter one does. *)
Theorem levenshteinDistance_minimal (s1 s2 : string) :
  edits (chars s1) (chars s2) (levenshteinDistance s1 s2) /\
  forall n, edits (chars s1) (chars s2) n -> levenshteinDistance s1 s2 <= n.
Proof. apply levenshtein_min. Qed.

(** [split] and [join] are inverse: joining the pieces with the separator
    gives the string back, and no piece contains the separator. *)
Theorem split_join (s : string) (c : ascii) :
  join (split s c) (String c EmptyString) = s /\
  Forall (fun e => c ∉ chars e) (split s c).
Proof.
  split.
  - unfold split. rewrite join_split_loop. simpl. apply unchars_chars.
  - apply split_loop_pieces, not_elem_of_nil.
Qed.

(** [replaceAll] terminates on all arguments, also when the replacement
    contains the pattern, and for a pattern of one byte it replaces every
    occurrence in the subject, and nothing in the replacement text. *)
Theorem replaceAll_correct (subject from to : string) :
  (exists s', replaceAll subject from to = Some s') /\
  (forall x, from = String x EmptyString ->
     replaceAll subject from to = Some (unchars (subst_char x to (chars subject)))).
Proof.
  split; [|intros x ->; apply replaceAll_char_eq].
  unfold replaceAll. case_match eqn:He; [eauto|]. apply replace_loop_total; [|lia].
  destruct from; [done|simpl; lia].
Qed.
