(* ===== verification/IniParser.v ===== *)
(** * The INI parser

    [src/common/iniparser.h] and [src/common/iniparser.cpp].  A [Level] of the
    source is a node reached through pointers: [sections] holds the child nodes
    by value in a [std::map], whose nodes never move, and [parent] points back.
    The model keeps the nodes in a store [levels] indexed by addresses. *)
From S2P Require Import Prelude StringUtils.

Definition loc := nat.

Record Level := mkLevel {
  values : gmap string string;
  sections : gmap string loc;
  ordered_values : list string;
  ordered_sections : list string;
  parent : option loc;
  depth : nat
}.

(** [Level()]. *)
Definition new_level : Level := mkLevel ∅ ∅ [] [] None 0.

(** The members of [Parser] that [parse] works on, and the nodes. *)
Record Parser := mkParser {
  levels : gmap loc Level;
  next_loc : loc;
  ln : Z
}.

Definition top_ : loc := 0.

Abbreviation P := (M Parser).

Definition err {A} (s : string) : P A := fun st =>
  throw (RuntimeError (cat [s; " on line "; to_string (ln st)])) st.

(** Reading and writing a node; an address without node is a dangling or null
    pointer, whose use is undefined behaviour: [Terminated]. *)
Definition read_level (l : loc) : P Level := fun st =>
  match levels st !! l with
  | Some lv => (Ret lv, st)
  | None => (Terminated, st)
  end.

Definition write_level (l : loc) (lv : Level) : P unit :=
  modify (fun st => mkParser (<[l := lv]> (levels st)) (next_loc st) (ln st)).

Definition next_line : P unit :=
  modify (fun st => mkParser (levels st) (next_loc st) (ln st + 1)).

(** The default node that [sections[name]] creates when there is none. *)
Definition alloc_section (l : loc) (lv : Level) (name : string) : P loc := fun st =>
  let c := next_loc st in
  let lv' := mkLevel (values lv) (<[name := c]> (sections lv)) (ordered_values lv)
               (ordered_sections lv) (parent lv) (depth lv) in
  (Ret c, mkParser (<[c := new_level]> (<[l := lv']> (levels st))) (S c) (ln st)).

(** [&l.sections[name]]: the existing child, or a new default node. *)
Definition section_ref (l : loc) (name : string) : P loc :=
  lv ← read_level l;
  match sections lv !! name with
  | Some c => mret c
  | None => alloc_section l lv name
  end.

(** [lp = lp->parent]. *)
Definition parent_of (l : loc) : P loc :=
  lv ← read_level l;
  match parent lv with
  | Some p => mret p
  | None => terminate
  end.

Fixpoint ancestor (n : nat) (l : loc) : P loc :=
  match n with
  | 0 => mret l
  | S n' => p ← parent_of l; ancestor n' p
  end.

Fixpoint count_brackets (l : list ascii) : nat :=
  match l with
  | c :: l' => if Ascii.eqb c "[" then S (count_brackets l') else 0
  | [] => 0
  end.

(** [n\t []\r], the characters trimmed from a section marker. *)
Definition section_trim : string :=
  String "010" (String "009" (String " " (String "[" (String "]" (String "013" EmptyString))))).

(** The section marker branch: the node the rest of the file goes to. *)
Definition enter_section (l : loc) (line : string) : P loc :=
  let depth' := count_brackets (chars line) in
  sectionName ← lift (trim line section_trim);
  lv ← read_level l;
  if decide (depth lv + 1 < depth') then err "section with wrong depth"
  else
    parent' ← (if decide (depth lv = depth' - 1) then mret l
               else lp ← parent_of l; ancestor (depth lv - depth') lp);
    lp ← section_ref parent' sectionName;
    lpv ← read_level lp;
    if decide (depth lpv <> 0) then err "duplicate section name on the same level"
    else
      _ ← (match parent lpv with
           | None => write_level lp (mkLevel (values lpv) (sections lpv) (ordered_values lpv)
                                       (ordered_sections lpv) (Some parent') depth')
           | Some _ => mret tt
           end);
      pv ← read_level parent';
      _ ← write_level parent' (mkLevel (values pv) (sections pv) (ordered_values pv)
                                 (ordered_sections pv ++ [sectionName]) (parent pv) (depth pv));
      mret lp.

(** The [key = value] branch: the key, which becomes [lastKey]. *)
Definition add_value (l : loc) (line : string) : P string :=
  let n := find_char line "=" in
  if decide (n = npos) then err "no '=' found"
  else
    k ← lift (substr line 0 n);
    key ← lift (trim k ws);
    v ← lift (substr line (n + 1) (len line - n - 1));
    value ← lift (trim v ws);
    lv ← read_level l;
    match values lv !! key with
    | Some _ => err "duplicated key found"
    | None =>
      _ ← write_level l (mkLevel (<[key := value]> (values lv)) (sections lv)
                           (ordered_values lv ++ [key]) (ordered_sections lv)
                           (parent lv) (depth lv));
      mret key
    end.

(** The [+] branch: [l.values[lastKey]] exists, it was inserted before. *)
Definition append_value (l : loc) (lastKey line : string) : P unit :=
  rest ← lift (substr line 1 npos);
  lv ← read_level l;
  let old := default "" (values lv !! lastKey) in
  write_level l (mkLevel (<[lastKey := old +:+ String "010" EmptyString +:+ rest]> (values lv))
                   (sections lv) (ordered_values lv) (ordered_sections lv)
                   (parent lv) (depth lv)).

Definition starts_with (c : ascii) (line : string) : bool :=
  match line with
  | EmptyString => false
  | String d _ => Ascii.eqb d c
  end.

(** [Parser::parse].  The list holds the lines that [std::getline] has not read
    yet.  The call [parse( *lp )] of the section branch returns only when the
    stream is exhausted, and then the loop that made it ends as well, so
    nothing follows it. *)
Fixpoint parse (lines : list string) (l : loc) (lastKey : string) : P unit :=
  match lines with
  | [] => mret tt
  | raw :: rest =>
    _ ← next_line;
    line ← lift (trim raw ws);
    if is_empty line then parse rest l ""
    else if starts_with "#" line || starts_with ";" line then parse rest l ""
    else if starts_with "+" line then
      if negb (is_empty lastKey) then
        _ ← append_value l lastKey line;
        parse rest l lastKey
      else err "no key to append to"
    else if starts_with "[" line then
      lp ← enter_section l line;
      parse rest lp ""
    else
      key ← add_value l line;
      parse rest l key
  end.

(** The lines [std::getline] reads from a text: a final line without line break
    counts, an empty rest after the last line break does not. *)
Definition getlines (text : string) : list string :=
  let pieces := split text "010" in
  if is_empty (List.last pieces "") then removelast pieces else pieces.

Definition initial : Parser := mkParser {[top_ := new_level]} 1 0.

(** [Parser::Parser(std::istream &)], as far as the nodes it leaves behind. *)
Definition Parser_new (text : string) : result (gmap loc Level) :=
  match parse (getlines text) top_ "" initial with
  | (Ret _, st) => Ret (levels st)
  | (Throw e, _) => Throw e
  | (Terminated, _) => Terminated
  end.

(** Following section names from a node. *)
Fixpoint lookup_path (ls : gmap loc Level) (l : loc) (path : list string) : option Level :=
  lv ← ls !! l;
  match path with
  | [] => Some lv
  | n :: path' => c ← sections lv !! n; lookup_path ls c path'
  end.

(** ** The node store

    What the pointers and the order lists promise: children know their parent,
    depths count the way from the top, and the two lists hold exactly the keys,
    each once, in the order of the file. *)
Definition keys_ok {V} (l : list string) (m : gmap string V) : Prop :=
  NoDup l /\ forall k, k ∈ l <-> is_Some (m !! k).

Record level_ok (ls : gmap loc Level) (p : loc) (lv : Level) : Prop := {
  lo_values : keys_ok (ordered_values lv) (values lv);
  lo_sections : keys_ok (ordered_sections lv) (sections lv);
  lo_children : forall name c, sections lv !! name = Some c ->
    exists cv, ls !! c = Some cv /\ parent cv = Some p /\ depth cv = S (depth lv);
  lo_parent : match parent lv with
              | None => depth lv = 0
              | Some pp => exists pv, ls !! pp = Some pv /\ depth lv = S (depth pv)
              end
}.

Definition tree_ok (st : Parser) : Prop :=
  forall p lv, levels st !! p = Some lv -> p < next_loc st /\ level_ok (levels st) p lv.

Definition node (st : Parser) (l : loc) : Prop := is_Some (levels st !! l).

(** What a call of the parser may do: return with [Q], or throw the
    [std::runtime_error] of [err]; it never dereferences a null pointer. *)
Definition returns {A} (Q : A -> Parser -> Prop) (r : result A) (st : Parser) : Prop :=
  match r with
  | Ret a => Q a st
  | Throw (RuntimeError _) => True
  | _ => False
  end.

Section Tree.
Implicit Types (st : Parser) (l : loc).

Lemma keys_ok_insert {V} (l : list string) (m : gmap string V) k v :
  keys_ok l m -> m !! k = None -> keys_ok (l ++ [k]) (<[k := v]> m).
Proof.
  intros [Hnd Hk] Hn. split.
  - apply NoDup_app. split; [done|]. split; [|apply NoDup_singleton].
    intros x Hx ->%list_elem_of_singleton. apply Hk in Hx. rewrite Hn in Hx. by destruct Hx.
  - intros x. rewrite elem_of_app, list_elem_of_singleton, Hk, lookup_insert_is_Some'. naive_solver.
Qed.

Lemma keys_ok_update {V} (l : list string) (m : gmap string V) k v :
  keys_ok l m -> is_Some (m !! k) -> keys_ok l (<[k := v]> m).
Proof.
  intros [Hnd Hk] Hs. split; [done|]. intros x. rewrite Hk, lookup_insert_is_Some'. naive_solver.
Qed.

(** Writing a node with the same links keeps the other nodes well formed. *)
Lemma level_ok_write ls l old new p lv :
  ls !! l = Some old -> parent new = parent old -> depth new = depth old ->
  level_ok ls p lv -> level_ok (<[l := new]> ls) p lv.
Proof.
  intros Hl Hp Hd [Hv Hs Hc Hpar]. split; try done.
  - intros name c Hn. destruct (Hc name c Hn) as (cv & Hcv & Hpc & Hdc).
    destruct (decide (l = c)) as [->|Hne].
    + exists new. rewrite lookup_insert_eq. split; [done|]. split; congruence.
    + exists cv. by rewrite lookup_insert_ne.
  - destruct (parent lv) as [pp|]; [|done]. destruct Hpar as (pv & Hpv & Hdp).
    destruct (decide (l = pp)) as [->|Hne].
    + exists new. rewrite lookup_insert_eq. split; [done|]. congruence.
    + exists pv. by rewrite lookup_insert_ne.
Qed.

Lemma tree_ok_write st l old new :
  tree_ok st -> levels st !! l = Some old ->
  parent new = parent old -> depth new = depth old ->
  keys_ok (ordered_values new) (values new) ->
  keys_ok (ordered_sections new) (sections new) -> sections new = sections old ->
  tree_ok (mkParser (<[l := new]> (levels st)) (next_loc st) (ln st)).
Proof.
  intros Hok Hl Hp Hd Hkv Hks Hs p lv Hlv. simpl in *.
  destruct (Hok l old Hl) as [Hlt [_ _ Hc Hpar]].
  destruct (decide (l = p)) as [->|Hne].
  - rewrite lookup_insert_eq in Hlv. injection Hlv as <-. split; [done|].
    eapply level_ok_write; try done. split; try done; rewrite ?Hs, ?Hd, ?Hp; done.
  - rewrite lookup_insert_ne in Hlv by done. destruct (Hok p lv Hlv) as [? Hlo].
    split; [done|]. by eapply level_ok_write.
Qed.

Lemma tree_ok_parent st l lv :
  tree_ok st -> levels st !! l = Some lv -> 0 < depth lv ->
  exists p pv, parent lv = Some p /\ levels st !! p = Some pv /\ depth lv = S (depth pv).
Proof.
  intros Hok Hl Hd. destruct (Hok l lv Hl) as [_ [_ _ _ Hpar]].
  destruct (parent lv) as [p|]; [|lia]. naive_solver.
Qed.

(** [n] steps up from a node that has [n] ancestors. *)
Lemma ancestor_ok n st l lv :
  tree_ok st -> levels st !! l = Some lv -> n <= depth lv ->
  exists p pv, ancestor n l st = (Ret p, st) /\ levels st !! p = Some pv /\
    depth pv = depth lv - n.
Proof.
  intros Hok. revert l lv. induction n as [|n IH]; intros l lv Hl Hn.
  - exists l, lv. repeat split; [done|lia].
  - destruct (tree_ok_parent st l lv Hok Hl) as (p & pv & Hp & Hpv & Hd); [lia|].
    destruct (IH p pv Hpv ltac:(lia)) as (q & qv & Hq & Hqv & Hdq).
    exists q, qv. split; [|split; [done|lia]].
    cbn [ancestor]. unfold parent_of, mbind, M_bind, read_level. rewrite Hl, Hp. done.
Qed.

(** Adding a fresh child below [p] and recording its name. *)
Definition with_child (pv : Level) (name : string) (c : loc) : Level :=
  mkLevel (values pv) (<[name := c]> (sections pv)) (ordered_values pv)
    (ordered_sections pv ++ [name]) (parent pv) (depth pv).

Lemma tree_ok_child st p pv name n :
  tree_ok st -> levels st !! p = Some pv -> sections pv !! name = None ->
  tree_ok (mkParser
    (<[p := with_child pv name (next_loc st)]>
      (<[next_loc st := mkLevel ∅ ∅ [] [] (Some p) (S (depth pv))]> (levels st)))
    (S (next_loc st)) n).
Proof.
  intros Hok Hp Hname. set (c := next_loc st).
  destruct (Hok p pv Hp) as [Hlt [Hv Hs Hc Hpar]].
  assert (Hfresh : forall q qv, levels st !! q = Some qv -> q <> c)
    by (intros q qv Hq ->; apply Hok in Hq as [? _]; lia).
  assert (Hpc : p <> c) by eauto.
  intros q qv Hq. simpl in *. destruct (decide (p = q)) as [->|Hpq].
  - rewrite lookup_insert_eq in Hq. injection Hq as <-. split; [lia|].
    split; simpl; [done|by apply keys_ok_insert| |].
    + intros nm d Hd. destruct (decide (name = nm)) as [->|Hne].
      * rewrite lookup_insert_eq in Hd. injection Hd as <-.
        eexists. rewrite lookup_insert_ne, lookup_insert_eq by done. done.
      * rewrite lookup_insert_ne in Hd by done. destruct (Hc nm d Hd) as (cv & Hcv & ? & ?).
        exists cv. rewrite !lookup_insert_ne; [done|naive_solver|]. intros ->.
        destruct (Hok _ _ Hcv) as [_ [_ _ _ Hx]]. rewrite H in Hx. destruct Hx as (? & Hx & ?).
        simplify_eq. lia.
    + destruct (parent pv) as [pp|]; [|done]. destruct Hpar as (ppv & Hpp & Hd).
      exists ppv. rewrite !lookup_insert_ne; [done|naive_solver|]. intros ->. simplify_eq. lia.
  - rewrite lookup_insert_ne in Hq by done. destruct (decide (c = q)) as [<-|Hcq].
    + rewrite lookup_insert_eq in Hq. injection Hq as <-. split; [lia|].
      split; simpl; try (split; [constructor|]; intros k; rewrite lookup_empty, is_Some_alt; set_solver).
      * intros ? ? Hx. by rewrite lookup_empty in Hx.
      * eexists. by rewrite lookup_insert_eq.
    + rewrite lookup_insert_ne in Hq by done. destruct (Hok q qv Hq) as [Hltq Hlo].
      split; [lia|]. destruct Hlo as [Hvq Hsq Hcq' Hparq]. split; [done|done| |].
      * intros nm d Hd. destruct (Hcq' nm d Hd) as (cv & Hcv & Hpq' & Hdq).
        destruct (decide (p = d)) as [->|Hne].
        -- eexists. rewrite lookup_insert_eq. split; [done|]. simpl. simplify_eq. done.
        -- exists cv. rewrite !lookup_insert_ne; naive_solver.
      * destruct (parent qv) as [pp|]; [|done]. destruct Hparq as (ppv & Hpp & Hd).
        destruct (decide (p = pp)) as [->|Hne].
        -- eexists. rewrite lookup_insert_eq. split; [done|]. simpl. simplify_eq. done.
        -- exists ppv. rewrite !lookup_insert_ne; naive_solver.
Qed.
End Tree.

(** ** The operations keep the store well formed *)
Section Operations.
Implicit Types (st : Parser) (l : loc).

Lemma wp_read_level l st lv (Q : result Level -> Parser -> Prop) :
  levels st !! l = Some lv -> Q (Ret lv) st -> wp (read_level l) Q st.
Proof. intros Hl HQ. unfold wp, read_level. by rewrite Hl. Qed.

Lemma wp_err {A} msg st (Q : A -> Parser -> Prop) : wp (err msg) (returns Q) st.
Proof. done. Qed.

Lemma wp_ancestor n l lv st (Q : result loc -> Parser -> Prop) :
  tree_ok st -> levels st !! l = Some lv -> n <= depth lv ->
  (forall p pv, levels st !! p = Some pv -> depth pv = depth lv - n -> Q (Ret p) st) ->
  wp (ancestor n l) Q st.
Proof.
  intros Hok Hl Hn HQ. destruct (ancestor_ok n st l lv Hok Hl Hn) as (p & pv & Ha & Hp & Hd).
  unfold wp. rewrite Ha. eauto.
Qed.

(** The parent of the section that a marker of depth [d] opens. *)
Lemma wp_section_parent l lv d st (Q : result loc -> Parser -> Prop) :
  tree_ok st -> levels st !! l = Some lv -> 1 <= d <= depth lv + 1 ->
  (forall p pv, levels st !! p = Some pv -> S (depth pv) = d -> Q (Ret p) st) ->
  wp (if decide (depth lv = d - 1) then mret l
      else lp ← parent_of l; ancestor (depth lv - d) lp) Q st.
Proof.
  intros Hok Hl Hd HQ. case_decide as Hdec; [apply wp_ret; eapply HQ; eauto; lia|].
  destruct (tree_ok_parent st l lv Hok Hl) as (p & pv & Hp & Hpv & Hdp); [lia|].
  wp_steps. unfold parent_of. wp_steps. eapply wp_read_level; [done|]. wp_steps.
  rewrite Hp. wp_steps. eapply wp_ancestor; [done|done|lia|].
  intros q qv Hq Hdq. apply (HQ q qv Hq). lia.
Qed.

Definition grows st st' : Prop := forall l, node st l -> node st' l.

Lemma wp_enter_section l line st :
  tree_ok st -> node st l -> (len line < npos)%Z -> starts_with "[" line = true ->
  wp (enter_section l line)
    (returns (fun lp st' => tree_ok st' /\ node st' lp)) st.
Proof.
  intros Hok [lv Hl] Hlen Hst.
  assert (Hb : 1 <= count_brackets (chars line))
    by (destruct line as [|c line]; [done|]; simpl in *; rewrite Hst; lia).
  unfold enter_section. destruct (trim_total section_trim line) as [name ->].
  wp_steps. eapply wp_read_level; [done|]. wp_steps.
  case_decide as Hdeep; [apply wp_err|].
  wp_steps. eapply wp_section_parent; [done|done|lia|]. intros p pv Hp Hd.
  wp_steps. unfold section_ref. wp_steps. eapply wp_read_level; [done|]. wp_steps.
  destruct (sections pv !! name) as [c|] eqn:Hname.
  - wp_steps. destruct (Hok p pv Hp) as [_ [_ _ Hch _]].
    destruct (Hch name c Hname) as (cv & Hcv & _ & Hdc).
    eapply wp_read_level; [done|]. wp_steps. rewrite decide_True by lia. apply wp_err.
  - destruct (Hok p pv Hp) as [Hlt _].
    unfold alloc_section, wp at 1. wp_steps. cbn [levels].
    eapply wp_read_level; [cbn [levels]; by rewrite lookup_insert_eq|]. wp_steps.
    rewrite decide_False by (simpl; lia). wp_steps. cbn [parent new_level].
    unfold write_level. wp_steps. cbn [levels next_loc ln].
    eapply wp_read_level; [cbn [levels]; rewrite !lookup_insert_ne by lia; by rewrite lookup_insert_eq|].
    wp_steps. cbn [levels next_loc ln]. split.
    + rewrite insert_insert_eq, (insert_insert_ne _ (next_loc st) p) by lia.
      rewrite insert_insert_eq, <- Hd.
      exact (tree_ok_child st p pv name (ln st) Hok Hp Hname).
    + unfold node. simpl. rewrite lookup_insert_ne, lookup_insert_eq by lia. done.
Qed.

Lemma find_char_range line c :
  (len line < npos)%Z -> find_char line c <> npos -> (0 <= find_char line c < len line)%Z.
Proof.
  unfold find_char. intros Hlen Hn.
  destruct (split_first (fun d => Ascii.eqb c d = false) (chars line))
    as [Hall|(pre & d & post & Hs & Hpre & Hd)].
  - by rewrite find_from_none in Hn.
  - rewrite len_chars, Hs, find_from_at; [|done|by destruct (Ascii.eqb c d)].
    rewrite length_app. simpl. lia.
Qed.

Lemma substr_shorter s pos n t : substr s pos n = Ret t -> (len t <= len s)%Z.
Proof.
  unfold substr. case_decide; [done|]. intros [= <-].
  rewrite !len_chars, chars_substring, length_take, length_drop. lia.
Qed.

Definition key_known st l (k : string) : Prop :=
  is_empty k = false -> exists lv, levels st !! l = Some lv /\ is_Some (values lv !! k).

Lemma wp_add_value l line st :
  tree_ok st -> node st l -> (len line < npos)%Z ->
  wp (add_value l line)
    (returns (fun key st' => tree_ok st' /\ node st' l /\ key_known st' l key)) st.
Proof.
  intros Hok [lv Hl] Hlen. unfold add_value.
  case_decide as Hn; [apply wp_err|].
  pose proof (find_char_range line "=" Hlen Hn) as Hr.
  wp_steps. destruct (substr line 0 _) as [k| |] eqn:Hk;
    [|by rewrite substr_ok in Hk by lia|by rewrite substr_ok in Hk by lia].
  wp_steps. destruct (trim_total ws k) as [key ->].
  wp_steps. destruct (substr line (_ + 1) _) as [v| |] eqn:Hv;
    [|by rewrite substr_ok in Hv by lia|by rewrite substr_ok in Hv by lia].
  wp_steps. destruct (trim_total ws v) as [value ->].
  wp_steps. eapply wp_read_level; [done|]. wp_steps.
  destruct (values lv !! key) as [old|] eqn:Hkey; [apply wp_err|].
  destruct (Hok l lv Hl) as [_ [Hkv Hks _ _]].
  unfold write_level. wp_steps. split; [|split].
  - eapply tree_ok_write; try done. by apply keys_ok_insert.
  - unfold node. simpl. by rewrite lookup_insert_eq.
  - intros _. eexists. simpl. rewrite lookup_insert_eq. split; [done|]. simpl.
    by rewrite lookup_insert_eq.
Qed.

Lemma wp_append_value l lastKey line st :
  tree_ok st -> key_known st l lastKey -> is_empty lastKey = false ->
  starts_with "+" line = true ->
  wp (append_value l lastKey line)
    (returns (fun _ st' => tree_ok st' /\ node st' l /\ key_known st' l lastKey)) st.
Proof.
  intros Hok Hkn Hne Hplus. destruct (Hkn Hne) as (lv & Hl & Hkey). unfold append_value.
  rewrite substr_ok by (destruct line; [done|]; unfold len; simpl; lia).
  wp_steps. eapply wp_read_level; [done|]. wp_steps.
  destruct (Hok l lv Hl) as [_ [Hkv Hks _ _]].
  unfold write_level. wp_steps. split; [|split].
  - eapply tree_ok_write; try done. by apply keys_ok_update.
  - unfold node. simpl. by rewrite lookup_insert_eq.
  - intros _. eexists. simpl. rewrite lookup_insert_eq. split; [done|]. simpl.
    by rewrite lookup_insert_eq.
Qed.

Lemma key_known_empty st l : key_known st l "".
Proof. done. Qed.

Lemma tree_ok_ln st : tree_ok st -> tree_ok (mkParser (levels st) (next_loc st) (ln st + 1)).
Proof. done. Qed.

Lemma wp_parse lines l lastKey st :
  Forall (fun s => (len s < npos)%Z) lines ->
  tree_ok st -> node st l -> key_known st l lastKey ->
  wp (parse lines l lastKey) (returns (fun _ st' => tree_ok st')) st.
Proof.
  intros Hlines. revert l lastKey st.
  induction Hlines as [|raw rest Hraw Hlines IH]; intros l lastKey st Hok Hl Hk; [done|].
  cbn [parse]. unfold next_line. wp_steps.
  apply tree_ok_ln in Hok. destruct (trim_total ws raw) as [line Ht].
  pose proof (trim_shorter ws raw line Hraw Ht). rewrite Ht. wp_steps.
  case_match; [by apply IH|]. case_match; [by apply IH|].
  case_match eqn:Hplus.
  { case_match eqn:Hlast; [|apply wp_err]. apply negb_true_iff in Hlast.
    wp_steps. eapply wp_mono; [by apply wp_append_value|].
    intros [[]|[]|] s'; try done. intros (? & ? & ?). by apply IH. }
  case_match eqn:Hsec.
  - wp_steps. eapply wp_mono; [apply wp_enter_section; try done; lia|].
    intros [lp|[]|] s'; try done. intros (? & ?). by apply IH.
  - wp_steps. eapply wp_mono; [apply wp_add_value; try done; lia|].
    intros [key|[]|] s'; try done. intros (? & ? & ?). by apply IH.
Qed.

Lemma tree_ok_initial : tree_ok initial.
Proof.
  intros p lv Hp. unfold initial, top_ in *. simpl in *.
  apply lookup_singleton_Some in Hp as [<- <-]. split; [lia|].
  split; simpl; try (split; [constructor|]; intros k; rewrite lookup_empty, is_Some_alt; set_solver); try done.
Qed.

Lemma split_loop_shorter rest c seg :
  Forall (fun s => length (chars s) <= length seg + length rest) (split_loop rest c seg []).
Proof.
  revert seg. induction rest as [|d rest IH]; intros seg; simpl.
  - constructor; [rewrite chars_unchars; lia|constructor].
  - case_match.
    + rewrite split_loop_app. simpl. constructor; [rewrite chars_unchars; lia|].
      eapply Forall_impl; [apply IH|]. simpl. intros; lia.
    + eapply Forall_impl; [apply IH|]. simpl. intros s. rewrite length_app. simpl. lia.
Qed.

Lemma getlines_shorter text :
  (len text < npos)%Z -> Forall (fun s => (len s < npos)%Z) (getlines text).
Proof.
  intros Hlen. rewrite len_chars in Hlen.
  assert (Hall : Forall (fun s => (len s < npos)%Z) (split text "010")).
  { eapply Forall_impl; [apply split_loop_shorter|]. simpl. intros s. rewrite len_chars. lia. }
  unfold getlines. case_match; [|done].
  rewrite Forall_forall in Hall |- *. intros x Hx. apply Hall.
  clear -Hx. induction (split text "010") as [|a [|b l'] IH]; [done|by apply not_elem_of_nil in Hx|].
  apply elem_of_cons in Hx as [->|Hx]; [left|right; auto].
Qed.
End Operations.

Lemma Parser_new_ok (text : string) :
  (len text < npos)%Z ->
  match Parser_new text with
  | Ret ls => forall p lv, ls !! p = Some lv -> level_ok ls p lv
  | Throw e => exists msg, e = RuntimeError msg
  | Terminated => False
  end.
Proof.
  intros Hlen.
  pose proof (wp_parse (getlines text) top_ "" initial (getlines_shorter text Hlen)
    tree_ok_initial ltac:(eexists; reflexivity) (key_known_empty _ _)) as Hwp.
  unfold Parser_new, wp in *. destruct (parse _ _ _ _) as [[[]|e|] st]; simpl in *; [| |done].
  - intros p lv Hp. by destruct (Hwp p lv Hp).
  - destruct e; naive_solver.
Qed.

(** ** Properties *)

(** For every text the parser either returns a well formed tree of levels,
    whose order lists name every key of a level exactly once, or throws the
    [std::runtime_error] of [err]; it never follows a null parent pointer and
    raises no other exception. *)
Theorem Parser_new_safe (text : string) :
  (len text < npos)%Z ->
  match Parser_new text with
  | Ret ls => forall p lv, ls !! p = Some lv -> level_ok ls p lv
  | Throw e => exists msg, e = RuntimeError msg
  | Terminated => False
  end.
Proof. apply Parser_new_ok. Qed.

Lemma Parser_new_safe_witness :
  (len (cat ["[a]"; nl; "k=v"]) < npos)%Z /\
  exists ls, Parser_new (cat ["[a]"; nl; "k=v"]) = Ret ls /\
    forall p lv, ls !! p = Some lv -> level_ok ls p lv.
Proof.
  assert (H : (len (cat ["[a]"; nl; "k=v"]) < npos)%Z) by done. split; [exact H|].
  pose proof (Parser_new_safe (cat ["[a]"; nl; "k=v"]) H) as Hs.
  destruct (Parser_new _) as [ls| |] eqn:Hp; [by exists ls|vm_compute in Hp; discriminate Hp|done].
Defined.

(** A line of white space only is not skipped as a line without content:
    [trim] leaves such a line as it is, so the parse fails on it. *)
Theorem blank_line_rejected (raw : string) (rest : list string) (l : loc) (lastKey : string)
    (st : Parser) :
  (len raw < npos)%Z -> is_empty raw = false -> Forall (in_set ws) (chars raw) ->
  exists st', parse (raw :: rest) l lastKey st =
    (Throw (RuntimeError (cat ["no '=' found"; " on line "; to_string (ln st + 1)])), st').
Proof.
  intros Hlen Hne Hws. cbn [parse]. unfold next_line, modify.
  erewrite bind_step by reflexivity. rewrite (trim_all_in_set ws raw Hlen Hws).
  erewrite bind_step by reflexivity. rewrite Hne.
  destruct raw as [|c raw]; [done|]. pose proof Hws as Hall. simpl in Hws.
  apply Forall_cons in Hws as [Hc _].
  assert (Hstart : forall d, char_in ws d = false -> starts_with d (String c raw) = false).
  { intros d Hd. simpl. destruct (Ascii.eqb_spec c d) as [->|]; [|done]. red in Hc. congruence. }
  rewrite !Hstart by done. cbn [orb].
  eexists. erewrite bind_throw; [reflexivity|].
  unfold add_value, find_char. rewrite find_from_none; [by rewrite decide_True|].
  eapply Forall_impl; [exact Hall|]. intros d Hd. destruct (Ascii.eqb_spec "=" d) as [<-|]; [|done].
  discriminate Hd.
Qed.

Lemma blank_line_rejected_witness :
  exists st', parse [" "; "k=v"] top_ "" initial =
    (Throw (RuntimeError (cat ["no '=' found"; " on line "; to_string 1])), st').
Proof.
  apply (blank_line_rejected " " ["k=v"] top_ "" initial);
    [done|reflexivity|repeat constructor].
Defined.

Definition ini_example : string :=
  cat ["# comment"; nl; nl; "[MAIN]"; nl; "num = 4"; nl; "dsn = a=b"; nl; "[LAYERS]"; nl;
       "[[africa]]"; nl; "description = x"; nl; "+ y"; nl; "[[asia]]"; nl; "[HTTP]"; nl; "port=1"].
Example ini1 : exists ls, Parser_new ini_example = Ret ls /\
   (values <$> lookup_path ls top_ ["LAYERS"; "africa"]) =
     Some {[ "description" := cat ["x"; nl; " y"] ]} /\
   (ordered_sections <$> lookup_path ls top_ []) = Some ["MAIN"; "LAYERS"; "HTTP"].
Proof. eexists. split; [vm_compute; reflexivity|]. split; vm_compute; reflexivity. Qed.
Example ini2 : Parser_new (cat ["[A]"; nl; "  "; nl; "b=1"]) = Throw (RuntimeError "no '=' found on line 2").
Proof. vm_compute. reflexivity. Qed.
Example ini3 : Parser_new (cat ["[[A]]"; nl; "  "; nl; "b=1"]) = Throw (RuntimeError "section with wrong depth on line 1").
Proof. vm_compute. reflexivity. Qed.
