(* ===== verification/Configuration.v ===== *)
(** * The configuration

    [src/server/configuration.h] and [src/server/configuration.cpp]: the
    settings, the layers, and the reading of both from the parsed INI file. *)
From S2P Require Import Prelude StringUtils IniParser.

Inductive BulkDeleteMethod := BULK_DELETE | BULK_TRUNCATE.

Record Layer := mkLayer {
  name : string;
  source : string;
  source_layer : string;
  description : string;
  target_table_name : string;
  target_table_schema : string;
  filter : string;
  allow_feature_deletion : bool;
  ignore_failures : bool;
  primary_key_columns : list string;
  enabled : bool;
  bulk_mode : bool;
  bulk_delete_method : BulkDeleteMethod
}.

(** [Layer::Layer()]. *)
Definition Layer_new : Layer :=
  mkLayer "" "" "" "" "" "" "" false false [] true false BULK_DELETE.

(** [Poco::Message::Priority], as far as the setting can name it. *)
Inductive Priority := PRIO_ERROR | PRIO_WARNING | PRIO_INFORMATION | PRIO_DEBUG.

Record Configuration := mkConfiguration {
  layers : gmap string Layer;
  http_port : Z;
  num_worker_threads : Z;
  max_age_done_jobs : Z;
  db_connection_string : string;
  loglevel : Priority;
  logfile : string;
  use_persistent_connections : bool;
  access_control_allow_origin : string
}.

(** The initial values of the constructor. *)
Definition Configuration_default : Configuration :=
  mkConfiguration ∅ 9090 2 600 "" PRIO_INFORMATION "" true "".

(** ** Accessors *)
Definition getLayer (cfg : Configuration) (_layer : string) : result Layer :=
  match layers cfg !! _layer with
  | Some layer => Ret layer
  | None => Throw (ConfigurationError (cat ["Layer "; _layer; " not found"]))
  end.

Definition getLayerCount (cfg : Configuration) : Z := to_uint (Z.of_nat (size (layers cfg))).

(** The [std::sort] with [l2->name > l1->name]. *)
Definition name_le (l1 l2 : Layer) : Prop := String.leb (name l1) (name l2) = true.
#[export] Instance name_le_dec : RelDecision name_le := fun x y => decide (_ = _).
#[export] Instance name_le_total : Total name_le.
Proof. intros x y. apply String.leb_total. Qed.

Definition getOrderedLayers (cfg : Configuration) : list Layer :=
  merge_sort name_le (map_to_list (layers cfg)).*2.

(** ** Reading values *)

(** [trimChars]: quotes, line breaks, tab and space. *)
Definition trimChars : string :=
  String "'" (String "034" (String "013" (String "010" (String "009" (String " " EmptyString))))).

Definition quoted (s : string) : string := cat [dquote; s; dquote].

Definition throwUnknownSetting {A} (sectionName settingName : string) : result A :=
  Throw (ConfigurationError
    (cat ["Unknown option "; quoted settingName; " in section "; quoted sectionName])).

Definition throwInvalidValue {A} (sectionName settingName value : string) : result A :=
  Throw (ConfigurationError
    (cat ["Invalid value for "; quoted settingName; " in section "; quoted sectionName;
          ": "; quoted value])).

(** The value and the output parameter [ok]. *)
Definition valueToInt (s : string) : Z * bool :=
  match t ← trim s trimChars; stoi t with
  | Ret i => (i, true)
  | _ => (0%Z, false)
  end.

Definition valueToBool (s : string) : result (bool * bool) :=
  t ← trim s trimChars;
  let sTrimmed := tolower t in
  Ret (if bool_decide (sTrimmed ∈ ["true"; "yes"; "1"; "y"; "t"]) then (true, true)
       else if bool_decide (sTrimmed ∈ ["false"; "no"; "0"; "n"; "f"]) then (false, true)
       else (false, false)).

(** The macro [GET_BOOLEAN_SETTING]: the value, or the exception. *)
Definition get_boolean_setting (setting_name str_value : string) : result bool :=
  '(b, ok) ← valueToBool str_value;
  if negb ok
  then Throw (ConfigurationError
         (setting_name +:+ " must be a boolean value (true,false,yes,no,1,0)."))
  else Ret b.

(** An [int] setting, with the exception for a value that is no number. *)
Definition get_int_setting (sectionName settingName value : string) : result Z :=
  let '(i, ok) := valueToInt value in
  if negb ok then throwInvalidValue sectionName settingName value else Ret i.

(** ** The sections *)
Section Parse.
(** The macro [_DEBUG] of the build. *)
Context (debug_build : bool).

(** Setters of the members. *)
Definition set_layers (v : gmap string Layer) (c : Configuration) : Configuration :=
  mkConfiguration v (http_port c) (num_worker_threads c) (max_age_done_jobs c)
    (db_connection_string c) (loglevel c) (logfile c) (use_persistent_connections c)
    (access_control_allow_origin c).
Definition set_http_port (v : Z) (c : Configuration) : Configuration :=
  mkConfiguration (layers c) v (num_worker_threads c) (max_age_done_jobs c)
    (db_connection_string c) (loglevel c) (logfile c) (use_persistent_connections c)
    (access_control_allow_origin c).
Definition set_num_worker_threads (v : Z) (c : Configuration) : Configuration :=
  mkConfiguration (layers c) (http_port c) v (max_age_done_jobs c)
    (db_connection_string c) (loglevel c) (logfile c) (use_persistent_connections c)
    (access_control_allow_origin c).
Definition set_max_age_done_jobs (v : Z) (c : Configuration) : Configuration :=
  mkConfiguration (layers c) (http_port c) (num_worker_threads c) v
    (db_connection_string c) (loglevel c) (logfile c) (use_persistent_connections c)
    (access_control_allow_origin c).
Definition set_db_connection_string (v : string) (c : Configuration) : Configuration :=
  mkConfiguration (layers c) (http_port c) (num_worker_threads c) (max_age_done_jobs c)
    v (loglevel c) (logfile c) (use_persistent_connections c)
    (access_control_allow_origin c).
Definition set_loglevel (v : Priority) (c : Configuration) : Configuration :=
  mkConfiguration (layers c) (http_port c) (num_worker_threads c) (max_age_done_jobs c)
    (db_connection_string c) v (logfile c) (use_persistent_connections c)
    (access_control_allow_origin c).
Definition set_logfile (v : string) (c : Configuration) : Configuration :=
  mkConfiguration (layers c) (http_port c) (num_worker_threads c) (max_age_done_jobs c)
    (db_connection_string c) (loglevel c) v (use_persistent_connections c)
    (access_control_allow_origin c).
Definition set_use_persistent_connections (v : bool) (c : Configuration) : Configuration :=
  mkConfiguration (layers c) (http_port c) (num_worker_threads c) (max_age_done_jobs c)
    (db_connection_string c) (loglevel c) (logfile c) v
    (access_control_allow_origin c).
Definition set_access_control_allow_origin (v : string) (c : Configuration) : Configuration :=
  mkConfiguration (layers c) (http_port c) (num_worker_threads c) (max_age_done_jobs c)
    (db_connection_string c) (loglevel c) (logfile c) (use_persistent_connections c) v.

(** The [int] goes into an [unsigned int]. *)
Definition http_setting (cfg : Configuration) (valuePair : string * string)
  : result Configuration :=
  let '(k, v) := valuePair in
  if String.eqb k "port" then
    i ← get_int_setting "HTTP" k v; Ret (set_http_port (to_uint i) cfg)
  else if String.eqb k "access_control_allow_origin" then
    t ← trim v trimChars; Ret (set_access_control_allow_origin t cfg)
  else throwUnknownSetting "HTTP" k.

Definition main_setting (cfg : Configuration) (valuePair : string * string)
  : result Configuration :=
  let '(k, v) := valuePair in
  if String.eqb k "num_worker_threads" then
    i ← get_int_setting "MAIN" k v;
    if decide (i < 1)%Z then Throw (ConfigurationError "At least one worker thread is required.")
    else Ret (set_num_worker_threads (to_uint i) cfg)
  else if String.eqb k "max_age_done_jobs" then
    i ← get_int_setting "MAIN" k v;
    if decide (i < 1)%Z
    then Throw (ConfigurationError "max_age_done_jobs must be a positive value.")
    else Ret (set_max_age_done_jobs (to_uint i) cfg)
  else if String.eqb k "dsn" then
    t ← trim v trimChars; Ret (set_db_connection_string t cfg)
  else if String.eqb k "use_persistent_connections" then
    b ← get_boolean_setting k v; Ret (set_use_persistent_connections b cfg)
  else throwUnknownSetting "MAIN" k.

Definition logging_setting (cfg : Configuration) (valuePair : string * string)
  : result Configuration :=
  let '(k, v) := valuePair in
  if String.eqb k "loglevel" then
    t ← trim v trimChars;
    let loglevelStr := tolower t in
    if String.eqb loglevelStr "error" then Ret (set_loglevel PRIO_ERROR cfg)
    else if String.eqb loglevelStr "warning" then Ret (set_loglevel PRIO_WARNING cfg)
    else if String.eqb loglevelStr "information" then Ret (set_loglevel PRIO_INFORMATION cfg)
    else if String.eqb loglevelStr "debug" then
      Ret (set_loglevel (if debug_build then PRIO_DEBUG else PRIO_INFORMATION) cfg)
    else Throw (ConfigurationError ("Unknown loglevel: " +:+ quoted v))
  else if String.eqb k "logfile" then
    t ← trim v trimChars; Ret (set_logfile t cfg)
  else throwUnknownSetting "LOGGING" k.

(** Setters of [Layer]. *)
Definition set_name (v : string) (l : Layer) : Layer :=
  mkLayer v (source l) (source_layer l) (description l) (target_table_name l)
    (target_table_schema l) (filter l) (allow_feature_deletion l) (ignore_failures l)
    (primary_key_columns l) (enabled l) (bulk_mode l) (bulk_delete_method l).
Definition set_source (v : string) (l : Layer) : Layer :=
  mkLayer (name l) v (source_layer l) (description l) (target_table_name l)
    (target_table_schema l) (filter l) (allow_feature_deletion l) (ignore_failures l)
    (primary_key_columns l) (enabled l) (bulk_mode l) (bulk_delete_method l).
Definition set_source_layer (v : string) (l : Layer) : Layer :=
  mkLayer (name l) (source l) v (description l) (target_table_name l)
    (target_table_schema l) (filter l) (allow_feature_deletion l) (ignore_failures l)
    (primary_key_columns l) (enabled l) (bulk_mode l) (bulk_delete_method l).
Definition set_description (v : string) (l : Layer) : Layer :=
  mkLayer (name l) (source l) (source_layer l) v (target_table_name l)
    (target_table_schema l) (filter l) (allow_feature_deletion l) (ignore_failures l)
    (primary_key_columns l) (enabled l) (bulk_mode l) (bulk_delete_method l).
Definition set_target_table_name (v : string) (l : Layer) : Layer :=
  mkLayer (name l) (source l) (source_layer l) (description l) v
    (target_table_schema l) (filter l) (allow_feature_deletion l) (ignore_failures l)
    (primary_key_columns l) (enabled l) (bulk_mode l) (bulk_delete_method l).
Definition set_target_table_schema (v : string) (l : Layer) : Layer :=
  mkLayer (name l) (source l) (source_layer l) (description l) (target_table_name l)
    v (filter l) (allow_feature_deletion l) (ignore_failures l)
    (primary_key_columns l) (enabled l) (bulk_mode l) (bulk_delete_method l).
Definition set_filter (v : string) (l : Layer) : Layer :=
  mkLayer (name l) (source l) (source_layer l) (description l) (target_table_name l)
    (target_table_schema l) v (allow_feature_deletion l) (ignore_failures l)
    (primary_key_columns l) (enabled l) (bulk_mode l) (bulk_delete_method l).
Definition set_allow_feature_deletion (v : bool) (l : Layer) : Layer :=
  mkLayer (name l) (source l) (source_layer l) (description l) (target_table_name l)
    (target_table_schema l) (filter l) v (ignore_failures l)
    (primary_key_columns l) (enabled l) (bulk_mode l) (bulk_delete_method l).
Definition set_ignore_failures (v : bool) (l : Layer) : Layer :=
  mkLayer (name l) (source l) (source_layer l) (description l) (target_table_name l)
    (target_table_schema l) (filter l) (allow_feature_deletion l) v
    (primary_key_columns l) (enabled l) (bulk_mode l) (bulk_delete_method l).
Definition set_primary_key_columns (v : list string) (l : Layer) : Layer :=
  mkLayer (name l) (source l) (source_layer l) (description l) (target_table_name l)
    (target_table_schema l) (filter l) (allow_feature_deletion l) (ignore_failures l)
    v (enabled l) (bulk_mode l) (bulk_delete_method l).
Definition set_enabled (v : bool) (l : Layer) : Layer :=
  mkLayer (name l) (source l) (source_layer l) (description l) (target_table_name l)
    (target_table_schema l) (filter l) (allow_feature_deletion l) (ignore_failures l)
    (primary_key_columns l) v (bulk_mode l) (bulk_delete_method l).
Definition set_bulk_mode (v : bool) (l : Layer) : Layer :=
  mkLayer (name l) (source l) (source_layer l) (description l) (target_table_name l)
    (target_table_schema l) (filter l) (allow_feature_deletion l) (ignore_failures l)
    (primary_key_columns l) (enabled l) v (bulk_delete_method l).
Definition set_bulk_delete_method (v : BulkDeleteMethod) (l : Layer) : Layer :=
  mkLayer (name l) (source l) (source_layer l) (description l) (target_table_name l)
    (target_table_schema l) (filter l) (allow_feature_deletion l) (ignore_failures l)
    (primary_key_columns l) (enabled l) (bulk_mode l) v.

(** The trimmed, non empty pieces of the comma separated list. *)
Definition parse_primary_key_columns (l : Layer) (v : string) : result Layer :=
  fold_result (fun l pk_column_untrimmed =>
    trimmed ← trim pk_column_untrimmed trimChars;
    Ret (if is_empty trimmed then l
         else set_primary_key_columns (primary_key_columns l ++ [trimmed]) l))
    (split v ",") l.

Definition parse_bulk_delete_method (l : Layer) (v : string) : result Layer :=
  t ← trim v trimChars;
  let bulkMethodStr := tolower t in
  if String.eqb bulkMethodStr "delete" then Ret (set_bulk_delete_method BULK_DELETE l)
  else if String.eqb bulkMethodStr "truncate" then Ret (set_bulk_delete_method BULK_TRUNCATE l)
  else Throw (ConfigurationError ("Unknown bulk delete method: " +:+ quoted v)).

Definition layer_setting (l : Layer) (layerValuePair : string * string) : result Layer :=
  let '(k, v) := layerValuePair in
  if String.eqb k "description" then Ret (set_description v l)
  else if String.eqb k "source" then Ret (set_source v l)
  else if String.eqb k "source_layer" then Ret (set_source_layer v l)
  else if String.eqb k "target_table_schema" then Ret (set_target_table_schema v l)
  else if String.eqb k "target_table_name" then Ret (set_target_table_name v l)
  else if String.eqb k "filter" then Ret (set_filter v l)
  else if String.eqb k "allow_feature_deletion" then
    b ← get_boolean_setting k v; Ret (set_allow_feature_deletion b l)
  else if String.eqb k "ignore_failures" then
    b ← get_boolean_setting k v; Ret (set_ignore_failures b l)
  else if String.eqb k "enabled" then
    b ← get_boolean_setting k v; Ret (set_enabled b l)
  else if String.eqb k "primary_key_columns" then parse_primary_key_columns l v
  else if String.eqb k "bulk_mode" then
    b ← get_boolean_setting k v; Ret (set_bulk_mode b l)
  else if String.eqb k "bulk_delete_method" then parse_bulk_delete_method l v
  else throwUnknownSetting (name l) k.

(** The macro [CHECK_LAYER_STR_SETTING]. *)
Definition check_layer_str_setting (l : Layer) (setting value : string) : result unit :=
  if is_empty value
  then Throw (ConfigurationError
         (cat ["Layer "; quoted (name l); " is missing the "; quoted setting; " setting"]))
  else Ret tt.

Definition check_layer (l : Layer) : result unit :=
  _ ← check_layer_str_setting l "source" (source l);
  _ ← check_layer_str_setting l "source_layer" (source_layer l);
  _ ← check_layer_str_setting l "target_table_name" (target_table_name l);
  check_layer_str_setting l "target_table_schema" (target_table_schema l).

(** The nodes of the parsed file. *)
Context (ls : gmap loc Level).

(** The node a section name leads to; [level_ok] says it is there. *)
Definition level_at (c : loc) : Level := default new_level (ls !! c).

Definition layer_section (cfg : Configuration) (layerSectionPair : string * loc)
  : result Configuration :=
  let '(nm, c) := layerSectionPair in
  layer ← fold_result layer_setting (ordered (values (level_at c))) (set_name nm Layer_new);
  _ ← check_layer layer;
  Ret (if enabled layer then set_layers (<[name layer := layer]> (layers cfg)) cfg else cfg).

Definition config_section (cfg : Configuration) (sectionPair : string * loc)
  : result Configuration :=
  let '(nm, c) := sectionPair in
  let lv := level_at c in
  if String.eqb nm "HTTP" then fold_result http_setting (ordered (values lv)) cfg
  else if String.eqb nm "MAIN" then fold_result main_setting (ordered (values lv)) cfg
  else if String.eqb nm "LAYERS" then fold_result layer_section (ordered (sections lv)) cfg
  else if String.eqb nm "LOGGING" then fold_result logging_setting (ordered (values lv)) cfg
  else Throw (ConfigurationError ("Unknown section: " +:+ quoted nm)).

Definition parse_sections (cfg : Configuration) : result Configuration :=
  cfg ← fold_result config_section (ordered (sections (level_at top_))) cfg;
  if is_empty (db_connection_string cfg)
  then Throw (ConfigurationError "Missing dsn configuration to connect to postgresql")
  else Ret cfg.
End Parse.

(** The two [catch] clauses around the body of [Configuration::parse]. *)
Definition as_configuration_error {A} (r : result A) : result A :=
  match r with
  | Throw e =>
    if is_runtime_error e then Throw (ConfigurationError (what e))
    else Throw (ConfigurationError "Could not parse configuraton file")
  | r => r
  end.

(** [Configuration::Configuration(configFile)], where [None] is a file that
    cannot be opened and [Some text] its content. *)
Definition Configuration_new (debug_build : bool) (configFile : string) (file : option string)
  : result Configuration :=
  match file with
  | None => Throw (ConfigurationError ("Could not open configfile at " +:+ configFile))
  | Some text =>
    as_configuration_error (ls ← Parser_new text; parse_sections debug_build ls Configuration_default)
  end.

(** ** What a configuration that was read promises *)
Record layer_ok (k : string) (l : Layer) : Prop := {
  lk_name : name l = k;
  lk_enabled : enabled l = true;
  lk_source : is_empty (source l) = false;
  lk_source_layer : is_empty (source_layer l) = false;
  lk_table : is_empty (target_table_name l) = false;
  lk_schema : is_empty (target_table_schema l) = false
}.

Record settings_ok (cfg : Configuration) : Prop := {
  so_port : (0 <= http_port cfg < 2 ^ 32)%Z;
  so_workers : (1 <= num_worker_threads cfg <= int_max)%Z;
  so_age : (1 <= max_age_done_jobs cfg <= int_max)%Z;
  so_layers : map_Forall layer_ok (layers cfg)
}.

Section Reading.
Context (debug_build : bool) (ls : gmap loc Level).

Lemma to_uint_range z : (0 <= to_uint z < 2 ^ 32)%Z.
Proof. apply Z.mod_pos_bound. lia. Qed.

Lemma to_uint_id z : (0 <= z < 2 ^ 32)%Z -> to_uint z = z.
Proof. apply Z.mod_small. Qed.

Lemma get_int_setting_range sec k v i :
  get_int_setting sec k v = Ret i -> (int_min <= i <= int_max)%Z.
Proof.
  unfold get_int_setting, valueToInt.
  destruct (trim v trimChars ≫= _) as [j| |] eqn:Hj; simpl; try done.
  intros [= <-]. apply bind_Ret_inv in Hj as (t & _ & Hj). by apply stoi_range in Hj.
Qed.

(** Opens the [if]s and binds of a setting in hypothesis [H]. *)
Ltac open_setting H :=
  repeat (case_match; try discriminate H);
  repeat (apply bind_Ret_inv in H; destruct H as (? & ? & H));
  repeat (case_match; try discriminate H);
  try (injection H as <-).

Lemma http_setting_ok cfg kv cfg' :
  settings_ok cfg -> http_setting cfg kv = Ret cfg' -> settings_ok cfg'.
Proof.
  intros [Hp Hw Ha Hl] H. unfold http_setting in H. open_setting H; split; try done.
  apply to_uint_range.
Qed.

Lemma main_setting_ok cfg kv cfg' :
  settings_ok cfg -> main_setting cfg kv = Ret cfg' -> settings_ok cfg'.
Proof.
  intros [Hp Hw Ha Hl] H. unfold main_setting in H.
  open_setting H; split; try done; simpl;
    match goal with Hi : get_int_setting _ _ _ = Ret _ |- _ => apply get_int_setting_range in Hi end;
    rewrite to_uint_id; unfold int_min, int_max in *; lia.
Qed.

Lemma logging_setting_ok cfg kv cfg' :
  settings_ok cfg -> logging_setting debug_build cfg kv = Ret cfg' -> settings_ok cfg'.
Proof.
  intros [Hp Hw Ha Hl] H. unfold logging_setting in H. open_setting H; by split.
Qed.

Lemma layer_setting_name l kv l' : layer_setting l kv = Ret l' -> name l' = name l.
Proof.
  intros H. unfold layer_setting, parse_bulk_delete_method in H. destruct kv as [k v].
  repeat (case_match; try discriminate H); try (injection H as <-; done);
    try (apply bind_Ret_inv in H; destruct H as (? & ? & H);
         repeat (case_match; try discriminate H); injection H as <-; done).
  unfold parse_primary_key_columns in H. revert H.
  apply (fold_result_inv _ (fun x => name x = name l)); [|done].
  intros b x b' _ Hb Hx. apply bind_Ret_inv in Hx as (t & _ & [= <-]). by case_match.
Qed.

Lemma check_layer_str_inv l st v u :
  check_layer_str_setting l st v = Ret u -> is_empty v = false.
Proof. unfold check_layer_str_setting. by case_match. Qed.

Lemma layer_section_ok cfg kv cfg' :
  settings_ok cfg -> layer_section ls cfg kv = Ret cfg' -> settings_ok cfg'.
Proof.
  intros [Hp Hw Ha Hl] H. unfold layer_section in H. destruct kv as [nm c].
  apply bind_Ret_inv in H as (layer & Hlayer & H).
  apply bind_Ret_inv in H as (u & Hcheck & [= <-]).
  unfold check_layer in Hcheck.
  apply bind_Ret_inv in Hcheck as (? & H1%check_layer_str_inv & Hcheck).
  apply bind_Ret_inv in Hcheck as (? & H2%check_layer_str_inv & Hcheck).
  apply bind_Ret_inv in Hcheck as (? & H3%check_layer_str_inv & H4%check_layer_str_inv).
  case_match eqn:Hen; [|by split]. split; try done. simpl.
  apply map_Forall_insert_2; [|done]. by split.
Qed.

Lemma config_section_ok cfg kv cfg' :
  settings_ok cfg -> config_section debug_build ls cfg kv = Ret cfg' -> settings_ok cfg'.
Proof.
  intros Hok H. unfold config_section in H. destruct kv as [nm c].
  repeat case_match; try done; revert H; apply fold_result_inv; try done; intros;
    eauto using http_setting_ok, main_setting_ok, layer_section_ok, logging_setting_ok.
Qed.

Lemma settings_ok_default : settings_ok Configuration_default.
Proof. split; simpl; unfold int_max; try lia. apply map_Forall_empty. Qed.

Lemma parse_sections_ok cfg :
  parse_sections debug_build ls Configuration_default = Ret cfg ->
  settings_ok cfg /\ is_empty (db_connection_string cfg) = false.
Proof.
  intros H. unfold parse_sections in H. apply bind_Ret_inv in H as (cfg' & H & H').
  case_match eqn:Hd; [done|]. injection H' as <-. split; [|done].
  revert H. apply fold_result_inv; [|apply settings_ok_default].
  intros. eauto using config_section_ok.
Qed.
End Reading.

(** ** Only [ConfigurationError]s leave the constructor *)
Section Errors.
Context (debug_build : bool) (ls : gmap loc Level).

Definition is_conf (e : exn) : Prop := exists m, e = ConfigurationError m.

Lemma conf_intro m : is_conf (ConfigurationError m).
Proof. by exists m. Qed.
#[local] Hint Resolve conf_intro : core.

Lemma only_throws_trim s set : only_throws is_conf (trim s set).
Proof. destruct (trim_total set s) as [t ->]. done. Qed.

Lemma only_throws_int sec k v : only_throws is_conf (get_int_setting sec k v).
Proof. unfold get_int_setting. repeat case_match; simpl; auto. Qed.

Lemma only_throws_bool k v : only_throws is_conf (get_boolean_setting k v).
Proof.
  unfold get_boolean_setting, valueToBool. destruct (trim_total trimChars v) as [t ->]. simpl.
  repeat case_match; simpl; auto.
Qed.

#[local] Hint Resolve only_throws_trim only_throws_int only_throws_bool : core.

Ltac only_conf :=
  repeat first
    [ progress (simpl only_throws; auto)
    | apply only_throws_bind; [|intros ? _]
    | apply only_throws_fold; intros ?? _
    | case_match ].

Lemma only_throws_http cfg kv : only_throws is_conf (http_setting cfg kv).
Proof. unfold http_setting. only_conf. Qed.
Lemma only_throws_main cfg kv : only_throws is_conf (main_setting cfg kv).
Proof. unfold main_setting. only_conf. Qed.
Lemma only_throws_logging cfg kv : only_throws is_conf (logging_setting debug_build cfg kv).
Proof. unfold logging_setting. only_conf. Qed.
Lemma only_throws_layer l kv : only_throws is_conf (layer_setting l kv).
Proof. unfold layer_setting, parse_primary_key_columns, parse_bulk_delete_method. only_conf. Qed.

#[local] Hint Resolve only_throws_http only_throws_main only_throws_logging only_throws_layer : core.

Lemma only_throws_layer_section cfg kv : only_throws is_conf (layer_section ls cfg kv).
Proof. unfold layer_section, check_layer, check_layer_str_setting. only_conf. Qed.
#[local] Hint Resolve only_throws_layer_section : core.

Lemma only_throws_sections cfg : only_throws is_conf (parse_sections debug_build ls cfg).
Proof. unfold parse_sections, config_section. only_conf. Qed.
End Errors.

Lemma Configuration_new_settings (debug_build : bool) (configFile : string) (file : option string)
    (cfg : Configuration) :
  Configuration_new debug_build configFile file = Ret cfg ->
  settings_ok cfg /\ is_empty (db_connection_string cfg) = false.
Proof.
  unfold Configuration_new. destruct file as [text|]; [|done]. intros H.
  destruct (Parser_new text ≫= _) as [c| |] eqn:Hr; simpl in H; [|by case_match|done].
  injection H as ->. apply bind_Ret_inv in Hr as (ls & _ & Hr).
  by eapply parse_sections_ok.
Qed.

Lemma Configuration_new_throws (debug_build : bool) (configFile : string) (file : option string) :
  (forall text, file = Some text -> (len text < npos)%Z) ->
  match Configuration_new debug_build configFile file with
  | Ret _ => True
  | Throw e => exists m, e = ConfigurationError m
  | Terminated => False
  end.
Proof.
  intros Hlen. unfold Configuration_new. destruct file as [text|]; [|eauto].
  pose proof (Parser_new_ok text (Hlen text eq_refl)) as Hp.
  destruct (Parser_new text) as [ls|e|]; [|destruct Hp as [m ->]; simpl; eauto|done].
  simpl. pose proof (only_throws_sections debug_build ls Configuration_default) as Ho.
  destruct (parse_sections _ _ _) as [c|e|]; simpl in *; [done|destruct Ho as [m ->]; simpl; eauto|done].
Qed.

(** ** Properties *)

(** [C27] A configuration that was read without exception is usable: at least
    one and at most [INT_MAX] workers and seconds of job age, a port that is an
    [unsigned int], a connection string, and only enabled layers, stored under
    their own name, with the four mandatory settings. *)
Theorem Configuration_new_ok (debug_build : bool) (configFile : string) (file : option string)
    (cfg : Configuration) :
  Configuration_new debug_build configFile file = Ret cfg ->
  settings_ok cfg /\ is_empty (db_connection_string cfg) = false.
Proof. apply Configuration_new_settings. Qed.

(** [C28] Whatever the file holds, and also when it cannot be opened, the only
    exception that leaves the constructor is [ConfigurationError], the one
    [Server::handleConfigfile] catches. *)
Theorem Configuration_new_errors (debug_build : bool) (configFile : string) (file : option string) :
  (forall text, file = Some text -> (len text < npos)%Z) ->
  match Configuration_new debug_build configFile file with
  | Ret _ => True
  | Throw e => exists m, e = ConfigurationError m
  | Terminated => False
  end.
Proof. apply Configuration_new_throws. Qed.

(** A configuration file with two layers, one of them disabled. *)
Definition cfg_example : string :=
  cat ["[MAIN]"; nl; "num_worker_threads = 4"; nl; "dsn = "; dquote; "dbname=batyr"; dquote; nl;
       "[ HTTP ]"; nl; "port = 9091"; nl; "[LAYERS]"; nl;
       "[[africa]]"; nl; "source = a.shp"; nl; "source_layer = Africa"; nl; "target_table_name = t"; nl;
       "target_table_schema = s"; nl; "primary_key_columns = id, 'x',,"; nl; "allow_feature_deletion = YES"; nl;
       "[[asia]]"; nl; "enabled=no"; nl; "source = a.shp"; nl; "source_layer = Africa"; nl; "target_table_name = t"; nl;
       "target_table_schema = s"; nl].
Example cfg1 : exists c, Configuration_new false "f" (Some cfg_example) = Ret c /\
   num_worker_threads c = 4%Z /\ http_port c = 9091%Z /\ db_connection_string c = "dbname=batyr" /\
   (primary_key_columns <$> (layers c !! "africa")) = Some ["id"; "x"] /\ layers c !! "asia" = None.
Proof. eexists. split; [vm_compute; reflexivity|]. repeat split. Qed.

Lemma Configuration_new_ok_witness :
  exists cfg, Configuration_new false "batyrd.cfg" (Some cfg_example) = Ret cfg /\ settings_ok cfg.
Proof.
  destruct (Configuration_new false "batyrd.cfg" (Some cfg_example)) as [cfg| |] eqn:H;
    [|vm_compute in H; discriminate H|vm_compute in H; discriminate H].
  exists cfg. split; [reflexivity|].
  exact (proj1 (Configuration_new_ok false "batyrd.cfg" (Some cfg_example) cfg H)).
Defined.

Lemma Configuration_new_errors_witness :
  (forall text, Some "[x]" = Some text -> (len text < npos)%Z) /\
  exists m, Configuration_new false "f" (Some "[x]") = Throw (ConfigurationError m).
Proof.
  assert (Hl : forall text, Some "[x]" = Some text -> (len text < npos)%Z)
    by (intros text [= <-]; done).
  split; [exact Hl|].
  pose proof (Configuration_new_errors false "f" (Some "[x]") Hl) as H.
  destruct (Configuration_new _ _ _) as [c|e|] eqn:Hc; [vm_compute in Hc; discriminate Hc| |done].
  destruct H as [m ->]. by exists m.
Defined.

(** The layer list of the HTTP interface: every layer once, in strictly
    increasing byte order of the names; and [getLayer] finds a layer exactly
    when it is in that list, throwing [ConfigurationError] otherwise. *)
Theorem getOrderedLayers_spec (cfg : Configuration) :
  settings_ok cfg ->
  StronglySorted (fun x y => String.leb x y = true /\ x <> y) (name <$> getOrderedLayers cfg) /\
  (forall l, l ∈ getOrderedLayers cfg <-> getLayer cfg (name l) = Ret l) /\
  (forall n, (exists l, getLayer cfg n = Ret l) \/
             getLayer cfg n = Throw (ConfigurationError (cat ["Layer "; n; " not found"]))).
Proof.
  intros Hok.
  assert (Hin : forall l, l ∈ getOrderedLayers cfg <-> layers cfg !! name l = Some l).
  { intros l. unfold getOrderedLayers. rewrite merge_sort_Permutation, list_elem_of_fmap. split.
    - intros ([k l'] & -> & Hl%elem_of_map_to_list). simpl.
      by rewrite (lk_name _ _ (so_layers _ Hok k l' Hl)).
    - intros Hl. exists (name l, l). split; [done|]. by apply elem_of_map_to_list. }
  assert (Hnd : NoDup (name <$> getOrderedLayers cfg)).
  { unfold getOrderedLayers. rewrite merge_sort_Permutation.
    rewrite <- list_fmap_compose.
    rewrite (list_fmap_ext _ fst); [apply NoDup_fst_map_to_list|].
    intros i [k l] Hi. apply list_elem_of_lookup_2, elem_of_map_to_list in Hi. simpl.
    by apply (lk_name _ _ (so_layers _ Hok k l Hi)). }
  split; [|split].
  - assert (Hs : StronglySorted name_le (getOrderedLayers cfg)).
    { apply StronglySorted_merge_sort; [|apply _]. intros x y z. apply String_leb_trans. }
    revert Hs Hnd. generalize (getOrderedLayers cfg). clear.
    induction 1 as [|x l Hs IH Hx]; intros Hnd; simpl in *; [constructor|].
    apply NoDup_cons in Hnd as [Hn Hnd]. constructor; [auto|].
    apply Forall_fmap. eapply Forall_impl; [apply Forall_and; split; [exact Hx|]|].
    + apply Forall_forall. intros y Hy. exact (ltac:(intros He; apply Hn; apply list_elem_of_fmap; eauto) : name x <> name y).
    + intros y [? ?]. split; done.
  - intros l. rewrite Hin. unfold getLayer. destruct (layers cfg !! name l); naive_solver.
  - intros n. unfold getLayer. destruct (layers cfg !! n); eauto.
Qed.

Lemma getOrderedLayers_spec_witness :
  settings_ok Configuration_default /\
  getLayer Configuration_default "x" = Throw (ConfigurationError "Layer x not found").
Proof.
  split; [exact settings_ok_default|].
  destruct (getOrderedLayers_spec Configuration_default settings_ok_default) as (_ & _ & H).
  destruct (H "x") as [[l Hl]|Hl]; [discriminate Hl|exact Hl].
Defined.

(** The port is stored in an [unsigned int] without a range check: a
    negative number is accepted and becomes a large port. *)
Theorem negative_port_wraps (cfg : Configuration) (v : string) (i : Z) :
  valueToInt v = (i, true) -> (i < 0)%Z ->
  exists cfg', http_setting cfg ("port", v) = Ret cfg' /\ http_port cfg' = (i + 2 ^ 32)%Z.
Proof.
  intros Hv Hi. eexists. unfold http_setting, get_int_setting. cbn [String.eqb Ascii.eqb Bool.eqb].
  rewrite Hv. simpl. split; [reflexivity|]. cbn [http_port set_http_port].
  assert (int_min <= i)%Z.
  { unfold valueToInt in Hv. destruct (trim v trimChars ≫= _) as [j| |] eqn:Hj;
      injection Hv as; subst; try done.
    apply bind_Ret_inv in Hj as (t & _ & Hj). by destruct (stoi_range _ _ Hj). }
  unfold to_uint, int_min in *. symmetry. apply (Z.mod_unique _ _ (-1)); lia.
Qed.

Lemma negative_port_wraps_witness :
  exists cfg', http_setting Configuration_default ("port", "-1") = Ret cfg' /\
    http_port cfg' = (-1 + 2 ^ 32)%Z.
Proof. apply (negative_port_wraps Configuration_default "-1" (-1)); [vm_compute; reflexivity|lia]. Defined.
