(* ===== verification/NullableValue.v ===== *)
(** * NullableValue

    [src/common/nullablevalue.h], with [T] a [std::string] as in every use of
    the sources ([Job::AttributeValue], [QueryValue]). *)
From S2P Require Import Prelude.

Record NullableValue := mkNullable { is_null : bool; nv_value : string }.

(** [NullableValue()]: null; its value is the empty string. *)
Definition Nullable_new : NullableValue := mkNullable true "".
Definition Nullable_of (_value : string) : NullableValue := mkNullable false _value.

Definition nv_get (v : NullableValue) : string := nv_value v.
(** [set] leaves the null flag alone. *)
Definition nv_set (_value : string) (v : NullableValue) : NullableValue := mkNullable (is_null v) _value.
Definition setIsNull (_is_null : bool) (v : NullableValue) : NullableValue := mkNullable _is_null (nv_value v).
Definition isNull (v : NullableValue) : bool := is_null v.

#[export] Instance NullableValue_eq_dec : EqDecision NullableValue.
Proof. solve_decision. Defined.

(** The content as an option: what a reader that asks [isNull] first sees. *)
Definition nv_option (v : NullableValue) : option string :=
  if isNull v then None else Some (nv_get v).
