(* ===== verification/Json.v ===== *)
(** * JSON output

    [src/server/json.cpp] and the part of the vendored rapidjson it runs:
    [GenericValue::Accept] ([document.h]) driving a [Writer] ([writer.h]).  The
    writer is the state machine of the source, with its stack of levels; the
    theorems give the text it produces. *)
From S2P Require Import Prelude Numbers StringUtils.

(** A [GenericValue].  Integers are the values of the [Int], [Uint], [Int64] and
    [Uint64] constructors, whose decimal text is the same; a double carries the
    text that the writer's [snprintf("%g")] gives for it, none of batyr's own
    documents holds one. *)
#[warnings="-register-all"]
Inductive value :=
  | VNull
  | VBool (b : bool)
  | VInt (z : Z)
  | VDouble (g_text : string)
  | VString (s : string)
  | VArray (elements : list value)
  | VObject (members : list (string * value)).

Inductive Type_ := kNullType | kFalseType | kTrueType | kObjectType | kArrayType
  | kStringType | kNumberType.

#[export] Instance Type_eq_dec : EqDecision Type_.
Proof. solve_decision. Defined.

(** [Writer::Level] and the two members of [Writer]. *)
Record WLevel := mkWLevel { inArray : bool; valueCount : nat }.
Record Writer := mkWriter { out : string; level_stack : list WLevel }.

Abbreviation W := (M Writer).

Definition put (s : string) : W unit := modify (fun w => mkWriter (out w +:+ s) (level_stack w)).

(** A failing [RAPIDJSON_ASSERT] aborts. *)
Definition w_assert (b : bool) : W unit := if b then mret tt else terminate.

Definition Prefix (type : Type_) : W unit := fun w =>
  match level_stack w with
  | [] => w_assert (bool_decide (type = kObjectType \/ type = kArrayType)) w
  | level :: levels =>
    (_ ← (if decide (0 < valueCount level) then
            if inArray level then put ","
            else put (if decide (valueCount level `mod` 2 = 0) then "," else ":")
          else mret tt);
     _ ← w_assert (inArray level || negb (bool_decide (valueCount level `mod` 2 = 0))
                   || bool_decide (type = kStringType));
     modify (fun w => mkWriter (out w) (mkWLevel (inArray level) (S (valueCount level)) :: levels))) w
  end.

(** The table [escape]: [0] for a byte that is written as it is. *)
Definition escape (c : ascii) : option ascii :=
  let n := nat_of_ascii c in
  if Nat.eqb n 8 then Some "b"%char
  else if Nat.eqb n 9 then Some "t"%char
  else if Nat.eqb n 10 then Some "n"%char
  else if Nat.eqb n 12 then Some "f"%char
  else if Nat.eqb n 13 then Some "r"%char
  else if Nat.ltb n 32 then Some "u"%char
  else if Nat.eqb n 34 then Some "034"%char
  else if Nat.eqb n 92 then Some "\"%char
  else None.

Definition hexDigits : list ascii := chars "0123456789ABCDEF".
Definition hex_digit (n : nat) : ascii := nth n hexDigits "0"%char.

(** What the loop of [WriteString] puts for one byte. *)
Definition write_char (c : ascii) : list ascii :=
  match escape c with
  | Some e =>
    ["\"%char; e] ++
    (if Ascii.eqb e "u"
     then ["0"%char; "0"%char; hex_digit (nat_of_ascii c / 16);
           hex_digit (nat_of_ascii c `mod` 16)]
     else [])
  | None => [c]
  end.

Definition WriteString (s : string) : W unit :=
  put (dquote +:+ unchars (flat_map write_char (chars s)) +:+ dquote).

Definition ev_null : W unit := _ ← Prefix kNullType; put "null".
Definition ev_bool (b : bool) : W unit :=
  _ ← Prefix (if b then kTrueType else kFalseType); put (if b then "true" else "false").
Definition ev_number (text : string) : W unit := _ ← Prefix kNumberType; put text.
Definition ev_string (s : string) : W unit := _ ← Prefix kStringType; WriteString s.

Definition push_level (in_array : bool) : W unit :=
  modify (fun w => mkWriter (out w) (mkWLevel in_array 0 :: level_stack w)).

Definition pop_level (in_array : bool) : W unit := fun w =>
  match level_stack w with
  | level :: levels =>
    if Bool.eqb (inArray level) in_array then (Ret tt, mkWriter (out w) levels) else (Terminated, w)
  | [] => (Terminated, w)
  end.

Definition StartObject : W unit := _ ← Prefix kObjectType; _ ← push_level false; put "{".
Definition EndObject : W unit := _ ← pop_level false; put "}".
Definition StartArray : W unit := _ ← Prefix kArrayType; _ ← push_level true; put "[".
Definition EndArray : W unit := _ ← pop_level true; put "]".

(** [GenericValue::Accept]. *)
Fixpoint Accept (v : value) : W unit :=
  match v with
  | VNull => ev_null
  | VBool b => ev_bool b
  | VInt z => ev_number (to_string z)
  | VDouble g => ev_number g
  | VString s => ev_string s
  | VArray elements =>
    _ ← StartArray;
    _ ← (fix go l := match l with
         | [] => mret tt
         | v :: l' => _ ← Accept v; go l'
         end) elements;
    EndArray
  | VObject members =>
    _ ← StartObject;
    _ ← (fix go l := match l with
         | [] => mret tt
         | (n, v) :: l' => _ ← ev_string n; _ ← Accept v; go l'
         end) members;
    EndObject
  end.

(** [Batyr::Json::stringify(rapidjson::Document &)], release build.  The buffer
    is read back as a C string. *)
Definition stringify (doc : value) : result string :=
  match Accept doc (mkWriter "" []) with
  | (Ret _, w) => Ret (c_str (out w))
  | (Throw e, _) => Throw e
  | (Terminated, _) => Terminated
  end.

(** ** Members *)

(** [AddMember] with a C string as name, [PushBack] and [FindMember]. *)
Definition AddMember (name : string) (v : value) (o : value) : value :=
  match o with
  | VObject ms => VObject (ms ++ [(c_str name, v)])
  | _ => o
  end.

Fixpoint find_member (name : string) (ms : list (string * value)) : option value :=
  match ms with
  | [] => None
  | (n, v) :: ms' => if String.eqb n name then Some v else find_member name ms'
  end.

Definition IsObject (v : value) : bool := match v with VObject _ => true | _ => false end.
Definition HasMember (v : value) (name : string) : bool :=
  match v with VObject ms => bool_decide (is_Some (find_member name ms)) | _ => false end.
(** [v[name]], with the static null value for a missing member. *)
Definition member (v : value) (name : string) : value :=
  match v with VObject ms => default VNull (find_member name ms) | _ => VNull end.

(** ** Timestamps

    A [time_point] is its nanoseconds since the epoch.  [gmtime] and
    [strftime("%FT%TZ")] for the proleptic Gregorian calendar. *)
Definition civil_from_days (days : Z) : Z * Z * Z :=
  let z := (days + 719468)%Z in
  let era := (z / 146097)%Z in
  let doe := (z mod 146097)%Z in
  let yoe := ((doe - doe / 1460 + doe / 36524 - doe / 146096) / 365)%Z in
  let doy := (doe - (365 * yoe + yoe / 4 - yoe / 100))%Z in
  let mp := ((5 * doy + 2) / 153)%Z in
  let d := (doy - (153 * mp + 2) / 5 + 1)%Z in
  let m := (if decide (mp < 10)%Z then mp + 3 else mp - 9)%Z in
  let y := (yoe + era * 400 + (if decide (m <= 2)%Z then 1 else 0))%Z in
  (y, m, d).

Definition stringify_time (tp : Z) : string :=
  let secs := Z.quot tp 1000000000 in
  let days := (secs / 86400)%Z in
  let sod := (secs mod 86400)%Z in
  let '(y, m, d) := civil_from_days days in
  cat [pad0 4 y; "-"; pad0 2 m; "-"; pad0 2 d; "T"; pad0 2 (sod / 3600); ":";
       pad0 2 (sod / 60 mod 60); ":"; pad0 2 (sod mod 60); "Z"].

(** [toValue]: the length is passed, so a NUL byte does not end the string. *)
Definition toValue (s : string) : value := VString s.
Definition toValue_time (tp : Z) : value := toValue (stringify_time tp).

(** ** The text the writer produces

    [print] is the JSON text of a value, written by recursion on it. *)
Definition print_string (s : string) : string :=
  dquote +:+ unchars (flat_map write_char (chars s)) +:+ dquote.

Fixpoint print (v : value) : string :=
  match v with
  | VNull => "null"
  | VBool b => if b then "true" else "false"
  | VInt z => to_string z
  | VDouble g => g
  | VString s => print_string s
  | VArray elements => "[" +:+ join (print <$> elements) "," +:+ "]"
  | VObject members =>
    "{" +:+ join ((fun m => print_string m.1 +:+ ":" +:+ print m.2) <$> members) "," +:+ "}"
  end.

(** Induction that reaches the elements and members. *)
Section ValueInd.
Context (P : value -> Prop).
Context (Hnull : P VNull) (Hbool : forall b, P (VBool b)) (Hint : forall z, P (VInt z)).
Context (Hdouble : forall g, P (VDouble g)) (Hstring : forall s, P (VString s)).
Context (Harray : forall l, Forall P l -> P (VArray l)).
Context (Hobject : forall l, Forall (fun m => P m.2) l -> P (VObject l)).

Fixpoint value_nested_ind (v : value) : P v :=
  match v with
  | VNull => Hnull
  | VBool b => Hbool b
  | VInt z => Hint z
  | VDouble g => Hdouble g
  | VString s => Hstring s
  | VArray l =>
    Harray l ((fix go l : Forall P l := match l with
               | [] => Forall_nil_2 _
               | v :: l' => Forall_cons_2 _ _ _ (value_nested_ind v) (go l')
               end) l)
  | VObject l =>
    Hobject l ((fix go l : Forall (fun m => P m.2) l := match l with
                | [] => Forall_nil_2 _
                | m :: l' => Forall_cons_2 _ _ _ (value_nested_ind m.2) (go l')
                end) l)
  end.
End ValueInd.

Section WriterText.
Implicit Types (o : string) (st : list WLevel).

(** What [Prefix] puts, and the stack it leaves. *)
Definition separator st : string :=
  match st with
  | [] => ""
  | l :: _ =>
    if decide (0 < valueCount l) then
      if inArray l then "," else if decide (valueCount l `mod` 2 = 0) then "," else ":"
    else ""
  end.
Definition counted st : list WLevel :=
  match st with
  | [] => []
  | l :: st' => mkWLevel (inArray l) (S (valueCount l)) :: st'
  end.

(** The assertions of [Prefix]: a root is an object or an array, a name is a
    string. *)
Definition allowed (type : Type_) st : Prop :=
  match st with
  | [] => type = kObjectType \/ type = kArrayType
  | l :: _ => inArray l = true \/ valueCount l `mod` 2 <> 0 \/ type = kStringType
  end.

Lemma Prefix_ok type o st :
  allowed type st ->
  Prefix type (mkWriter o st) = (Ret tt, mkWriter (o +:+ separator st) (counted st)).
Proof.
  intros Ha. unfold Prefix. cbn [level_stack]. destruct st as [|l st]; cbn [allowed] in *.
  - rewrite bool_decide_true by done. simpl. by rewrite string_app_nil_r.
  - assert (Has : (inArray l || negb (bool_decide (valueCount l `mod` 2 = 0))
                   || bool_decide (type = kStringType)) = true).
    { destruct Ha as [->|[Ha| ->]]; [done| |by rewrite orb_true_r].
      rewrite (bool_decide_false (_ = 0)) by done. by rewrite orb_true_r. }
    rewrite Has. cbn [separator counted].
    repeat case_decide; destruct (inArray l); simpl; by rewrite ?string_app_nil_r.
Qed.

Definition type_of (v : value) : Type_ :=
  match v with
  | VNull => kNullType
  | VBool b => if b then kTrueType else kFalseType
  | VInt _ | VDouble _ => kNumberType
  | VString _ => kStringType
  | VArray _ => kArrayType
  | VObject _ => kObjectType
  end.

Definition writes (m : W unit) (type : Type_) (text : string) : Prop :=
  forall o st, allowed type st ->
    m (mkWriter o st) = (Ret tt, mkWriter (o +:+ separator st +:+ text) (counted st)).

Lemma writes_prefixed type text : writes (_ ← Prefix type; put text) type text.
Proof.
  intros o st Ha. erewrite bind_step by (by apply Prefix_ok). unfold put, modify. simpl.
  by rewrite string_app_assoc.
Qed.

Lemma writes_string s : writes (ev_string s) kStringType (print_string s).
Proof. apply writes_prefixed. Qed.

(** The elements of an array, from the [k]-th on, and the members. *)
Fixpoint elements_text (k : nat) (l : list string) : string :=
  match l with
  | [] => ""
  | t :: l' => (if decide (0 < k) then "," else "") +:+ t +:+ elements_text (S k) l'
  end.

Lemma elements_text_join l : elements_text 0 l = join l ",".
Proof.
  assert (Hk : forall k t l, elements_text (S k) (t :: l) = "," +:+ join (t :: l) ",").
  { intros k t l'. revert k t. induction l' as [|u l' IH]; intros k t.
    - simpl. by rewrite string_app_nil_r.
    - rewrite join_cons. cbn [elements_text] in *. rewrite (IH (S k) u).
      rewrite decide_True by lia. done. }
  destruct l as [|t [|u l]]; [done|simpl; by rewrite string_app_nil_r|].
  rewrite join_cons. cbn [elements_text] in *. rewrite (Hk 0 u l). done.
Qed.

Lemma even_mod k : (2 * k) `mod` 2 = 0.
Proof. rewrite Nat.mul_comm. by apply Nat.Div0.mod_mul. Qed.
Lemma odd_mod k : S (2 * k) `mod` 2 = 1.
Proof. replace (S (2 * k)) with (1 + k * 2) by lia. by rewrite Nat.Div0.mod_add. Qed.

Lemma Accept_ok v : writes (Accept v) (type_of v) (print v).
Proof.
  induction v as [|b|z|g|s|l IH|l IH] using value_nested_ind;
    try apply writes_prefixed.

  - intros o st Ha. cbn [Accept]. unfold StartArray.
    assert (Hgo : forall l k o st, Forall (fun v => writes (Accept v) (type_of v) (print v)) l ->
      (fix go l := match l with [] => mret tt | v :: l' => _ ← Accept v; go l' end : W unit) l
        (mkWriter o (mkWLevel true k :: st)) =
      (Ret tt, mkWriter (o +:+ elements_text k (print <$> l)) (mkWLevel true (k + length l) :: st))).
    { clear. induction l as [|v l IHl]; intros k o st HF.
      - simpl. rewrite string_app_nil_r, Nat.add_0_r. done.
      - inversion HF as [|? ? Hv Hl]; subst. erewrite bind_step by (apply Hv; by left).
        unfold counted. cbn [inArray valueCount]. rewrite IHl by done. simpl.
        rewrite !string_app_assoc. repeat f_equal. lia. }
    erewrite bind_step by (erewrite bind_step by (by apply Prefix_ok); done). simpl.
    erewrite bind_step by (by apply Hgo).
    unfold EndArray, mbind, M_bind. simpl. rewrite elements_text_join.
    unfold put, modify. cbn [out level_stack]. by rewrite !string_app_assoc.
  - intros o st Ha. cbn [Accept]. unfold StartObject.
    set (f := fun m : string * value => print_string m.1 +:+ ":" +:+ print m.2).
    assert (Hgo : forall l k o st, Forall (fun m => writes (Accept m.2) (type_of m.2) (print m.2)) l ->
      (fix go l := match l with [] => mret tt
                   | (n, v) :: l' => _ ← ev_string n; _ ← Accept v; go l' end : W unit) l
        (mkWriter o (mkWLevel false (2 * k) :: st)) =
      (Ret tt, mkWriter (o +:+ elements_text k (f <$> l)) (mkWLevel false (2 * (k + length l)) :: st))).
    { clear. induction l as [|[n v] l IHl]; intros k o st HF.
      - cbn [fmap list_fmap elements_text length]. rewrite string_app_nil_r, Nat.add_0_r. done.
      - inversion HF as [|? ? Hv Hl]; subst. cbn [snd] in Hv.
        erewrite bind_step by (apply writes_string; right; by right).
        unfold counted. cbn [inArray valueCount].
        erewrite bind_step by (apply Hv; right; left; cbn [valueCount]; by rewrite odd_mod).
        unfold counted. cbn [inArray valueCount].
        replace (S (S (2 * k))) with (2 * S k) by lia. rewrite IHl by done.
        cbn [separator valueCount inArray]. rewrite odd_mod, even_mod.
        rewrite (decide_True (P := 0 < S (2 * k))) by lia.
        rewrite (decide_False (P := 1 = 0)), (decide_True (P := 0 = 0)) by done.
        f_equal. f_equal; [|do 2 f_equal; simpl; lia].
        cbn [fmap list_fmap elements_text]. subst f. cbn [fst snd].
        rewrite (decide_ext (0 < 2 * k) (0 < k)) by lia.
        by rewrite !string_app_assoc. }
    erewrite bind_step by (erewrite bind_step by (by apply Prefix_ok); done). simpl.
    erewrite bind_step by (by apply (Hgo l 0)).
    unfold EndObject, mbind, M_bind. simpl. rewrite elements_text_join.
    unfold put, modify. cbn [out level_stack]. by rewrite !string_app_assoc.
Qed.
End WriterText.

(** No double anywhere: the documents batyr builds itself. *)
Fixpoint no_double (v : value) : bool :=
  match v with
  | VDouble _ => false
  | VArray l => forallb no_double l
  | VObject l => forallb (fun m => no_double m.2) l
  | _ => true
  end.

Section NulFree.
Lemma write_char_no_nul c : nul ∉ write_char c.
Proof.
  apply (bool_decide_unpack (nul ∉ write_char c)).
  destruct c as [[] [] [] [] [] [] [] []]; vm_compute; done.
Qed.

Lemma print_string_nul_free s : nul_free (print_string s).
Proof.
  unfold print_string. rewrite !nul_free_app. split; [|split];
    [apply not_elem_of_cons; split; [done|apply not_elem_of_nil]| |
     apply not_elem_of_cons; split; [done|apply not_elem_of_nil]].
  unfold nul_free. rewrite chars_unchars, list_elem_of_In, in_flat_map.
  intros (c & _ & Hc%list_elem_of_In). by apply write_char_no_nul in Hc.
Qed.

Lemma nul_free_lit s : bool_decide (nul ∉ chars s) = true -> nul_free s.
Proof. by intros H%bool_decide_eq_true. Qed.

Lemma join_nul_free l sep : nul_free sep -> Forall nul_free l -> nul_free (join l sep).
Proof.
  intros Hsep. induction 1 as [|x l Hx Hl IH]; [apply not_elem_of_nil|].
  destruct l as [|y l]; [done|]. rewrite join_cons, !nul_free_app. auto.
Qed.

Lemma print_nul_free v : no_double v = true -> nul_free (print v).
Proof.
  induction v as [|b|z|g|s|l IH|l IH] using value_nested_ind; cbn [print no_double]; intros Hd; try done.
  - by apply nul_free_lit.
  - by destruct b; apply nul_free_lit.
  - apply to_string_nul_free.
  - apply print_string_nul_free.
  - rewrite !nul_free_app.
    split; [by apply nul_free_lit|]. split; [|by apply nul_free_lit].
    apply join_nul_free; [by apply nul_free_lit|]. apply Forall_fmap.
    rewrite forallb_forall in Hd. rewrite Forall_forall in IH |- *.
    intros x Hx. apply IH; [done|]. apply Hd. by apply list_elem_of_In.
  - rewrite !nul_free_app. split; [by apply nul_free_lit|]. split; [|by apply nul_free_lit].
    apply join_nul_free; [by apply nul_free_lit|]. apply Forall_fmap.
    rewrite forallb_forall in Hd. rewrite Forall_forall in IH |- *.
    intros x Hx. cbn [compose]. rewrite !nul_free_app. split; [apply print_string_nul_free|].
    split; [by apply nul_free_lit|]. apply IH; [done|]. apply Hd. by apply list_elem_of_In.
Qed.

(** [root] documents are the ones the assertions of the writer admit. *)
Definition root (v : value) : bool :=
  match v with VArray _ | VObject _ => true | _ => false end.

Lemma stringify_text doc : root doc = true -> no_double doc = true ->
  stringify doc = Ret (print doc).
Proof.
  intros Hr Hd. unfold stringify. rewrite (Accept_ok doc "" []).
  - cbn [out separator]. change ("" +:+ "" +:+ print doc) with (print doc).
    by rewrite c_str_id by by apply print_nul_free.
  - simpl. destruct doc; try done; auto.
Qed.
End NulFree.

(** ** Properties *)

(** For every object or array that batyr builds, the writer's state machine
    runs without a failing assertion and [stringify] returns the complete JSON
    text of the value: commas and colons in their places, every string escaped,
    and no NUL byte that would cut the text when it is read back as a C string. *)
Theorem stringify_print (doc : value) :
  root doc = true -> no_double doc = true ->
  stringify doc = Ret (print doc) /\ nul_free (print doc).
Proof. intros Hr Hd. split; [by apply stringify_text|by apply print_nul_free]. Qed.

Example stringify_time_example : stringify_time 1381240731000000000 = "2013-10-08T13:58:51Z".
Proof. vm_compute. reflexivity. Qed.

Definition doc_example : value :=
  VObject [("a", VArray [VInt 1; VNull]); ("b", VString dquote)].

Lemma stringify_print_witness :
  root doc_example = true /\
  stringify doc_example =
    Ret (cat ["{"; dquote; "a"; dquote; ":[1,null],"; dquote; "b"; dquote; ":"; dquote; "\";
              dquote; dquote; "}"]).
Proof.
  split; [reflexivity|].
  rewrite (proj1 (stringify_print doc_example eq_refl eq_refl)). vm_compute. reflexivity.
Defined.
