(* ===== verification/Reader.v ===== *)
(** * JSON input

    [GenericReader] of the vendored rapidjson ([reader.h]), which reads the body
    of a posted job, the handler functions of [GenericDocument] ([document.h])
    that build the value on a stack, [UTF8::Encode] ([rapidjson.h]) and [Pow10]
    ([internal/pow10.h]).

    A failing [RAPIDJSON_ASSERT] and a read behind the end of the text are
    [Terminated], and so is a use of all the fuel; [parse_total] shows that none
    of them occurs.  The [longjmp] of [RAPIDJSON_PARSE_ERROR] is a [Throw] that
    [Parse] catches; the offset of an error is left out, batyr only asks whether
    there was one. *)
From Stdlib Require DecimalFacts DecimalZ.
From S2P Require Import Prelude Numbers StringUtils Json.

(** ** The stream

    [GenericStringStream]: the bytes from [src_] to the end of the C string, the
    terminating NUL included. *)
Abbreviation stream := (list ascii).
Abbreviation Scan := (M stream).

Definition s_Peek : Scan ascii := fun s =>
  match s with c :: _ => (Ret c, s) | [] => (Terminated, s) end.
Definition s_Take : Scan ascii := fun s =>
  match s with c :: s' => (Ret c, s') | [] => (Terminated, s) end.

(** [RAPIDJSON_PARSE_ERROR]. *)
Definition parse_error {S A} (msg : string) : M S A := throw (RuntimeError msg).

Definition whitespace (c : ascii) : bool :=
  Ascii.eqb c " " || Ascii.eqb c "010" || Ascii.eqb c "013" || Ascii.eqb c "009".

Fixpoint skip_whitespace (s : stream) : result unit * stream :=
  match s with
  | [] => (Terminated, s)
  | c :: s' => if whitespace c then skip_whitespace s' else (Ret tt, s)
  end.

(** The value of a hexadecimal digit, as [codepoint += c] and one of the
    [codepoint -= ...] compute it. *)
Definition hex_value (c : ascii) : option Z :=
  let n := nat_of_ascii c in
  if decide (48 <= n <= 57) then Some (Z.of_nat n - 48)%Z
  else if decide (65 <= n <= 70) then Some (Z.of_nat n - 55)%Z
  else if decide (97 <= n <= 102) then Some (Z.of_nat n - 87)%Z
  else None.

Fixpoint hex_digits (n : nat) (codepoint : Z) : Scan Z :=
  match n with
  | 0 => mret codepoint
  | S n' =>
    c ← s_Take;
    match hex_value c with
    | Some v => hex_digits n' (Z.shiftl codepoint 4 + v)
    | None => parse_error "Incorrect hex digit after \u escape"
    end
  end.
Definition ParseHex4 : Scan Z := hex_digits 4 0.

Definition byte_of (z : Z) : ascii := ascii_of_N (Z.to_N (z mod 256)).

(** [UTF8::Encode]; the assertion on the code point is kept. *)
Definition Encode (codepoint : Z) : result (list ascii) :=
  if decide (codepoint <= 0x7F)%Z then Ret [byte_of (Z.land codepoint 0xFF)]
  else if decide (codepoint <= 0x7FF)%Z then
    Ret [byte_of (Z.lor 0xC0 (Z.land (Z.shiftr codepoint 6) 0xFF));
         byte_of (Z.lor 0x80 (Z.land codepoint 0x3F))]
  else if decide (codepoint <= 0xFFFF)%Z then
    Ret [byte_of (Z.lor 0xE0 (Z.land (Z.shiftr codepoint 12) 0xFF));
         byte_of (Z.lor 0x80 (Z.land (Z.shiftr codepoint 6) 0x3F));
         byte_of (Z.lor 0x80 (Z.land codepoint 0x3F))]
  else if decide (codepoint <= 0x10FFFF)%Z then
    Ret [byte_of (Z.lor 0xF0 (Z.land (Z.shiftr codepoint 18) 0xFF));
         byte_of (Z.lor 0x80 (Z.land (Z.shiftr codepoint 12) 0x3F));
         byte_of (Z.lor 0x80 (Z.land (Z.shiftr codepoint 6) 0x3F));
         byte_of (Z.lor 0x80 (Z.land codepoint 0x3F))]
  else Terminated.

(** The table [escape] of [ParseString]: [None] for its zeros. *)
Definition unescape (e : ascii) : option ascii :=
  if Ascii.eqb e "034" then Some "034"%char
  else if Ascii.eqb e "/" then Some "/"%char
  else if Ascii.eqb e "\" then Some "\"%char
  else if Ascii.eqb e "b" then Some "008"%char
  else if Ascii.eqb e "f" then Some "012"%char
  else if Ascii.eqb e "n" then Some "010"%char
  else if Ascii.eqb e "r" then Some "013"%char
  else if Ascii.eqb e "t" then Some "009"%char
  else None.

(** What follows [\u]: a code point, of which the surrogates take two. *)
Definition unicode_escape : Scan Z :=
  codepoint ← ParseHex4;
  if decide (0xD800 <= codepoint <= 0xDBFF)%Z then
    b ← s_Take;
    if negb (Ascii.eqb b "\") then parse_error "Missing the second \u in surrogate pair" else
    u ← s_Take;
    if negb (Ascii.eqb u "u") then parse_error "Missing the second \u in surrogate pair" else
    codepoint2 ← ParseHex4;
    if decide (codepoint2 < 0xDC00 \/ 0xDFFF < codepoint2)%Z then
      parse_error "The second \u in surrogate pair is invalid"
    else mret (Z.lor (Z.shiftl (codepoint - 0xD800) 10) (codepoint2 - 0xDC00) + 0x10000)%Z
  else mret codepoint.

(** The loop of [ParseString], [buf] being what is on the reader's stack.  A
    [char] is signed: [(unsigned) c < 0x20] is false from 0x80 on. *)
Fixpoint string_loop (fuel : nat) (buf : list ascii) : Scan (list ascii) :=
  match fuel with
  | 0 => terminate
  | S fuel' =>
    c ← s_Take;
    if Ascii.eqb c "\" then
      e ← s_Take;
      match unescape e with
      | Some x => string_loop fuel' (buf ++ [x])
      | None =>
        if Ascii.eqb e "u" then
          codepoint ← unicode_escape;
          buffer ← lift (Encode codepoint);
          string_loop fuel' (buf ++ buffer)
        else parse_error "Unknown escape character"
      end
    else if Ascii.eqb c "034" then mret buf
    else if Ascii.eqb c nul then parse_error "lacks ending quotation before the end of string"
    else if decide (nat_of_ascii c < 32) then parse_error "Incorrect unescaped character in string"
    else string_loop fuel' (buf ++ [c])
  end.

(** ** Numbers *)
Definition double_of_Z (z : Z) : double := binary_normalize 53 1024 z 0 false.
Definition times_10_plus (d : double) (digit : Z) : double :=
  SFadd 53 1024 (SFmul 53 1024 d (double_of_Z 10)) (double_of_Z digit).

(** The table of [Pow10] holds the literals [1e-308] to [1e308], which the
    compiler rounds to the nearest double. *)
Definition power_of_10 (n : Z) : double :=
  if decide (0 <= n)%Z then double_of_Z (10 ^ n)
  else SFdiv 53 1024 (S754_finite false 1 0) (S754_finite false (Z.to_pos (10 ^ (- n))) 0).

Definition Pow10 (n : Z) : result double :=
  if decide (308 < n)%Z then Terminated
  else if decide (n < -308)%Z then Ret (S754_zero false) else Ret (power_of_10 n).

(** The loops over the digits of an integer of width [w]: they stop before the
    digit that would leave the range, whose last value is [limit] followed by
    [last]. *)
Fixpoint int_digits (w limit last i : Z) (s : stream) : result (Z * bool) * stream :=
  match s with
  | [] => (Terminated, s)
  | c :: s' =>
    match digit_of c with
    | None => (Ret (i, false), s)
    | Some d =>
      if decide (limit <= i /\ (i <> limit \/ last < d))%Z then (Ret (i, true), s)
      else int_digits w limit last ((i * 10 + d) mod 2 ^ w) s'
    end
  end.

Definition digits32 (minus : bool) (i : Z) : Scan (Z * bool) :=
  if minus then int_digits 32 214748364 8 i else int_digits 32 429496729 5 i.
Definition digits64 (minus : bool) (i : Z) : Scan (Z * bool) :=
  if minus then int_digits 64 922337203685477580 8 i
  else int_digits 64 1844674407370955161 5 i.

(** [zero / ( digit1-9 *DIGIT )]: the value and [try64bit]. *)
Definition parse_int (minus : bool) : Scan (Z * bool) :=
  c ← s_Peek;
  if Ascii.eqb c "0" then _ ← s_Take; mret (0%Z, false)
  else match digit_of c with
       | Some d => _ ← s_Take; digits32 minus d
       | None => parse_error "Expect a value here."
       end.

Fixpoint big_digits (d : double) (s : stream) : result double * stream :=
  match s with
  | [] => (Terminated, s)
  | c :: s' =>
    match digit_of c with
    | None => (Ret d, s)
    | Some v =>
      if SFleb (power_of_10 307) d then parse_error "Number too big to store in double" s
      else big_digits (times_10_plus d v) s'
    end
  end.

Fixpoint frac_digits (d : double) (expFrac : Z) (s : stream) : result (double * Z) * stream :=
  match s with
  | [] => (Terminated, s)
  | c :: s' =>
    match digit_of c with
    | None => (Ret (d, expFrac), s)
    | Some v =>
      if decide (-16 < expFrac)%Z then frac_digits (times_10_plus d v) (expFrac - 1) s'
      else frac_digits d expFrac s'
    end
  end.

Fixpoint exp_digits (exp : Z) (s : stream) : result Z * stream :=
  match s with
  | [] => (Terminated, s)
  | c :: s' =>
    match digit_of c with
    | None => (Ret exp, s)
    | Some v =>
      if decide (308 < exp * 10 + v)%Z then parse_error "Number too big to store in double" s'
      else exp_digits (exp * 10 + v) s'
    end
  end.

(** [frac = decimal-point 1*DIGIT]: [d], [useDouble] and [expFrac]; [whole] is
    the integer part as a double. *)
Definition parse_frac (useDouble : bool) (d whole : double) : Scan (double * bool * Z) :=
  c ← s_Peek;
  if Ascii.eqb c "." then
    let d := if useDouble then d else whole in
    _ ← s_Take;
    c ← s_Peek;
    match digit_of c with
    | Some v =>
      _ ← s_Take;
      r ← frac_digits (times_10_plus d v) (-1);
      mret (r.1, true, r.2)
    | None => parse_error "At least one digit in fraction part"
    end
  else mret (d, useDouble, 0%Z).

(** [exp = e [ minus / plus ] 1*DIGIT]. *)
Definition parse_exp (useDouble : bool) (d whole : double) : Scan (double * bool * Z) :=
  c ← s_Peek;
  if Ascii.eqb c "e" || Ascii.eqb c "E" then
    let d := if useDouble then d else whole in
    _ ← s_Take;
    c ← s_Peek;
    expMinus ← ((if Ascii.eqb c "+" then _ ← s_Take; mret false
                 else if Ascii.eqb c "-" then _ ← s_Take; mret true
                 else mret false) : Scan bool);
    c ← s_Peek;
    match digit_of c with
    | Some v =>
      _ ← s_Take;
      exp ← exp_digits v;
      mret (d, true, if (expMinus : bool) then (- exp)%Z else exp)
    | None => parse_error "At least one digit in exponent"
    end
  else mret (d, useDouble, 0%Z).

(** Conversion to a signed integer of width [w].  The negation of the smallest
    one, which is undefined in C++, wraps as the compilers' does. *)
Definition to_signed (w z : Z) : Z := ((z + 2 ^ (w - 1)) mod 2 ^ w - 2 ^ (w - 1))%Z.

(** The event of an integer: [Int64], [Uint64], [Int] or [Uint]. *)
Definition integer_event (minus try64bit : bool) (i i64 : Z) : value :=
  if try64bit then
    if minus then VInt (to_signed 64 (- to_signed 64 i64)) else VInt i64
  else if minus then VInt (to_signed 32 (- to_signed 32 i)) else VInt i.

(** The optional sign. *)
Definition parse_minus : Scan bool :=
  c ← s_Peek; if Ascii.eqb c "-" then _ ← s_Take; mret true else mret false.

(** The end of [ParseNumber]: [d *= Pow10(exp + expFrac)], or the integer. *)
Definition number_event (minus try64bit useDouble : bool) (i i64 : Z) (d : double) (e : Z)
  : Scan value :=
  if useDouble then
    p ← lift (Pow10 e);
    let d := SFmul 53 1024 d p in
    mret (VDouble (double_text (if minus then SFopp d else d)))
  else mret (integer_event minus try64bit i i64).

(** [ParseNumber] on its copy of the stream, after the sign and as a whole. *)
Definition parse_unsigned (minus : bool) : Scan value :=
  int ← parse_int minus;
  let '(i, try64bit) := (int : Z * bool) in
  int64 ← (if try64bit then digits64 minus i else mret (0%Z, false));
  let '(i64, useDouble) := (int64 : Z * bool) in
  d ← (if useDouble then big_digits (double_of_Z i64) else mret (S754_zero false));
  let whole := double_of_Z (if try64bit then i64 else i) in
  frac ← parse_frac useDouble d whole;
  let '(d, useDouble, expFrac) := (frac : double * bool * Z) in
  e ← parse_exp useDouble d whole;
  let '(d, useDouble, exp) := (e : double * bool * Z) in
  number_event minus try64bit useDouble i i64 d (exp + expFrac)%Z.

Definition parse_number : Scan value := minus ← parse_minus; parse_unsigned minus.

(** ** The reader and the document it builds

    [values] is the stack of [GenericDocument], the top first; an object that is
    read is under its names and values. *)
Record Reader := mkReader { input : stream; values : list value }.
Abbreviation R := (M Reader).

(** A function that works on a local copy of the stream, which it restores when
    it is done. *)
Definition on_input {A} (m : Scan A) : R A := fun r =>
  let '(a, s) := m (input r) in
  (a, mkReader (if is_ret a then s else input r) (values r)).

Definition Peek : R ascii := on_input s_Peek.
Definition Take : R ascii := on_input s_Take.
Definition SkipWhitespace : R unit := on_input skip_whitespace.

Definition r_assert (c : ascii) : R unit :=
  c' ← Peek; if Ascii.eqb c' c then mret tt else terminate.

(** [Push] and [Pop] of the stack, and the handler functions. *)
Definition push_value (v : value) : R unit :=
  modify (fun r => mkReader (input r) (v :: values r)).

Definition pop_values (n : nat) : R (list value) := fun r =>
  if decide (n <= length (values r))
  then (Ret (rev (take n (values r))), mkReader (input r) (drop n (values r)))
  else (Terminated, r).

Definition set_top (v : value) : R unit := fun r =>
  match values r with
  | _ :: vs => (Ret tt, mkReader (input r) (v :: vs))
  | [] => (Terminated, r)
  end.

(** [Member] is a name and a value side by side. *)
Fixpoint as_members (l : list value) : result (list (string * value)) :=
  match l with
  | [] => Ret []
  | VString n :: v :: l' => ms ← as_members l'; Ret ((n, v) :: ms)
  | _ => Terminated
  end.

Definition doc_StartObject : R unit := push_value (VObject []).
Definition doc_EndObject (memberCount : nat) : R unit :=
  l ← pop_values (2 * memberCount);
  members ← lift (as_members l);
  set_top (VObject members).
Definition doc_StartArray : R unit := push_value (VArray []).
Definition doc_EndArray (elementCount : nat) : R unit :=
  elements ← pop_values elementCount;
  set_top (VArray elements).

(** [s.Take() == x && ...], which stops at the first difference. *)
Fixpoint take_all (l : list ascii) : Scan bool :=
  match l with
  | [] => mret true
  | x :: l' => c ← s_Take; if Ascii.eqb c x then take_all l' else mret false
  end.

Definition ParseLiteral (c : ascii) (rest : string) (v : value) : R unit :=
  _ ← r_assert c;
  _ ← Take;
  b ← on_input (take_all (chars rest));
  if (b : bool) then push_value v else parse_error "Invalid value".

Definition ParseNull : R unit := ParseLiteral "n" "ull" VNull.
Definition ParseTrue : R unit := ParseLiteral "t" "rue" (VBool true).
Definition ParseFalse : R unit := ParseLiteral "f" "alse" (VBool false).

Definition ParseString : R unit :=
  _ ← r_assert "034";
  buf ← on_input (_ ← s_Take; s ← get; string_loop (length (s : stream)) []);
  push_value (VString (unchars buf)).

Definition ParseNumber : R unit := v ← on_input parse_number; push_value v.

(** [ParseValue], [ParseObject] and [ParseArray] with their loops; the fuel is
    that of the recursion. *)
Fixpoint ParseValue (fuel : nat) : R unit :=
  match fuel with
  | 0 => terminate
  | S fuel' =>
    c ← Peek;
    if Ascii.eqb c "n" then ParseNull
    else if Ascii.eqb c "t" then ParseTrue
    else if Ascii.eqb c "f" then ParseFalse
    else if Ascii.eqb c "034" then ParseString
    else if Ascii.eqb c "{" then ParseObject fuel'
    else if Ascii.eqb c "[" then ParseArray fuel'
    else ParseNumber
  end
with ParseObject (fuel : nat) : R unit :=
  match fuel with
  | 0 => terminate
  | S fuel' =>
    _ ← r_assert "{";
    _ ← Take;
    _ ← doc_StartObject;
    _ ← SkipWhitespace;
    c ← Peek;
    if Ascii.eqb c "}" then _ ← Take; doc_EndObject 0 else object_loop fuel' 0
  end
with object_loop (fuel : nat) (memberCount : nat) : R unit :=
  match fuel with
  | 0 => terminate
  | S fuel' =>
    c ← Peek;
    if negb (Ascii.eqb c "034") then parse_error "Name of an object member must be a string" else
    _ ← ParseString;
    _ ← SkipWhitespace;
    c ← Take;
    if negb (Ascii.eqb c ":") then
      parse_error "There must be a colon after the name of object member" else
    _ ← SkipWhitespace;
    _ ← ParseValue fuel';
    _ ← SkipWhitespace;
    c ← Take;
    if Ascii.eqb c "," then _ ← SkipWhitespace; object_loop fuel' (S memberCount)
    else if Ascii.eqb c "}" then doc_EndObject (S memberCount)
    else parse_error "Must be a comma or '}' after an object member"
  end
with ParseArray (fuel : nat) : R unit :=
  match fuel with
  | 0 => terminate
  | S fuel' =>
    _ ← r_assert "[";
    _ ← Take;
    _ ← doc_StartArray;
    _ ← SkipWhitespace;
    c ← Peek;
    if Ascii.eqb c "]" then _ ← Take; doc_EndArray 0 else array_loop fuel' 0
  end
with array_loop (fuel : nat) (elementCount : nat) : R unit :=
  match fuel with
  | 0 => terminate
  | S fuel' =>
    _ ← ParseValue fuel';
    _ ← SkipWhitespace;
    c ← Take;
    if Ascii.eqb c "," then _ ← SkipWhitespace; array_loop fuel' (S elementCount)
    else if Ascii.eqb c "]" then doc_EndArray (S elementCount)
    else parse_error "Must be a comma or ']' after an array element."
  end.

(** [GenericReader::Parse]: what follows the root, the part between [setjmp]
    and the end, and the whole; [setjmp] returns a second time after an error. *)
Definition root_end : R bool :=
  _ ← SkipWhitespace;
  c ← Peek;
  if negb (Ascii.eqb c nul) then parse_error "Nothing should follow the root object or array."
  else mret true.

Definition parse_root (fuel : nat) : R bool :=
  _ ← SkipWhitespace;
  c ← Peek;
  if Ascii.eqb c nul then parse_error "Text only contains white space(s)" else
  _ ← (if Ascii.eqb c "{" then ParseObject fuel
       else if Ascii.eqb c "[" then ParseArray fuel
       else parse_error "Expect either an object or array at root");
  root_end.

Definition Parse (fuel : nat) : R bool := try_catch (parse_root fuel) (fun _ => mret false).

(** [GenericDocument::Parse<0>]: [None] is a parse error. *)
Definition ParseStream (s : stream) : result (option value) :=
  match Parse (3 * length s) (mkReader s []) with
  | (Ret true, r) =>
    match values r with
    | [v] => Ret (Some v)
    | _ => Terminated
    end
  | (Ret false, _) => Ret None
  | (Throw e, _) => Throw e
  | (Terminated, _) => Terminated
  end.

Definition Document_Parse (str : string) : result (option value) :=
  ParseStream (chars (c_str str) ++ [nul]).

(** ** Every text is read within its bounds

    [ends s]: the stream still holds the NUL that terminates the text. *)
Section Bounds.
#[local] Opaque power_of_10 times_10_plus.

Definition ends (s : stream) : Prop := last s = Some nul.

Lemma ends_cons c s : ends (c :: s) -> c <> nul -> ends s.
Proof. unfold ends. destruct s; simpl; congruence. Qed.

Lemma ends_inv s : ends s -> exists c s', s = c :: s'.
Proof. destruct s as [|c s]; [done|]. eauto. Qed.

(** A scan that returns has moved forward, not behind the NUL. *)
Definition scanned {A} (s : stream) (P : A -> Prop) (r : result A) (s' : stream) : Prop :=
  match r with
  | Ret a => ends s' /\ length s' <= length s /\ P a
  | Throw _ => True
  | Terminated => False
  end.

Definition scans {A} (m : Scan A) (P : A -> Prop) : Prop :=
  forall s, ends s -> wp m (scanned s P) s.

Lemma scanned_ret {A} s s' (P : A -> Prop) a :
  ends s' -> length s' <= length s -> P a -> scanned s P (Ret a) s'.
Proof. done. Qed.

Lemma scans_ret {A} (a : A) (P : A -> Prop) : P a -> scans (mret a) P.
Proof. intros HP s Hs. by split. Qed.

Lemma scans_error {A} msg (P : A -> Prop) : scans (parse_error msg) P.
Proof. done. Qed.

Lemma scans_weaken {A} (m : Scan A) (P P' : A -> Prop) :
  scans m P -> (forall a, P a -> P' a) -> scans m P'.
Proof.
  intros Hm HP s Hs. eapply wp_mono; [by apply Hm|]. intros [a|e|] s'; simpl; naive_solver.
Qed.

Lemma wp_shorter {A} (m : Scan A) (P : A -> Prop) s s' :
  wp m (scanned s' P) s' -> length s' <= length s -> wp m (scanned s P) s'.
Proof.
  intros Hm Hl. eapply wp_mono; [exact Hm|]. intros [a|e|] t; simpl; [|done..].
  intros (? & ? & ?). split; [done|]. split; [lia|done].
Qed.

Lemma scans_shorter {A} (m : Scan A) (P : A -> Prop) s s' :
  scans m P -> ends s' -> length s' <= length s -> wp m (scanned s P) s'.
Proof. intros Hm Hs. by apply wp_shorter, Hm. Qed.

Lemma scanned_bind {A B} (m : Scan A) (k : A -> Scan B) P Q s s' :
  wp m (scanned s P) s' -> (forall a, P a -> scans (k a) Q) -> wp (m ≫= k) (scanned s Q) s'.
Proof.
  intros Hm Hk. apply wp_bind. eapply wp_mono; [exact Hm|].
  intros [a|e|] t; simpl; [|done..]. intros (? & ? & ?). by apply scans_shorter; [apply Hk|..].
Qed.

Lemma scans_bind {A B} (m : Scan A) (k : A -> Scan B) P Q :
  scans m P -> (forall a, P a -> scans (k a) Q) -> scans (m ≫= k) Q.
Proof. intros Hm Hk s Hs. eapply scanned_bind; [by apply Hm|done]. Qed.

(** A peek, after which the rest is known to begin with the byte. *)
Lemma scans_peek {A} (k : ascii -> Scan A) P :
  (forall c s, ends (c :: s) -> wp (k c) (scanned (c :: s) P) (c :: s)) -> scans (s_Peek ≫= k) P.
Proof. intros Hk s Hs. destruct (ends_inv s Hs) as (c & s' & ->). apply wp_bind. by apply Hk. Qed.

(** Taking a byte that is not the NUL. *)
Lemma wp_take {A} (k : ascii -> Scan A) P c s :
  ends (c :: s) -> c <> nul -> scans (k c) P -> wp (s_Take ≫= k) (scanned (c :: s) P) (c :: s).
Proof.
  intros Hs Hc Hk. apply wp_bind. simpl. apply scans_shorter; [done|by eapply ends_cons|simpl; lia].
Qed.

(** Taking any byte: what follows has to refuse the NUL. *)
Lemma scans_take {A} (k : ascii -> Scan A) P :
  (forall c, c <> nul -> scans (k c) P) -> (forall s, wp (k nul) (fun r _ => exists e, r = Throw e) s) ->
  scans (s_Take ≫= k) P.
Proof.
  intros Hk Hn s Hs. destruct (ends_inv s Hs) as (c & s' & ->).
  destruct (decide (c = nul)) as [->|Hc]; [|apply wp_take; auto].
  change (wp (k nul) (scanned (nul :: s') P) s'). eapply wp_mono; [apply Hn|].
  by intros r t [e ->].
Qed.

Lemma digit_range c d : digit_of c = Some d -> (0 <= d <= 9)%Z.
Proof. unfold digit_of. case_decide; [|done]. intros [= <-]. lia. Qed.

Lemma digit_not_nul c d : digit_of c = Some d -> c <> nul.
Proof. by intros H ->. Qed.

(** The loops over a class of bytes without the NUL. *)
Lemma scans_loop {A B} (loop : A -> Scan B) (P : B -> Prop) :
  (forall a c s, ends (c :: s) -> (forall a', ends s -> wp (loop a') (scanned s P) s) ->
     wp (loop a) (scanned (c :: s) P) (c :: s)) ->
  forall a, scans (loop a) P.
Proof.
  intros Hstep a s. revert a. induction s as [|c s IH]; intros a Hs; [done|]. by apply Hstep; eauto.
Qed.

Lemma skip_whitespace_ok s :
  ends s -> exists s', skip_whitespace s = (Ret tt, s') /\ ends s' /\ length s' <= length s.
Proof.
  induction s as [|c s IH]; intros Hs; [done|]. simpl.
  destruct (whitespace c) eqn:Hw; [|by eexists].
  destruct IH as (s' & -> & ? & ?); [apply (ends_cons c); [done|by intros ->]|].
  exists s'. repeat split; [done|lia].
Qed.

Lemma digit_loop_step {A} (m : Scan A) (P : A -> Prop) c d s :
  digit_of c = Some d -> ends (c :: s) -> (ends s -> wp m (scanned s P) s) ->
  wp m (scanned (c :: s) P) s.
Proof.
  intros Hd Hs Hm. apply wp_shorter; [|simpl; lia]. apply Hm, (ends_cons c); [done|].
  by eapply digit_not_nul.
Qed.

Lemma int_digits_scans w limit last i : scans (int_digits w limit last i) (fun _ => True).
Proof.
  apply scans_loop. clear i. intros i c s Hs IH. unfold wp. simpl.
  destruct (digit_of c) as [d|] eqn:Hd; [|by split]. case_decide; [by split|].
  by eapply (digit_loop_step (int_digits _ _ _ _)); eauto.
Qed.

Lemma big_digits_scans d : scans (big_digits d) (fun _ => True).
Proof.
  apply scans_loop. clear d. intros d c s Hs IH. unfold wp. simpl.
  destruct (digit_of c) as [v|] eqn:Hd; [|by split]. destruct (SFleb _ _); [done|].
  by eapply (digit_loop_step (big_digits _)); eauto.
Qed.

(** The exponents stay below what [Pow10] asserts. *)
Lemma frac_digits_scans d e :
  (-16 <= e <= 0)%Z -> scans (frac_digits d e) (fun r => (-16 <= r.2 <= 0)%Z).
Proof.
  intros He s. revert d e He. induction s as [|c s IH]; intros d e He Hs; [done|].
  unfold wp. simpl. destruct (digit_of c) as [v|] eqn:Hd; [|by split].
  case_decide.
  - apply (digit_loop_step (frac_digits (times_10_plus d v) (e - 1)) _ c v); [done..|].
    apply IH. lia.
  - by apply (digit_loop_step (frac_digits d e) _ c v); [done..|apply IH].
Qed.

Lemma exp_digits_scans e :
  (0 <= e <= 308)%Z -> scans (exp_digits e) (fun r => (0 <= r <= 308)%Z).
Proof.
  intros He s. revert e He. induction s as [|c s IH]; intros e He Hs; [done|].
  unfold wp. simpl. destruct (digit_of c) as [v|] eqn:Hd; [|by split]. case_decide; [done|].
  apply (digit_loop_step (exp_digits (e * 10 + v)) _ c v); [done..|]. apply IH.
  apply digit_range in Hd. lia.
Qed.

Lemma parse_minus_scans : scans parse_minus (fun _ => True).
Proof.
  apply scans_peek. intros c s Hs. destruct (Ascii.eqb_spec c "-") as [->|]; [|by split].
  apply wp_take; [done..|]. by apply scans_ret.
Qed.

Lemma parse_int_scans minus : scans (parse_int minus) (fun _ => True).
Proof.
  apply scans_peek. intros c s Hs. destruct (Ascii.eqb_spec c "0") as [->|].
  { apply wp_take; [done..|]. by apply scans_ret. }
  destruct (digit_of c) as [d|] eqn:Hd; [|done]. apply wp_take; [done|by eapply digit_not_nul|].
  unfold digits32. destruct minus; apply int_digits_scans.
Qed.

Lemma parse_frac_scans b d w : scans (parse_frac b d w) (fun r => (-16 <= r.2 <= 0)%Z).
Proof.
  apply scans_peek. intros c s Hs. destruct (Ascii.eqb_spec c ".") as [->|]; [|by split].
  apply wp_take; [done..|]. apply scans_peek. clear s Hs. intros c s Hs.
  destruct (digit_of c) as [v|] eqn:Hd; [|done].
  apply wp_take; [done|by eapply digit_not_nul|].
  eapply scans_bind; [by apply frac_digits_scans|]. intros r Hr. by apply scans_ret.
Qed.

Lemma parse_exp_scans b d w : scans (parse_exp b d w) (fun r => (r.2 <= 308)%Z).
Proof.
  apply scans_peek. intros c s Hs.
  destruct (Ascii.eqb c "e" || Ascii.eqb c "E") eqn:He; [|by split].
  apply wp_take; [done|by intros ->|]. apply scans_peek. clear s Hs He c. intros c s Hs.
  apply (scanned_bind _ _ (fun _ => True)).
  { destruct (Ascii.eqb_spec c "+") as [->|]; [apply wp_take; [done..|by apply scans_ret]|].
    destruct (Ascii.eqb_spec c "-") as [->|]; [apply wp_take; [done..|by apply scans_ret]|by split]. }
  intros m _. apply scans_peek. clear s Hs c. intros c s Hs.
  destruct (digit_of c) as [v|] eqn:Hd; [|done]. apply wp_take; [done|by eapply digit_not_nul|].
  apply digit_range in Hd. eapply scans_bind; [apply exp_digits_scans; lia|].
  intros e [He1 He2]. apply scans_ret. simpl. destruct m; lia.
Qed.

Lemma number_event_scans minus t u i i64 d e :
  (e <= 308)%Z -> scans (number_event minus t u i i64 d e) (fun _ => True).
Proof.
  intros He s Hs. unfold number_event. destruct u; [|by split].
  unfold Pow10. rewrite decide_False by lia. by case_decide; split.
Qed.

Lemma parse_number_scans : scans parse_number (fun _ => True).
Proof.
  eapply scans_bind; [apply parse_minus_scans|]. intros minus _.
  eapply scans_bind; [apply parse_int_scans|]. intros [i try64bit] _.
  eapply (scans_bind _ _ (fun _ => True)).
  { destruct try64bit; [|by apply scans_ret]. unfold digits64. destruct minus; apply int_digits_scans. }
  intros [i64 useDouble] _. eapply (scans_bind _ _ (fun _ => True)).
  { destruct useDouble; [apply big_digits_scans|by apply scans_ret]. }
  intros d _. eapply scans_bind; [apply parse_frac_scans|]. intros [[d2 u2] ef] Hf.
  eapply scans_bind; [apply parse_exp_scans|]. intros [[d3 u3] ex] He. simpl in *.
  apply number_event_scans. lia.
Qed.

Lemma hex_value_range c v : hex_value c = Some v -> c <> nul /\ (0 <= v <= 15)%Z.
Proof.
  intros H. split; [by intros ->|]. unfold hex_value in H. cbv zeta in H. repeat case_decide; simplify_eq; lia.
Qed.

Lemma hex_digits_scans n cp b :
  (0 <= cp < b)%Z -> scans (hex_digits n cp) (fun r => 0 <= r < b * 16 ^ Z.of_nat n)%Z.
Proof.
  revert cp b. induction n as [|n IH]; intros cp b Hb; [apply scans_ret; lia|].
  apply scans_take; [|by eexists]. intros c Hc.
  destruct (hex_value c) as [v|] eqn:Hv; [|done]. apply hex_value_range in Hv as [_ Hv].
  eapply scans_weaken; [apply (IH _ (b * 16)%Z)|].
  - rewrite Z.shiftl_mul_pow2 by lia. lia.
  - cbn beta. intros r Hr. by rewrite Nat2Z.inj_succ, Z.pow_succ_r, Z.mul_assoc by lia.
Qed.

Lemma ParseHex4_scans : scans ParseHex4 (fun r => 0 <= r <= 0xFFFF)%Z.
Proof.
  eapply scans_weaken; [apply (hex_digits_scans 4 0 1); lia|]. cbn beta. intros r Hr.
  change (1 * 16 ^ Z.of_nat 4)%Z with 65536%Z in Hr. lia.
Qed.

(** A surrogate pair stays within the planes of Unicode. *)
Lemma surrogate_bound a b :
  (0 <= a <= 1023)%Z -> (0 <= b <= 1023)%Z ->
  (0 <= Z.lor (Z.shiftl a 10) b + 0x10000 <= 0x10FFFF)%Z.
Proof.
  intros Ha Hb. rewrite Z.shiftl_mul_pow2 by lia. change (2 ^ 10)%Z with 1024%Z.
  pose proof (Z.add_lor_land (a * 1024) b) as H.
  assert (0 <= Z.land (a * 1024) b)%Z by (apply Z.land_nonneg; lia).
  assert (0 <= Z.lor (a * 1024) b)%Z by (apply Z.lor_nonneg; lia). lia.
Qed.

Lemma unicode_escape_scans : scans unicode_escape (fun r => 0 <= r <= 0x10FFFF)%Z.
Proof.
  eapply scans_bind; [apply ParseHex4_scans|]. cbn beta. intros cp Hcp.
  case_decide as Hd; [|by apply scans_ret; lia].
  apply scans_take; [|by eexists]. intros b _. destruct (negb _); [done|].
  apply scans_take; [|by eexists]. intros u _. destruct (negb _); [done|].
  eapply scans_bind; [apply ParseHex4_scans|]. cbn beta. intros cp2 Hcp2. case_decide; [done|].
  apply scans_ret, surrogate_bound; lia.
Qed.

Lemma Encode_total cp : (cp <= 0x10FFFF)%Z -> exists bs, Encode cp = Ret bs.
Proof. intros H. unfold Encode. repeat case_decide; try lia; by eexists. Qed.

Lemma wp_take_step {A} (k : ascii -> Scan A) Q c s : wp (k c) Q s -> wp (s_Take ≫= k) Q (c :: s).
Proof. done. Qed.

Lemma wp_get_step {A} (k : stream -> Scan A) Q s : wp (k s) Q s -> wp (get ≫= k) Q s.
Proof. done. Qed.

Lemma unescape_not_nul e x : unescape e = Some x -> e <> nul.
Proof. by intros H ->. Qed.

Lemma string_loop_scans fuel buf s :
  ends s -> length s <= fuel -> wp (string_loop fuel buf) (scanned s (fun _ => True)) s.
Proof.
  revert buf s. induction fuel as [|fuel IH]; intros buf s Hs Hf.
  { destruct (ends_inv s Hs) as (c & s' & ->). simpl in Hf. lia. }
  destruct (ends_inv s Hs) as (c & s' & ->). simpl in Hf. cbn [string_loop]. apply wp_take_step.
  assert (Hnext : forall buf t, ends t -> length t <= length s' ->
    wp (string_loop fuel buf) (scanned (c :: s') (fun _ => True)) t).
  { intros buf' t Ht Hl. apply wp_shorter; [apply IH; [done|lia]|simpl; lia]. }
  destruct (Ascii.eqb_spec c "\") as [->|].
  - apply ends_cons in Hs; [|done]. destruct (ends_inv s' Hs) as (e & t & ->). apply wp_take_step.
    destruct (unescape e) as [x|] eqn:He.
    { apply Hnext; [|simpl; lia]. eapply ends_cons; [done|by eapply unescape_not_nul]. }
    destruct (Ascii.eqb_spec e "u") as [->|]; [|done].
    apply ends_cons in Hs; [|done]. apply wp_bind. eapply wp_mono; [by apply unicode_escape_scans|].
    intros [cp|er|] t'; simpl; [|done..]. intros (Ht & Hl & Hcp).
    destruct (Encode_total cp) as [bs Hbs]; [lia|]. rewrite Hbs. apply wp_bind, wp_lift. simpl.
    apply Hnext; [done|simpl; lia].
  - destruct (Ascii.eqb_spec c "034") as [->|].
    { split; [by eapply ends_cons|]. simpl. auto. }
    destruct (Ascii.eqb_spec c nul) as [->|]; [done|]. case_decide; [done|].
    apply Hnext; [by eapply ends_cons|lia].
Qed.

(** A literal: the stream is ahead of its start, and still has the NUL when all
    the bytes were there. *)
Lemma take_all_ok l s :
  nul ∉ l -> ends s ->
  wp (take_all l) (fun r s' => match r with
    | Ret true => ends s' /\ length s' <= length s | Ret false => True | _ => False end) s.
Proof.
  revert s. induction l as [|x l IH]; intros s Hl Hs; [by split|].
  apply not_elem_of_cons in Hl as [Hx Hl].
  destruct (ends_inv s Hs) as (c & s' & ->). cbn [take_all]. apply wp_take_step.
  destruct (Ascii.eqb_spec c x) as [->|]; [|done].
  eapply wp_mono; [apply IH; [done|by eapply ends_cons]|].
  intros [[]|e|] t; simpl; [|done..]. intros [? ?]. split; [done|lia].
Qed.

(** The functions on the reader: they push one value and keep the NUL. *)
Definition pushed (s : stream) (vs : list value) (P : value -> Prop)
  (r : result unit) (rd : Reader) : Prop :=
  match r with
  | Ret _ => ends (input rd) /\ length (input rd) <= length s /\
             exists v, values rd = v :: vs /\ P v
  | Throw _ => True
  | Terminated => False
  end.

Lemma wp_pushed_shorter (m : R unit) s s' vs P rd :
  wp m (pushed s' vs P) rd -> length s' <= length s -> wp m (pushed s vs P) rd.
Proof.
  intros Hm Hl. eapply wp_mono; [exact Hm|]. intros [[]|e|] rd'; simpl; [|done..].
  intros (? & ? & ?). split; [done|]. split; [lia|done].
Qed.

Lemma wp_on_input {A} (m : Scan A) Q s vs :
  wp m (fun a s' => Q a (mkReader (if is_ret a then s' else s) vs)) s ->
  wp (on_input m) Q (mkReader s vs).
Proof. unfold wp, on_input. simpl. by destruct (m s) as [a s']. Qed.

Lemma wp_Peek {A} (k : ascii -> R A) Q c s vs :
  wp (k c) Q (mkReader (c :: s) vs) -> wp (Peek ≫= k) Q (mkReader (c :: s) vs).
Proof. done. Qed.

Lemma wp_Take {A} (k : ascii -> R A) Q c s vs :
  wp (k c) Q (mkReader s vs) -> wp (Take ≫= k) Q (mkReader (c :: s) vs).
Proof. done. Qed.

Lemma wp_r_assert {A} (k : unit -> R A) Q c s vs :
  wp (k tt) Q (mkReader (c :: s) vs) -> wp (r_assert c ≫= k) Q (mkReader (c :: s) vs).
Proof.
  intros H. apply wp_bind. unfold r_assert. apply wp_Peek. by rewrite Ascii.eqb_refl.
Qed.

Lemma wp_SkipWhitespace {A} (k : unit -> R A) Q s vs :
  ends s -> (forall s', ends s' -> length s' <= length s -> wp (k tt) Q (mkReader s' vs)) ->
  wp (SkipWhitespace ≫= k) Q (mkReader s vs).
Proof.
  intros Hs Hk. destruct (skip_whitespace_ok s Hs) as (s' & Hr & Hs' & Hl).
  apply wp_bind, wp_on_input. unfold wp. rewrite Hr. by apply Hk.
Qed.

Lemma ParseLiteral_pushes c l v s vs :
  c <> nul -> nul ∉ chars l -> ends (c :: s) ->
  wp (ParseLiteral c l v) (pushed (c :: s) vs (fun _ => True)) (mkReader (c :: s) vs).
Proof.
  intros Hc Hl Hs. apply wp_r_assert, wp_Take, wp_bind, wp_on_input.
  eapply wp_mono; [apply take_all_ok; [done|by eapply ends_cons]|].
  intros [[]|e|] t; simpl; [|done..]. intros [? ?]. split; [done|]. simpl. eauto.
Qed.

Lemma ParseNumber_pushes s vs :
  ends s -> wp ParseNumber (pushed s vs (fun _ => True)) (mkReader s vs).
Proof.
  intros Hs. apply wp_bind, wp_on_input. eapply wp_mono; [by apply parse_number_scans|].
  intros [v|e|] t; simpl; [|done..]. intros (? & ? & _). split; [done|]. simpl. eauto.
Qed.

Definition is_string (v : value) : Prop := exists n, v = VString n.

Lemma ParseString_pushes s vs :
  ends ("034"%char :: s) ->
  wp ParseString (pushed s vs is_string) (mkReader ("034"%char :: s) vs).
Proof.
  intros Hs. apply wp_r_assert, wp_bind, wp_on_input. apply wp_take_step. apply ends_cons in Hs; [|done].
  apply wp_get_step. eapply wp_mono; [by apply string_loop_scans|].
  intros [buf|e|] t; simpl; [|done..]. intros (? & ? & _). split; [done|]. split; [done|].
  eexists. split; [done|]. by eexists.
Qed.

(** The names and values of an object that is read, as they lie on the stack. *)
Definition flat (ms : list (string * value)) : list value :=
  flat_map (fun m => [VString m.1; m.2]) ms.

Lemma flat_length ms : length (flat ms) = 2 * length ms.
Proof. induction ms as [|m ms IH]; simpl in *; lia. Qed.

Lemma flat_snoc ms n v : rev (flat (ms ++ [(n, v)])) = v :: VString n :: rev (flat ms).
Proof. unfold flat. rewrite flat_map_app, rev_app_distr. done. Qed.

Lemma as_members_flat ms : as_members (flat ms) = Ret ms.
Proof.
  induction ms as [|[n v] ms IH]; [done|]. unfold flat in *. simpl. by rewrite IH.
Qed.

Lemma pop_rev l v0 s vs :
  pop_values (length l) (mkReader s (rev l ++ v0 :: vs)) = (Ret l, mkReader s (v0 :: vs)).
Proof.
  unfold pop_values. simpl. rewrite decide_True by (rewrite length_app, length_rev; lia).
  rewrite <- (length_rev l), take_app_length, drop_app_length. by rewrite rev_involutive.
Qed.

Lemma doc_EndObject_ok ms v0 s vs :
  doc_EndObject (length ms) (mkReader s (rev (flat ms) ++ v0 :: vs)) =
    (Ret tt, mkReader s (VObject ms :: vs)).
Proof.
  unfold doc_EndObject. rewrite <- flat_length. erewrite bind_step by apply pop_rev.
  unfold lift. rewrite as_members_flat. reflexivity.
Qed.

Lemma doc_EndArray_ok l v0 s vs :
  doc_EndArray (length l) (mkReader s (rev l ++ v0 :: vs)) = (Ret tt, mkReader s (VArray l :: vs)).
Proof. unfold doc_EndArray. by erewrite bind_step by apply pop_rev. Qed.

Definition is_object (v : value) : Prop := exists ms, v = VObject ms.
Definition is_array (v : value) : Prop := exists l, v = VArray l.

(** Values, objects, arrays and the loops, for a given fuel. *)
Definition value_pushes (fuel : nat) : Prop := forall s vs,
  ends s -> 3 * length s <= fuel ->
  wp (ParseValue fuel) (pushed s vs (fun _ => True)) (mkReader s vs).
Definition object_pushes (fuel : nat) : Prop := forall s vs,
  ends ("{"%char :: s) -> 3 * length s + 2 <= fuel ->
  wp (ParseObject fuel) (pushed ("{"%char :: s) vs is_object) (mkReader ("{"%char :: s) vs).
Definition object_loop_pushes (fuel : nat) : Prop := forall ms s vs,
  ends s -> 3 * length s + 1 <= fuel ->
  wp (object_loop fuel (length ms)) (pushed s vs is_object)
    (mkReader s (rev (flat ms) ++ VObject [] :: vs)).
Definition array_pushes (fuel : nat) : Prop := forall s vs,
  ends ("["%char :: s) -> 3 * length s + 2 <= fuel ->
  wp (ParseArray fuel) (pushed ("["%char :: s) vs is_array) (mkReader ("["%char :: s) vs).
Definition array_loop_pushes (fuel : nat) : Prop := forall l s vs,
  ends s -> 3 * length s + 1 <= fuel ->
  wp (array_loop fuel (length l)) (pushed s vs is_array) (mkReader s (rev l ++ VArray [] :: vs)).

Lemma wp_value {A} fuel (k : unit -> R A) Q s vs :
  value_pushes fuel -> ends s -> 3 * length s <= fuel ->
  (forall s' v, ends s' -> length s' <= length s -> wp (k tt) Q (mkReader s' (v :: vs))) ->
  (forall e rd, Q (Throw e) rd) ->
  wp (ParseValue fuel ≫= k) Q (mkReader s vs).
Proof.
  intros HV Hs Hf Hk He. apply wp_bind. eapply wp_mono; [by apply HV|].
  intros [[]|e|] [t vs']; simpl; [|by intros|done]. intros (Ht & Hl & v & -> & _). by apply Hk.
Qed.

Lemma object_loop_step fuel :
  value_pushes fuel -> object_loop_pushes fuel -> object_loop_pushes (S fuel).
Proof.
  intros HV HL ms s vs Hs Hf. destruct (ends_inv s Hs) as (c & s0 & ->). simpl in Hf.
  cbn [object_loop]. apply wp_Peek. destruct (Ascii.eqb_spec c "034") as [->|]; [simpl negb|done].
  cbn [negb]. apply wp_bind. eapply wp_mono; [by apply ParseString_pushes|].
  intros [[]|e|] [t vs']; simpl; [|done..]. intros (Ht & Hl & v & -> & n & ->).
  apply wp_SkipWhitespace; [done|]. intros t1 Ht1 Hl1. destruct (ends_inv t1 Ht1) as (c & t2 & ->).
  apply wp_Take. destruct (Ascii.eqb_spec c ":") as [->|]; [cbn [negb]|done].
  apply ends_cons in Ht1; [|done]. simpl in Hl1. apply wp_SkipWhitespace; [done|]. intros t3 Ht3 Hl3.
  apply wp_value; [done|done|lia| |done]. intros t4 v Ht4 Hl4.
  apply wp_SkipWhitespace; [done|]. intros t5 Ht5 Hl5. destruct (ends_inv t5 Ht5) as (c & t6 & ->).
  simpl in Hl5. apply wp_Take.
  assert (Hst : v :: VString n :: rev (flat ms) ++ VObject [] :: vs =
                rev (flat (ms ++ [(n, v)])) ++ VObject [] :: vs) by by rewrite flat_snoc.
  assert (Hlen : S (length ms) = length (ms ++ [(n, v)])) by (rewrite length_app; simpl; lia).
  rewrite Hst, Hlen. destruct (Ascii.eqb_spec c ",") as [->|].
  - apply ends_cons in Ht5; [|done]. apply wp_SkipWhitespace; [done|]. intros t7 Ht7 Hl7.
    eapply wp_pushed_shorter; [apply HL; [done|lia]|simpl; lia].
  - destruct (Ascii.eqb_spec c "}") as [->|]; [|done]. apply ends_cons in Ht5; [|done].
    unfold wp. rewrite doc_EndObject_ok. split; [done|]. simpl. split; [lia|]. eexists. split; [done|].
    by eexists.
Qed.

Lemma array_loop_step fuel :
  value_pushes fuel -> array_loop_pushes fuel -> array_loop_pushes (S fuel).
Proof.
  intros HV HL l s vs Hs Hf. cbn [array_loop]. apply wp_value; [done|done|lia| |done].
  intros t v Ht Hl. apply wp_SkipWhitespace; [done|]. intros t5 Ht5 Hl5.
  destruct (ends_inv t5 Ht5) as (c & t6 & ->). simpl in Hl5. apply wp_Take.
  assert (Hst : v :: rev l ++ VArray [] :: vs = rev (l ++ [v]) ++ VArray [] :: vs)
    by by rewrite rev_app_distr.
  assert (Hlen : S (length l) = length (l ++ [v])) by (rewrite length_app; simpl; lia).
  rewrite Hst, Hlen. destruct (Ascii.eqb_spec c ",") as [->|].
  - apply ends_cons in Ht5; [|done]. apply wp_SkipWhitespace; [done|]. intros t7 Ht7 Hl7.
    eapply wp_pushed_shorter; [apply HL; [done|lia]|simpl; lia].
  - destruct (Ascii.eqb_spec c "]") as [->|]; [|done]. apply ends_cons in Ht5; [|done].
    unfold wp. rewrite doc_EndArray_ok. split; [done|]. simpl. split; [lia|]. eexists. split; [done|].
    by eexists.
Qed.

Lemma object_step fuel : object_loop_pushes fuel -> object_pushes (S fuel).
Proof.
  intros HL s vs Hs Hf. cbn [ParseObject]. apply wp_r_assert, wp_Take. apply ends_cons in Hs; [|done].
  apply wp_bind, wp_modify. cbn [seq_post input values]. apply wp_SkipWhitespace; [done|]. intros t Ht Hl.
  destruct (ends_inv t Ht) as (c & t' & ->). apply wp_Peek.
  destruct (Ascii.eqb_spec c "}") as [->|].
  - apply wp_Take. split; [by eapply ends_cons|]. simpl in *. split; [lia|].
    eexists. split; [done|]. by eexists.
  - apply (wp_pushed_shorter _ _ (c :: t')); [|simpl in *; lia].
    apply (HL [] (c :: t')); [done|lia].
Qed.

Lemma array_step fuel : array_loop_pushes fuel -> array_pushes (S fuel).
Proof.
  intros HL s vs Hs Hf. cbn [ParseArray]. apply wp_r_assert, wp_Take. apply ends_cons in Hs; [|done].
  apply wp_bind, wp_modify. cbn [seq_post input values]. apply wp_SkipWhitespace; [done|]. intros t Ht Hl.
  destruct (ends_inv t Ht) as (c & t' & ->). apply wp_Peek.
  destruct (Ascii.eqb_spec c "]") as [->|].
  - apply wp_Take. split; [by eapply ends_cons|]. simpl in *. split; [lia|].
    eexists. split; [done|]. by eexists.
  - apply (wp_pushed_shorter _ _ (c :: t')); [|simpl in *; lia].
    apply (HL [] (c :: t')); [done|lia].
Qed.

Lemma pushed_any s vs P r rd : pushed s vs P r rd -> pushed s vs (fun _ => True) r rd.
Proof. destruct r as [[]|e|]; simpl; naive_solver. Qed.

Lemma value_step fuel : object_pushes fuel -> array_pushes fuel -> value_pushes (S fuel).
Proof.
  intros HO HA s vs Hs Hf. destruct (ends_inv s Hs) as (c & t & ->). simpl in Hf.
  cbn [ParseValue]. apply wp_Peek.
  destruct (Ascii.eqb_spec c "n") as [->|]; [by apply ParseLiteral_pushes; [|apply nul_free_lit|]|].
  destruct (Ascii.eqb_spec c "t") as [->|]; [by apply ParseLiteral_pushes; [|apply nul_free_lit|]|].
  destruct (Ascii.eqb_spec c "f") as [->|]; [by apply ParseLiteral_pushes; [|apply nul_free_lit|]|].
  destruct (Ascii.eqb_spec c "034") as [->|].
  { eapply wp_mono; [by apply ParseString_pushes|]. intros r rd Hp. eapply (pushed_any _ _ is_string).
    destruct r as [[]|e|]; simpl in *; [|done..]. split; [apply Hp|]. split; [lia|apply Hp]. }
  destruct (Ascii.eqb_spec c "{") as [->|].
  { eapply wp_mono; [apply HO; [done|lia]|]. apply pushed_any. }
  destruct (Ascii.eqb_spec c "[") as [->|].
  { eapply wp_mono; [apply HA; [done|lia]|]. apply pushed_any. }
  by apply ParseNumber_pushes.
Qed.

Lemma parse_pushes fuel :
  value_pushes fuel /\ object_pushes fuel /\ object_loop_pushes fuel /\
  array_pushes fuel /\ array_loop_pushes fuel.
Proof.
  induction fuel as [|fuel (HV & HO & HOL & HA & HAL)].
  - unfold object_pushes, object_loop_pushes, array_pushes, array_loop_pushes.
    split; [|split; [|split; [|split]]]; try (by intros; lia). intros s vs Hs Hf.
    destruct s; [done|simpl in Hf; lia].
  - exact (conj (value_step _ HO HA) (conj (object_step _ HOL) (conj (object_loop_step _ HV HOL)
             (conj (array_step _ HAL) (array_loop_step _ HV HAL))))).
Qed.

(** The root. *)
Definition read_root (r : result bool) (rd : Reader) : Prop :=
  match r with
  | Ret b => b = true /\ exists v, values rd = [v] /\ root v = true
  | Throw _ => True
  | Terminated => False
  end.

Lemma wp_root_end s P r rd :
  pushed s [] P r rd -> (forall v, P v -> root v = true) ->
  seq_post (fun _ => root_end) read_root r rd.
Proof.
  intros Hp HP. destruct r as [[]|e|], rd as [t vs]; simpl in *; [|done..].
  destruct Hp as (Ht & _ & v & -> & Hv). apply wp_SkipWhitespace; [done|]. intros u Hu _.
  destruct (ends_inv u Hu) as (c & u' & ->). apply wp_Peek.
  destruct (Ascii.eqb c nul); [|done]. split; [done|]. exists v. auto.
Qed.

Lemma wp_parse_root fuel s :
  ends s -> 3 * length s <= fuel -> wp (parse_root fuel) read_root (mkReader s []).
Proof.
  intros Hs Hf. apply wp_SkipWhitespace; [done|]. intros t Ht Hl.
  destruct (ends_inv t Ht) as (c & t' & ->). apply wp_Peek. destruct (Ascii.eqb c nul); [done|].
  destruct (parse_pushes fuel) as (_ & HO & _ & HA & _). simpl in Hl. apply wp_bind.
  destruct (Ascii.eqb_spec c "{") as [->|];
    [|destruct (Ascii.eqb_spec c "[") as [->|]; [|done]].
  - eapply wp_mono; [apply HO; [done|lia]|]. intros r rd Hp.
    eapply wp_root_end; [exact Hp|]. by intros v [ms ->].
  - eapply wp_mono; [apply HA; [done|lia]|]. intros r rd Hp.
    eapply wp_root_end; [exact Hp|]. by intros v [l ->].
Qed.

Lemma ParseStream_total s :
  ends s -> exists o, ParseStream s = Ret o /\ forall v, o = Some v -> root v = true.
Proof.
  intros Hs. pose proof (wp_parse_root (3 * length s) s Hs (Nat.le_refl _)) as H.
  unfold wp in H. unfold ParseStream, Parse, try_catch.
  destruct (parse_root _ _) as [[b|e|] rd]; simpl in H; [|by exists None|done].
  destruct H as (-> & v & -> & Hv). exists (Some v). split; [done|]. by intros ? [= <-].
Qed.
End Bounds.

(** ** What the writer prints is read back *)
Section ReadBack.
#[local] Opaque power_of_10 times_10_plus.

(** The bytes that may follow a value. *)
Definition delimiters : list ascii :=
  [","; "]"; "}"; nul; " "; "010"; "013"; "009"]%char.
Definition delimited (rest : stream) : Prop := exists c rest', rest = c :: rest' /\ c ∈ delimiters.

Lemma delimiter_spec c :
  c ∈ delimiters ->
  digit_of c = None /\ c <> "."%char /\ Ascii.eqb c "e" || Ascii.eqb c "E" = false.
Proof.
  intros H. repeat (apply elem_of_cons in H as [->|H]; [by repeat split|]).
  by apply elem_of_nil in H.
Qed.

Lemma delimited_cons c rest : bool_decide (c ∈ delimiters) = true -> delimited (c :: rest).
Proof. intros H%bool_decide_eq_true. by exists c, rest. Qed.

(** Strings. *)
Lemma string_loop_char fuel buf c s :
  string_loop (S fuel) buf (write_char c ++ s) = string_loop fuel (buf ++ [c]) s.
Proof. destruct c as [[] [] [] [] [] [] [] []]; reflexivity. Qed.

Lemma string_loop_back fuel buf cs rest :
  length cs < fuel ->
  string_loop fuel buf (flat_map write_char cs ++ "034"%char :: rest) = (Ret (buf ++ cs), rest).
Proof.
  revert fuel buf. induction cs as [|c cs IH]; intros [|fuel] buf Hf; simpl in Hf; try lia.
  - by rewrite app_nil_r.
  - cbn [flat_map]. rewrite <- app_assoc, string_loop_char, IH by lia. by rewrite <- app_assoc.
Qed.

Lemma write_char_length cs : length cs <= length (flat_map write_char cs).
Proof.
  induction cs as [|c cs IH]; simpl; [lia|]. rewrite length_app.
  assert (1 <= length (write_char c)); [|lia]. unfold write_char. destruct (escape c); simpl; lia.
Qed.

Lemma ParseString_back s rest vs :
  ParseString (mkReader (chars (print_string s) ++ rest) vs) =
    (Ret tt, mkReader rest (VString s :: vs)).
Proof.
  unfold print_string. rewrite !chars_app, chars_unchars. cbn [chars dquote app].
  rewrite <- app_assoc. cbn [app]. unfold ParseString.
  erewrite bind_step by reflexivity. erewrite bind_step; [|].
  2:{ unfold on_input. cbn [input]. erewrite bind_step by reflexivity.
      erewrite bind_step by reflexivity. rewrite string_loop_back; [reflexivity|].
      rewrite length_app. pose proof (write_char_length (chars s)). simpl. lia. }
  unfold push_value, modify. simpl. by rewrite unchars_chars.
Qed.

(** Numbers. *)
Lemma read_digits_ge ds i : Forall is_digit ds -> (0 <= i)%Z -> (i <= read_digits ds i)%Z.
Proof.
  intros H. revert i. induction H as [|c ds Hc H IH]; intros i Hi; simpl; [lia|].
  unfold is_digit in Hc. destruct (digit_of c) as [d|] eqn:Hd; [|done].
  apply digit_range in Hd. specialize (IH (i * 10 + d)%Z). lia.
Qed.

(** The loop over digits splits them where the range ends. *)
Lemma int_digits_read w limit last i ds rest :
  Forall is_digit ds -> delimited rest -> (0 <= last <= 9)%Z -> (limit * 10 + last < 2 ^ w)%Z ->
  (0 <= i <= limit * 10 + last)%Z ->
  exists i' ds2,
    int_digits w limit last i (ds ++ rest) = (Ret (i', bool_decide (ds2 <> [])), ds2 ++ rest) /\
    Forall is_digit ds2 /\ read_digits ds2 i' = read_digits ds i /\
    (0 <= i' <= limit * 10 + last)%Z /\ (ds2 = [] \/ limit * 10 + last < read_digits ds i)%Z.
Proof.
  intros H (r & rest' & -> & Hr) Hl Hw. revert i. induction H as [|c ds Hc H IH]; intros i Hi.
  - exists i, []. simpl. destruct (delimiter_spec r Hr) as (-> & _).
    split; [done|]. split; [constructor|]. auto.
  - pose proof Hc as Hc'. unfold is_digit in Hc. simpl. destruct (digit_of c) as [d|] eqn:Hd; [|done].
    pose proof (digit_range _ _ Hd). case_decide as Hlim.
    + exists i, (c :: ds). simpl. rewrite Hd. split; [done|]. split; [by constructor|].
      split; [done|]. split; [done|]. right.
      pose proof (read_digits_ge ds (i * 10 + d) H ltac:(lia)). lia.
    + rewrite Z.mod_small by lia. apply IH. lia.
Qed.

(** The decimal text of a positive number does not begin with a zero. *)
Lemma to_string_head z :
  (0 < z)%Z -> exists c l, chars (to_string z) = c :: l /\ c <> "0"%char.
Proof.
  intros Hz. pose proof (DecimalZ.to_of (Z.to_int z)) as Hn. rewrite DecimalZ.of_to in Hn.
  unfold to_string. destruct z as [|p|p]; [done| |done]. simpl in *. injection Hn as Hn.
  pose proof (DecimalZ.of_to (Z.pos p)) as Hp. simpl in Hp.
  set (u := Pos.to_uint p) in *. clearbody u.
  destruct u as [|u|u|u|u|u|u|u|u|u|u]; try (do 2 eexists; split; [reflexivity|done]); try done.
  exfalso. assert (H : Decimal.nzhead (Decimal.D0 u) = Decimal.Nil \/
                       Decimal.nzhead (Decimal.D0 u) <> Decimal.Nil)
    by (destruct (Decimal.nzhead (Decimal.D0 u)); auto).
  destruct H as [H0|H0].
  - apply DecimalFacts.unorm_0 in H0. rewrite H0 in Hn. injection Hn as ->. done.
  - rewrite (DecimalFacts.unorm_nzhead _ H0) in Hn. symmetry in Hn.
    by apply DecimalFacts.nzhead_nonzero in Hn.
Qed.

Lemma to_string_neg z : (z < 0)%Z -> to_string z = "-" +:+ to_string (- z).
Proof. destruct z; [done..|]. intros _. reflexivity. Qed.

Definition parse_max (minus : bool) : Z := if minus then 2 ^ 63 else 2 ^ 64 - 1.

(** The integer part: 32 bit first, and what is left with 64 bit. *)
Lemma parse_int_read minus n rest :
  (0 <= n)%Z -> delimited rest ->
  exists i ds2, parse_int minus (chars (to_string n) ++ rest) =
      (Ret (i, bool_decide (ds2 <> [])), ds2 ++ rest) /\
    Forall is_digit ds2 /\ read_digits ds2 i = n /\
    (0 <= i <= if minus then 2 ^ 31 else 2 ^ 32 - 1)%Z.
Proof.
  intros Hn Hr. destruct (decide (n = 0)%Z) as [->|Hz].
  { exists 0%Z, []. repeat split; [constructor|lia|by destruct minus]. }
  destruct (to_string_head n) as (c & l & Hc & Hc0); [lia|].
  destruct (to_string_digits n Hn) as (Hds & _ & Hread). rewrite Hc in *.
  apply Forall_cons in Hds as [Hd Hds]. unfold is_digit in Hd. simpl in Hread.
  destruct (digit_of c) as [d|] eqn:Hdc; [|done]. pose proof (digit_range _ _ Hdc).
  change (read_digits l d = n) in Hread.
  assert (Hrun : parse_int minus ((c :: l) ++ rest) = digits32 minus d (l ++ rest)).
  { unfold parse_int. erewrite bind_step by reflexivity.
    destruct (Ascii.eqb_spec c "0"); [done|]. rewrite Hdc. by erewrite bind_step by reflexivity. }
  rewrite Hrun. unfold digits32. destruct minus.
  - destruct (int_digits_read 32 214748364 8 d l rest) as (i & ds2 & -> & ? & ? & ? & _); [done|done|lia..|].
    exists i, ds2. split; [done|]. split; [done|]. split; [congruence|lia].
  - destruct (int_digits_read 32 429496729 5 d l rest) as (i & ds2 & -> & ? & ? & ? & _); [done|done|lia..|].
    exists i, ds2. split; [done|]. split; [done|]. split; [congruence|lia].
Qed.

Lemma digits64_read (minus : bool) i n ds rest :
  Forall is_digit ds -> delimited rest -> read_digits ds i = n ->
  (0 <= i <= if minus then 2 ^ 31 else 2 ^ 32 - 1)%Z -> (n <= parse_max minus)%Z ->
  digits64 minus i (ds ++ rest) = (Ret (n, false), rest).
Proof.
  intros Hds Hr Hn Hi Hmax. unfold digits64, parse_max in *. destruct minus.
  - destruct (int_digits_read 64 922337203685477580 8 i ds rest)
      as (i' & ds2 & -> & _ & Heq & _ & [->|?]); [done|done|lia..| |lia].
    simpl in *. by rewrite <- Hn, <- Heq.
  - destruct (int_digits_read 64 1844674407370955161 5 i ds rest)
      as (i' & ds2 & -> & _ & Heq & _ & [->|?]); [done|done|lia..| |lia].
    simpl in *. by rewrite <- Hn, <- Heq.
Qed.

Lemma to_signed_opp w i :
  (0 < w)%Z -> (0 <= i <= 2 ^ (w - 1))%Z -> to_signed w (- to_signed w i) = (- i)%Z.
Proof.
  intros Hw Hi. unfold to_signed. replace (2 ^ w)%Z with (2 * 2 ^ (w - 1))%Z
    by (rewrite <- Z.pow_succ_r by lia; f_equal; lia).
  set (h := (2 ^ (w - 1))%Z) in *. assert (0 < h)%Z by (apply Z.pow_pos_nonneg; lia).
  destruct (decide (i = h)) as [->|].
  - replace (h + h)%Z with (1 * (2 * h))%Z by lia. rewrite Z.mod_mul by lia.
    replace (- (0 - h) + h)%Z with (1 * (2 * h))%Z by lia. rewrite Z.mod_mul by lia. lia.
  - rewrite (Z.mod_small (i + h)) by lia. rewrite Z.mod_small by lia. lia.
Qed.

(** The fraction and the exponent are absent. *)
Lemma parse_frac_none b d w rest :
  delimited rest -> parse_frac b d w rest = (Ret (d, b, 0%Z), rest).
Proof.
  intros (c & s & -> & Hc). destruct (delimiter_spec c Hc) as (_ & Hp & _).
  unfold parse_frac. erewrite bind_step by reflexivity. by destruct (Ascii.eqb_spec c ".").
Qed.

Lemma parse_exp_none b d w rest :
  delimited rest -> parse_exp b d w rest = (Ret (d, b, 0%Z), rest).
Proof.
  intros (c & s & -> & Hc). destruct (delimiter_spec c Hc) as (_ & _ & He).
  unfold parse_exp. erewrite bind_step by reflexivity. by rewrite He.
Qed.

(** One call of a sequence, whose result is known. *)
Ltac run_step tac := erewrite bind_step by tac; cbv beta iota zeta.

Lemma parse_unsigned_back minus n rest :
  (0 <= n <= parse_max minus)%Z -> delimited rest ->
  parse_unsigned minus (chars (to_string n) ++ rest) =
    (Ret (VInt (if minus then - n else n)%Z), rest).
Proof.
  intros Hn Hr. destruct (parse_int_read minus n rest) as (i & ds & Hrun & Hds & Hread & Hi); [lia|done|].
  unfold parse_unsigned. erewrite bind_step by exact Hrun. destruct ds as [|x ds].
  - simpl in Hread. subst i. change (bool_decide (([] : stream) <> [])) with false. cbn [app].
    run_step ltac:(reflexivity). run_step ltac:(reflexivity). run_step ltac:(by apply parse_frac_none).
    run_step ltac:(by apply parse_exp_none). unfold number_event, integer_event.
    destruct minus; [|done]. by rewrite to_signed_opp by lia.
  - rewrite bool_decide_true by done. run_step ltac:(apply (digits64_read minus i n); done || lia).
    run_step ltac:(reflexivity). run_step ltac:(by apply parse_frac_none).
    run_step ltac:(by apply parse_exp_none). unfold number_event, integer_event.
    destruct minus; [|done]. by rewrite to_signed_opp by (unfold parse_max in Hn; lia).
Qed.

Lemma digit_head_plain c :
  is_digit c \/ c = "-"%char ->
  c <> "n"%char /\ c <> "t"%char /\ c <> "f"%char /\ c <> "034"%char /\ c <> "{"%char /\
  c <> "["%char /\ whitespace c = false.
Proof.
  unfold is_digit. intros H. repeat split; try (by intros ->; destruct H as [[]|]).
  assert (Hw : forall c, whitespace c = true -> digit_of c = None /\ c <> "-"%char).
  { intros x Hx. unfold whitespace in Hx. rewrite !orb_true_iff, !Ascii.eqb_eq in Hx.
    by destruct Hx as [[[->| ->]| ->]| ->]. }
  destruct (whitespace c) eqn:Hc; [|done]. apply Hw in Hc as [? ?]. naive_solver.
Qed.

(** The text of an integer begins with a digit or a minus. *)
Lemma to_string_first z :
  exists c l, chars (to_string z) = c :: l /\ (is_digit c \/ c = "-"%char).
Proof.
  destruct (decide (z < 0)%Z) as [Hz|Hz]; [rewrite to_string_neg by done; simpl; eauto|].
  destruct (to_string_digits z) as (Hd & Hne & _); [lia|].
  destruct (chars (to_string z)) as [|c l] eqn:Hc.
  { exfalso. apply Hne. by rewrite <- (unchars_chars (to_string z)), Hc. }
  apply Forall_cons in Hd as [Hd _]. eauto.
Qed.

Lemma parse_minus_none z rest :
  (0 <= z)%Z ->
  parse_minus (chars (to_string z) ++ rest) = (Ret false, chars (to_string z) ++ rest).
Proof.
  intros Hz. destruct (to_string_digits z) as (Hd & _); [lia|].
  destruct (to_string_first z) as (c & l & Hc & _). rewrite Hc in *.
  apply Forall_cons in Hd as [Hd _]. unfold parse_minus. erewrite bind_step by reflexivity.
  by destruct (Ascii.eqb_spec c "-") as [->|].
Qed.

Lemma parse_number_back z rest :
  (- 2 ^ 63 <= z < 2 ^ 64)%Z -> delimited rest ->
  parse_number (chars (to_string z) ++ rest) = (Ret (VInt z), rest).
Proof.
  intros Hz Hr. unfold parse_number. destruct (decide (z < 0)%Z) as [Hn|Hn].
  - rewrite to_string_neg by done. cbn [chars String.append app].
    run_step ltac:(reflexivity). rewrite (parse_unsigned_back true) by (done || simpl; lia).
    by rewrite Z.opp_involutive.
  - run_step ltac:(by apply parse_minus_none; lia).
    by rewrite (parse_unsigned_back false) by (done || simpl; lia).
Qed.

(** Beyond 64 bit the digits are collected in a double. *)
Lemma digits64_overflow (minus : bool) i n ds rest :
  Forall is_digit ds -> delimited rest -> read_digits ds i = n ->
  (0 <= i <= if minus then 2 ^ 31 else 2 ^ 32 - 1)%Z -> (parse_max minus < n)%Z ->
  exists i' ds2, digits64 minus i (ds ++ rest) = (Ret (i', true), ds2 ++ rest) /\ Forall is_digit ds2.
Proof.
  intros Hds Hr Hn Hi Hmax. unfold digits64, parse_max in *. destruct minus.
  - destruct (int_digits_read 64 922337203685477580 8 i ds rest)
      as (i' & ds2 & -> & Hd2 & Heq & Hb & _); [done|done|lia..|].
    exists i', ds2. destruct ds2; [simpl in *; lia|done].
  - destruct (int_digits_read 64 1844674407370955161 5 i ds rest)
      as (i' & ds2 & -> & Hd2 & Heq & Hb & _); [done|done|lia..|].
    exists i', ds2. destruct ds2; [simpl in *; lia|done].
Qed.

Definition not_integer (r : result value) : Prop :=
  match r with Ret v => exists g, v = VDouble g | Throw _ => True | Terminated => False end.

Lemma big_digits_read d ds rest :
  Forall is_digit ds -> delimited rest ->
  exists r s, big_digits d (ds ++ rest) = (r, s) /\
    match r with Ret _ => s = rest | Throw _ => True | Terminated => False end.
Proof.
  intros H (c & rest' & -> & Hc). revert d. induction H as [|x ds Hx H IH]; intros d; simpl.
  - destruct (delimiter_spec c Hc) as (-> & _). by do 2 eexists.
  - unfold is_digit in Hx. destruct (digit_of x); [|done]. destruct (SFleb _ _); [by do 2 eexists|apply IH].
Qed.

Lemma parse_unsigned_overflow minus n rest :
  (parse_max minus < n)%Z -> delimited rest ->
  not_integer (parse_unsigned minus (chars (to_string n) ++ rest)).1.
Proof.
  intros Hn Hr. assert (0 <= n)%Z by (unfold parse_max in Hn; destruct minus; lia).
  destruct (parse_int_read minus n rest) as (i & ds & Hrun & Hds & Hread & Hi); [lia|done|].
  unfold parse_unsigned. erewrite bind_step by exact Hrun. destruct ds as [|x ds].
  { simpl in Hread. subst i. unfold parse_max in Hn. destruct minus; lia. }
  rewrite bool_decide_true by done.
  destruct (digits64_overflow minus i n (x :: ds) rest) as (i' & ds2 & H64 & Hd2); [done..|].
  run_step ltac:(exact H64).
  destruct (big_digits_read (double_of_Z i') ds2 rest Hd2 Hr) as ([d|e|] & s & Hb & Hs); [| |done].
  - subst s. run_step ltac:(exact Hb). run_step ltac:(by apply parse_frac_none).
    run_step ltac:(by apply parse_exp_none). unfold number_event.
    erewrite bind_step by reflexivity. by eexists.
  - by rewrite (bind_throw _ _ _ _ _ Hb).
Qed.

Lemma parse_number_overflow z rest :
  (z < - 2 ^ 63 \/ 2 ^ 64 <= z)%Z -> delimited rest ->
  not_integer (parse_number (chars (to_string z) ++ rest)).1.
Proof.
  intros Hz Hr. unfold parse_number. destruct (decide (z < 0)%Z) as [Hn|Hn].
  - rewrite to_string_neg by done. cbn [chars String.append app].
    run_step ltac:(reflexivity). apply (parse_unsigned_overflow true); simpl; [lia|done].
  - run_step ltac:(by apply parse_minus_none; lia).
    apply (parse_unsigned_overflow false); simpl; [lia|done].
Qed.

(** Whitespace: there is none. *)
Lemma SkipWhitespace_none c s vs :
  whitespace c = false -> SkipWhitespace (mkReader (c :: s) vs) = (Ret tt, mkReader (c :: s) vs).
Proof. intros H. unfold SkipWhitespace, on_input. simpl. by rewrite H. Qed.

Lemma Peek_cons c s vs : Peek (mkReader (c :: s) vs) = (Ret c, mkReader (c :: s) vs).
Proof. done. Qed.
Lemma Take_cons c s vs : Take (mkReader (c :: s) vs) = (Ret c, mkReader s vs).
Proof. done. Qed.
Lemma r_assert_cons c s vs : r_assert c (mkReader (c :: s) vs) = (Ret tt, mkReader (c :: s) vs).
Proof. unfold r_assert. erewrite bind_step by reflexivity. by rewrite Ascii.eqb_refl. Qed.

(** The integers that the four integer events hold. *)
Fixpoint ints_fit (v : value) : bool :=
  match v with
  | VInt z => bool_decide (- 2 ^ 63 <= z < 2 ^ 64)%Z
  | VArray l => forallb ints_fit l
  | VObject l => forallb (fun m => ints_fit m.2) l
  | _ => true
  end.

Definition readable (v : value) : Prop := no_double v = true /\ ints_fit v = true.

Definition reads_back (v : value) (t : stream) : Prop := forall fuel rest vs,
  delimited rest -> 3 * length t <= fuel ->
  ParseValue fuel (mkReader (t ++ rest) vs) = (Ret tt, mkReader rest (v :: vs)).

Lemma literal_back v c l fuel rest vs :
  chars (print v) = c :: chars l ->
  ParseValue (S fuel) (mkReader (c :: chars l ++ rest) vs) =
    ParseLiteral c l v (mkReader (c :: chars l ++ rest) vs) ->
  ParseValue (S fuel) (mkReader (chars (print v) ++ rest) vs) = (Ret tt, mkReader rest (v :: vs)).
Proof.
  intros Hp Hv. rewrite Hp. cbn [app]. rewrite Hv. unfold ParseLiteral.
  erewrite bind_step by apply r_assert_cons. erewrite bind_step by apply Take_cons.
  rewrite (bind_step _ _ _ (mkReader rest vs) true); [reflexivity|]. unfold on_input. cbn [input values].
  assert (Ht : forall m, take_all m (m ++ rest) = (Ret true, rest)).
  { induction m as [|x m IH]; [done|]. cbn [take_all app].
    erewrite bind_step by reflexivity. by rewrite Ascii.eqb_refl. }
  by rewrite Ht.
Qed.

Lemma reads_back_int z : (- 2 ^ 63 <= z < 2 ^ 64)%Z -> reads_back (VInt z) (chars (to_string z)).
Proof.
  intros Hz fuel rest vs Hr Hf. cbn [print] in *.
  destruct (to_string_first z) as (c & l & Hc & Hd).
  assert (Hrun : ParseNumber (mkReader (chars (to_string z) ++ rest) vs) =
                 (Ret tt, mkReader rest (VInt z :: vs))).
  { unfold ParseNumber. rewrite (bind_step _ _ _ (mkReader rest vs) (VInt z)); [reflexivity|].
    unfold on_input. cbn [input values]. by rewrite parse_number_back. }
  rewrite Hc in *. simpl in Hf. destruct fuel as [|fuel]; [lia|]. cbn [ParseValue app] in *.
  destruct (digit_head_plain c Hd) as (? & ? & ? & ? & ? & ? & _).
  rewrite (bind_step _ _ _ _ _ (Peek_cons _ _ _)).
  by rewrite !(proj2 (Ascii.eqb_neq _ _)) by done.
Qed.

Lemma reads_back_string s : reads_back (VString s) (chars (print_string s)).
Proof.
  intros [|fuel] rest vs Hr Hf; [simpl in Hf; lia|]. cbn [ParseValue print].
  erewrite bind_step by reflexivity. apply ParseString_back.
Qed.

(** ** The texts of a value: white space between any two tokens *)
Definition spaces (w : stream) : Prop := Forall (fun c => whitespace c = true) w.

Definition scalar (v : value) : bool :=
  match v with
  | VNull | VBool _ | VString _ => true
  | VInt z => bool_decide (- 2 ^ 63 <= z < 2 ^ 64)%Z
  | _ => false
  end.

(** [element_texts l t]: [t] starts with the first of the elements [l] and ends
    with the bracket; [member_texts] is the same for members. *)
Inductive renders : value -> stream -> Prop :=
  | renders_scalar v : scalar v = true -> renders v (chars (print v))
  | renders_empty_array w : spaces w -> renders (VArray []) ("["%char :: w ++ ["]"%char])
  | renders_array w l t : spaces w -> element_texts l t -> renders (VArray l) ("["%char :: w ++ t)
  | renders_empty_object w : spaces w -> renders (VObject []) ("{"%char :: w ++ ["}"%char])
  | renders_object w l t : spaces w -> member_texts l t -> renders (VObject l) ("{"%char :: w ++ t)
with element_texts : list value -> stream -> Prop :=
  | last_element v t w : renders v t -> spaces w -> element_texts [v] (t ++ w ++ ["]"%char])
  | next_element v t w w' l u : renders v t -> spaces w -> spaces w' -> element_texts l u ->
      element_texts (v :: l) (t ++ w ++ ","%char :: w' ++ u)
with member_texts : list (string * value) -> stream -> Prop :=
  | last_member n w1 w2 v t w : spaces w1 -> spaces w2 -> renders v t -> spaces w ->
      member_texts [(n, v)] (chars (print_string n) ++ w1 ++ ":"%char :: w2 ++ t ++ w ++ ["}"%char])
  | next_member n w1 w2 v t w w' l u : spaces w1 -> spaces w2 -> renders v t -> spaces w -> spaces w' ->
      member_texts l u ->
      member_texts ((n, v) :: l)
        (chars (print_string n) ++ w1 ++ ":"%char :: w2 ++ t ++ w ++ ","%char :: w' ++ u).

Scheme renders_mind := Minimality for renders Sort Prop
  with element_texts_mind := Minimality for element_texts Sort Prop
  with member_texts_mind := Minimality for member_texts Sort Prop.
Combined Scheme renders_mutind from renders_mind, element_texts_mind, member_texts_mind.

Lemma SkipWhitespace_spaces w c s vs :
  spaces w -> whitespace c = false ->
  SkipWhitespace (mkReader (w ++ c :: s) vs) = (Ret tt, mkReader (c :: s) vs).
Proof.
  intros Hw Hc. unfold SkipWhitespace, on_input. cbn [input values].
  assert (H : skip_whitespace (w ++ c :: s) = (Ret tt, c :: s)); [|by rewrite H].
  induction Hw as [|x w Hx Hw IH]; simpl; [by rewrite Hc|by rewrite Hx].
Qed.

Lemma spaces_delimited w c s :
  spaces w -> bool_decide (c ∈ delimiters) = true -> delimited (w ++ c :: s).
Proof.
  intros [|x w' Hx _] Hc; [by apply delimited_cons|]. apply delimited_cons. revert Hx. clear.
  destruct x as [[] [] [] [] [] [] [] []]; by vm_compute.
Qed.

(** The first byte. *)
Definition starts (t : stream) : Prop :=
  exists c u, t = c :: u /\ whitespace c = false /\ c <> "]"%char /\ c <> nul.

Lemma renders_starts v t : renders v t -> starts t.
Proof.
  destruct 1 as [v Hv| | | |]; try (do 2 eexists; split; [reflexivity|done]).
  destruct v as [|[]|z|g|s|l|l]; try done; try (do 2 eexists; split; [reflexivity|done]).
  destruct (to_string_first z) as (c & l & Hc & Hf). exists c, l. split; [done|].
  destruct (digit_head_plain c Hf) as (? & ? & ? & ? & ? & ? & ?).
  split; [done|]. split; intros ->; by destruct Hf as [[]|].
Qed.

Lemma starts_app t u : starts t -> starts (t ++ u).
Proof. intros (c & v & -> & H). by exists c, (v ++ u). Qed.

Lemma element_texts_starts l t : element_texts l t -> starts t.
Proof. destruct 1; by eapply starts_app, renders_starts. Qed.

Lemma member_texts_starts l t : member_texts l t -> exists u, t = "034"%char :: u.
Proof. destruct 1; by eexists. Qed.

Lemma Skip_starts w t s vs :
  spaces w -> starts t -> SkipWhitespace (mkReader (w ++ t ++ s) vs) = (Ret tt, mkReader (t ++ s) vs).
Proof. intros Hw (c & u & -> & Hc & _). cbn [app]. by apply SkipWhitespace_spaces. Qed.

(** What the functions do with such a text. *)
Definition elements_read (l : list value) (t : stream) : Prop := forall before fuel rest vs,
  3 * length t <= fuel ->
  array_loop fuel (length before) (mkReader (t ++ rest) (rev before ++ VArray [] :: vs)) =
    (Ret tt, mkReader rest (VArray (before ++ l) :: vs)).
Definition members_read (l : list (string * value)) (t : stream) : Prop := forall before fuel rest vs,
  3 * length t <= fuel ->
  object_loop fuel (length before) (mkReader (t ++ rest) (rev (flat before) ++ VObject [] :: vs)) =
    (Ret tt, mkReader rest (VObject (before ++ l) :: vs)).
Definition array_reads (l : list value) (t : stream) : Prop := forall fuel rest vs, 3 * length t <= S fuel ->
  ParseArray fuel (mkReader (t ++ rest) vs) = (Ret tt, mkReader rest (VArray l :: vs)).
Definition object_reads (l : list (string * value)) (t : stream) : Prop := forall fuel rest vs,
  3 * length t <= S fuel ->
  ParseObject fuel (mkReader (t ++ rest) vs) = (Ret tt, mkReader rest (VObject l :: vs)).

Lemma scalar_reads v : scalar v = true -> reads_back v (chars (print v)).
Proof.
  destruct v as [|b|z|g|s|l|l]; try done; intros Hv.
  - intros [|fuel] rest vs Hr Hf; [simpl in Hf; lia|]. by apply (literal_back VNull "n" "ull").
  - intros [|fuel] rest vs Hr Hf; [destruct b; simpl in Hf; lia|].
    destruct b; [by apply (literal_back (VBool true) "t" "rue")|
                 by apply (literal_back (VBool false) "f" "alse")].
  - apply reads_back_int. by apply bool_decide_eq_true in Hv.
  - apply reads_back_string.
Qed.

Lemma empty_array_reads w : spaces w -> array_reads [] ("["%char :: w ++ ["]"%char]).
Proof.
  intros Hw [|fuel] rest vs Hf; [simpl in Hf; lia|]. cbn [ParseArray app]. rewrite <- app_assoc. cbn [app].
  erewrite bind_step by apply r_assert_cons. erewrite bind_step by apply Take_cons.
  erewrite bind_step by reflexivity. cbn [input values].
  erewrite bind_step by by apply SkipWhitespace_spaces. by erewrite bind_step by apply Peek_cons.
Qed.

Lemma array_reads_elements w l t :
  spaces w -> starts t -> elements_read l t -> array_reads l ("["%char :: w ++ t).
Proof.
  intros Hw Ht Hl [|fuel] rest vs Hf; [simpl in Hf; lia|]. cbn [ParseArray app]. rewrite <- app_assoc.
  erewrite bind_step by apply r_assert_cons. erewrite bind_step by apply Take_cons.
  erewrite bind_step by reflexivity. cbn [input values].
  erewrite bind_step by by apply Skip_starts. pose proof (Hl [] fuel rest vs) as H.
  destruct Ht as (c & u & -> & _ & Hc & _). cbn [app] in *. erewrite bind_step by apply Peek_cons.
  rewrite (proj2 (Ascii.eqb_neq _ _)) by done. apply H. cbn [length] in *. rewrite length_app in Hf. simpl in *. lia.
Qed.

Lemma empty_object_reads w : spaces w -> object_reads [] ("{"%char :: w ++ ["}"%char]).
Proof.
  intros Hw [|fuel] rest vs Hf; [simpl in Hf; lia|]. cbn [ParseObject app]. rewrite <- app_assoc. cbn [app].
  erewrite bind_step by apply r_assert_cons. erewrite bind_step by apply Take_cons.
  erewrite bind_step by reflexivity. cbn [input values].
  erewrite bind_step by by apply SkipWhitespace_spaces. by erewrite bind_step by apply Peek_cons.
Qed.

Lemma object_reads_members w l t :
  spaces w -> member_texts l t -> members_read l t -> object_reads l ("{"%char :: w ++ t).
Proof.
  intros Hw Ht Hl [|fuel] rest vs Hf; [simpl in Hf; lia|]. cbn [ParseObject app]. rewrite <- app_assoc.
  erewrite bind_step by apply r_assert_cons. erewrite bind_step by apply Take_cons.
  erewrite bind_step by reflexivity. cbn [input values]. pose proof (Hl [] fuel rest vs) as H.
  destruct (member_texts_starts _ _ Ht) as [u ->]. cbn [app] in *.
  erewrite bind_step by by apply SkipWhitespace_spaces.
  erewrite bind_step by apply Peek_cons. cbn [Ascii.eqb Bool.eqb].
  apply H. cbn [length] in *. rewrite length_app in Hf. simpl in *. lia.
Qed.

Lemma ParseValue_array l t fuel rest vs :
  array_reads l ("["%char :: t) -> 3 * length ("["%char :: t) <= fuel ->
  ParseValue fuel (mkReader (("["%char :: t) ++ rest) vs) = (Ret tt, mkReader rest (VArray l :: vs)).
Proof. intros Hl Hf. destruct fuel as [|fuel]; [simpl in Hf; lia|]. cbn [ParseValue app].
  erewrite bind_step by apply Peek_cons. cbn [Ascii.eqb Bool.eqb]. by apply Hl. Qed.

Lemma ParseValue_object l t fuel rest vs :
  object_reads l ("{"%char :: t) -> 3 * length ("{"%char :: t) <= fuel ->
  ParseValue fuel (mkReader (("{"%char :: t) ++ rest) vs) = (Ret tt, mkReader rest (VObject l :: vs)).
Proof. intros Hl Hf. destruct fuel as [|fuel]; [simpl in Hf; lia|]. cbn [ParseValue app].
  erewrite bind_step by apply Peek_cons. cbn [Ascii.eqb Bool.eqb]. by apply Hl. Qed.
Lemma element_turn v t w c s k fuel vs :
  reads_back v t -> spaces w -> c ∈ [","; "]"]%char -> 3 * length t <= fuel ->
  array_loop (S fuel) k (mkReader (t ++ w ++ c :: s) vs) =
    (if Ascii.eqb c "," then _ ← SkipWhitespace; array_loop fuel (S k) else doc_EndArray (S k))
      (mkReader s (v :: vs)).
Proof.
  intros Hv Hw Hc Hf. cbn [array_loop].
  assert (bool_decide (c ∈ delimiters) = true /\ whitespace c = false) as [Hd Hws]
    by (repeat (apply elem_of_cons in Hc as [->|Hc]; [done|]); by apply not_elem_of_nil in Hc).
  erewrite bind_step by (apply Hv; [by apply spaces_delimited|done]).
  erewrite bind_step by (by apply SkipWhitespace_spaces). erewrite bind_step by apply Take_cons.
  repeat (apply elem_of_cons in Hc as [->|Hc]; [reflexivity|]). by apply not_elem_of_nil in Hc.
Qed.

(** One turn of the loop over members, up to the byte after the member. *)
Lemma member_turn n w1 w2 v t w c s k fuel vs :
  spaces w1 -> spaces w2 -> starts t -> reads_back v t -> spaces w -> c ∈ [","; "}"]%char ->
  3 * length t <= fuel ->
  object_loop (S fuel) k
    (mkReader (chars (print_string n) ++ w1 ++ ":"%char :: w2 ++ t ++ w ++ c :: s) vs) =
    (if Ascii.eqb c "," then _ ← SkipWhitespace; object_loop fuel (S k) else doc_EndObject (S k))
      (mkReader s (v :: VString n :: vs)).
Proof.
  intros Hw1 Hw2 Ht Hv Hw Hc Hf. cbn [object_loop].
  assert (bool_decide (c ∈ delimiters) = true /\ whitespace c = false) as [Hd Hws]
    by (repeat (apply elem_of_cons in Hc as [->|Hc]; [done|]); by apply not_elem_of_nil in Hc).
  pose proof (ParseString_back n (w1 ++ ":"%char :: w2 ++ t ++ w ++ c :: s) vs) as Hn.
  assert (Hq : exists u, chars (print_string n) = "034"%char :: u) by by eexists.
  destruct Hq as [u Hq]. rewrite Hq in *. cbn [app] in *. erewrite bind_step by apply Peek_cons.
  cbn [Ascii.eqb Bool.eqb negb]. erewrite bind_step by exact Hn.
  erewrite bind_step by (by apply SkipWhitespace_spaces). erewrite bind_step by apply Take_cons.
  cbn [Ascii.eqb Bool.eqb negb]. erewrite bind_step by (by apply Skip_starts).
  erewrite bind_step by (apply Hv; [by apply spaces_delimited|done]).
  erewrite bind_step by (by apply SkipWhitespace_spaces). erewrite bind_step by apply Take_cons.
  repeat (apply elem_of_cons in Hc as [->|Hc]; [reflexivity|]). by apply not_elem_of_nil in Hc.
Qed.

(** The elements and members read so far, with the next one. *)
Lemma elements_snoc (before : list value) v v0 vs :
  v :: rev before ++ v0 :: vs = rev (before ++ [v]) ++ v0 :: vs /\ S (length before) = length (before ++ [v]).
Proof. rewrite rev_app_distr, length_app. simpl. split; [done|lia]. Qed.

Lemma members_snoc before n v v0 vs :
  v :: VString n :: rev (flat before) ++ v0 :: vs = rev (flat (before ++ [(n, v)])) ++ v0 :: vs /\
  S (length before) = length (before ++ [(n, v)]).
Proof. rewrite flat_snoc, length_app. simpl. split; [done|lia]. Qed.

#[local] Ltac lengths := do 4 (rewrite ?length_app; cbn [length]).

Lemma last_element_reads v t w :
  reads_back v t -> spaces w -> elements_read [v] (t ++ w ++ ["]"%char]).
Proof.
  intros Hv Hw before [|fuel] rest vs; lengths; [lia|]. intros Hf.
  rewrite <- !app_assoc. cbn [app]. rewrite (element_turn v) by (first [done|right; left|lia]).
  destruct (elements_snoc before v (VArray []) vs) as [-> ->]. apply doc_EndArray_ok.
Qed.

Lemma next_element_reads v t w w' l u :
  reads_back v t -> spaces w -> spaces w' -> starts u -> elements_read l u ->
  elements_read (v :: l) (t ++ w ++ ","%char :: w' ++ u).
Proof.
  intros Hv Hw Hw' Hu Hl before [|fuel] rest vs; lengths; [lia|].
  intros Hf. rewrite <- !app_assoc. cbn [app]. rewrite <- app_assoc.
  rewrite (element_turn v) by (first [done|left|lia]). cbn [Ascii.eqb Bool.eqb].
  erewrite bind_step by by apply Skip_starts.
  destruct (elements_snoc before v (VArray []) vs) as [-> ->].
  rewrite Hl by lia. by rewrite <- app_assoc.
Qed.

Lemma last_member_reads n w1 w2 v t w :
  spaces w1 -> spaces w2 -> starts t -> reads_back v t -> spaces w ->
  members_read [(n, v)] (chars (print_string n) ++ w1 ++ ":"%char :: w2 ++ t ++ w ++ ["}"%char]).
Proof.
  intros Hw1 Hw2 Ht Hv Hw before [|fuel] rest vs;
    lengths; [lia|]. intros Hf.
  repeat (rewrite <- !app_assoc; cbn [app]).
  rewrite (member_turn n w1 w2 v) by (first [done|right; left|lia]).
  destruct (members_snoc before n v (VObject []) vs) as [-> ->]. apply doc_EndObject_ok.
Qed.

Lemma next_member_reads n w1 w2 v t w w' l u :
  spaces w1 -> spaces w2 -> starts t -> reads_back v t -> spaces w -> spaces w' -> member_texts l u ->
  members_read l u ->
  members_read ((n, v) :: l)
    (chars (print_string n) ++ w1 ++ ":"%char :: w2 ++ t ++ w ++ ","%char :: w' ++ u).
Proof.
  intros Hw1 Hw2 Ht Hv Hw Hw' Hu Hl before [|fuel] rest vs;
    lengths; [lia|]. intros Hf.
  repeat (rewrite <- !app_assoc; cbn [app]).
  rewrite (member_turn n w1 w2 v) by (first [done|left|lia]). cbn [Ascii.eqb Bool.eqb].
  specialize (Hl (before ++ [(n, v)]) fuel rest vs).
  destruct (members_snoc before n v (VObject []) vs) as [-> ->].
  destruct (member_texts_starts _ _ Hu) as [x ->]. cbn [app] in *.
  erewrite bind_step by by apply SkipWhitespace_spaces.
  rewrite Hl by (cbn [length] in *; lia). by rewrite <- app_assoc.
Qed.

(** Every text of a value is read as the value. *)
Lemma renders_reads :
  (forall v t, renders v t -> reads_back v t) /\
  (forall l t, element_texts l t -> elements_read l t) /\
  (forall l t, member_texts l t -> members_read l t).
Proof.
  apply renders_mutind.
  - apply scalar_reads.
  - intros w Hw fuel rest vs _ Hf. apply ParseValue_array; [by apply empty_array_reads|done].
  - intros w l t Hw Ht IH fuel rest vs _ Hf. apply ParseValue_array; [|done].
    apply array_reads_elements; [done|by eapply element_texts_starts|done].
  - intros w Hw fuel rest vs _ Hf. apply ParseValue_object; [by apply empty_object_reads|done].
  - intros w l t Hw Ht IH fuel rest vs _ Hf. apply ParseValue_object; [|done].
    by apply object_reads_members.
  - intros. by apply last_element_reads.
  - intros. apply next_element_reads; try done. by eapply element_texts_starts.
  - intros. apply last_member_reads; try done. by eapply renders_starts.
  - intros. apply next_member_reads; try done. by eapply renders_starts.
Qed.

(** The compact text is one of them. *)
Lemma chars_join_cons x l rest :
  chars (join (x :: l) ",") ++ rest =
    chars x ++ match l with [] => rest | _ => ","%char :: chars (join l ",") ++ rest end.
Proof.
  destruct l as [|y l]; [done|]. rewrite join_cons, !chars_app. simpl. by rewrite <- app_assoc.
Qed.

Lemma no_spaces : spaces [].
Proof. constructor. Qed.
#[local] Hint Resolve no_spaces : core.

Lemma print_elements v l :
  Forall (fun v => renders v (chars (print v))) (v :: l) ->
  element_texts (v :: l) (chars (join (print <$> v :: l) ",") ++ ["]"%char]).
Proof.
  revert v. induction l as [|v' l IH]; intros v [Hv Hl]%Forall_cons; rewrite fmap_cons, chars_join_cons.
  - by apply (last_element v _ []).
  - rewrite <- (app_nil_l ("," :: _)%char). apply (next_element v _ [] []); try done. by apply IH.
Qed.

Definition member_text (m : string * value) : string := print_string m.1 +:+ ":" +:+ print m.2.

Lemma print_members m l :
  Forall (fun m => renders m.2 (chars (print m.2))) (m :: l) ->
  member_texts (m :: l) (chars (join (member_text <$> m :: l) ",") ++ ["}"%char]).
Proof.
  revert m. induction l as [|m' l IH]; intros [n v] [Hv Hl]%Forall_cons; rewrite fmap_cons, chars_join_cons;
    unfold member_text at 1; cbn [fst snd]; rewrite !chars_app, <- !app_assoc; cbn [chars app].
  - by apply (last_member n [] [] v _ []).
  - by apply (next_member n [] [] v _ [] []); try done; apply IH.
Qed.

Lemma print_renders v : readable v -> renders v (chars (print v)).
Proof.
  unfold readable. induction v as [|b|z|g|s|l IH|l IH] using value_nested_ind; intros [Hd Hi];
    try (by apply renders_scalar); try done; cbn [print no_double ints_fit] in *;
    rewrite !chars_app; cbn [chars app].
  - destruct l as [|v l]; [by apply (renders_empty_array [])|]. apply (renders_array []); [done|].
    apply print_elements. rewrite forallb_forall in Hd, Hi. rewrite Forall_forall in IH |- *.
    intros x Hx. apply IH; [done|]. rewrite list_elem_of_In in Hx. auto.
  - destruct l as [|m l]; [by apply (renders_empty_object [])|]. apply (renders_object []); [done|].
    apply print_members. rewrite forallb_forall in Hd, Hi. rewrite Forall_forall in IH |- *.
    intros x Hx. apply IH; [done|]. rewrite list_elem_of_In in Hx. auto.
Qed.

(** The root ends at the NUL. *)
Lemma parse_root_back fuel v w t w' :
  root v = true -> spaces w -> renders v t -> spaces w' -> 3 * length t <= fuel ->
  parse_root fuel (mkReader (w ++ t ++ w' ++ [nul]) []) = (Ret true, mkReader [nul] [v]).
Proof.
  intros Hr Hw Ht Hw' Hf. pose proof (proj1 renders_reads v t Ht (S fuel) (w' ++ [nul]) []) as Hb.
  specialize (Hb ltac:(by apply spaces_delimited) ltac:(lia)). unfold parse_root.
  erewrite bind_step by (apply Skip_starts; [done|by eapply renders_starts]).
  assert (Hend : root_end (mkReader (w' ++ [nul]) [v]) = (Ret true, mkReader [nul] [v])).
  { unfold root_end. erewrite bind_step by by apply SkipWhitespace_spaces. reflexivity. }
  destruct Ht as [v Hv| | | |]; [by destruct v| | | |]; cbn [app] in *;
    erewrite bind_step by apply Peek_cons; unfold nul at 1; cbn [Ascii.eqb Bool.eqb];
    by erewrite bind_step by exact Hb.
Qed.

Lemma ParseStream_back v w t w' :
  root v = true -> spaces w -> renders v t -> spaces w' -> ParseStream (w ++ t ++ w' ++ [nul]) = Ret (Some v).
Proof.
  intros Hr Hw Ht Hw'. unfold ParseStream, Parse, try_catch.
  by rewrite (parse_root_back _ v) by (try done; rewrite !length_app; lia).
Qed.
End ReadBack.

(** ** Properties *)

Lemma Document_Parse_total text :
  exists o, Document_Parse text = Ret o /\ forall v, o = Some v -> root v = true.
Proof. apply ParseStream_total. unfold ends. by rewrite last_snoc. Qed.

Lemma spaces_no_nul w : spaces w -> nul ∉ w.
Proof. intros H Hn. unfold spaces in H. rewrite Forall_forall in H. by apply H in Hn. Qed.

Lemma renders_no_nul :
  (forall v t, renders v t -> nul ∉ t) /\ (forall l t, element_texts l t -> nul ∉ t) /\
  (forall l t, member_texts l t -> nul ∉ t).
Proof.
  assert (Hs : forall n, nul ∉ chars (print_string n)) by apply print_string_nul_free.
  apply renders_mutind; intros; repeat first [rewrite not_elem_of_app|rewrite not_elem_of_cons];
    repeat split; try apply not_elem_of_nil; try done; try (by apply spaces_no_nul).
  apply print_nul_free. by destruct v.
Qed.

Lemma Document_Parse_spaced v w t w' :
  root v = true -> spaces w -> renders v t -> spaces w' ->
  Document_Parse (unchars (w ++ t ++ w')) = Ret (Some v).
Proof.
  intros Hr Hw Ht Hw'. unfold Document_Parse. rewrite c_str_id, chars_unchars, <- !app_assoc.
  - by apply ParseStream_back.
  - unfold nul_free. rewrite chars_unchars, !not_elem_of_app.
    split; [by apply spaces_no_nul|]. split; [by eapply (proj1 renders_no_nul)|by apply spaces_no_nul].
Qed.

Lemma Document_Parse_print v :
  root v = true -> readable v -> Document_Parse (print v) = Ret (Some v).
Proof.
  intros Hr Hv. rewrite <- (unchars_chars (print v)), <- (app_nil_r (chars _)).
  apply (Document_Parse_spaced v [] (chars (print v)) []); [done|constructor|by apply print_renders|constructor].
Qed.

(** [C29] Reading JSON ends for every sequence of bytes, within the fuel: no
    assertion of the reader, the encoder, the power table or the value stack
    fails, no byte behind the terminating NUL is read, and the result is either a
    parse error or one value, which is an object or an array. *)
Theorem parse_total (text : string) :
  exists o, Document_Parse text = Ret o /\ forall v, o = Some v -> root v = true.
Proof. apply Document_Parse_total. Qed.

(** [C30] Writing and reading JSON: the text of every object or array without
    doubles, whose integers fit 64 bits, is read as the same value; strings
    survive with all their bytes, control characters and NUL included. *)
Theorem print_parse (v : value) :
  root v = true -> readable v ->
  exists text, stringify v = Ret text /\ Document_Parse text = Ret (Some v).
Proof.
  intros Hr Hv. exists (print v). split; [apply stringify_text; [done|apply Hv]|].
  by apply Document_Parse_print.
Qed.

(** White space does not matter: a text of an object or array with blanks,
    tabs and line ends between any two tokens, before it and after it, is read as
    the value; [renders] says which texts those are. *)
Theorem spaced_parse (v : value) (w t w' : stream) :
  root v = true -> spaces w -> renders v t -> spaces w' ->
  Document_Parse (unchars (w ++ t ++ w')) = Ret (Some v).
Proof. apply Document_Parse_spaced. Qed.

(** [C31] Integers at their width: the text of an integer from [-2^63] to
    [2^64 - 1] is read as exactly this integer, whichever of the 32 and 64 bit
    loops its digits end in, and no intermediate value wraps around; the text of
    any other integer is read as a double or refused as too big. *)
Theorem integer_bounds (z : Z) (rest : stream) :
  delimited rest ->
  if decide (- 2 ^ 63 <= z < 2 ^ 64)%Z
  then parse_number (chars (to_string z) ++ rest) = (Ret (VInt z), rest)
  else not_integer (parse_number (chars (to_string z) ++ rest)).1.
Proof.
  intros Hr. case_decide; [by apply parse_number_back|]. apply parse_number_overflow; [lia|done].
Qed.

(** ** Witnesses *)
Lemma print_parse_witness :
  root doc_example = true /\ readable doc_example /\
  exists text, stringify doc_example = Ret text /\ Document_Parse text = Ret (Some doc_example).
Proof.
  split; [reflexivity|]. split; [by split|]. exact (print_parse doc_example eq_refl (conj eq_refl eq_refl)).
Defined.

Lemma spaced_parse_witness :
  Document_Parse (unchars ([" "%char] ++ ("{"%char :: ["010"%char] ++ chars (print_string "a") ++ [] ++
     ":"%char :: [" "%char] ++ chars (print (VInt 1)) ++ ["010"%char] ++ ["}"%char]) ++ ["013"%char])) =
    Ret (Some (VObject [("a", VInt 1)])).
Proof.
  assert (H : forall c, whitespace c = true -> spaces [c]) by (intros c Hc; by apply Forall_singleton).
  apply (spaced_parse (VObject [("a", VInt 1)]) [" "%char] _ ["013"%char]);
    [reflexivity|by apply H| |by apply H].
  apply (renders_object ["010"%char]); [by apply H|].
  apply last_member; [constructor|by apply H|by apply renders_scalar|by apply H].
Defined.

Lemma integer_bounds_witness :
  delimited [nul] /\
  parse_number (chars (to_string (-9223372036854775808)) ++ [nul]) =
    (Ret (VInt (-9223372036854775808)), [nul]) /\
  not_integer (parse_number (chars (to_string 18446744073709551616) ++ [nul])).1.
Proof.
  assert (H : delimited [nul]) by by apply delimited_cons.
  split; [exact H|]. split.
  - exact (integer_bounds (-9223372036854775808) [nul] H).
  - exact (integer_bounds 18446744073709551616 [nul] H).
Defined.
