(* ===== verification/PrettyWriter.v ===== *)
(** * The digits of integers and the pretty writer

    The loops of [Writer::WriteUint] and its siblings in rapidjson's [writer.h],
    and [PrettyWriter] of [prettywriter.h], which [Json::stringify] uses in a
    debug build instead of [Writer]. *)
From S2P Require Import Prelude Numbers StringUtils Json Reader.

(** ** Integers *)

(** [(u % 10) + '0']. *)
Definition digit_char (d : Z) : ascii := ascii_of_nat (Z.to_nat (d + 48)).

(** The first loop: [buffer] holds what has been written, the last byte first,
    [room] is the rest of the array; a byte more would be written behind it. *)
Fixpoint write_digits (room : nat) (u : Z) (buffer : list ascii) : result (list ascii) :=
  match room with
  | 0 => Terminated
  | S room' =>
    let buffer := digit_char (u mod 10) :: buffer in
    if decide (0 < u / 10)%Z then write_digits room' (u / 10) buffer else Ret buffer
  end.

(** The second loop puts the bytes from the last one to the first. *)
Definition WriteUint (u : Z) : result string := l ← write_digits 10 u []; Ret (unchars l).
Definition WriteUint64 (u64 : Z) : result string := l ← write_digits 20 u64 []; Ret (unchars l).

(** [i = -i] of the smallest integer is undefined in C++ and wraps in practice. *)
Definition WriteInt (i : Z) : result string :=
  if decide (i < 0)%Z then s ← WriteUint (to_signed 32 (- i) mod 2 ^ 32); Ret ("-" +:+ s) else WriteUint i.
Definition WriteInt64 (i64 : Z) : result string :=
  if decide (i64 < 0)%Z then s ← WriteUint64 (to_signed 64 (- i64) mod 2 ^ 64); Ret ("-" +:+ s)
  else WriteUint64 i64.

(** The integer events of [GenericValue::Accept], by [IsInt], [IsUint] and
    [IsInt64]. *)
Definition write_integer (z : Z) : result string :=
  if decide (int_min <= z <= int_max)%Z then WriteInt z
  else if decide (0 <= z < 2 ^ 32)%Z then WriteUint z
  else if decide (- 2 ^ 63 <= z < 2 ^ 63)%Z then WriteInt64 z
  else WriteUint64 z.

(** ** The pretty writer *)
Definition indent (levels : nat) : string := unchars (repeat " "%char (levels * 4)).
Definition WriteIndent : W unit := w ← get; put (indent (length (level_stack w))).

Definition PrettyPrefix (type : Type_) : W unit := fun w =>
  match level_stack w with
  | [] => w_assert (bool_decide (type = kObjectType \/ type = kArrayType)) w
  | level :: levels =>
    (_ ← (if inArray level then
            _ ← put (if decide (0 < valueCount level) then "," +:+ nl else nl);
            WriteIndent
          else
            _ ← put (if decide (0 < valueCount level)
                     then if decide (valueCount level `mod` 2 = 0) then "," +:+ nl else ": "
                     else nl);
            if decide (valueCount level `mod` 2 = 0) then WriteIndent else mret tt);
     _ ← w_assert (inArray level || negb (bool_decide (valueCount level `mod` 2 = 0))
                   || bool_decide (type = kStringType));
     modify (fun w => mkWriter (out w) (mkWLevel (inArray level) (S (valueCount level)) :: levels))) w
  end.

(** [EndObject] and [EndArray] without the bracket: the new line of a level that
    is not empty. *)
Definition pretty_end (in_array : bool) : W unit :=
  w ← get;
  _ ← pop_level in_array;
  match level_stack w with
  | level :: _ => if negb (Nat.eqb (valueCount level) 0) then _ ← put nl; WriteIndent else mret tt
  | [] => mret tt
  end.

Definition pretty_StartObject : W unit := _ ← PrettyPrefix kObjectType; _ ← push_level false; put "{".
Definition pretty_EndObject : W unit := _ ← pretty_end false; put "}".
Definition pretty_StartArray : W unit := _ ← PrettyPrefix kArrayType; _ ← push_level true; put "[".
Definition pretty_EndArray : W unit := _ ← pretty_end true; put "]".

Definition pretty_event (type : Type_) (text : string) : W unit := _ ← PrettyPrefix type; put text.
Definition pretty_string (s : string) : W unit := _ ← PrettyPrefix kStringType; WriteString s.

Fixpoint pretty_Accept (v : value) : W unit :=
  match v with
  | VNull => pretty_event kNullType "null"
  | VBool b => pretty_event (if b then kTrueType else kFalseType) (if b then "true" else "false")
  | VInt z => _ ← PrettyPrefix kNumberType; text ← lift (write_integer z); put text
  | VDouble g => pretty_event kNumberType g
  | VString s => pretty_string s
  | VArray elements =>
    _ ← pretty_StartArray;
    _ ← (fix go l := match l with
         | [] => mret tt
         | v :: l' => _ ← pretty_Accept v; go l'
         end) elements;
    pretty_EndArray
  | VObject members =>
    _ ← pretty_StartObject;
    _ ← (fix go l := match l with
         | [] => mret tt
         | (n, v) :: l' => _ ← pretty_string n; _ ← pretty_Accept v; go l'
         end) members;
    pretty_EndObject
  end.

(** [Batyr::Json::stringify], debug build. *)
Definition stringify_debug (doc : value) : result string :=
  match pretty_Accept doc (mkWriter "" []) with
  | (Ret _, w) => Ret (c_str (out w))
  | (Throw e, _) => Throw e
  | (Terminated, _) => Terminated
  end.

(** ** Lemmas: the digits *)
Lemma is_digit_char c : is_digit c -> exists d, digit_of c = Some d /\ (0 <= d < 10)%Z /\ c = digit_char d.
Proof.
  unfold is_digit, digit_of. case_decide as Hc; [|done]. intros _. eexists. split; [done|]. split; [lia|].
  unfold digit_char. rewrite Z.sub_add, Nat2Z.id. by rewrite ascii_nat_embedding.
Qed.

Lemma digit_char_of d : (0 <= d < 10)%Z -> digit_of (digit_char d) = Some d.
Proof.
  intros Hd. unfold digit_of, digit_char. rewrite nat_ascii_embedding by lia.
  rewrite decide_True by lia. f_equal. lia.
Qed.

Lemma digit_char_digit d : (0 <= d < 10)%Z -> is_digit (digit_char d).
Proof. intros Hd. unfold is_digit. by rewrite digit_char_of. Qed.

Lemma read_digits_snoc l c acc d :
  Forall is_digit l -> digit_of c = Some d -> read_digits (l ++ [c]) acc = (read_digits l acc * 10 + d)%Z.
Proof.
  intros Hl Hc. revert acc. induction Hl as [|x l Hx Hl IH]; intros acc; cbn [app read_digits]; [by rewrite Hc|].
  destruct (is_digit_char x Hx) as (e & -> & _). apply IH.
Qed.

(** Digits without a zero in front. *)
Definition significant (l : list ascii) : Prop :=
  Forall is_digit l /\ match l with c :: _ => c <> "0"%char | [] => True end.

Lemma significant_zero l : significant l -> read_digits l 0 = 0%Z -> l = [].
Proof.
  destruct l as [|c l]; [done|]. intros [[Hc Hl]%Forall_cons Hz] H. exfalso. cbn [read_digits] in H.
  destruct (is_digit_char c Hc) as (d & Hd & Hr & ->). rewrite Hd in H.
  pose proof (read_digits_ge l (0 * 10 + d) Hl ltac:(lia)).
  assert (d = 0%Z) as -> by lia. by apply Hz.
Qed.

Lemma significant_init l c : significant (l ++ [c]) -> significant l /\ is_digit c.
Proof.
  intros [[Hl Hc]%Forall_app Hz]. rewrite Forall_singleton in Hc. split; [|done]. split; [done|].
  by destruct l.
Qed.

(** They are determined by the number they stand for. *)
Lemma significant_inj a b : significant a -> significant b -> read_digits a 0 = read_digits b 0 -> a = b.
Proof.
  revert b. induction a as [|x a IH] using rev_ind; intros b Ha Hb E.
  - symmetry. by apply significant_zero.
  - destruct b as [|y b _] using rev_ind.
    + by apply significant_zero in E.
    + destruct (significant_init _ _ Ha) as [Ha' Hx], (significant_init _ _ Hb) as [Hb' Hy].
      destruct (is_digit_char x Hx) as (d & Hd & Hdr & ->), (is_digit_char y Hy) as (e & He & Her & ->).
      rewrite (read_digits_snoc a _ 0 d), (read_digits_snoc b _ 0 e) in E by (done || apply Ha' || apply Hb').
      assert (d = e) as -> by lia. f_equal. apply IH; [done..|lia].
Qed.

Lemma to_string_significant z : (0 < z)%Z -> significant (chars (to_string z)).
Proof.
  intros Hz. split; [apply to_string_digits; lia|]. by destruct (to_string_head z Hz) as (c & l & -> & ?).
Qed.

(** What the first loop leaves in the buffer. *)
Lemma write_digits_ok room u buffer :
  (0 < u < 10 ^ Z.of_nat room)%Z ->
  exists ds, write_digits room u buffer = Ret (ds ++ buffer) /\ significant ds /\ read_digits ds 0 = u.
Proof.
  revert u buffer. induction room as [|room IH]; intros u buffer Hu; [simpl in Hu; lia|].
  cbn [write_digits]. pose proof (Z.mod_pos_bound u 10 ltac:(lia)) as Hm.
  pose proof (Z.div_mod u 10 ltac:(lia)) as Hdm. case_decide as Hd.
  - destruct (IH (u / 10)%Z (digit_char (u mod 10) :: buffer)) as (ds & -> & Hs & Hr).
    { split; [done|]. apply Z.div_lt_upper_bound; [lia|]. rewrite Nat2Z.inj_succ, Z.pow_succ_r in Hu; lia. }
    exists (ds ++ [digit_char (u mod 10)]). rewrite <- app_assoc. split; [done|]. split.
    + destruct Hs as [Hs Hz]. split; [apply Forall_app; split; [done|by constructor; [apply digit_char_digit|]]|].
      destruct ds; [simpl in Hr; lia|done].
    + rewrite (read_digits_snoc _ _ _ (u mod 10)%Z); [lia|apply Hs|by apply digit_char_of].
  - assert (u mod 10 = u)%Z as -> by lia. exists [digit_char u]. split; [done|]. split.
    + split; [by constructor; [apply digit_char_digit; lia|]|]. intros H.
      assert (digit_of (digit_char u) = Some 0%Z) as H0 by by rewrite H.
      rewrite digit_char_of in H0 by lia. injection H0. lia.
    + cbn [read_digits]. rewrite digit_char_of by lia. lia.
Qed.

Lemma write_digits_text room u :
  0 < room -> (0 <= u < 10 ^ Z.of_nat room)%Z -> write_digits room u [] = Ret (chars (to_string u)).
Proof.
  intros Hr Hu. destruct (decide (u = 0)%Z) as [->|Hz]; [by destruct room; [lia|]|].
  destruct (write_digits_ok room u []) as (ds & -> & Hs & Hv); [lia|]. rewrite app_nil_r. f_equal.
  apply significant_inj; [done|apply to_string_significant; lia|].
  rewrite Hv. symmetry. apply to_string_digits. lia.
Qed.

Lemma WriteUint_text u : (0 <= u < 2 ^ 32)%Z -> WriteUint u = Ret (to_string u).
Proof.
  intros Hu. unfold WriteUint. rewrite write_digits_text by lia. cbn. by rewrite unchars_chars.
Qed.

Lemma WriteUint64_text u : (0 <= u < 2 ^ 64)%Z -> WriteUint64 u = Ret (to_string u).
Proof.
  intros Hu. unfold WriteUint64. rewrite write_digits_text by lia. cbn. by rewrite unchars_chars.
Qed.

(** The wrapped negation, as an unsigned number, is the absolute value. *)
Lemma negated w z : (0 < w)%Z -> (- 2 ^ (w - 1) <= z < 0)%Z -> (to_signed w (- z) mod 2 ^ w = - z)%Z.
Proof.
  intros Hw Hz. assert (Hp : (2 ^ w = 2 * 2 ^ (w - 1))%Z) by (rewrite <- Z.pow_succ_r by lia; f_equal; lia).
  unfold to_signed. rewrite Zminus_mod_idemp_l. rewrite Z.add_simpl_r. apply Z.mod_small. lia.
Qed.

Lemma write_integer_text z : (- 2 ^ 63 <= z < 2 ^ 64)%Z -> write_integer z = Ret (to_string z).
Proof.
  intros Hz. unfold write_integer, WriteInt, WriteInt64, int_min, int_max.
  repeat case_decide; try (apply WriteUint_text; lia); try (apply WriteUint64_text; lia);
    rewrite negated by lia; [rewrite WriteUint_text by lia|rewrite WriteUint64_text by lia];
    cbn; by rewrite <- to_string_neg.
Qed.

(** ** Lemmas: the text of the pretty writer *)
Definition new_line (d : nat) : string := nl +:+ indent d.
Definition comma (k : nat) : string := if decide (0 < k) then "," else "".

(** The elements or members from the [k]-th on, in [d] levels. *)
Fixpoint lines (d k : nat) (l : list string) : string :=
  match l with
  | [] => ""
  | t :: l' => comma k +:+ new_line d +:+ t +:+ lines d (S k) l'
  end.
Definition closing (d n : nat) : string := if decide (n = 0) then "" else new_line d.

Fixpoint pretty (d : nat) (v : value) : string :=
  match v with
  | VArray elements => "[" +:+ lines (S d) 0 (pretty (S d) <$> elements) +:+ closing d (length elements) +:+ "]"
  | VObject members =>
    "{" +:+ lines (S d) 0 ((fun m => print_string m.1 +:+ ": " +:+ pretty (S d) m.2) <$> members) +:+
    closing d (length members) +:+ "}"
  | v => print v
  end.

Section PrettyText.
Implicit Types (o : string) (st : list WLevel).

Definition pretty_separator st : string :=
  match st with
  | [] => ""
  | l :: _ =>
    if inArray l || bool_decide (valueCount l `mod` 2 = 0)
    then comma (valueCount l) +:+ new_line (length st) else ": "
  end.

Lemma put_ok t o st : put t (mkWriter o st) = (Ret tt, mkWriter (o +:+ t) st).
Proof. done. Qed.

Lemma WriteIndent_ok o st : WriteIndent (mkWriter o st) = (Ret tt, mkWriter (o +:+ indent (length st)) st).
Proof. done. Qed.

Lemma PrettyPrefix_ok type o st :
  allowed type st ->
  PrettyPrefix type (mkWriter o st) = (Ret tt, mkWriter (o +:+ pretty_separator st) (counted st)).
Proof.
  intros Ha. unfold PrettyPrefix. cbn [level_stack]. destruct st as [|l st]; cbn [allowed] in *.
  - rewrite bool_decide_true by done. simpl. by rewrite string_app_nil_r.
  - assert (Has : (inArray l || negb (bool_decide (valueCount l `mod` 2 = 0))
                   || bool_decide (type = kStringType)) = true).
    { destruct Ha as [->|[Ha| ->]]; [done| |by rewrite orb_true_r].
      rewrite (bool_decide_false (_ = 0)) by done. by rewrite orb_true_r. }
    rewrite Has. clear Ha Has. unfold pretty_separator, comma, new_line. cbn [counted].
    set (k := valueCount l). destruct (inArray l); cbn [orb].
    + erewrite bind_step by (erewrite bind_step by apply put_ok; apply WriteIndent_ok).
      case_decide; unfold mbind, M_bind; cbn -[indent]; by rewrite ?string_app_assoc.
    + destruct (decide (k `mod` 2 = 0)) as [E|E].
      * rewrite bool_decide_true by done.
        erewrite bind_step by (erewrite bind_step by apply put_ok; apply WriteIndent_ok).
        case_decide; unfold mbind, M_bind; cbn -[indent]; by rewrite ?string_app_assoc.
      * rewrite bool_decide_false by done. rewrite (decide_True (P := 0 < k)) by (destruct k; [done|lia]).
        erewrite bind_step by (erewrite bind_step by apply put_ok; reflexivity). reflexivity.
Qed.

Definition pretty_writes (m : W unit) (type : Type_) (text : nat -> string) : Prop :=
  forall o st, allowed type st ->
    m (mkWriter o st) = (Ret tt, mkWriter (o +:+ pretty_separator st +:+ text (length st)) (counted st)).

Lemma pretty_writes_event type text : pretty_writes (pretty_event type text) type (fun _ => text).
Proof.
  intros o st Ha. unfold pretty_event. erewrite bind_step by (by apply PrettyPrefix_ok).
  rewrite put_ok. by rewrite string_app_assoc.
Qed.

Lemma pretty_writes_string s : pretty_writes (pretty_string s) kStringType (fun _ => print_string s).
Proof. apply pretty_writes_event. Qed.

Lemma pretty_writes_int z :
  (- 2 ^ 63 <= z < 2 ^ 64)%Z -> pretty_writes (pretty_Accept (VInt z)) kNumberType (fun _ => to_string z).
Proof.
  intros Hz o st Ha. cbn [pretty_Accept]. erewrite bind_step by (by apply PrettyPrefix_ok).
  rewrite write_integer_text by done. erewrite bind_step by reflexivity.
  rewrite put_ok. by rewrite string_app_assoc.
Qed.

Definition element_writes v : Prop := pretty_writes (pretty_Accept v) (type_of v) (fun d => pretty d v).

(** The loops over elements and members, from the [k]-th on. *)
Lemma elements_loop l k o st :
  Forall element_writes l ->
  (fix go l := match l with [] => mret tt | v :: l' => _ ← pretty_Accept v; go l' end : W unit) l
    (mkWriter o (mkWLevel true k :: st)) =
  (Ret tt, mkWriter (o +:+ lines (S (length st)) k (pretty (S (length st)) <$> l))
             (mkWLevel true (k + length l) :: st)).
Proof.
  revert k o. induction l as [|v l IH]; intros k o HF.
  - simpl. by rewrite string_app_nil_r, Nat.add_0_r.
  - apply Forall_cons in HF as [Hv Hl]. erewrite bind_step by (apply Hv; by left).
    unfold counted. cbn [inArray valueCount]. rewrite IH by done.
    cbn [fmap list_fmap lines length pretty_separator inArray valueCount orb].
    rewrite !string_app_assoc. replace (k + S (length l)) with (S k + length l) by lia. done.
Qed.

Definition member_line (d : nat) (m : string * value) : string := print_string m.1 +:+ ": " +:+ pretty d m.2.

Lemma members_loop l k o st :
  Forall (fun m => element_writes m.2) l ->
  (fix go l := match l with [] => mret tt
               | (n, v) :: l' => _ ← pretty_string n; _ ← pretty_Accept v; go l' end : W unit) l
    (mkWriter o (mkWLevel false (2 * k) :: st)) =
  (Ret tt, mkWriter (o +:+ lines (S (length st)) k (member_line (S (length st)) <$> l))
             (mkWLevel false (2 * (k + length l)) :: st)).
Proof.
  revert k o. induction l as [|[n v] l IH]; intros k o HF.
  - cbn [fmap list_fmap lines length]. by rewrite string_app_nil_r, Nat.add_0_r.
  - apply Forall_cons in HF as [Hv Hl]. cbn [snd] in Hv.
    erewrite bind_step by (apply pretty_writes_string; right; by right).
    unfold counted. cbn [inArray valueCount].
    erewrite bind_step by (apply Hv; right; left; cbn [valueCount]; by rewrite odd_mod).
    unfold counted. cbn [inArray valueCount]. replace (S (S (2 * k))) with (2 * S k) by lia.
    rewrite IH by done. cbn [pretty_separator inArray valueCount orb]. rewrite odd_mod, even_mod.
    rewrite (bool_decide_false (1 = 0)), (bool_decide_true (0 = 0)) by done.
    replace (comma (2 * k)) with (comma k) by (unfold comma; by apply decide_ext; lia).
    cbn [fmap list_fmap lines length]. unfold member_line at 2. cbn [fst snd].
    rewrite !string_app_assoc. replace (k + S (length l)) with (S k + length l) by lia. done.
Qed.

Lemma pretty_end_ok b k o st :
  pretty_end b (mkWriter o (mkWLevel b k :: st)) = (Ret tt, mkWriter (o +:+ closing (length st) k) st).
Proof.
  unfold pretty_end, closing. erewrite bind_step by reflexivity. cbn [level_stack valueCount].
  erewrite bind_step by (unfold pop_level; cbn [level_stack inArray]; by rewrite eqb_reflx).
  destruct k as [|k]; cbn [Nat.eqb negb].
  - rewrite decide_True by done. by rewrite string_app_nil_r.
  - rewrite decide_False by done. erewrite bind_step by apply put_ok. rewrite WriteIndent_ok.
    unfold new_line. by rewrite string_app_assoc.
Qed.

Lemma pretty_StartArray_ok o st :
  allowed kArrayType st ->
  pretty_StartArray (mkWriter o st) =
    (Ret tt, mkWriter ((o +:+ pretty_separator st) +:+ "[") (mkWLevel true 0 :: counted st)).
Proof. intros Ha. unfold pretty_StartArray. by erewrite bind_step by (by apply PrettyPrefix_ok). Qed.

Lemma pretty_StartObject_ok o st :
  allowed kObjectType st ->
  pretty_StartObject (mkWriter o st) =
    (Ret tt, mkWriter ((o +:+ pretty_separator st) +:+ "{") (mkWLevel false 0 :: counted st)).
Proof. intros Ha. unfold pretty_StartObject. by erewrite bind_step by (by apply PrettyPrefix_ok). Qed.

Lemma pretty_Accept_ok v : ints_fit v = true -> element_writes v.
Proof.
  unfold element_writes.
  induction v as [|b|z|g|s|l IH|l IH] using value_nested_ind; intros Hi; try apply pretty_writes_event.
  - apply pretty_writes_int. cbn [ints_fit] in Hi. by apply bool_decide_eq_true in Hi.
  - intros o st Ha. cbn [pretty_Accept pretty type_of] in *.
    assert (HF : Forall element_writes l).
    { cbn [ints_fit] in Hi. rewrite forallb_forall in Hi. rewrite Forall_forall in IH |- *. intros x Hx.
      apply IH; [done|]. apply Hi. by apply list_elem_of_In. }
    erewrite bind_step by (by apply pretty_StartArray_ok). erewrite bind_step by (by apply elements_loop).
    unfold pretty_EndArray. erewrite bind_step by apply pretty_end_ok. rewrite put_ok.
    assert (Hlen : length (counted st) = length st) by by destruct st.
    cbn [out level_stack Nat.add]. by rewrite Hlen, !string_app_assoc.
  - intros o st Ha. cbn [pretty_Accept pretty type_of] in *.
    assert (HF : Forall (fun m => element_writes m.2) l).
    { cbn [ints_fit] in Hi. rewrite forallb_forall in Hi. rewrite Forall_forall in IH |- *. intros x Hx.
      apply IH; [done|]. apply Hi. by apply list_elem_of_In. }
    erewrite bind_step by (by apply pretty_StartObject_ok). erewrite bind_step by (by apply (members_loop l 0)).
    unfold pretty_EndObject. erewrite bind_step by apply pretty_end_ok. rewrite put_ok.
    assert (Hlen : length (counted st) = length st) by by destruct st.
    cbn [out level_stack]. rewrite Hlen, !string_app_assoc.
    replace (closing (length st) (2 * (0 + length l))) with (closing (length st) (length l))
      by (unfold closing; by apply decide_ext; lia). done.
Qed.

(** ** The text is one of the value *)
Lemma spaces_new_line d : spaces (chars (new_line d)).
Proof.
  unfold new_line, indent. rewrite chars_app, chars_unchars. apply Forall_app. split; [by constructor|].
  apply Forall_forall. intros c Hc%list_elem_of_In%repeat_spec. by subst.
Qed.

Lemma lines_cons d k t l :
  chars (lines d k (t :: l)) = chars (comma k) ++ chars (new_line d) ++ chars t ++ chars (lines d (S k) l).
Proof. cbn [lines]. by rewrite !chars_app. Qed.

Lemma lines_elements d k v l :
  Forall (fun v => renders v (chars (pretty d v))) (v :: l) ->
  exists t, chars (lines d k (pretty d <$> v :: l)) = chars (comma k) ++ chars (new_line d) ++ t /\
    forall w, spaces w -> element_texts (v :: l) (t ++ w ++ ["]"%char]).
Proof.
  revert v k. induction l as [|v' l IH]; intros v k [Hv Hl]%Forall_cons; rewrite fmap_cons, lines_cons;
    (eexists; split; [reflexivity|]); intros w Hw.
  - rewrite app_nil_r. by apply last_element.
  - destruct (IH v' (S k) Hl) as (u & -> & Ht). rewrite <- !app_assoc.
    apply (next_element v _ [] (chars (new_line d))); [done|constructor|apply spaces_new_line|by apply Ht].
Qed.

Lemma lines_members d k m l :
  Forall (fun m => renders m.2 (chars (pretty d m.2))) (m :: l) ->
  exists t, chars (lines d k (member_line d <$> m :: l)) = chars (comma k) ++ chars (new_line d) ++ t /\
    forall w, spaces w -> member_texts (m :: l) (t ++ w ++ ["}"%char]).
Proof.
  assert (Hb : spaces [" "%char]) by by apply Forall_singleton.
  assert (H0 : spaces []) by constructor.
  revert m k. induction l as [|m' l IH]; intros [n v] k [Hv Hl]%Forall_cons; rewrite fmap_cons, lines_cons;
    (eexists; split; [reflexivity|]); intros w Hw; unfold member_line at 1; cbn [fst snd] in *;
    rewrite !chars_app, <- !app_assoc; cbn [chars app].
  - by apply (last_member n [] [" "%char]).
  - destruct (IH m' (S k) Hl) as (u & -> & Ht). rewrite <- !app_assoc.
    apply (next_member n [] [" "%char] v _ [] (chars (new_line d))); try done; [apply spaces_new_line|by apply Ht].
Qed.

Lemma pretty_renders v d : readable v -> renders v (chars (pretty d v)).
Proof.
  unfold readable. revert d. induction v as [|b|z|g|s|l IH|l IH] using value_nested_ind; intros d [Hd Hi];
    try (by apply renders_scalar); try done; cbn [pretty no_double ints_fit] in *;
    rewrite !chars_app; cbn [chars app].
  - destruct l as [|v l]; [apply (renders_empty_array []); constructor|].
    destruct (lines_elements (S d) 0 v l) as (t & -> & Ht).
    { rewrite forallb_forall in Hd, Hi. rewrite Forall_forall in IH |- *.
      intros x Hx. apply IH; [done|]. rewrite list_elem_of_In in Hx. auto. }
    change (chars (comma 0)) with (@nil ascii). cbn [app]. rewrite <- app_assoc.
    apply (renders_array (chars (new_line (S d)))); [apply spaces_new_line|].
    apply Ht, spaces_new_line.
  - destruct l as [|m l]; [apply (renders_empty_object []); constructor|].
    change (fun m => print_string m.1 +:+ ": " +:+ pretty (S d) m.2) with (member_line (S d)).
    destruct (lines_members (S d) 0 m l) as (t & -> & Ht).
    { rewrite forallb_forall in Hd, Hi. rewrite Forall_forall in IH |- *.
      intros x Hx. apply IH; [done|]. rewrite list_elem_of_In in Hx. auto. }
    change (chars (comma 0)) with (@nil ascii). cbn [app]. rewrite <- app_assoc.
    apply (renders_object (chars (new_line (S d)))); [apply spaces_new_line|].
    apply Ht, spaces_new_line.
Qed.
End PrettyText.

Lemma stringify_debug_text doc :
  root doc = true -> readable doc -> stringify_debug doc = Ret (pretty 0 doc).
Proof.
  intros Hr Hv. unfold stringify_debug. rewrite pretty_Accept_ok; [|apply Hv|destruct doc; try done; [by right|by left]].
  cbn [out pretty_separator length]. rewrite c_str_id; [done|].
  by eapply (proj1 renders_no_nul), (pretty_renders doc 0).
Qed.

(** ** Properties *)

(** The digit loops of the writer: every integer of the four events is
    written as its decimal text, the smallest ones included, and neither the
    ten nor the twenty bytes of the buffers are ever exceeded. *)
Theorem write_integer_correct (z : Z) :
  (- 2 ^ 63 <= z < 2 ^ 64)%Z -> write_integer z = Ret (to_string z).
Proof. apply write_integer_text. Qed.

(** [C32] The debug build writes the same documents: the indented text of an
    object or array without doubles ([readable]) is complete, passes every assertion of the pretty writer,
    and is read as the same value as the compact text of the release build. *)
Theorem pretty_same_document (v : value) :
  root v = true -> readable v ->
  exists text compact, stringify_debug v = Ret text /\ stringify v = Ret compact /\
    Document_Parse text = Ret (Some v) /\ Document_Parse compact = Ret (Some v).
Proof.
  intros Hr Hv. exists (pretty 0 v), (print v).
  split; [by apply stringify_debug_text|]. split; [by apply stringify_text; [|apply Hv]|].
  split; [|by apply Document_Parse_print].
  rewrite <- (unchars_chars (pretty 0 v)), <- (app_nil_r (chars _)).
  apply (Document_Parse_spaced v [] _ []); [done|constructor|by apply pretty_renders|constructor].
Qed.

(** ** Witnesses *)
Lemma write_integer_correct_witness :
  write_integer (-2147483648) = Ret "-2147483648" /\
  write_integer 18446744073709551615 = Ret "18446744073709551615".
Proof.
  split; (etransitivity; [apply write_integer_correct; lia|vm_compute; reflexivity]).
Defined.

Lemma pretty_same_document_witness :
  exists text compact, stringify_debug doc_example = Ret text /\ stringify doc_example = Ret compact /\
    Document_Parse text = Ret (Some doc_example) /\ Document_Parse compact = Ret (Some doc_example).
Proof. exact (pretty_same_document doc_example eq_refl (conj eq_refl eq_refl)). Defined.

Example pretty_example :
  pretty 0 (VObject [("a", VArray [VInt 1; VNull]); ("b", VObject [])]) =
    cat ["{"; nl; "    "; print_string "a"; ": ["; nl; "        1,"; nl; "        null"; nl; "    ],"; nl;
         "    "; print_string "b"; ": {}"; nl; "}"].
Proof. vm_compute. reflexivity. Qed.
