(* ===== verification/DoubleText.v ===== *)
(** * Doubles as text

    [Writer::WriteDouble] of the vendored rapidjson ([writer.h]) with its buffer,
    and the [%g] of [Numbers] that it calls: the search for the exponent ends
    within its fuel for every double, the six digits are rounded correctly, and
    the text fits into the buffer. *)
From S2P Require Import Prelude Numbers StringUtils Json Reader PrettyWriter.

(** ** The code *)

(** [snprintf] writes at most 99 bytes and a NUL into the buffer and returns the
    length of the whole text; the loop then reads that many bytes. *)
Definition WriteDouble (d : double) : W unit :=
  let text := double_text d in
  let ret := String.length text in
  _ ← w_assert (bool_decide (1 <= ret));
  if decide (ret < 100) then put text else terminate.
Definition ev_Double (d : double) : W unit := _ ← Prefix kNumberType; WriteDouble d.

(** ** The exponent *)
Lemma exponent_up_spec fuel n d x :
  (0 < d)%Z -> (n < 10 ^ (Z.of_nat fuel + 1) * d)%Z ->
  exists i, exponent_up fuel n d x = ((d * 10 ^ Z.of_nat i)%Z, (x + Z.of_nat i)%Z) /\ i <= fuel /\
    (n < 10 * (d * 10 ^ Z.of_nat i))%Z /\ (i = 0 \/ (d * 10 ^ Z.of_nat i <= n)%Z).
Proof.
  revert d x. induction fuel as [|fuel IH]; intros d x Hd Hn; cbn [exponent_up].
  - exists 0. split; [f_equal; lia|]. split; [done|]. split; [cbn in *; lia|by left].
  - case_decide as Hc.
    + destruct (IH (10 * d)%Z (x + 1)%Z) as (i & E & Hi & Hlt & Hge); [lia| |].
      { replace (Z.of_nat (S fuel) + 1)%Z with (Z.succ (Z.of_nat fuel + 1)) in Hn by lia.
        rewrite Z.pow_succ_r in Hn by lia. lia. }
      assert (Hs : (d * 10 ^ Z.of_nat (S i) = 10 * d * 10 ^ Z.of_nat i)%Z).
      { rewrite Nat2Z.inj_succ, Z.pow_succ_r by lia. lia. }
      exists (S i). rewrite Hs, E. split; [f_equal; lia|]. split; [lia|]. split; [done|]. right.
      destruct Hge as [->|Hge]; [cbn; lia|done].
    + exists 0. split; [f_equal; lia|]. split; [lia|]. split; [cbn; lia|by left].
Qed.

Lemma exponent_down_spec fuel n d x :
  (0 < n)%Z -> (n < 10 * d)%Z -> (d <= 10 ^ Z.of_nat fuel * n)%Z ->
  exists j, exponent_down fuel n d x = ((n * 10 ^ Z.of_nat j)%Z, (x - Z.of_nat j)%Z) /\ j <= fuel /\
    (d <= n * 10 ^ Z.of_nat j < 10 * d)%Z.
Proof.
  revert n x. induction fuel as [|fuel IH]; intros n x Hn Hlt Hge; cbn [exponent_down].
  - exists 0. split; [f_equal; lia|]. split; [done|]. cbn in *. lia.
  - case_decide as Hc.
    + destruct (IH (10 * n)%Z (x - 1)%Z) as (j & E & Hj & H); [lia|lia| |].
      { rewrite Nat2Z.inj_succ, Z.pow_succ_r in Hge by lia. lia. }
      assert (Hs : (n * 10 ^ Z.of_nat (S j) = 10 * n * 10 ^ Z.of_nat j)%Z).
      { rewrite Nat2Z.inj_succ, Z.pow_succ_r by lia. lia. }
      exists (S j). rewrite Hs, E. split; [f_equal; lia|]. split; [lia|done].
    + exists 0. split; [f_equal; lia|]. split; [lia|]. cbn. lia.
Qed.

Lemma round_div_between n d a b :
  (0 < d)%Z -> (a * d <= n < b * d)%Z -> (a <= round_div n d <= b)%Z.
Proof.
  intros Hd Hn. unfold round_div.
  pose proof (Z.div_le_lower_bound n d a Hd ltac:(lia)). pose proof (Z.div_lt_upper_bound n d b Hd ltac:(lia)).
  repeat case_decide; try lia. destruct (Z.even _); lia.
Qed.

(** The six digits stand for the number, half a unit of the last one at most
    away: [x] is the exponent of the first. *)
Definition six_digits_right (n d m x : Z) : Prop :=
  (100000 <= m < 1000000)%Z /\
  exists i j, x = (Z.of_nat i - Z.of_nat j)%Z /\ i <= 401 /\ j <= 400 /\
    (2 * Z.abs (n * 10 ^ Z.of_nat j * 100000 - m * (d * 10 ^ Z.of_nat i)) <= d * 10 ^ Z.of_nat i)%Z.

(** What the fuel of [six_digits] is enough for. *)
Definition in_range (n d : Z) : Prop := (0 < n)%Z /\ (0 < d)%Z /\ (n < 10 ^ 400 * d)%Z /\ (d <= 10 ^ 400 * n)%Z.

Lemma six_digits_correct n d :
  in_range n d -> six_digits_right n d (six_digits n d).1 (six_digits n d).2.
Proof.
  intros (Hn & Hd & H1 & H2). unfold six_digits.
  destruct (exponent_up_spec 400 n d 0 Hd) as (i & -> & Hi & Hlt & Hge).
  { change (Z.of_nat 400 + 1)%Z with 401%Z. change (10 ^ 401)%Z with (10 * 10 ^ 400)%Z. lia. }
  assert (Hpi : (0 < 10 ^ Z.of_nat i)%Z) by (apply Z.pow_pos_nonneg; lia).
  set (d1 := (d * 10 ^ Z.of_nat i)%Z) in *. assert (Hd1 : (0 < d1)%Z) by (unfold d1; lia).
  destruct (exponent_down_spec 400 n d1 (0 + Z.of_nat i) Hn Hlt) as (j & -> & Hj & Hb).
  { change (Z.of_nat 400) with 400%Z. destruct Hge as [->|Hge]; [unfold d1; cbn [Z.of_nat]; lia|].
    assert (n * 1 <= n * 10 ^ 400)%Z by (apply Z.mul_le_mono_nonneg_l; [lia|by vm_compute]). lia. }
  pose proof (round_div_between (n * 10 ^ Z.of_nat j * 100000) d1 100000 1000000 Hd1 ltac:(lia)) as Hm.
  pose proof (round_div_error (n * 10 ^ Z.of_nat j * 100000) d1 Hd1) as He.
  set (m := round_div _ _) in *. case_decide as Hc; cbn [fst snd].
  - split; [lia|]. exists (S i), j. split; [lia|]. split; [lia|]. split; [done|]. rewrite Hc in He.
    rewrite Nat2Z.inj_succ, Z.pow_succ_r by lia.
    replace (d * (10 * 10 ^ Z.of_nat i))%Z with (10 * d1)%Z by (unfold d1; lia). lia.
  - split; [lia|]. exists i, j. split; [lia|]. split; [lia|]. split; [done|exact He].
Qed.

(** A double is in this range. *)
Lemma digits2_pos_bound m : (Z.pos m < 2 ^ Z.pos (digits2_pos m))%Z.
Proof.
  induction m as [m IH|m IH|]; cbn [digits2_pos]; [| |by vm_compute];
    rewrite Pos2Z.inj_succ, Z.pow_succ_r by lia; lia.
Qed.

Lemma bounded_range m e : bounded 53 1024 m e = true -> (Z.pos m < 2 ^ 53)%Z /\ (-1074 <= e <= 971)%Z.
Proof.
  unfold bounded, canonical_mantissa, fexp, emin. intros [H1%Z.eqb_eq H2%Z.leb_le]%andb_prop.
  split; [|lia]. eapply Z.lt_le_trans; [apply digits2_pos_bound|]. apply Z.pow_le_mono_r; lia.
Qed.

Lemma double_in_range m e :
  bounded 53 1024 m e = true ->
  if decide (0 <= e)%Z then in_range (Z.pos m * 2 ^ e) 1 else in_range (Z.pos m) (2 ^ (- e)).
Proof.
  intros [Hm He]%bounded_range. case_decide as Hp.
  - assert (H1 : (0 < 2 ^ e <= 2 ^ 971)%Z) by (split; [apply Z.pow_pos_nonneg; lia|apply Z.pow_le_mono_r; lia]).
    assert (H2 : (2 ^ 53 * 2 ^ 971 < 10 ^ 400)%Z) by by vm_compute.
    assert (H3 : (1 <= 10 ^ 400)%Z) by by vm_compute. repeat split; nia.
  - assert (H1 : (0 < 2 ^ (- e) <= 2 ^ 1074)%Z) by (split; [apply Z.pow_pos_nonneg; lia|apply Z.pow_le_mono_r; lia]).
    assert (H2 : (2 ^ 1074 <= 10 ^ 400)%Z) by by vm_compute.
    assert (H3 : (2 ^ 53 < 10 ^ 400)%Z) by by vm_compute. repeat split; nia.
Qed.

(** ** The length of the text *)
Lemma write_digits_length room u buffer l :
  write_digits room u buffer = Ret l -> length l <= room + length buffer.
Proof.
  revert u buffer. induction room as [|room IH]; intros u buffer; cbn [write_digits]; [done|].
  case_decide; [|intros [= <-]; cbn; lia]. intros H1%IH. cbn in H1. lia.
Qed.

Abbreviation len_of s := (String.length s).

Lemma to_string_length room u :
  0 < room -> (0 <= u < 10 ^ Z.of_nat room)%Z -> 1 <= len_of (to_string u) <= room.
Proof.
  intros Hr Hu. rewrite <- chars_length. split.
  - destruct (to_string_digits u) as (_ & Hne & _); [lia|]. destruct (to_string u); [done|cbn; lia].
  - pose proof (write_digits_length room u [] _ (write_digits_text room u Hr Hu)). cbn in *. lia.
Qed.

Lemma length_append a b : len_of (a +:+ b) = len_of a + len_of b.
Proof. by rewrite <- !chars_length, chars_app, length_app. Qed.

Lemma unchars_length l : len_of (unchars l) = length l.
Proof. by rewrite <- chars_length, chars_unchars. Qed.

Lemma pad0_length n z k : 0 < k -> (0 <= z < 10 ^ Z.of_nat k)%Z -> len_of (pad0 n z) <= Nat.max n k.
Proof.
  intros Hk Hz. pose proof (to_string_length k z Hk Hz). unfold pad0.
  rewrite length_append, unchars_length, length_replicate. lia.
Qed.

Lemma strip_zeros_length l : length (strip_zeros l) <= length l.
Proof. induction l as [|c l IH]; [done|]. cbn. destruct (Ascii.eqb c "0"); cbn; lia. Qed.

Lemma with_fraction_length i frac : len_of i <= len_of (with_fraction i frac) <= len_of i + 1 + len_of frac.
Proof.
  unfold with_fraction. destruct (is_empty _); [lia|]. rewrite !cat_cons, !length_append, unchars_length, length_rev.
  pose proof (strip_zeros_length (rev (chars frac))) as H. rewrite length_rev, chars_length in H. cbn. lia.
Qed.

(** [m] has six digits and the exponent three at most. *)
Lemma format_g_length m e :
  bounded 53 1024 m e = true -> 1 <= len_of (format_g (Z.pos m) e) <= 12.
Proof.
  intros Hb. pose proof (double_in_range m e Hb) as Hr. unfold format_g.
  set (nd := if decide (0 <= e)%Z then six_digits (Z.pos m * 2 ^ e) 1 else six_digits (Z.pos m) (2 ^ (- e))).
  assert (H : (100000 <= nd.1 < 1000000)%Z /\ (-400 <= nd.2 <= 401)%Z).
  { unfold nd. destruct (decide _); apply six_digits_correct in Hr as [Hm (i & j & -> & Hi & Hj & _)]; split; (done || lia). }
  clearbody nd. clear Hr Hb. destruct nd as [digits x]. cbn [fst snd] in H. destruct H as [Hm Hx].
  case_decide as Hsmall; [case_decide as Hpos|].
  - set (k := Z.to_nat (5 - x)). replace (5 - x)%Z with (Z.of_nat k) by lia.
    assert (Hk : k <= 5) by lia. pose proof (Z.pow_pos_nonneg 10 (Z.of_nat k) ltac:(lia) ltac:(lia)) as Hp.
    assert (Hsplit : (10 ^ Z.of_nat (6 - k) * 10 ^ Z.of_nat k = 1000000)%Z).
    { rewrite <- Z.pow_add_r by lia. by replace (Z.of_nat (6 - k) + Z.of_nat k)%Z with 6%Z by lia. }
    assert (Hq : (0 <= digits / 10 ^ Z.of_nat k < 10 ^ Z.of_nat (6 - k))%Z).
    { split; [apply Z.div_pos; lia|]. apply Z.div_lt_upper_bound; lia. }
    pose proof (to_string_length (6 - k) _ ltac:(lia) Hq) as Hi.
    pose proof (Z.mod_pos_bound digits (10 ^ Z.of_nat k) Hp) as Hmod.
    assert (Hf : len_of (pad0 k (digits mod 10 ^ Z.of_nat k)) <= Nat.max k (Nat.max k 1)).
    { apply pad0_length; [lia|]. split; [lia|]. eapply Z.lt_le_trans; [apply Hmod|]. apply Z.pow_le_mono_r; lia. }
    pose proof (with_fraction_length (to_string (digits / 10 ^ Z.of_nat k)) (pad0 k (digits mod 10 ^ Z.of_nat k))). lia.
  - pose proof (to_string_length 6 digits ltac:(lia) ltac:(lia)) as Hd.
    match goal with |- context [with_fraction ?i ?f] => pose proof (with_fraction_length i f) as Hw end.
    rewrite length_append, unchars_length, length_replicate in Hw. cbn [String.length] in Hw. lia.
  - assert (Hq : (0 <= digits / 100000 < 10 ^ Z.of_nat 1)%Z).
    { split; [apply Z.div_pos; lia|]. apply Z.div_lt_upper_bound; lia. }
    pose proof (to_string_length 1 _ ltac:(lia) Hq) as Hi.
    pose proof (pad0_length 5 (digits mod 100000) 5 ltac:(lia) (Z.mod_pos_bound digits 100000 ltac:(lia))) as Hf.
    pose proof (with_fraction_length (to_string (digits / 100000)) (pad0 5 (digits mod 100000))) as Hw.
    pose proof (pad0_length 2 (Z.abs x) 3 ltac:(lia) ltac:(lia)) as He.
    rewrite !cat_cons, !length_append. destruct (decide (x < 0)%Z); cbn [String.length]; cbn; lia.
Qed.

Lemma double_text_length d : valid_binary 53 1024 d = true -> 1 <= len_of (double_text d) <= 13.
Proof.
  destruct d as [s|s| |s m e]; intros Hd; [by destruct s; split; apply Nat.leb_le..|by split; apply Nat.leb_le|].
  pose proof (format_g_length m e Hd) as H. unfold double_text. rewrite !cat_cons, !length_append.
  change (len_of (cat [])) with 0. destruct s; cbn [String.length]; lia.
Qed.

Lemma WriteDouble_text d s : valid_binary 53 1024 d = true -> WriteDouble d s = put (double_text d) s.
Proof.
  intros Hd. pose proof (double_text_length d Hd) as Hl.
  unfold WriteDouble. rewrite bool_decide_eq_true_2 by lia. by rewrite decide_True by lia.
Qed.

Lemma ev_Double_text d s : valid_binary 53 1024 d = true -> ev_Double d s = ev_number (double_text d) s.
Proof.
  intros Hd. unfold ev_Double, ev_number, mbind, M_bind. destruct (Prefix _ s) as [[] ?]; try done.
  by apply WriteDouble_text.
Qed.

(** ** The property *)

(** Doubles are written within the buffer: for every double the search for
    the exponent ends within its fuel, the six digits are the number rounded to
    half a unit of the last one, the text has at most thirteen bytes, and the
    loop of [WriteDouble] puts all of it and nothing else. *)
Theorem write_double_fits d s :
  valid_binary 53 1024 d = true ->
  WriteDouble d s = put (double_text d) s /\ len_of (double_text d) <= 13 /\
  match d with
  | S754_finite _ m e =>
    if decide (0 <= e)%Z
    then six_digits_right (Z.pos m * 2 ^ e) 1 (six_digits (Z.pos m * 2 ^ e) 1).1 (six_digits (Z.pos m * 2 ^ e) 1).2
    else six_digits_right (Z.pos m) (2 ^ (- e)) (six_digits (Z.pos m) (2 ^ (- e))).1 (six_digits (Z.pos m) (2 ^ (- e))).2
  | _ => True
  end.
Proof.
  intros Hd. split; [by apply WriteDouble_text|]. split; [by apply double_text_length|].
  destruct d as [| | |b m e]; try done. pose proof (double_in_range m e Hd) as Hr.
  destruct (decide (0 <= e)%Z); by apply six_digits_correct.
Qed.

Lemma write_double_fits_witness :
  valid_binary 53 1024 (S754_finite true 4503599627370497 (-1074)) = true /\
  (WriteDouble (S754_finite true 4503599627370497 (-1074)) (mkWriter "[" [])).2 = mkWriter "[-2.22507e-308" [].
Proof.
  assert (Hd : valid_binary 53 1024 (S754_finite true 4503599627370497 (-1074)) = true) by reflexivity.
  split; [exact Hd|]. destruct (write_double_fits _ (mkWriter "[" []) Hd) as (-> & _ & _). vm_compute. reflexivity.
Defined.
