(* ===== verification/Memory.v ===== *)
(** * The memory of rapidjson

    [MemoryPoolAllocator] of the vendored rapidjson ([rapidjson.h]), from which
    documents and parsers take their memory, and [Allocator], what its clients
    rely on.  A pointer is a chunk and an offset behind its header; what [malloc]
    returns is fresh and aligned, and running out of memory is left out, as in the
    code. *)
From S2P Require Import Prelude.

(** ** Bytes *)
Abbreviation Ptr := (nat * Z)%type.

(** The memory behind the headers of the chunks; its first contents are open. *)
Definition Memory : Type := Ptr -> ascii.

Definition store (a : Ptr) (b : ascii) (m : Memory) : Memory :=
  fun x => if decide (x = a) then b else m x.

Definition shift (p : Ptr) (i : nat) : Ptr := (p.1, (p.2 + Z.of_nat i)%Z).

(** [memcpy] and [memset] on areas that do not overlap. *)
Fixpoint store_bytes (p : Ptr) (l : list ascii) (m : Memory) : Memory :=
  match l with
  | [] => m
  | b :: l' => store_bytes (shift p 1) l' (store p b m)
  end.

Definition read_bytes (p : Ptr) (n : nat) (m : Memory) : list ascii := (fun i => m (shift p i)) <$> seq 0 n.

Lemma shift_shift p i j : shift (shift p i) j = shift p (i + j).
Proof. unfold shift. cbn. f_equal. lia. Qed.

Lemma shift_0 p : shift p 0 = p.
Proof. destruct p. unfold shift. cbn. f_equal. lia. Qed.

Lemma store_bytes_lookup p l m x :
  store_bytes p l m x =
    match l !! Z.to_nat (x.2 - p.2) with
    | Some b => if decide (x.1 = p.1 /\ (p.2 <= x.2)%Z) then b else m x
    | None => m x
    end.
Proof.
  revert p m. induction l as [|b l IH]; intros p m; cbn [store_bytes]; [done|]. rewrite IH.
  destruct x as [c o], p as [c' o']. unfold store, shift. cbn [fst snd].
  destruct (decide (c = c' /\ (o' <= o)%Z)) as [[-> Ho]|Ho].
  - destruct (decide (o = o')) as [->|N].
    + rewrite Z.sub_diag. cbn. rewrite decide_True by done.
      destruct (l !! Z.to_nat _); [by rewrite decide_False by lia|done].
    + replace (Z.to_nat (o - o')) with (S (Z.to_nat (o - (o' + Z.of_nat 1)))) by lia.
      cbn [lookup list_lookup]. rewrite (decide_False (P := (c', o) = (c', o'))) by congruence.
      destruct (l !! Z.to_nat _); [by rewrite decide_True by lia|done].
  - assert (E : (if decide ((c, o) = (c', o')) then b else m (c, o)) = m (c, o)).
    { rewrite decide_False; [done|]. intros [= -> ->]. lia. }
    rewrite E. destruct (l !! _), ((b :: l) !! _); by rewrite ?decide_False by lia.
Qed.

(** ** [MemoryPoolAllocator] *)
Record Chunk := mkChunk { chunk_id : nat; capacity : Z; used : Z }.

(** [chunks] is the list from [chunkHead_] on; [next_chunk] names what the base
    allocator returns next; [userBuffer_] is the chunk in the user's buffer. *)
Record Pool := mkPool {
  chunks : list Chunk;
  chunk_capacity_ : Z;
  userBuffer_ : option nat;
  next_chunk : nat;
  memory : Memory
}.

Definition set_chunks (l : list Chunk) (s : Pool) : Pool :=
  mkPool l (chunk_capacity_ s) (userBuffer_ s) (next_chunk s) (memory s).
Definition set_memory (m : Memory) (s : Pool) : Pool :=
  mkPool (chunks s) (chunk_capacity_ s) (userBuffer_ s) (next_chunk s) m.

Definition kDefaultChunkCapacity : Z := 64 * 1024.
(** [sizeof(ChunkHeader)]: two [size_t]s and a pointer. *)
Definition sizeof_ChunkHeader : Z := 24.

Definition AddChunk (_capacity : Z) : M Pool unit :=
  modify (fun s => mkPool (mkChunk (next_chunk s) _capacity 0 :: chunks s) (chunk_capacity_ s)
                     (userBuffer_ s) (S (next_chunk s)) (memory s)).

(** The two constructors. *)
Definition Pool_new (chunkSize : Z) (m : Memory) : Pool :=
  (AddChunk chunkSize (mkPool [] chunkSize None 0 m)).2.
Definition Pool_user (size chunkSize : Z) (m : Memory) : result Pool :=
  if decide (sizeof_ChunkHeader < size)%Z
  then Ret (mkPool [mkChunk 0 (size - sizeof_ChunkHeader) 0] chunkSize (Some 0) 1 m)
  else Terminated.

(** [(size + 3) & ~3]: the [int] [~3] becomes a [size_t]. *)
Definition align4 (size : Z) : Z := Z.land (size_add size 3) (size_modulus - 4).

Definition p_assert {S} (b : bool) : M S unit := if b then mret tt else terminate.

(** [chunkHead_] is dereferenced. *)
Definition head_chunk : M Pool Chunk := fun s =>
  match chunks s with c :: _ => (Ret c, s) | [] => (Terminated, s) end.
Definition set_head_used (n : Z) : M Pool unit := modify (fun s =>
  match chunks s with
  | c :: l => set_chunks (mkChunk (chunk_id c) (capacity c) n :: l) s
  | [] => s
  end).

Definition Malloc (size : Z) : M Pool Ptr :=
  let size := align4 size in
  c ← head_chunk;
  _ ← (if decide (capacity c < size_add (used c) size)%Z
       then s ← get; AddChunk (if decide (size < chunk_capacity_ s)%Z then chunk_capacity_ s else size)
       else mret tt);
  c ← head_chunk;
  let buffer := (chunk_id c, used c) in
  _ ← p_assert (bool_decide (Z.land buffer.2 3 = 0%Z));
  _ ← set_head_used (size_add (used c) size);
  mret buffer.

Definition memcpy (to from : Ptr) (n : Z) : M Pool unit :=
  modify (fun s => set_memory (store_bytes to (read_bytes from (Z.to_nat n) (memory s)) (memory s)) s).

(** The case of a null pointer is [Malloc]. *)
Definition Realloc (originalPtr : option Ptr) (originalSize newSize : Z) : M Pool Ptr :=
  match originalPtr with
  | None => Malloc newSize
  | Some p =>
    if decide (newSize <= originalSize)%Z then mret p
    else
      c ← head_chunk;
      let increment := align4 (size_sub newSize originalSize) in
      if decide (p = (chunk_id c, (used c - originalSize)%Z) /\ (size_add (used c) increment <= capacity c)%Z)
      then
        _ ← set_head_used (size_add (used c) increment);
        _ ← p_assert (bool_decide (Z.land p.2 3 = 0%Z));
        mret p
      else
        newBuffer ← Malloc newSize;
        _ ← memcpy newBuffer p originalSize;
        mret newBuffer
  end.

(** [Clear], [Capacity] and [Size]: the loops over the chunks. *)
Fixpoint clear_chunks (user : option nat) (l : list Chunk) : list Chunk :=
  match l with
  | [] => []
  | c :: l' => if bool_decide (Some (chunk_id c) = user) then l else clear_chunks user l'
  end.
Definition Clear : M Pool unit := modify (fun s => set_chunks (clear_chunks (userBuffer_ s) (chunks s)) s).
Definition Capacity (s : Pool) : Z := foldl (fun n c => size_add n (capacity c)) 0%Z (chunks s).
Definition Size (s : Pool) : Z := foldl (fun n c => size_add n (used c)) 0%Z (chunks s).

(** ** What an allocator promises

    [holds h B]: the blocks [B] are there, with their contents; they neither
    overlap nor end outside of the memory that they were given. *)
Abbreviation Blocks := (gmap Ptr (list ascii)).

(** Sizes far from the end of [size_t]. *)
Definition size_ok (n : Z) : Prop := (0 < n < 2 ^ 62)%Z.

Class Allocator (H : Type) := {
  al_malloc : Z -> M H Ptr;
  al_realloc : Ptr -> Z -> Z -> M H Ptr;
  (** Writing and reading through a pointer. *)
  al_store : Ptr -> list ascii -> M H unit;
  al_read : Ptr -> nat -> H -> list ascii;
  holds : H -> Blocks -> Prop;
  malloc_ok : forall n h B, holds h B -> size_ok n ->
    exists p bs h', al_malloc n h = (Ret p, h') /\ B !! p = None /\ length bs = Z.to_nat n /\
      holds h' (<[p := bs]> B);
  realloc_ok : forall p bs n h B, holds h B -> B !! p = Some bs -> size_ok n -> (Z.of_nat (length bs) < n)%Z ->
    exists p' bs' h', al_realloc p (Z.of_nat (length bs)) n h = (Ret p', h') /\ (p' = p \/ B !! p' = None) /\
      length bs' = Z.to_nat n /\ take (length bs) bs' = bs /\ holds h' (<[p' := bs']> (delete p B));
  store_ok : forall p bs i l h B, holds h B -> B !! p = Some bs -> i + length l <= length bs ->
    exists h', al_store (shift p i) l h = (Ret tt, h') /\ holds h' (<[p := list_inserts i l bs]> B);
  read_ok : forall p bs i n h B, holds h B -> B !! p = Some bs -> i + n <= length bs ->
    al_read (shift p i) n h = take n (drop i bs)
}.

(** ** The pool keeps the promise *)
Section Pool.

Record chunk_ok (c : Chunk) : Prop := {
  co_used : (0 <= used c <= capacity c)%Z;
  co_capacity : (capacity c < 2 ^ 63)%Z;
  co_aligned : (used c mod 4 = 0)%Z
}.

Record pool_ok (s : Pool) : Prop := {
  po_head : chunks s <> [];
  po_chunks : Forall chunk_ok (chunks s);
  po_nodup : NoDup (chunk_id <$> chunks s);
  po_next : Forall (fun c => chunk_id c < next_chunk s) (chunks s);
  po_capacity : (0 <= chunk_capacity_ s < 2 ^ 63)%Z
}.

(** A block within the used part of its chunk. *)
Definition within (s : Pool) (p : Ptr) (n : nat) : Prop :=
  exists c, c ∈ chunks s /\ chunk_id c = p.1 /\ (0 <= p.2)%Z /\ (p.2 + Z.of_nat n <= used c)%Z.

Definition apart (p1 : Ptr) (n1 : nat) (p2 : Ptr) (n2 : nat) : Prop :=
  p1.1 <> p2.1 \/ (p1.2 + Z.of_nat n1 <= p2.2)%Z \/ (p2.2 + Z.of_nat n2 <= p1.2)%Z.

Record pool_holds (s : Pool) (B : Blocks) : Prop := {
  ph_pool : pool_ok s;
  ph_within : forall p bs, B !! p = Some bs -> bs <> [] /\ (p.2 mod 4 = 0)%Z /\ within s p (length bs);
  ph_bytes : forall p bs, B !! p = Some bs -> read_bytes p (length bs) (memory s) = bs;
  ph_apart : forall p1 bs1 p2 bs2, B !! p1 = Some bs1 -> B !! p2 = Some bs2 -> p1 <> p2 ->
    apart p1 (length bs1) p2 (length bs2)
}.

Lemma align4_spec n :
  (0 <= n < 2 ^ 63)%Z -> (n <= align4 n <= n + 3)%Z /\ (align4 n mod 4 = 0)%Z.
Proof.
  intros Hn. unfold align4. rewrite size_add_small by (unfold size_modulus; lia).
  assert (E : Z.land (n + 3) (size_modulus - 4) = (4 * ((n + 3) / 4))%Z).
  { replace (size_modulus - 4)%Z with (Z.ldiff (Z.ones 64) (Z.ones 2)) by reflexivity.
    rewrite Z.ldiff_land, Z.land_assoc, Z.land_ones, Z.mod_small by lia.
    rewrite <- Z.ldiff_land, Z.ldiff_ones_r, Z.shiftl_mul_pow2, Z.shiftr_div_pow2 by lia.
    change (2 ^ 2)%Z with 4%Z. lia. }
  rewrite E. pose proof (Z.div_mod (n + 3) 4). pose proof (Z.mod_pos_bound (n + 3) 4).
  split; [lia|]. rewrite Z.mul_comm. apply Z.mod_mul. lia.
Qed.

Lemma read_bytes_length p n m : length (read_bytes p n m) = n.
Proof. unfold read_bytes. by rewrite length_fmap, length_seq. Qed.

Lemma read_bytes_app p n1 n2 m :
  read_bytes p (n1 + n2) m = read_bytes p n1 m ++ read_bytes (shift p n1) n2 m.
Proof.
  unfold read_bytes. rewrite seq_app, fmap_app. f_equal. apply list_eq. intros i. rewrite !list_lookup_fmap.
  destruct (decide (i < n2)) as [Hi|Hi].
  - rewrite !lookup_seq_lt by done. cbn. by rewrite shift_shift.
  - by rewrite !lookup_seq_ge by lia.
Qed.

Lemma read_bytes_sub p n i k m : i + k <= n -> read_bytes (shift p i) k m = take k (drop i (read_bytes p n m)).
Proof.
  intros Hi. replace n with (i + (k + (n - i - k))) by lia.
  rewrite read_bytes_app, drop_app_length' by (by rewrite read_bytes_length).
  by rewrite read_bytes_app, take_app_length' by (by rewrite read_bytes_length).
Qed.

(** What a store leaves alone, and what it changes. *)
Lemma read_store_apart p n q l m :
  apart p n q (length l) -> read_bytes p n (store_bytes q l m) = read_bytes p n m.
Proof.
  intros Ha. apply list_fmap_ext. intros i j Hj. apply lookup_seq in Hj as [-> Hj]. cbn.
  rewrite store_bytes_lookup. destruct (l !! _) as [b|] eqn:Hl; [|done].
  apply lookup_lt_Some in Hl. unfold shift in *. cbn in *. rewrite decide_False; [done|].
  unfold apart in Ha. lia.
Qed.

Lemma read_store_inside p n i l m :
  i + length l <= n ->
  read_bytes p n (store_bytes (shift p i) l m) = list_inserts i l (read_bytes p n m).
Proof.
  intros Hi. apply list_eq. intros j.
  assert (Hr : forall m', j < n -> read_bytes p n m' !! j = Some (m' (shift p j))).
  { intros m' Hj. unfold read_bytes. by rewrite list_lookup_fmap, lookup_seq_lt by done. }
  destruct (decide (j < n)) as [Hj|Hj].
  2: { rewrite !lookup_ge_None_2; [done|rewrite length_inserts|]; rewrite read_bytes_length; lia. }
  rewrite Hr by done. rewrite store_bytes_lookup. unfold shift. cbn [fst snd].
  destruct (decide (i <= j < i + length l)) as [H|H].
  - rewrite list_lookup_inserts by (rewrite ?read_bytes_length; lia).
    replace (Z.to_nat _) with (j - i) by lia. destruct (l !! (j - i)) as [b|] eqn:Hl.
    + by rewrite decide_True by lia.
    + apply lookup_ge_None in Hl. lia.
  - assert (E : list_inserts i l (read_bytes p n m) !! j = read_bytes p n m !! j).
    { destruct (decide (j < i)); [by apply list_lookup_inserts_lt|apply list_lookup_inserts_ge; lia]. }
    rewrite E, Hr by done. unfold shift. destruct (l !! _) as [b|] eqn:Hl; [|done].
    apply lookup_lt_Some in Hl. rewrite decide_False; [done|]. lia.
Qed.

Lemma pool_store p bs i l s B :
  pool_holds s B -> B !! p = Some bs -> i + length l <= length bs ->
  pool_holds (set_memory (store_bytes (shift p i) l (memory s)) s) (<[p := list_inserts i l bs]> B).
Proof.
  intros [Hp Hw Hb Ha] Hpb Hi.
  assert (Hlen : length (list_inserts i l bs) = length bs) by apply length_inserts.
  assert (Hne : forall q bs', B !! q = Some bs' -> q <> p ->
             read_bytes q (length bs') (store_bytes (shift p i) l (memory s)) = bs').
  { intros q bs' Hq N. rewrite read_store_apart; [by apply Hb|].
    pose proof (Ha q bs' p bs Hq Hpb N) as Hap. unfold apart, shift in *. cbn. lia. }
  split.
  - destruct Hp. by split.
  - intros q bs' [[<- <-]|[N Hq]]%lookup_insert_Some; [|by apply Hw]. destruct (Hw p bs Hpb) as (H1 & H2 & H3).
    rewrite Hlen. split; [|by split]. intros E. apply H1, nil_length_inv. by rewrite <- Hlen, E.
  - intros q bs' [[<- <-]|[N Hq]]%lookup_insert_Some; cbn [memory set_memory]; [|by apply Hne].
    rewrite Hlen, read_store_inside by done. by rewrite (Hb p bs Hpb).
  - intros p1 bs1 p2 bs2 H1 H2 N.
    apply lookup_insert_Some in H1 as [[<- <-]|[N1 H1]]; apply lookup_insert_Some in H2 as [[<- <-]|[N2 H2]];
      rewrite ?Hlen; [done|eapply Ha; eauto..].
Qed.

(** Blocks may be forgotten. *)
Lemma pool_forget p s B : pool_holds s B -> pool_holds s (delete p B).
Proof.
  intros [Hp Hw Hb Ha]. split; [done|..].
  - intros q bs [_ Hq]%lookup_delete_Some. by apply Hw.
  - intros q bs [_ Hq]%lookup_delete_Some. by apply Hb.
  - intros p1 bs1 p2 bs2 [_ H1]%lookup_delete_Some [_ H2]%lookup_delete_Some. by apply Ha.
Qed.

Lemma pool_add_chunk s B cap :
  pool_holds s B -> (0 <= cap < 2 ^ 63)%Z -> pool_holds (AddChunk cap s).2 B.
Proof.
  intros [[H1 H2 H3 H4 H5] Hw Hb Ha] Hcap. split; [|..]; cbn.
  - split; cbn; [done| | | |done].
    + constructor; [split; cbn; [lia|lia|done]|done].
    + constructor; [|done]. intros (c & E & Hc)%list_elem_of_fmap. rewrite Forall_forall in H4.
      specialize (H4 c Hc). cbn in *. lia.
    + constructor; [cbn; lia|]. eapply Forall_impl; [exact H4|]. cbn. lia.
  - intros p bs Hp. destruct (Hw p bs Hp) as (Hne & Hal & c & Hc & Hin). split; [done|]. split; [done|].
    exists c. split; [by right|done].
  - exact Hb.
  - exact Ha.
Qed.

(** The blocks of the first chunk end before what it has free. *)
Lemma pool_head_used s B c l p bs :
  pool_holds s B -> chunks s = c :: l -> B !! p = Some bs -> p.1 = chunk_id c ->
  (p.2 + Z.of_nat (length bs) <= used c)%Z.
Proof.
  intros [[_ _ Hnd _ _] Hw _ _] Hc Hp Hid. destruct (Hw p bs Hp) as (_ & _ & c' & Hin & Hid' & _ & Hle).
  rewrite Hc in Hin, Hnd. apply elem_of_cons in Hin as [->|Hin]; [done|].
  cbn in Hnd. apply NoDup_cons in Hnd as [Hn _]. destruct Hn. rewrite <- Hid, <- Hid'. by apply list_elem_of_fmap_2.
Qed.

(** The first [n] of [a] free bytes become a block. *)
Lemma pool_extend s B c l a n :
  pool_holds s B -> chunks s = c :: l -> 0 < n -> (Z.of_nat n <= a)%Z -> (a mod 4 = 0)%Z ->
  (used c + a <= capacity c)%Z ->
  let p := (chunk_id c, used c) in
  B !! p = None /\
  pool_holds (set_chunks (mkChunk (chunk_id c) (capacity c) (used c + a) :: l) s)
    (<[p := read_bytes p n (memory s)]> B).
Proof.
  intros Hs Hc Hn Hna Ha Hcap p. pose proof Hs as [[_ Hok Hnd Hnext Hpc] Hw Hb Hap].
  rewrite Hc in Hok, Hnd, Hnext. inversion Hok as [|? ? [Hu Hcc Hm] Hok']. subst.
  assert (Hnone : B !! p = None).
  { destruct (B !! p) as [bs|] eqn:Hp; [|done]. destruct (Hw p bs Hp) as (Hne & _).
    pose proof (pool_head_used s B c l p bs Hs Hc Hp eq_refl) as Hle. cbn in Hle. destruct bs; [done|]. cbn in Hle.
    lia. }
  split; [exact Hnone|].
  assert (Hout : forall q bs, B !! q = Some bs -> apart q (length bs) p n).
  { intros q bs Hq. unfold apart. destruct (decide (q.1 = p.1)) as [E|]; [|by left].
    right. left. cbn. apply (pool_head_used s B c l q bs Hs Hc Hq E). }
  split.
  - split; cbn; [done| |done| |done].
    + constructor; [|done]. split; cbn; [lia|lia|]. rewrite Z.add_mod, Hm, Ha by lia. done.
    + inversion Hnext. by constructor.
  - intros q bs [[<- <-]|[N Hq]]%lookup_insert_Some.
    + rewrite read_bytes_length. split; [destruct n; [lia|done]|]. split; [exact Hm|].
      exists (mkChunk (chunk_id c) (capacity c) (used c + a)). cbn. split; [left|]. split; [done|]. lia.
    + destruct (Hw q bs Hq) as (Hne & Hal & c' & Hin & Hid & Hpos & Hle). split; [done|]. split; [done|].
      rewrite Hc in Hin. cbn. apply elem_of_cons in Hin as [->|Hin].
      * eexists. split; [left|]. cbn. split; [done|]. lia.
      * exists c'. split; [by right|done].
  - intros q bs [[<- <-]|[N Hq]]%lookup_insert_Some; cbn [memory set_chunks];
      [by rewrite read_bytes_length|by apply Hb].
  - intros p1 bs1 p2 bs2 H1 H2 N.
    apply lookup_insert_Some in H1 as [[<- <-]|[N1 H1]]; apply lookup_insert_Some in H2 as [[<- <-]|[N2 H2]];
      rewrite ?read_bytes_length; [done| | |by apply Hap].
    + specialize (Hout p2 bs2 H2). unfold apart in *. destruct Hout as [?|[?|?]]; [left; congruence|right;
        by right|right; by left].
    + by apply Hout.
Qed.

(** A block and the one behind it are one block. *)
Lemma pool_merge s B p bs1 bs2 :
  pool_holds s B -> B !! p = Some bs1 -> B !! shift p (length bs1) = Some bs2 ->
  pool_holds s (<[p := bs1 ++ bs2]> (delete (shift p (length bs1)) B)).
Proof.
  intros [Hp Hw Hb Ha] H1 H2. set (q := shift p (length bs1)) in *.
  assert (Hne : bs1 <> []) by apply (Hw p bs1 H1).
  assert (Hpq : p <> q).
  { intros E. apply (f_equal snd) in E. unfold q, shift in E. cbn in E. destruct bs1; [done|]. cbn in E. lia. }
  assert (Hrest : forall x bs, <[p := bs1 ++ bs2]> (delete q B) !! x = Some bs ->
            x = p /\ bs = bs1 ++ bs2 \/ x <> p /\ x <> q /\ B !! x = Some bs).
  { intros x bs [[-> <-]|[N [N2 Hx]%lookup_delete_Some]]%lookup_insert_Some; [by left|right]. by repeat split. }
  assert (Hap : forall x bs, x <> p -> x <> q -> B !! x = Some bs ->
            apart x (length bs) p (length (bs1 ++ bs2))).
  { intros x bs N1 N2 Hx. pose proof (Ha x bs p bs1 Hx H1 N1) as A1. pose proof (Ha x bs q bs2 Hx H2 N2) as A2.
    destruct (Hw x bs Hx) as (Hxn & _). destruct (Hw q bs2 H2) as (Hqn & _).
    unfold apart, q, shift in *. cbn in *. rewrite length_app.
    destruct bs; [done|]. destruct bs1; [done|]. destruct bs2; [done|]. cbn in *. lia. }
  split; [done|..].
  - intros x bs [[-> ->]|(N1 & N2 & Hx)]%Hrest; [|by apply Hw].
    destruct (Hw p bs1 H1) as (_ & Hal & c & Hc & Hid & Hpos & _).
    destruct (Hw q bs2 H2) as (_ & _ & c2 & Hc2 & Hid2 & _ & Hle). split; [by destruct bs1|]. split; [done|].
    exists c2. unfold q, shift in *. cbn in *. rewrite length_app. split; [done|]. split; [done|]. lia.
  - intros x bs [[-> ->]|(N1 & N2 & Hx)]%Hrest; [|by apply Hb].
    rewrite length_app, read_bytes_app. f_equal; by apply Hb.
  - intros x1 b1 x2 b2 [[-> ->]|(N1 & N1' & Hx1)]%Hrest [[-> ->]|(N2 & N2' & Hx2)]%Hrest N; [done| | |by apply Ha].
    + pose proof (Hap x2 b2 N2 N2' Hx2) as A. unfold apart in *.
      destruct A as [?|[?|?]]; [left; congruence|right; by right|right; by left].
    + by apply Hap.
Qed.

Lemma aligned_land n : (n mod 4 = 0)%Z -> bool_decide (Z.land n 3 = 0%Z) = true.
Proof. intros H. apply bool_decide_eq_true. change 3%Z with (Z.ones 2). by rewrite Z.land_ones by lia. Qed.

(** The end of [Malloc], when the first chunk has the space. *)
Lemma malloc_here s B c l n a :
  pool_holds s B -> chunks s = c :: l -> (0 < n <= a)%Z -> (a mod 4 = 0)%Z -> (used c + a <= capacity c)%Z ->
  let p := (chunk_id c, used c) in
  exists s', (c ← head_chunk;
              let buffer := (chunk_id c, used c) in
              _ ← p_assert (bool_decide (Z.land buffer.2 3 = 0%Z));
              _ ← set_head_used (size_add (used c) a);
              mret buffer) s = (Ret p, s') /\
    memory s' = memory s /\ B !! p = None /\
    pool_holds s' (<[p := read_bytes p (Z.to_nat n) (memory s)]> B).
Proof.
  intros Hs Hc Hn Ha Hcap p.
  pose proof Hs as [[_ Hok _ _ _] _ _ _]. rewrite Hc in Hok. inversion Hok as [|? ? [Hu Hcc Hm] _]. subst.
  destruct (pool_extend s B c l a (Z.to_nat n) Hs Hc ltac:(lia) ltac:(lia) Ha Hcap) as [Hnone Hext].
  eexists. split; [|split; [|split; [exact Hnone|exact Hext]]]; [|done].
  erewrite bind_step by (unfold head_chunk; by rewrite Hc). cbn [snd]. rewrite aligned_land by done.
  erewrite bind_step by reflexivity.
  erewrite bind_step by (unfold set_head_used, modify; rewrite Hc; reflexivity).
  by rewrite size_add_small by (unfold size_modulus; lia).
Qed.

Lemma Malloc_run n s B :
  pool_holds s B -> size_ok n ->
  exists p s', Malloc n s = (Ret p, s') /\ memory s' = memory s /\ B !! p = None /\
    pool_holds s' (<[p := read_bytes p (Z.to_nat n) (memory s)]> B).
Proof.
  intros Hs Hn. unfold size_ok in Hn. destruct (align4_spec n) as [Ha Hm]; [lia|].
  pose proof Hs as [[Hne Hok _ _ Hcc] _ _ _]. destruct (chunks s) as [|c l] eqn:Hc; [done|].
  inversion Hok as [|? ? [Hu Hcap _] _]. subst. unfold Malloc.
  erewrite bind_step by (unfold head_chunk; by rewrite Hc).
  rewrite size_add_small by (unfold size_modulus; lia). destruct (decide _) as [Hfull|Hfit].
  - set (k := if decide (align4 n < chunk_capacity_ s)%Z then chunk_capacity_ s else align4 n).
    assert (Hk : (align4 n <= k < 2 ^ 63)%Z) by (unfold k; case_decide; lia).
    erewrite bind_step by (erewrite bind_step by reflexivity; reflexivity).
    destruct (malloc_here (AddChunk k s).2 B (mkChunk (next_chunk s) k 0) (chunks s) n (align4 n)) as (s' & H);
      [apply pool_add_chunk; [done|lia]|done|lia|done|cbn; lia|]. eexists _, s'. exact H.
  - erewrite bind_step by reflexivity.
    destruct (malloc_here s B c l n (align4 n) Hs Hc) as (s' & H); [lia|done|lia|]. eexists _, s'. exact H.
Qed.

Lemma list_inserts_whole (l k : list ascii) : length l <= length k -> list_inserts 0 l k = l ++ drop (length l) k.
Proof.
  intros H. rewrite <- (take_drop (length l) k) at 1. apply list_inserts_0_r. rewrite length_take. lia.
Qed.

Lemma Realloc_run p bs n s B :
  pool_holds s B -> B !! p = Some bs -> size_ok n -> (Z.of_nat (length bs) < n)%Z ->
  exists p' bs' s', Realloc (Some p) (Z.of_nat (length bs)) n s = (Ret p', s') /\ (p' = p \/ B !! p' = None) /\
    length bs' = Z.to_nat n /\ take (length bs) bs' = bs /\ pool_holds s' (<[p' := bs']> (delete p B)).
Proof.
  intros Hs Hp Hn Hlt. unfold size_ok in Hn. pose proof Hs as [[Hne Hok _ _ _] Hw _ _].
  destruct (chunks s) as [|c l] eqn:Hc; [done|]. inversion Hok as [|? ? [Hu Hcap _] _]. subst.
  destruct (Hw p bs Hp) as (Hbs & Hal & _). unfold Realloc. rewrite decide_False by lia.
  erewrite bind_step by (unfold head_chunk; by rewrite Hc). set (old := Z.of_nat (length bs)) in *.
  rewrite size_sub_small by (unfold size_modulus; lia).
  destruct (align4_spec (n - old)) as [Ha Hm]; [lia|]. rewrite size_add_small by (unfold size_modulus; lia).
  destruct (decide _) as [[Hlast Hfit]|_].
  - destruct (pool_extend s B c l (align4 (n - old)) (Z.to_nat (n - old)) Hs Hc) as [Hnone Hext]; [lia..|done|lia|].
    set (q := (chunk_id c, used c)) in *.
    assert (Hq : shift p (length bs) = q) by (rewrite Hlast; unfold shift, q; cbn; f_equal; lia).
    assert (Hpq : q <> p) by (intros E; rewrite E, Hp in Hnone; done).
    pose proof (pool_merge _ _ p bs (read_bytes q (Z.to_nat (n - old)) (memory s)) Hext) as Hmerge.
    rewrite Hq, lookup_insert_ne, lookup_insert_eq in Hmerge by done.
    rewrite delete_insert_id in Hmerge by done. specialize (Hmerge Hp eq_refl).
    exists p, (bs ++ read_bytes q (Z.to_nat (n - old)) (memory s)). eexists.
    split; [|split; [by left|split; [|split; [|rewrite insert_delete_eq; exact Hmerge]]]].
    + erewrite bind_step by (unfold set_head_used, modify; rewrite Hc; reflexivity).
      rewrite aligned_land by done. by erewrite bind_step by reflexivity.
    + rewrite length_app, read_bytes_length. lia.
    + by rewrite take_app_length.
  - destruct (Malloc_run n s B Hs) as (p' & s' & Hrun & Hmem & Hnone & Hext); [done|].
    assert (Hpp : p' <> p) by (intros ->; by rewrite Hp in Hnone).
    set (junk := read_bytes p' (Z.to_nat n) (memory s)) in *.
    assert (Hj : length junk = Z.to_nat n) by apply read_bytes_length.
    pose proof (pool_store p' junk 0 bs s' _ Hext (lookup_insert_eq _ _ _)) as Hst.
    rewrite insert_insert_eq, shift_0, list_inserts_whole in Hst by lia. specialize (Hst ltac:(lia)).
    exists p', (bs ++ drop (length bs) junk). eexists.
    split; [|split; [by right|split; [|split; [by rewrite take_app_length|]]]].
    + erewrite bind_step by exact Hrun. erewrite bind_step by reflexivity. reflexivity.
    + rewrite length_app, length_drop. lia.
    + apply (pool_forget p) in Hst. rewrite delete_insert_ne in Hst by done.
      assert (Hr : read_bytes p (Z.to_nat old) (memory s') = bs).
      { rewrite Hmem. unfold old. rewrite Nat2Z.id. by apply (ph_bytes _ _ Hs). }
      rewrite Hr. exact Hst.
Qed.

Lemma Malloc_ok n s B :
  pool_holds s B -> size_ok n -> exists p bs s', Malloc n s = (Ret p, s') /\ B !! p = None /\
    length bs = Z.to_nat n /\ pool_holds s' (<[p := bs]> B).
Proof.
  intros Hs Hn. destruct (Malloc_run n s B Hs Hn) as (p & s' & Hr & _ & Hnone & Hext).
  exists p, (read_bytes p (Z.to_nat n) (memory s)), s'. by rewrite read_bytes_length.
Qed.

Definition write_bytes (p : Ptr) (l : list ascii) : M Pool unit :=
  modify (fun s => set_memory (store_bytes p l (memory s)) s).

Lemma write_bytes_ok p bs i l s B :
  pool_holds s B -> B !! p = Some bs -> i + length l <= length bs ->
  exists s', write_bytes (shift p i) l s = (Ret tt, s') /\ pool_holds s' (<[p := list_inserts i l bs]> B).
Proof. intros Hs Hp Hi. eexists. split; [reflexivity|]. by apply pool_store. Qed.

Lemma pool_read s B p bs i n :
  pool_holds s B -> B !! p = Some bs -> i + n <= length bs ->
  read_bytes (shift p i) n (memory s) = take n (drop i bs).
Proof. intros Hs Hp Hi. rewrite (read_bytes_sub p (length bs)) by done. by rewrite (ph_bytes _ _ Hs p bs Hp). Qed.

Lemma Pool_new_ok chunkSize m : (0 <= chunkSize < 2 ^ 63)%Z -> pool_holds (Pool_new chunkSize m) ∅.
Proof.
  intros H. split; [| | |intros p1 bs1 p2 bs2 E; by rewrite lookup_empty in E];
    [|intros p bs E; by rewrite lookup_empty in E..]. split; cbn; [done| | | |done].
  - constructor; [split; cbn; [lia|lia|done]|done].
  - apply NoDup_singleton.
  - repeat constructor.
Qed.
End Pool.

#[export] Instance pool_allocator : Allocator Pool := {|
  al_malloc := Malloc;
  al_realloc := fun p => Realloc (Some p);
  al_store := write_bytes;
  al_read := fun p n s => read_bytes p n (memory s);
  holds := pool_holds;
  malloc_ok := Malloc_ok;
  realloc_ok := Realloc_run;
  store_ok := write_bytes_ok;
  read_ok := fun p bs i n s B => pool_read s B p bs i n
|}.

(** ** A client of the pool *)

(** The calls a client makes, with its blocks numbered in the order of their
    allocation, and the accesses of the blocks. *)
Inductive Use : Type :=
  | Alloc (n : Z)
  | Resize (i : nat) (n : Z)
  | Write (i off : nat) (l : list ascii).

Definition use_block (u : Use) (bs : list (Ptr * Z)) : M Pool (list (Ptr * Z)) :=
  match u with
  | Alloc n => p ← Malloc n; mret (bs ++ [(p, n)])
  | Resize i n =>
    match bs !! i with
    | Some (p, k) => p ← Realloc (Some p) k n; mret (<[i := (p, Z.max k n)]> bs)
    | None => mret bs
    end
  | Write i off l =>
    match bs !! i with
    | Some (p, k) =>
      if decide (Z.of_nat (off + length l) <= k)%Z then _ ← write_bytes (shift p off) l; mret bs else mret bs
    | None => mret bs
    end
  end.

Fixpoint use_blocks (us : list Use) (bs : list (Ptr * Z)) : M Pool (list (Ptr * Z)) :=
  match us with
  | [] => mret bs
  | u :: us => bs ← use_block u bs; use_blocks us bs
  end.

(** The blocks as values, each byte what was last written to it. *)
Abbreviation Known := (list (option ascii)).

Definition use_value (u : Use) (vs : list Known) : list Known :=
  match u with
  | Alloc n => vs ++ [replicate (Z.to_nat n) None]
  | Resize i n =>
    match vs !! i with Some v => <[i := v ++ replicate (Z.to_nat n - length v) None]> vs | None => vs end
  | Write i off l =>
    match vs !! i with
    | Some v => if decide (off + length l <= length v) then <[i := list_inserts off (Some <$> l) v]> vs else vs
    | None => vs
    end
  end.
Definition use_values (us : list Use) (vs : list Known) : list Known := foldl (fun vs u => use_value u vs) vs us.

Definition use_ok (u : Use) : Prop := match u with Alloc n | Resize _ n => size_ok n | Write _ _ _ => True end.

(** The bytes that are known are there. *)
Definition knows (v : Known) (b : list ascii) : Prop := Forall2 (fun o c => forall a, o = Some a -> a = c) v b.

Definition blocks_shown (bs : list (Ptr * Z)) (vs : list Known) (B : Blocks) : Prop :=
  Forall2 (fun pk v => exists b, B !! pk.1 = Some b /\ pk.2 = Z.of_nat (length b) /\ knows v b) bs vs /\
  NoDup bs.*1.

Lemma knows_length v b : knows v b -> length v = length b.
Proof. apply Forall2_length. Qed.

Lemma knows_app v b n bs : knows v b -> length bs = n -> knows (v ++ replicate n None) (b ++ bs).
Proof.
  intros Hv <-. apply Forall2_app; [done|]. induction bs; cbn; by constructor.
Qed.

Lemma knows_take v b n :
  knows v (take (length v) b) -> length b = length v + n -> knows (v ++ replicate n None) b.
Proof.
  intros Hv Hl. rewrite <- (take_drop (length v) b). apply knows_app; [done|]. rewrite length_drop. lia.
Qed.

Lemma knows_write v b off l :
  knows v b -> off + length l <= length v -> knows (list_inserts off (Some <$> l) v) (list_inserts off l b).
Proof.
  intros Hv Hl. pose proof (knows_length v b Hv) as E.
  apply Forall2_same_length_lookup. split; [by rewrite !length_inserts|].
  intros i o c Ho Hc. destruct (decide (off <= i < off + length l)) as [Hi|Hi].
  - rewrite list_lookup_inserts in Ho by (rewrite ?length_fmap; lia).
    rewrite list_lookup_inserts in Hc by lia. rewrite list_lookup_fmap, Hc in Ho. injection Ho as <-.
    by intros a [= <-].
  - assert (Hout : forall (A : Type) (k : list A) w, length k = length l -> list_inserts off k w !! i = w !! i).
    { intros A k w Hk. destruct (decide (i < off)); [by apply list_lookup_inserts_lt|apply list_lookup_inserts_ge;
        lia]. }
    rewrite Hout in Ho by (by rewrite length_fmap). rewrite Hout in Hc by done.
    by apply (Forall2_lookup_lr _ _ _ _ _ _ Hv Ho Hc).
Qed.

(** A step that puts the block [i] elsewhere, or changes its contents. *)
Lemma blocks_shown_move bs vs B i p k v p' b v' :
  blocks_shown bs vs B -> bs !! i = Some (p, k) -> vs !! i = Some v -> (p' = p \/ B !! p' = None) -> knows v' b ->
  blocks_shown (<[i := (p', Z.of_nat (length b))]> bs) (<[i := v']> vs) (<[p' := b]> (delete p B)).
Proof.
  intros [Hbs Hnd] Hi Hv Hp Hk.
  assert (Hout : forall j q x, j <> i -> bs !! j = Some (q, x) -> q <> p /\ q <> p').
  { intros j q x N Hj. assert (Hqp : q <> p).
    { intros ->. apply N. eapply (NoDup_lookup _ _ _ p Hnd); rewrite list_lookup_fmap; [by rewrite Hj|by rewrite Hi]. }
    split; [done|]. destruct Hp as [->|Hp]; [done|]. intros ->.
    destruct (Forall2_lookup_l _ _ _ _ _ Hbs Hj) as (w & _ & c & Hc & _). cbn in Hc. by rewrite Hp in Hc. }
  split.
  - apply Forall2_same_length_lookup. split; [rewrite !length_insert; by apply (Forall2_length _ _ _ Hbs)|].
    intros j [q x] w Hj Hw. destruct (decide (j = i)) as [->|N].
    + apply lookup_lt_Some in Hi, Hv. rewrite list_lookup_insert_eq in Hj by done.
      rewrite list_lookup_insert_eq in Hw by done.
      injection Hj as <- <-. injection Hw as <-. exists b. cbn. by rewrite lookup_insert_eq.
    + rewrite list_lookup_insert_ne in Hj by done. rewrite list_lookup_insert_ne in Hw by done.
      destruct (Hout j q x N Hj) as [N1 N2]. cbn.
      rewrite lookup_insert_ne, lookup_delete_ne by done. apply (Forall2_lookup_lr _ _ _ _ _ _ Hbs Hj Hw).
  - rewrite list_fmap_insert. cbn. apply NoDup_alt. intros j1 j2 q H1 H2.
    assert (Hlen : i < length bs.*1) by (rewrite length_fmap; by eapply lookup_lt_Some).
    assert (Hne : forall j, j <> i -> <[i := p']> bs.*1 !! j = Some q -> q <> p').
    { intros j N Hj. rewrite list_lookup_insert_ne, list_lookup_fmap in Hj by done.
      destruct (bs !! j) as [[q' x]|] eqn:E; [|done]. cbn in Hj. injection Hj as <-. by apply (Hout j q' x). }
    destruct (decide (j1 = i)) as [->|N1], (decide (j2 = i)) as [->|N2]; [done| | |].
    + rewrite list_lookup_insert_eq in H1 by done. injection H1 as <-. by destruct (Hne j2 N2 H2).
    + rewrite list_lookup_insert_eq in H2 by done. injection H2 as <-. by destruct (Hne j1 N1 H1).
    + rewrite list_lookup_insert_ne in H1 by done. rewrite list_lookup_insert_ne in H2 by done.
      by apply (NoDup_lookup _ _ _ q Hnd).
Qed.

Lemma use_block_ok u bs vs B s :
  pool_holds s B -> blocks_shown bs vs B -> use_ok u ->
  exists bs' B' s', use_block u bs s = (Ret bs', s') /\ pool_holds s' B' /\ blocks_shown bs' (use_value u vs) B'.
Proof.
  intros Hs Hb Hu. pose proof Hb as [Hbs Hnd]. destruct u as [n|i n|i off l]; cbn [use_block use_value use_ok] in *.
  - destruct (Malloc_ok n s B Hs Hu) as (p & b & s' & Hr & Hn & Hl & Hs'). unfold size_ok in Hu.
    exists (bs ++ [(p, n)]), (<[p := b]> B), s'. split; [by erewrite bind_step by exact Hr|]. split; [done|].
    assert (Hold : forall q c, B !! q = Some c -> q <> p) by (intros q c Hq ->; by rewrite Hn in Hq). split.
    + apply Forall2_app; [|constructor; [|constructor]].
      * eapply Forall2_impl; [exact Hbs|]. intros pk v (c & Hc & Hrest). exists c.
        split; [|done]. rewrite lookup_insert_ne; [done|]. apply not_eq_sym. by eapply Hold.
      * exists b. cbn. rewrite lookup_insert_eq. split; [done|]. split; [lia|].
        apply (knows_app [] []); [constructor|done].
    + rewrite fmap_app. apply NoDup_app. split; [done|]. split; [|apply NoDup_singleton].
      intros q Hq E%list_elem_of_singleton. cbn in E. subst q.
      apply list_elem_of_fmap in Hq as ([q k] & -> & Hq).
      apply list_elem_of_lookup in Hq as [j Hq]. destruct (Forall2_lookup_l _ _ _ _ _ Hbs Hq) as (v & _ & c & Hc & _).
      cbn in Hc, Hn. by rewrite Hn in Hc.
  - destruct (bs !! i) as [[p k]|] eqn:Hi.
    2: { rewrite (proj2 (lookup_ge_None vs i)); [by exists bs, B, s|].
         rewrite <- (Forall2_length _ _ _ Hbs). by apply lookup_ge_None. }
    destruct (Forall2_lookup_l _ _ _ _ _ Hbs Hi) as (v & Hv & b & Hp & Hk & Hkn). cbn in Hp, Hk. rewrite Hv.
    pose proof (knows_length v b Hkn) as Hlen. unfold size_ok in Hu. destruct (decide (n <= k)%Z) as [Hle|Hgt].
    + exists bs, B, s. cbn [Realloc]. rewrite decide_True by done. rewrite Z.max_l by done.
      replace (Z.to_nat n - length v) with 0 by lia. rewrite app_nil_r, (list_insert_id vs) by done.
      split; [|by split]. erewrite bind_step by reflexivity. by rewrite list_insert_id.
    + destruct (Realloc_run p b n s B Hs Hp) as (p' & b' & s' & Hr & Hp' & Hl & Ht & Hs'); [done|lia|].
      exists (<[i := (p', Z.max k n)]> bs), (<[p' := b']> (delete p B)), s'.
      rewrite Hk. split; [by erewrite bind_step by exact Hr|]. split; [done|].
      replace (Z.max (Z.of_nat (length b)) n) with (Z.of_nat (length b')) by lia.
      eapply blocks_shown_move; [done..|]. apply knows_take; [rewrite Hlen, Ht; done|lia].
  - destruct (bs !! i) as [[p k]|] eqn:Hi.
    2: { rewrite (proj2 (lookup_ge_None vs i)); [by exists bs, B, s|].
         rewrite <- (Forall2_length _ _ _ Hbs). by apply lookup_ge_None. }
    destruct (Forall2_lookup_l _ _ _ _ _ Hbs Hi) as (v & Hv & b & Hp & Hk & Hkn). cbn in Hp, Hk. rewrite Hv.
    pose proof (knows_length v b Hkn) as Hlen. case_decide as Hin.
    + rewrite decide_True by lia. destruct (write_bytes_ok p b off l s B Hs Hp) as (s' & Hr & Hs'); [lia|].
      exists bs, (<[p := list_inserts off l b]> B), s'. split; [by erewrite bind_step by exact Hr|]. split; [done|].
      pose proof (blocks_shown_move bs vs B i p k v p _ _ Hb Hi Hv (or_introl eq_refl)
                    (knows_write v b off l Hkn ltac:(lia))) as Hm.
      by rewrite length_inserts, <- Hk, list_insert_id, insert_delete_eq in Hm.
    + rewrite decide_False by lia. by exists bs, B, s.
Qed.

Lemma use_blocks_ok us bs vs B s :
  pool_holds s B -> blocks_shown bs vs B -> Forall use_ok us ->
  exists bs' B' s', use_blocks us bs s = (Ret bs', s') /\ pool_holds s' B' /\ blocks_shown bs' (use_values us vs) B'.
Proof.
  revert bs vs B s. induction us as [|u us IH]; intros bs vs B s Hs Hb Hus; [by exists bs, B, s|].
  inversion Hus as [|? ? Hu Hus']. subst.
  destruct (use_block_ok u bs vs B s Hs Hb Hu) as (bs1 & B1 & s1 & Hr & Hs1 & Hb1).
  destruct (IH bs1 (use_value u vs) B1 s1 Hs1 Hb1 Hus') as (bs2 & B2 & s2 & Hr2 & H2).
  exists bs2, B2, s2. split; [|done]. cbn [use_blocks]. by erewrite bind_step by exact Hr.
Qed.

(** What can be seen of the blocks of a client. *)
Record blocks_ok (bs : list (Ptr * Z)) (vs : list Known) (s : Pool) : Prop := {
  (** each holds what was last written to it, *)
  bo_contents : Forall2 (fun '(p, k) v => k = Z.of_nat (length v) /\
    knows v (read_bytes p (length v) (memory s))) bs vs;
  (** is aligned and lies within the capacity of a chunk, *)
  bo_within : Forall (fun '(p, k) => (p.2 mod 4 = 0)%Z /\
    exists c, c ∈ chunks s /\ chunk_id c = p.1 /\ (0 <= p.2)%Z /\ (p.2 + k <= capacity c)%Z) bs;
  (** and overlaps no other. *)
  bo_apart : forall i j p k q l, i <> j -> bs !! i = Some (p, k) -> bs !! j = Some (q, l) ->
    apart p (Z.to_nat k) q (Z.to_nat l)
}.

Lemma blocks_shown_ok bs vs B s : pool_holds s B -> blocks_shown bs vs B -> blocks_ok bs vs s.
Proof.
  intros [[_ Hok _ _ _] Hw Hb Ha] [Hbs Hnd]. split.
  - eapply Forall2_impl; [exact Hbs|]. intros [p k] v (b & Hp & E & Hk). cbn in Hp, E. subst k.
    rewrite (knows_length _ _ Hk), (Hb p b Hp). done.
  - apply Forall_forall. intros [p k] Hin%list_elem_of_lookup. destruct Hin as [i Hi].
    destruct (Forall2_lookup_l _ _ _ _ _ Hbs Hi) as (v & _ & b & Hp & Hk & _). cbn in Hp, Hk.
    destruct (Hw p b Hp) as (_ & Hal & c & Hc & Hid & Hpos & Hle). split; [done|]. exists c.
    rewrite Forall_forall in Hok.
    destruct (Hok c Hc). repeat split; [done..|lia].
  - intros i j p k q l N Hi Hj. destruct (Forall2_lookup_l _ _ _ _ _ Hbs Hi) as (v & _ & b & Hp & Hk & _).
    destruct (Forall2_lookup_l _ _ _ _ _ Hbs Hj) as (w & _ & c & Hq & Hl & _). cbn in *. subst k l. rewrite !Nat2Z.id.
    apply Ha; [done..|]. intros ->. apply N.
    eapply (NoDup_lookup _ _ _ q Hnd); rewrite list_lookup_fmap; [by rewrite Hi|by rewrite Hj].
Qed.

Lemma pool_trace_run us chunkSize m :
  (0 <= chunkSize < 2 ^ 63)%Z -> Forall use_ok us ->
  exists bs s, use_blocks us [] (Pool_new chunkSize m) = (Ret bs, s) /\ blocks_ok bs (use_values us []) s.
Proof.
  intros Hc Hus. destruct (use_blocks_ok us [] [] ∅ _ (Pool_new_ok chunkSize m Hc)) as (bs & B & s & Hr & Hs & Hb);
    [split; constructor|done|]. exists bs, s. split; [done|]. by apply (blocks_shown_ok bs _ B).
Qed.

(** ** At the edges *)

(** Sizes at the end of [size_t] wrap around to a block without any bytes. *)
Lemma align4_wraps n : (2 ^ 64 - 3 <= n < 2 ^ 64)%Z -> align4 n = 0%Z.
Proof.
  intros Hn. unfold align4, size_add. assert (E : n = (2 ^ 64 - 3 + (n - (2 ^ 64 - 3)))%Z) by lia.
  set (d := (n - (2 ^ 64 - 3))%Z) in *. assert (Hd : (d = 0 \/ d = 1 \/ d = 2)%Z) by lia.
  rewrite E. by destruct Hd as [-> | [-> | ->]].
Qed.

(** [Clear] leaves a pool without chunk, which cannot be used again. *)
Lemma clear_chunks_all l : clear_chunks None l = [].
Proof. by induction l. Qed.

Lemma Malloc_cleared n s : userBuffer_ s = None -> (Malloc n (Clear s).2).1 = Terminated.
Proof.
  intros Hu. unfold Clear, modify. cbn [snd]. rewrite Hu, clear_chunks_all. reflexivity.
Qed.

(** What is used does not exceed what there is. *)
Lemma Size_le_Capacity s :
  pool_ok s -> (foldr (fun c n => capacity c + n) 0 (chunks s) < size_modulus)%Z -> (Size s <= Capacity s)%Z.
Proof.
  intros [_ Hok _ _ _]. unfold Size, Capacity.
  assert (Hgen : forall l a b, Forall chunk_ok l -> (0 <= a <= b)%Z ->
            (b + foldr (fun c n => capacity c + n) 0 l < size_modulus)%Z ->
            (foldl (fun n c => size_add n (used c)) a l <= foldl (fun n c => size_add n (capacity c)) b l)%Z).
  { induction l as [|c l IH]; intros a b Hl Hab Hlt; [cbn; lia|].
    inversion Hl as [|? ? [Hu _ _] Hl']. subst. cbn in *.
    assert (Hpos : (0 <= foldr (fun c n => capacity c + n) 0 l)%Z).
    { clear -Hl'. induction Hl' as [|c l [Hu _ _] _ IH]; cbn; lia. }
    rewrite !size_add_small by lia. apply IH; [done|lia|lia]. }
  intros Hlt. apply Hgen; [done|lia|lia].
Qed.

(** ** The property *)

(** [C19] The pool keeps the blocks of its client: whatever sequence of [Malloc]s,
    [Realloc]s and writes into blocks runs in a new pool, with sizes from 1 to below
    2^62 ([size_ok]) and memory for its chunks, no assertion fails, and in the end
    each block lies aligned within the capacity of one chunk, overlaps no other
    block, and holds, through every move, the bytes last written to it. *)
Theorem pool_blocks_kept us chunkSize m :
  (0 <= chunkSize < 2 ^ 63)%Z -> Forall use_ok us ->
  exists bs s, use_blocks us [] (Pool_new chunkSize m) = (Ret bs, s) /\ blocks_ok bs (use_values us []) s.
Proof. apply pool_trace_run. Qed.

(** Two blocks in chunks of sixteen bytes; the first one grows, in place and then
    into a chunk of its own. *)
Module PoolExample.
Definition uses : list Use :=
  [Alloc 3; Write 0 0 (chars "abc"); Resize 0 8; Alloc 5; Write 1 1 (chars "xyz"); Resize 0 20;
    Write 0 10 (chars "def")].
Lemma shown :
  use_values uses [] =
    [(Some <$> chars "abc") ++ replicate 7 None ++ (Some <$> chars "def") ++ replicate 7 None;
     [None] ++ (Some <$> chars "xyz") ++ [None]].
Proof. reflexivity. Qed.
Lemma placed : (use_blocks uses [] (Pool_new 16 (fun _ => nul))).1 = Ret [((2, 0%Z), 20%Z); ((1, 0%Z), 5%Z)].
Proof. vm_compute. reflexivity. Qed.
End PoolExample.

Lemma pool_blocks_kept_witness :
  exists bs s, use_blocks PoolExample.uses [] (Pool_new 16 (fun _ => nul)) = (Ret bs, s) /\
    blocks_ok bs [(Some <$> chars "abc") ++ replicate 7 None ++ (Some <$> chars "def") ++ replicate 7 None;
                  [None] ++ (Some <$> chars "xyz") ++ [None]] s.
Proof.
  rewrite <- PoolExample.shown.
  apply (pool_blocks_kept PoolExample.uses 16 (fun _ => nul)); [lia|repeat constructor; lia].
Defined.
