(* ===== verification/ByteStack.v ===== *)
(** * The byte stack and the text buffer of rapidjson

    [internal::Stack] ([internal/stack.h]), on which the parser builds its values
    and the writer keeps its levels, and [GenericStringBuffer] ([stringbuffer.h])
    with [internal::StrLen] ([internal/strfunc.h]), which collects the text of a
    document.  Both are proved against the interface [Allocator]. *)
From S2P Require Import Prelude Memory.

(** ** [internal::Stack] *)
Record Stack := mkStack { stack_ : Ptr; stack_size : Z; stack_capacity_ : Z }.

Section Stack.
Context {H : Type} `{!Allocator H}.

Definition Stack_new (stack_capacity : Z) : M H Stack :=
  _ ← p_assert (bool_decide (0 < stack_capacity)%Z);
  p ← al_malloc stack_capacity;
  mret (mkStack p 0 stack_capacity).

(** [Push<T>(count)], with [n] for [sizeof(T) * count]. *)
Definition Push (n : Z) (st : Stack) : M H (Ptr * Stack) :=
  st ← (if decide (stack_capacity_ st <= stack_size st + n)%Z then
          let new_capacity := ((stack_capacity_ st * 2) mod size_modulus)%Z in
          let new_size := size_add (stack_size st) n in
          let new_capacity := if decide (new_capacity < new_size)%Z then new_size else new_capacity in
          p ← al_realloc (stack_ st) (stack_capacity_ st) new_capacity;
          mret (mkStack p (stack_size st) new_capacity)
        else mret st);
  mret (shift (stack_ st) (Z.to_nat (stack_size st)), mkStack (stack_ st) (stack_size st + n) (stack_capacity_ st)).

Definition Pop (n : Z) (st : Stack) : M H (Ptr * Stack) :=
  _ ← p_assert (bool_decide (n <= stack_size st)%Z);
  mret (shift (stack_ st) (Z.to_nat (stack_size st - n)), mkStack (stack_ st) (stack_size st - n) (stack_capacity_ st)).

Definition Top (n : Z) (st : Stack) : M H Ptr :=
  _ ← p_assert (bool_decide (n <= stack_size st)%Z);
  mret (shift (stack_ st) (Z.to_nat (stack_size st - n))).

Definition Bottom (st : Stack) : Ptr := stack_ st.
Definition Stack_Clear (st : Stack) : Stack := mkStack (stack_ st) 0 (stack_capacity_ st).

(** What is done with the pointers: an element is written to the place that was
    pushed, and read from the place that was popped. *)
Definition push_bytes (l : list ascii) (st : Stack) : M H Stack :=
  '(p, st) ← Push (Z.of_nat (length l)) st; _ ← al_store p l; mret st.
Definition pop_bytes (n : nat) (st : Stack) : M H (list ascii * Stack) :=
  '(p, st) ← Pop (Z.of_nat n) st; l ← gets (al_read p n); mret (l, st).
Definition top_bytes (n : nat) (st : Stack) : M H (list ascii) :=
  p ← Top (Z.of_nat n) st; gets (al_read p n).

(** The stack holds the bytes [l], beside the blocks [B] of others. *)
Record stack_holds (st : Stack) (B : Blocks) (l : list ascii) (h : H) : Prop := {
  sh_size : stack_size st = Z.of_nat (length l);
  sh_capacity : (0 < stack_capacity_ st < 2 ^ 61)%Z;
  sh_block : B !! stack_ st = None;
  sh_holds : exists free, holds h (<[stack_ st := l ++ free]> B) /\
    Z.of_nat (length (l ++ free)) = stack_capacity_ st
}.

Lemma Stack_new_ok c B h :
  holds h B -> (0 < c < 2 ^ 61)%Z ->
  exists st h', Stack_new c h = (Ret st, h') /\ stack_holds st B [] h'.
Proof.
  intros Hh Hc. destruct (malloc_ok c h B Hh) as (p & bs & h' & Hr & Hn & Hl & Hh'); [unfold size_ok; lia|].
  exists (mkStack p 0 c), h'. split.
  - unfold Stack_new. rewrite bool_decide_eq_true_2 by lia. erewrite bind_step by reflexivity.
    by erewrite bind_step by exact Hr.
  - split; cbn; [done|lia|done|]. exists bs. split; [done|lia].
Qed.

Lemma Push_ok n st B l h :
  stack_holds st B l h -> (0 <= n)%Z -> (stack_size st + n < 2 ^ 60)%Z ->
  exists p st' h', Push n st h = (Ret (p, st'), h') /\ p = shift (stack_ st') (length l) /\
    stack_size st' = (stack_size st + n)%Z /\ (0 < stack_capacity_ st' < 2 ^ 61)%Z /\ B !! stack_ st' = None /\
    exists free, holds h' (<[stack_ st' := l ++ free]> B) /\
      Z.of_nat (length (l ++ free)) = stack_capacity_ st' /\ (n <= Z.of_nat (length free))%Z.
Proof.
  intros [Hs Hc Hb (free & Hh & Hf)] Hn Hlt. unfold Push. rewrite length_app in Hf.
  destruct (decide _) as [Hfull|Hfit].
  - rewrite Z.mod_small by (unfold size_modulus; lia). rewrite size_add_small by (unfold size_modulus; lia).
    set (k := if decide (stack_capacity_ st * 2 < stack_size st + n)%Z then (stack_size st + n)%Z
              else (stack_capacity_ st * 2)%Z).
    assert (Hk : (stack_capacity_ st * 2 <= k < 2 ^ 61)%Z /\ (stack_size st + n <= k)%Z) by (unfold k; case_decide;
      lia).
    destruct (realloc_ok (stack_ st) (l ++ free) k h _ Hh (lookup_insert_eq _ _ _)) as
      (p' & bs' & h' & Hr & Hp & Hl & Ht & Hh'); [unfold size_ok; lia|rewrite length_app; lia|].
    rewrite length_app in Hr. replace (Z.of_nat (length l + length free)) with (stack_capacity_ st) in Hr by lia.
    rewrite delete_insert_id in Hh' by done.
    assert (Hbs : bs' = l ++ drop (length l) bs').
    { rewrite <- (take_drop (length l) bs') at 1. f_equal.
      trans (take (length l) (take (length (l ++ free)) bs')); [|by rewrite Ht, take_app_length].
      rewrite take_take. f_equal. rewrite length_app. lia. }
    eexists _, _, h'. split.
    { erewrite bind_step by (erewrite bind_step by exact Hr; reflexivity). reflexivity. }
    cbn [stack_ stack_size stack_capacity_]. split; [by rewrite Hs, Nat2Z.id|]. split; [done|]. split; [lia|]. split.
    + destruct Hp as [->|Hp]; [done|]. destruct (decide (p' = stack_ st)) as [->|N]; [done|].
      by rewrite lookup_insert_ne in Hp by done.
    + exists (drop (length l) bs'). rewrite <- Hbs. split; [done|]. rewrite length_drop. lia.
  - eexists _, _, h. split; [erewrite bind_step by reflexivity; reflexivity|].
    cbn. split; [by rewrite Hs, Nat2Z.id|]. split; [done|]. split; [lia|]. split; [done|].
    exists free. rewrite length_app. split; [done|]. lia.
Qed.

Lemma push_bytes_ok bs st B l h :
  stack_holds st B l h -> (Z.of_nat (length (l ++ bs)) < 2 ^ 60)%Z ->
  exists st' h', push_bytes bs st h = (Ret st', h') /\ stack_holds st' B (l ++ bs) h'.
Proof.
  intros Hst Hlt. pose proof (sh_size _ _ _ _ Hst) as Hs. rewrite length_app in Hlt.
  destruct (Push_ok (Z.of_nat (length bs)) st B l h Hst) as
    (p & st' & h1 & Hr & -> & Hs' & Hc & Hb & free & Hh & Hl & Hf); [lia|lia|].
  rewrite length_app in Hl.
  destruct (store_ok (stack_ st') (l ++ free) (length l) bs h1 _ Hh (lookup_insert_eq _ _ _)) as (h' & Hst' & Hh').
  { rewrite length_app. lia. }
  exists st', h'. split.
  - unfold push_bytes. erewrite bind_step by exact Hr. cbn beta iota. by erewrite bind_step by exact Hst'.
  - split; [rewrite length_app; lia|done|done|]. rewrite insert_insert_eq in Hh'.
    exists (drop (length bs) free). replace (length l) with (length l + 0) in Hh' by lia.
    rewrite list_inserts_app_r, list_inserts_whole, app_assoc in Hh' by lia. split; [done|].
    rewrite !length_app, length_drop. lia.
Qed.

Lemma stack_read st B l h i n :
  stack_holds st B l h -> i + n <= length l -> al_read (shift (stack_ st) i) n h = take n (drop i l).
Proof.
  intros [_ _ _ (free & Hh & _)] Hi.
  rewrite (read_ok _ _ i n h _ Hh (lookup_insert_eq _ _ _)) by (rewrite length_app; lia).
  rewrite drop_app_le by lia. rewrite take_app_le; [done|]. rewrite length_drop. lia.
Qed.

Lemma Pop_run n st h :
  Pop (Z.of_nat n) st h = if decide (Z.of_nat n <= stack_size st)%Z
    then (Ret (shift (stack_ st) (Z.to_nat (stack_size st - Z.of_nat n)),
               mkStack (stack_ st) (stack_size st - Z.of_nat n) (stack_capacity_ st)), h)
    else (Terminated, h).
Proof.
  unfold Pop. case_decide as Hn; [rewrite bool_decide_eq_true_2 by done|rewrite bool_decide_eq_false_2 by done];
    reflexivity.
Qed.

Lemma stack_shrink st B l h n :
  stack_holds st B l h -> n <= length l ->
  stack_holds (mkStack (stack_ st) (Z.of_nat n) (stack_capacity_ st)) B (take n l) h.
Proof.
  intros [Hs Hc Hb (free & Hh & Hl)] Hn. split; cbn; [rewrite length_take; lia|done|done|].
  exists (drop n l ++ free). by rewrite app_assoc, take_drop.
Qed.

(** *** Traces of a stack that shares its allocator *)
Inductive StackOp : Type :=
  | OpPush (l : list ascii) | OpPop (n : nat) | OpTop (n : nat) | OpClear
  | OpMalloc (n : Z) (** of somebody else *).

Definition run_op (o : StackOp) (st : Stack) : M H (list ascii * Stack) :=
  match o with
  | OpPush l => st ← push_bytes l st; mret ([], st)
  | OpPop n => pop_bytes n st
  | OpTop n => l ← top_bytes n st; mret (l, st)
  | OpClear => mret ([], Stack_Clear st)
  | OpMalloc n => _ ← al_malloc n; mret ([], st)
  end.

Fixpoint run_ops (os : list StackOp) (st : Stack) : M H (list (list ascii) * Stack) :=
  match os with
  | [] => mret ([], st)
  | o :: os => '(x, st) ← run_op o st; '(xs, st) ← run_ops os st; mret (x :: xs, st)
  end.

(** The stack as a list, its top at the end. *)
Definition list_op (o : StackOp) (l : list ascii) : option (list ascii * list ascii) :=
  match o with
  | OpPush k => Some ([], l ++ k)
  | OpPop n => if decide (n <= length l) then Some (drop (length l - n) l, take (length l - n) l) else None
  | OpTop n => if decide (n <= length l) then Some (drop (length l - n) l, l) else None
  | OpClear => Some ([], [])
  | OpMalloc _ => Some ([], l)
  end.

Fixpoint list_ops (os : list StackOp) (l : list ascii) : option (list (list ascii) * list ascii) :=
  match os with
  | [] => Some ([], l)
  | o :: os => '(x, l) ← list_op o l; '(xs, l) ← list_ops os l; Some (x :: xs, l)
  end.

Definition pushed (o : StackOp) : nat := match o with OpPush l => length l | _ => 0 end.
Definition op_ok (o : StackOp) : Prop := match o with OpMalloc n => size_ok n | _ => True end.

Lemma run_op_ok o st B l h :
  stack_holds st B l h -> op_ok o -> (Z.of_nat (length l + pushed o) < 2 ^ 60)%Z ->
  match list_op o l with
  | Some (x, l') => exists st' h' B', run_op o st h = (Ret (x, st'), h') /\ B ⊆ B' /\ stack_holds st' B' l' h' /\
      length l' <= length l + pushed o
  | None => (run_op o st h).1 = Terminated
  end.
Proof.
  intros Hst Ho Hlt. pose proof (sh_size _ _ _ _ Hst) as Hs.
  destruct o as [k|n|n| |n]; cbn [list_op run_op pushed] in *.
  - destruct (push_bytes_ok k st B l h Hst) as (st' & h' & Hr & Hst'); [by rewrite length_app|].
    exists st', h', B. split; [by erewrite bind_step by exact Hr|]. split; [done|]. split; [done|].
    by rewrite length_app.
  - unfold pop_bytes, mbind, M_bind. rewrite Pop_run, Hs. case_decide as Hn; [|by rewrite decide_False by lia].
    rewrite decide_True by lia. rewrite <- Nat2Z.inj_sub, Nat2Z.id by lia.
    eexists _, h, B. split; [|split; [done|split; [apply stack_shrink; [done|lia]|rewrite length_take; lia]]].
    cbn. rewrite (stack_read st B l) by (done || lia). by rewrite take_ge by (rewrite length_drop; lia).
  - unfold top_bytes, Top. rewrite Hs. case_decide as Hn.
    + rewrite bool_decide_eq_true_2, <- Nat2Z.inj_sub, Nat2Z.id by lia.
      exists st, h, B. split; [|split; [done|split; [done|lia]]].
      change ((Ret (al_read (shift (stack_ st) (length l - n)) n h, st), h) = (Ret (drop (length l - n) l, st), h)).
      rewrite (stack_read st B l) by (done || lia). by rewrite take_ge by (rewrite length_drop; lia).
    + by rewrite bool_decide_eq_false_2 by lia.
  - eexists _, h, B. split; [reflexivity|]. split; [done|]. split; [|cbn; lia].
    apply (stack_shrink st B l h 0); [done|lia].
  - destruct Hst as [_ Hc Hb (free & Hh & Hl)]. destruct (malloc_ok n h _ Hh Ho) as (p & bs & h' & Hr & Hn & _ & Hh').
    apply lookup_insert_None in Hn as [Hn N]. exists st, h', (<[p := bs]> B).
    split; [by erewrite bind_step by exact Hr|]. split; [by apply insert_subseteq|]. split; [|lia].
    split; [done|done|by rewrite lookup_insert_ne|]. exists free. by rewrite insert_insert_ne.
Qed.

Lemma run_ops_ok os st B l h :
  stack_holds st B l h -> Forall op_ok os -> (Z.of_nat (length l + list_sum (pushed <$> os)) < 2 ^ 60)%Z ->
  match list_ops os l with
  | Some (xs, l') => exists st' h' B', run_ops os st h = (Ret (xs, st'), h') /\ B ⊆ B' /\ stack_holds st' B' l' h'
  | None => (run_ops os st h).1 = Terminated
  end.
Proof.
  revert st B l h. induction os as [|o os IH]; intros st B l h Hst Hos Hlt.
  - by exists st, h, B.
  - inversion Hos as [|? ? Ho Hos']. subst. cbn [list_ops run_ops]. rewrite fmap_cons in Hlt.
    change (list_sum (pushed o :: (pushed <$> os))) with (pushed o + list_sum (pushed <$> os)) in Hlt.
    pose proof (run_op_ok o st B l h Hst Ho ltac:(lia)) as Hop. destruct (list_op o l) as [[x l1]|]; cbn.
    + destruct Hop as (st1 & h1 & B1 & Hr & HB1 & Hst1 & Hlen). erewrite bind_step by exact Hr. cbn beta iota.
      specialize (IH st1 B1 l1 h1 Hst1 Hos' ltac:(lia)). destruct (list_ops os l1) as [[xs l2]|]; cbn.
      * destruct IH as (st2 & h2 & B2 & Hr2 & HB2 & Hst2). erewrite bind_step by exact Hr2.
        exists st2, h2, B2. split; [done|]. split; [by etrans|done].
      * by apply bind_terminated.
    + by apply bind_terminated.
Qed.

(** A stack that was just made, and what it holds at the end. *)
Definition stack_trace (c : Z) (os : list StackOp) : M H (list (list ascii) * Stack) :=
  st ← Stack_new c; run_ops os st.

Lemma stack_trace_run c os h B :
  holds h B -> (0 < c < 2 ^ 61)%Z -> Forall op_ok os -> (Z.of_nat (list_sum (pushed <$> os)) < 2 ^ 60)%Z ->
  match list_ops os [] with
  | Some (xs, l) => exists st h', stack_trace c os h = (Ret (xs, st), h') /\
      stack_size st = Z.of_nat (length l) /\ al_read (Bottom st) (length l) h' = l /\
      (forall p bs, B !! p = Some bs -> al_read p (length bs) h' = bs)
  | None => (stack_trace c os h).1 = Terminated
  end.
Proof.
  intros Hh Hc Hos Hlt. destruct (Stack_new_ok c B h Hh Hc) as (st & h1 & Hr & Hst).
  pose proof (run_ops_ok os st B [] h1 Hst Hos Hlt) as Hrun.
  assert (E : stack_trace c os h = run_ops os st h1) by (unfold stack_trace; by erewrite bind_step by exact Hr).
  rewrite E. destruct (list_ops os []) as [[xs l]|]; [|done].
  destruct Hrun as (st' & h' & B' & Hr' & HB & Hst'). exists st', h'. split; [done|].
  split; [apply (sh_size _ _ _ _ Hst')|].
  split.
  - rewrite <- (shift_0 (Bottom st')). unfold Bottom. rewrite (stack_read st' B' l) by (done || lia).
    by rewrite take_ge.
  - intros p bs Hp. apply (lookup_weaken _ _ _ _ Hp) in HB. destruct Hst' as [_ _ Hb (free & Hh' & _)].
    rewrite <- (shift_0 p), (read_ok p bs 0 (length bs) h' _ Hh'); [by rewrite take_ge|..|lia].
    rewrite lookup_insert_ne; [done|]. intros <-. by rewrite Hb in HB.
Qed.
End Stack.

(** ** [GenericStringBuffer] *)
Section Buffer.
Context {H : Type} `{!Allocator H}.

Definition kDefaultCapacity : Z := 256.
Definition Put (c : ascii) (st : Stack) : M H Stack := push_bytes [c] st.
Definition PutN (c : ascii) (n : nat) (st : Stack) : M H Stack := push_bytes (replicate n c) st.
Definition GetString (st : Stack) : M H (Ptr * Stack) :=
  st ← push_bytes [nul] st;
  '(_, st) ← Pop 1 st;
  mret (Bottom st, st).

(** [internal::StrLen], and the [std::string] that is made of a pointer. *)
Fixpoint StrLen (fuel : nat) (p : Ptr) (h : H) : option nat :=
  match fuel with
  | 0 => None
  | S fuel' => match al_read p 1 h with
    | [c] => if decide (c = nul) then Some 0 else S <$> StrLen fuel' (shift p 1) h
    | _ => None
    end
  end.
Definition c_string (fuel : nat) (p : Ptr) (h : H) : option (list ascii) :=
  n ← StrLen fuel p h; Some (al_read p n h).

Fixpoint before_nul (l : list ascii) : list ascii :=
  match l with
  | [] => []
  | c :: l' => if decide (c = nul) then [] else c :: before_nul l'
  end.

Lemma before_nul_free l : nul ∉ l -> before_nul l = l.
Proof.
  induction l as [|c l IH]; [done|]. intros [N Hl]%not_elem_of_cons. cbn. rewrite decide_False by done. by rewrite IH.
Qed.

Lemma before_nul_prefix l : take (length (before_nul l)) l = before_nul l.
Proof. induction l as [|c l IH]; [done|]. cbn. case_decide; [done|]. cbn. by rewrite IH. Qed.

Lemma before_nul_length l : length (before_nul l) <= length l.
Proof. rewrite <- (before_nul_prefix l), length_take. lia. Qed.

(** The bytes of a text and its NUL, somewhere in a stack. *)
Lemma StrLen_run st B l0 l h :
  stack_holds st B (l0 ++ l ++ [nul]) h ->
  StrLen (S (length l)) (shift (stack_ st) (length l0)) h = Some (length (before_nul l)).
Proof.
  revert l0. induction l as [|c l IH]; intros l0 Hst; cbn [StrLen length].
  - rewrite (stack_read st B _ h (length l0) 1 Hst) by (rewrite length_app; cbn; lia).
    by rewrite drop_app_length.
  - rewrite (stack_read st B _ h (length l0) 1 Hst) by (rewrite length_app; cbn; lia).
    rewrite drop_app_length. cbn [take app before_nul]. case_decide; [done|]. rewrite shift_shift.
    specialize (IH (l0 ++ [c])). rewrite <- app_assoc, length_app in IH. cbn in IH. by rewrite IH.
Qed.

(** [GetString] returns the text, up to its first NUL, and leaves the buffer as
    it was. *)
Lemma GetString_run st B l h :
  stack_holds st B l h -> (Z.of_nat (length l) < 2 ^ 60 - 1)%Z ->
  exists p st' h', GetString st h = (Ret (p, st'), h') /\ stack_holds st' B l h' /\
    c_string (S (length l)) p h' = Some (before_nul l).
Proof.
  intros Hst Hlt. destruct (push_bytes_ok [nul] st B l h Hst) as (st1 & h' & Hr & Hst1).
  { rewrite length_app. cbn. lia. }
  pose proof (sh_size _ _ _ _ Hst1) as Hs. rewrite length_app in Hs. cbn in Hs.
  exists (stack_ st1), (mkStack (stack_ st1) (Z.of_nat (length l)) (stack_capacity_ st1)), h'. split; [|split].
  - unfold GetString. erewrite bind_step by exact Hr.
    erewrite bind_step by (rewrite (Pop_run 1), decide_True by lia; reflexivity).
    by replace (stack_size st1 - Z.of_nat 1)%Z with (Z.of_nat (length l)) by lia.
  - pose proof (stack_shrink _ _ _ _ (length l) Hst1) as Hsh. rewrite length_app, take_app_length in Hsh. apply Hsh.
    lia.
  - unfold c_string. pose proof (StrLen_run st1 B [] l h' Hst1) as E. cbn [length] in E.
    rewrite shift_0 in E. rewrite E. cbn. f_equal. rewrite <- (shift_0 (stack_ st1)).
    rewrite (stack_read st1 B _ h' 0 _ Hst1).
    + rewrite drop_0, take_app_le; [apply before_nul_prefix|].
      apply before_nul_length.
    + pose proof (before_nul_length l). rewrite length_app. cbn. lia.
Qed.

(** What a writer does with its buffer. *)
Inductive Output : Type := OutPut (c : ascii) | OutPutN (c : ascii) (n : nat) | OutClear | OutGetString.

(** [GetString] is observed through the [std::string] made of its result. *)
Definition run_output (o : Output) (st : Stack) : M H (option (list ascii) * Stack) :=
  match o with
  | OutPut c => st ← Put c st; mret (None, st)
  | OutPutN c n => st ← PutN c n st; mret (None, st)
  | OutClear => mret (None, Stack_Clear st)
  | OutGetString =>
    '(p, st) ← GetString st;
    x ← gets (c_string (S (Z.to_nat (stack_size st))) p);
    mret (x, st)
  end.

Fixpoint run_outputs (os : list Output) (st : Stack) : M H (list (option (list ascii)) * Stack) :=
  match os with
  | [] => mret ([], st)
  | o :: os => '(x, st) ← run_output o st; '(xs, st) ← run_outputs os st; mret (x :: xs, st)
  end.

Definition text_output (o : Output) (l : list ascii) : option (list ascii) * list ascii :=
  match o with
  | OutPut c => (None, l ++ [c])
  | OutPutN c n => (None, l ++ replicate n c)
  | OutClear => (None, [])
  | OutGetString => (Some (before_nul l), l)
  end.

Fixpoint text_outputs (os : list Output) (l : list ascii) : list (option (list ascii)) :=
  match os with
  | [] => []
  | o :: os => (text_output o l).1 :: text_outputs os (text_output o l).2
  end.

Definition put (o : Output) : nat := match o with OutPut _ => 1 | OutPutN _ n => n | _ => 0 end.

Lemma run_output_ok o st B l h :
  stack_holds st B l h -> (Z.of_nat (length l + put o) < 2 ^ 60 - 1)%Z ->
  exists st' h', run_output o st h = (Ret ((text_output o l).1, st'), h') /\
    stack_holds st' B (text_output o l).2 h' /\ length (text_output o l).2 <= length l + put o.
Proof.
  intros Hst Hlt. destruct o as [c|c n| |]; cbn [run_output text_output fst snd put] in *.
  - destruct (push_bytes_ok [c] st B l h Hst) as (st' & h' & Hr & Hst'); [rewrite length_app; cbn; lia|].
    exists st', h'. split; [by erewrite bind_step by exact Hr|]. split; [done|]. by rewrite length_app.
  - destruct (push_bytes_ok (replicate n c) st B l h Hst) as (st' & h' & Hr & Hst').
    { rewrite length_app, length_replicate. lia. }
    exists st', h'. split; [by erewrite bind_step by exact Hr|]. split; [done|].
    by rewrite length_app, length_replicate.
  - eexists _, h. split; [reflexivity|]. split; [|cbn; lia]. apply (stack_shrink st B l h 0); [done|lia].
  - destruct (GetString_run st B l h Hst) as (p & st' & h' & Hr & Hst' & Hx); [lia|].
    exists st', h'. split; [|split; [done|lia]]. erewrite bind_step by exact Hr. cbn beta iota.
    rewrite (sh_size _ _ _ _ Hst'), Nat2Z.id. erewrite bind_step by reflexivity. by rewrite Hx.
Qed.

Lemma run_outputs_ok os st B l h :
  stack_holds st B l h -> (Z.of_nat (length l + list_sum (put <$> os)) < 2 ^ 60 - 1)%Z ->
  exists st' h', run_outputs os st h = (Ret (text_outputs os l, st'), h').
Proof.
  revert st l h. induction os as [|o os IH]; intros st l h Hst Hlt; [by exists st, h|].
  rewrite fmap_cons in Hlt. change (list_sum (put o :: (put <$> os))) with (put o + list_sum (put <$> os)) in Hlt.
  cbn [run_outputs text_outputs]. destruct (run_output_ok o st B l h Hst) as (st1 & h1 & Hr & Hst1 & Hlen); [lia|].
  destruct (IH st1 (text_output o l).2 h1 Hst1) as (st2 & h2 & Hr2); [lia|]. exists st2, h2.
  erewrite bind_step by exact Hr. cbn beta iota. by erewrite bind_step by exact Hr2.
Qed.

(** A buffer shows the text that was put into it since it was cleared. *)
Lemma string_buffer_collects os h B :
  holds h B -> (Z.of_nat (list_sum (put <$> os)) < 2 ^ 60 - 1)%Z ->
  exists st h', (st ← Stack_new kDefaultCapacity; run_outputs os st) h = (Ret (text_outputs os [], st), h').
Proof.
  intros Hh Hlt. destruct (Stack_new_ok kDefaultCapacity B h Hh) as (st & h1 & Hr & Hst); [by unfold kDefaultCapacity|].
  destruct (run_outputs_ok os st B [] h1 Hst Hlt) as (st' & h' & Hr'). exists st', h'.
  by erewrite bind_step by exact Hr.
Qed.
End Buffer.

(** ** The properties *)

(** A stack that shares its allocator with others is a list of bytes: for
    every sequence of [Push]es, [Pop]s, [Top]s and [Clear]s, with allocations of
    others in between, the bytes that are popped and read are those of the list,
    through every growth and move of its memory, exactly the accesses below its
    bottom fail their assertion, and the blocks of others keep their contents. *)
Theorem stack_refines_list {H : Type} `{!Allocator H} c os h B :
  holds h B -> (0 < c < 2 ^ 61)%Z -> Forall op_ok os -> (Z.of_nat (list_sum (pushed <$> os)) < 2 ^ 60)%Z ->
  match list_ops os [] with
  | Some (xs, l) => exists st h', stack_trace c os h = (Ret (xs, st), h') /\
      stack_size st = Z.of_nat (length l) /\ al_read (Bottom st) (length l) h' = l /\
      (forall p bs, B !! p = Some bs -> al_read p (length bs) h' = bs)
  | None => (stack_trace c os h).1 = Terminated
  end.
Proof. apply stack_trace_run. Qed.

(** In a pool of small chunks: the stack first grows in place, and moves when the
    block of somebody else has been allocated. *)
Module StackExample.
Definition pool := Pool_new 8 (fun _ => nul).
Definition ops : list StackOp :=
  [OpPush (chars "abc"); OpPush (chars "defg"); OpMalloc 5; OpPush (chars "hijkl"); OpTop 2; OpPop 6; OpTop 3;
   OpPush (chars "xy")].
Lemma pool_empty : holds pool ∅.
Proof. by apply Pool_new_ok. Qed.

(** Where the stack is after a trace. *)
Definition place (os : list StackOp) : option Ptr :=
  match (stack_trace 4 os pool).1 with Ret (_, st) => Some (Bottom st) | _ => None end.
Lemma stack_moves :
  map (fun n => place (take n ops)) [1; 2; 3; 4] = [Some (0, 0%Z); Some (0, 0%Z); Some (0, 0%Z); Some (2, 0%Z)].
Proof. vm_compute. reflexivity. Qed.
Lemma empty_in_the_end : list_ops (ops ++ [OpPop 9]) [] = None.
Proof. reflexivity. Qed.
End StackExample.

Lemma stack_refines_list_witness :
  (exists st h', stack_trace 4 StackExample.ops StackExample.pool =
     (Ret (chars <$> [""; ""; ""; ""; "kl"; "ghijkl"; "def"; ""], st), h') /\
     al_read (Bottom st) 8 h' = chars "abcdefxy")%string /\
  (stack_trace 4 (StackExample.ops ++ [OpPop 9]) StackExample.pool).1 = Terminated.
Proof.
  split.
  - destruct (stack_refines_list 4 StackExample.ops StackExample.pool ∅) as (st & h' & Hr & _ & Hread & _);
      [apply StackExample.pool_empty|lia|repeat constructor; lia|cbn; lia|]. exists st, h'.
      split; [exact Hr|exact Hread].
  - pose proof (stack_refines_list 4 (StackExample.ops ++ [OpPop 9]) StackExample.pool ∅
      StackExample.pool_empty ltac:(lia) ltac:(repeat constructor; lia) ltac:(cbn; lia)) as Hrun.
    by rewrite StackExample.empty_in_the_end in Hrun.
Defined.
