(* ===== verification/DomValue.v ===== *)
(** * JSON values in memory

    [GenericValue] of the vendored rapidjson ([document.h]) with its flags, its
    union of 64 bits, and its arrays and objects that grow by doubling; values
    move instead of being copied.  [represents] relates them to [Json.value], which
    the other files use in their place.

    The memory of elements, members and copied strings is that of [Memory]; here
    they are lists.  Constant strings, whose pointer is kept, are literals. *)
From S2P Require Import Prelude Numbers StringUtils Json Reader DoubleText.

(** ** The data *)

(** [data_], the union; [length] bytes of a string. *)
Inductive Data (V : Type) : Type :=
  | DNone
  | DNumber (u64 : Z)
  | DDouble (d : double)
  | DString (str : string)
  | DArray (elements : list V) (capacity : Z)
  | DObject (members : list (V * V)) (capacity : Z).
Arguments DNone {V}.
Arguments DNumber {V} _.
Arguments DDouble {V} _.
Arguments DString {V} _.
Arguments DArray {V} _ _.
Arguments DObject {V} _ _.

#[warnings="-register-all"]
Inductive GenericValue : Type := mkValue (flags_ : Z) (data_ : Data GenericValue).

Definition flags_ (v : GenericValue) : Z := match v with mkValue f _ => f end.
Definition data_ (v : GenericValue) : Data GenericValue := match v with mkValue _ d => d end.

Definition type_number (t : Type_) : Z :=
  match t with
  | kNullType => 0 | kFalseType => 1 | kTrueType => 2 | kObjectType => 3 | kArrayType => 4 | kStringType => 5
  | kNumberType => 6
  end.

Definition kBoolFlag : Z := 0x100.
Definition kNumberFlag : Z := 0x200.
Definition kIntFlag : Z := 0x400.
Definition kUintFlag : Z := 0x800.
Definition kInt64Flag : Z := 0x1000.
Definition kUint64Flag : Z := 0x2000.
Definition kDoubleFlag : Z := 0x4000.
Definition kStringFlag : Z := 0x100000.
Definition kCopyFlag : Z := 0x200000.
Definition kTypeMask : Z := 0xFF.

Definition or_all (l : list Z) : Z := foldl Z.lor 0%Z l.

Definition kNullFlag : Z := type_number kNullType.
Definition kTrueFlag : Z := or_all [type_number kTrueType; kBoolFlag].
Definition kFalseFlag : Z := or_all [type_number kFalseType; kBoolFlag].
Definition kNumberIntFlag : Z := or_all [type_number kNumberType; kNumberFlag; kIntFlag; kInt64Flag].
Definition kNumberUintFlag : Z := or_all [type_number kNumberType; kNumberFlag; kUintFlag; kUint64Flag; kInt64Flag].
Definition kNumberInt64Flag : Z := or_all [type_number kNumberType; kNumberFlag; kInt64Flag].
Definition kNumberUint64Flag : Z := or_all [type_number kNumberType; kNumberFlag; kUint64Flag].
Definition kNumberDoubleFlag : Z := or_all [type_number kNumberType; kNumberFlag; kDoubleFlag].
Definition kConstStringFlag : Z := or_all [type_number kStringType; kStringFlag].
Definition kCopyStringFlag : Z := or_all [type_number kStringType; kStringFlag; kCopyFlag].
Definition kObjectFlag : Z := type_number kObjectType.
Definition kArrayFlag : Z := type_number kArrayType.

(** ** The constructors *)
Definition of_null : GenericValue := mkValue kNullFlag DNone.

(** [GenericValue(Type)]; the data is zeroed. *)
Definition of_type (type : Type_) : GenericValue :=
  match type with
  | kNullType => mkValue kNullFlag DNone
  | kFalseType => mkValue kFalseFlag DNone
  | kTrueType => mkValue kTrueFlag DNone
  | kObjectType => mkValue kObjectFlag (DObject [] 0)
  | kArrayType => mkValue kArrayFlag (DArray [] 0)
  | kStringType => mkValue kConstStringFlag (DString "")
  | kNumberType =>
    mkValue (or_all [kNumberFlag; kIntFlag; kUintFlag; kInt64Flag; kUint64Flag; kDoubleFlag]) (DNumber 0)
  end.

Definition of_bool (b : bool) : GenericValue := mkValue (if b then kTrueFlag else kFalseFlag) DNone.

(** [flags_ |= f] when the condition holds. *)
Definition or_if (c : bool) (f flags : Z) : Z := if c then Z.lor flags f else flags.
Definition no_bits (n mask : Z) : bool := bool_decide (Z.land n mask = 0%Z).

(** Storing a signed or unsigned number in the 64 bits of the union. *)
Definition bits64 (z : Z) : Z := z mod 2 ^ 64.

Definition of_int (i : Z) : GenericValue :=
  mkValue (or_if (bool_decide (0 <= i)%Z) (Z.lor kUintFlag kUint64Flag) kNumberIntFlag) (DNumber (bits64 i)).
Definition of_unsigned (u : Z) : GenericValue :=
  mkValue (or_if (no_bits u 0x80000000) (Z.lor kIntFlag kInt64Flag) kNumberUintFlag) (DNumber (bits64 u)).
Definition of_int64 (i64 : Z) : GenericValue :=
  mkValue
    (if decide (0 <= i64)%Z then
       or_if (no_bits i64 0xFFFFFFFF80000000) kIntFlag
         (or_if (no_bits i64 0xFFFFFFFF00000000) kUintFlag (Z.lor kNumberInt64Flag kNumberUint64Flag))
     else or_if (bool_decide (-2147483648 <= i64)%Z) kIntFlag kNumberInt64Flag)
    (DNumber (bits64 i64)).
Definition of_uint64 (u64 : Z) : GenericValue :=
  mkValue
    (or_if (no_bits u64 0xFFFFFFFF80000000) kIntFlag
      (or_if (no_bits u64 0xFFFFFFFF00000000) kUintFlag
        (or_if (no_bits u64 0x8000000000000000) kInt64Flag kNumberUint64Flag)))
    (DNumber (bits64 u64)).
Definition of_double (d : double) : GenericValue := mkValue kNumberDoubleFlag (DDouble d).

(** [SetStringRaw] with and without an allocator, and of a C string. *)
Definition of_string (s : string) (length : nat) : GenericValue :=
  mkValue kConstStringFlag (DString (substring 0 length s)).
Definition of_string_copy (s : string) (length : nat) : GenericValue :=
  mkValue kCopyStringFlag (DString (substring 0 length s)).
Definition of_literal (s : string) : GenericValue := of_string s (String.length (c_str s)).

(** ** Types and numbers *)
Definition has (f : Z) (v : GenericValue) : bool := negb (bool_decide (Z.land (flags_ v) f = 0%Z)).
Definition GetType (v : GenericValue) : Z := Z.land (flags_ v) kTypeMask.
Definition IsNull (v : GenericValue) : bool := bool_decide (flags_ v = kNullFlag).
Definition IsFalse (v : GenericValue) : bool := bool_decide (flags_ v = kFalseFlag).
Definition IsTrue (v : GenericValue) : bool := bool_decide (flags_ v = kTrueFlag).
Definition IsBool : GenericValue -> bool := has kBoolFlag.
Definition IsObject_flag (v : GenericValue) : bool := bool_decide (flags_ v = kObjectFlag).
Definition IsArray (v : GenericValue) : bool := bool_decide (flags_ v = kArrayFlag).
Definition IsNumber : GenericValue -> bool := has kNumberFlag.
Definition IsInt : GenericValue -> bool := has kIntFlag.
Definition IsUint : GenericValue -> bool := has kUintFlag.
Definition IsInt64 : GenericValue -> bool := has kInt64Flag.
Definition IsUint64 : GenericValue -> bool := has kUint64Flag.
Definition IsDouble : GenericValue -> bool := has kDoubleFlag.
Definition IsString : GenericValue -> bool := has kStringFlag.

(** Reading the union through [n.i.i], [n.u.u], [n.i64] and [n.u64]. *)
Definition number_bits (v : GenericValue) : result Z := match data_ v with DNumber n => Ret n | _ => Terminated end.
Definition asserting {A} (b : bool) (r : result A) : result A := if b then r else Terminated.

Definition GetBool (v : GenericValue) : result bool := asserting (IsBool v) (Ret (IsTrue v)).
Definition GetInt (v : GenericValue) : result Z := asserting (IsInt v) (to_signed 32 <$> number_bits v).
Definition GetUint (v : GenericValue) : result Z := asserting (IsUint v) ((fun n => n mod 2 ^ 32)%Z <$> number_bits v).
Definition GetInt64 (v : GenericValue) : result Z := asserting (IsInt64 v) (to_signed 64 <$> number_bits v).
Definition GetUint64 (v : GenericValue) : result Z := asserting (IsUint64 v) (number_bits v).
Definition GetDouble (v : GenericValue) : result double :=
  asserting (IsNumber v)
    (if IsDouble v then match data_ v with DDouble d => Ret d | _ => Terminated end
     else if IsInt v then double_of_Z <$> (to_signed 32 <$> number_bits v)
     else if IsUint v then double_of_Z <$> ((fun n => n mod 2 ^ 32)%Z <$> number_bits v)
     else if IsInt64 v then double_of_Z <$> (to_signed 64 <$> number_bits v)
     else asserting (IsUint64 v) (double_of_Z <$> number_bits v)).
Definition GetString (v : GenericValue) : result string :=
  asserting (IsString v) match data_ v with DString s => Ret s | _ => Terminated end.
Definition GetStringLength (v : GenericValue) : result Z := (fun s => Z.of_nat (String.length s)) <$> GetString v.

(** *** Numbers: the flags say which types hold the value *)
Definition fits_int (z : Z) : bool := bool_decide (int_min <= z <= int_max)%Z.
Definition fits_unsigned (z : Z) : bool := bool_decide (0 <= z < 2 ^ 32)%Z.
Definition fits_int64 (z : Z) : bool := bool_decide (- 2 ^ 63 <= z < 2 ^ 63)%Z.
Definition fits_uint64 (z : Z) : bool := bool_decide (0 <= z < 2 ^ 64)%Z.

Definition number_flags (z : Z) : Z :=
  or_if (fits_int z) kIntFlag (or_if (fits_unsigned z) kUintFlag
    (or_if (fits_int64 z) kInt64Flag (or_if (fits_uint64 z) kUint64Flag
      (Z.lor (type_number kNumberType) kNumberFlag)))).
Definition number (z : Z) : GenericValue := mkValue (number_flags z) (DNumber (bits64 z)).

Lemma no_bits_high n k w mask :
  mask = (2 ^ w - 2 ^ k)%Z -> (0 <= k <= w)%Z -> (0 <= n < 2 ^ w)%Z -> no_bits n mask = bool_decide (n < 2 ^ k)%Z.
Proof.
  intros -> Hk Hn. unfold no_bits. apply bool_decide_ext.
  assert (E : Z.land n (2 ^ w - 2 ^ k) = (n / 2 ^ k * 2 ^ k)%Z).
  { replace (2 ^ w - 2 ^ k)%Z with (Z.ldiff (Z.ones w) (Z.ones k)).
    - rewrite Z.ldiff_land, Z.land_assoc, Z.land_ones, Z.mod_small by lia.
      by rewrite <- Z.ldiff_land, Z.ldiff_ones_r, Z.shiftl_mul_pow2, Z.shiftr_div_pow2 by lia.
    - rewrite Z.ldiff_ones_r, Z.shiftl_mul_pow2, Z.shiftr_div_pow2 by lia. rewrite Z.ones_div_pow2 by lia.
      rewrite Z.ones_equiv, Z.mul_pred_l, <- Z.pow_add_r by lia. by replace (w - k + k)%Z with w by lia. }
  rewrite E. pose proof (Z.pow_pos_nonneg 2 k). pose proof (Z.div_mod n (2 ^ k)).
  pose proof (Z.mod_pos_bound n (2 ^ k)). split; intros H3.
  - lia.
  - by rewrite Z.div_small by lia.
Qed.

Ltac number_cases :=
  unfold number_flags, fits_int, fits_unsigned, fits_int64, fits_uint64, int_min, int_max in *;
  repeat case_bool_decide; try reflexivity; lia.

Lemma of_int_number z : fits_int z = true -> of_int z = number z.
Proof.
  intros Hz%bool_decide_eq_true. unfold of_int, number. f_equal. number_cases.
Qed.

Lemma of_unsigned_number z : fits_unsigned z = true -> of_unsigned z = number z.
Proof.
  intros Hz%bool_decide_eq_true. unfold of_unsigned, number. f_equal.
  rewrite (no_bits_high z 31 32 0x80000000) by (done || lia). number_cases.
Qed.

Lemma of_int64_number z : fits_int64 z = true -> of_int64 z = number z.
Proof.
  intros Hz%bool_decide_eq_true. unfold of_int64, number. f_equal. case_decide.
  - rewrite (no_bits_high z 31 64 0xFFFFFFFF80000000), (no_bits_high z 32 64 0xFFFFFFFF00000000) by (done || lia).
    number_cases.
  - number_cases.
Qed.

Lemma of_uint64_number z : fits_uint64 z = true -> of_uint64 z = number z.
Proof.
  intros Hz%bool_decide_eq_true. unfold of_uint64, number. f_equal.
  rewrite (no_bits_high z 31 64 0xFFFFFFFF80000000), (no_bits_high z 32 64 0xFFFFFFFF00000000),
    (no_bits_high z 63 64 0x8000000000000000) by (done || lia). number_cases.
Qed.

Lemma number_has z :
  IsInt (number z) = fits_int z /\ IsUint (number z) = fits_unsigned z /\ IsInt64 (number z) = fits_int64 z /\
  IsUint64 (number z) = fits_uint64 z /\ IsDouble (number z) = false /\ IsNumber (number z) = true /\
  IsString (number z) = false /\ IsBool (number z) = false /\ GetType (number z) = type_number kNumberType.
Proof.
  unfold number, IsInt, IsUint, IsInt64, IsUint64, IsDouble, IsNumber, IsString, IsBool, GetType, has.
  cbn [flags_]. unfold number_flags. by destruct (fits_int z), (fits_unsigned z), (fits_int64 z), (fits_uint64 z).
Qed.

Lemma to_signed_bits64 w z :
  (0 < w <= 64)%Z -> (- 2 ^ (w - 1) <= z < 2 ^ (w - 1))%Z -> to_signed w (bits64 z) = z.
Proof.
  intros Hw Hz. unfold to_signed, bits64.
  assert (E : (2 ^ 64 = 2 ^ w * 2 ^ (64 - w))%Z) by (rewrite <- Z.pow_add_r by lia; f_equal; lia).
  assert (E' : (2 ^ w = 2 * 2 ^ (w - 1))%Z) by (rewrite <- Z.pow_succ_r by lia; f_equal; lia).
  pose proof (Z.pow_pos_nonneg 2 (64 - w)). pose proof (Z.pow_pos_nonneg 2 (w - 1)).
  rewrite <- Zplus_mod_idemp_l. rewrite E, Z.rem_mul_r by lia.
  rewrite (Z.mul_comm (2 ^ w)), Z.mod_add, Zmod_mod, Zplus_mod_idemp_l by lia. rewrite Z.mod_small by lia. lia.
Qed.

Lemma number_getters z :
  GetInt (number z) = asserting (fits_int z) (Ret z) /\ GetUint (number z) = asserting (fits_unsigned z) (Ret z) /\
  GetInt64 (number z) = asserting (fits_int64 z) (Ret z) /\ GetUint64 (number z) = asserting (fits_uint64 z) (Ret z).
Proof.
  destruct (number_has z) as (H1 & H2 & H3 & H4 & _).
  unfold GetInt, GetUint, GetInt64, GetUint64. rewrite H1, H2, H3, H4.
  unfold number_bits, number. cbn [data_]. unfold fmap, result_fmap. split; [|split; [|split]].
  - destruct (fits_int z) eqn:Hz; [|done]. apply bool_decide_eq_true in Hz. unfold int_min, int_max in Hz.
    cbn [asserting]. f_equal. apply to_signed_bits64; lia.
  - destruct (fits_unsigned z) eqn:Hz; [|done]. apply bool_decide_eq_true in Hz. cbn [asserting]. f_equal.
    unfold bits64. rewrite (Z.mod_small z (2 ^ 64)) by lia. by apply Z.mod_small.
  - destruct (fits_int64 z) eqn:Hz; [|done]. apply bool_decide_eq_true in Hz. cbn [asserting]. f_equal.
    apply to_signed_bits64; lia.
  - destruct (fits_uint64 z) eqn:Hz; [|done]. apply bool_decide_eq_true in Hz. cbn [asserting]. f_equal.
    by apply Z.mod_small.
Qed.

(** ** Arrays and objects *)
Definition kDefaultArrayCapacity : Z := 16.
Definition kDefaultObjectCapacity : Z := 16.

(** A [SizeType] is an [unsigned]. *)
Definition size_type (n : Z) : Z := n mod 2 ^ 32.

Definition as_array (v : GenericValue) : result (list GenericValue * Z) :=
  asserting (IsArray v) match data_ v with DArray es c => Ret (es, c) | _ => Terminated end.
Definition as_object (v : GenericValue) : result (list (GenericValue * GenericValue) * Z) :=
  asserting (IsObject_flag v) match data_ v with DObject ms c => Ret (ms, c) | _ => Terminated end.

(** [RawAssign] and the assignment operator: the copy, and what is left. *)
Definition RawAssign (rhs : GenericValue) : GenericValue * GenericValue := (rhs, mkValue kNullFlag (data_ rhs)).

Definition Size (v : GenericValue) : result Z := (fun a => Z.of_nat (length a.1)) <$> as_array v.
Definition Capacity (v : GenericValue) : result Z := snd <$> as_array v.
Definition Empty (v : GenericValue) : result bool := (fun n => bool_decide (n = 0%Z)) <$> Size v.
Definition Clear (v : GenericValue) : result GenericValue :=
  (fun a => mkValue (flags_ v) (DArray [] a.2)) <$> as_array v.
Definition at_index (index : nat) (v : GenericValue) : result GenericValue :=
  a ← as_array v; match a.1 !! index with Some x => Ret x | None => Terminated end.

Definition Reserve (newCapacity : Z) (v : GenericValue) : result GenericValue :=
  a ← as_array v;
  Ret (if decide (a.2 < newCapacity)%Z then mkValue (flags_ v) (DArray a.1 newCapacity) else v).

(** The write behind the last element is [Terminated] beyond the capacity. *)
Definition PushBack (x v : GenericValue) : result (GenericValue * GenericValue) :=
  a ← as_array v;
  v ← (if decide (a.2 <= Z.of_nat (length a.1))%Z
       then Reserve (if decide (a.2 = 0)%Z then kDefaultArrayCapacity else size_type (a.2 * 2)) v
       else Ret v);
  a ← as_array v;
  if decide (Z.of_nat (length a.1) < a.2)%Z
  then let '(copy, x) := RawAssign x in Ret (mkValue (flags_ v) (DArray (a.1 ++ [copy]) a.2), x)
  else Terminated.

Definition PopBack (v : GenericValue) : result GenericValue :=
  a ← as_array v;
  empty ← Empty v;
  asserting (negb empty) (Ret (mkValue (flags_ v) (DArray (take (length a.1 - 1) a.1) a.2))).

(** [AddMember]: the object, and what is left of the name and the value. *)
Definition AddMember_value (name x v : GenericValue) : result (GenericValue * GenericValue * GenericValue) :=
  o ← as_object v;
  _ ← asserting (IsString name) (Ret tt);
  let '(ms, c) := o in
  let c := if decide (c <= Z.of_nat (length ms))%Z
           then if decide (c = 0)%Z then kDefaultObjectCapacity else size_type (c * 2)
           else c in
  if decide (Z.of_nat (length ms) < c)%Z
  then
    let '(n_copy, name) := RawAssign name in
    let '(x_copy, x) := RawAssign x in
    Ret (mkValue (flags_ v) (DObject (ms ++ [(n_copy, x_copy)]) c), name, x)
  else Terminated.

(** The overload for a C string. *)
Definition AddMember_name (name : string) (x v : GenericValue) : result (GenericValue * GenericValue) :=
  r ← AddMember_value (of_literal name) x v; Ret (r.1.1, r.2).

(** The loop of [FindMember]. *)
Fixpoint find_index (name : string) (ms : list (GenericValue * GenericValue)) : result (option nat) :=
  match ms with
  | [] => Ret None
  | m :: ms' =>
    match data_ m.1 with
    | DString s =>
      if Nat.eqb (String.length (c_str name)) (String.length s) && String.eqb (c_str name) s then Ret (Some 0)
      else (fun i : option nat => S <$> i) <$> find_index name ms'
    | _ => Terminated
    end
  end.
Definition FindMember (name : string) (v : GenericValue) : result (option nat) :=
  o ← as_object v; find_index name o.1.
Definition HasMember_value (name : string) (v : GenericValue) : result bool :=
  (fun i : option nat => bool_decide (is_Some i)) <$> FindMember name v.

(** [operator[]]: the static null value stands for a missing member. *)
Definition at_name (name : string) (v : GenericValue) : result GenericValue :=
  o ← as_object v;
  i ← find_index name o.1;
  match i with
  | Some i => match o.1 !! i with Some m => Ret m.2 | None => Terminated end
  | None => Ret of_null
  end.

Definition RemoveMember (name : string) (v : GenericValue) : result (bool * GenericValue) :=
  o ← as_object v;
  i ← find_index name o.1;
  match i, last o.1 with
  | None, _ => Ret (false, v)
  | Some i, Some l =>
    let k := length o.1 - 1 in
    let ms := if decide (1 < length o.1 /\ i <> k) then <[i := l]> o.1 else o.1 in
    Ret (true, mkValue (flags_ v) (DObject (take k ms) o.2))
  | Some _, None => Terminated
  end.

(** What the parser makes of the values on its stack. *)
Definition SetArrayRaw (values : list GenericValue) : GenericValue :=
  mkValue kArrayFlag (DArray values (size_type (Z.of_nat (length values)))).
Definition SetObjectRaw (members : list (GenericValue * GenericValue)) : GenericValue :=
  mkValue kObjectFlag (DObject members (size_type (Z.of_nat (length members)))).

(** ** [Accept]: the events of a value, for a handler of any kind *)
Inductive Event : Type :=
  | Null | Bool (b : bool) | Int (z : Z) | Uint (z : Z) | Int64 (z : Z) | Uint64 (z : Z) | Double (d : double)
  | Str (s : string) (copy : bool) | StartObj | EndObj (memberCount : nat) | StartArr | EndArr (elementCount : nat).

Section Accept.
Context {S : Type} (handler : Event -> M S unit).

Definition event_number (v : GenericValue) : M S unit :=
  let with_bits (e : Z -> Event) : M S unit :=
    match data_ v with DNumber n => handler (e n) | _ => terminate end in
  if IsInt v then with_bits (fun n => Int (to_signed 32 n))
  else if IsUint v then with_bits (fun n => Uint (n mod 2 ^ 32))
  else if IsInt64 v then with_bits (fun n => Int64 (to_signed 64 n))
  else if IsUint64 v then with_bits Uint64
  else match data_ v with DDouble d => handler (Double d) | _ => terminate end.

Definition event_string (v : GenericValue) : M S unit :=
  match data_ v with DString s => handler (Str s false) | _ => terminate end.

Fixpoint Accept_value (v : GenericValue) : M S unit :=
  match v with
  | mkValue f d =>
    let type := Z.land f kTypeMask in
    if decide (type = type_number kNullType) then handler Null
    else if decide (type = type_number kFalseType) then handler (Bool false)
    else if decide (type = type_number kTrueType) then handler (Bool true)
    else if decide (type = type_number kObjectType) then
      match d with
      | DObject ms _ =>
        _ ← handler StartObj;
        _ ← (fix go l := match l with
             | [] => mret tt
             | (n, x) :: l' => _ ← event_string n; _ ← Accept_value x; go l'
             end) ms;
        handler (EndObj (length ms))
      | _ => terminate
      end
    else if decide (type = type_number kArrayType) then
      match d with
      | DArray es _ =>
        _ ← handler StartArr;
        _ ← (fix go l := match l with
             | [] => mret tt
             | x :: l' => _ ← Accept_value x; go l'
             end) es;
        handler (EndArr (length es))
      | _ => terminate
      end
    else if decide (type = type_number kStringType) then event_string (mkValue f d)
    else if decide (type = type_number kNumberType) then event_number (mkValue f d)
    else mret tt
  end.
End Accept.

(** The handler functions of the writer. *)
Definition writer_event (e : Event) : W unit :=
  match e with
  | Null => ev_null
  | Bool b => ev_bool b
  | Int z | Uint z | Int64 z | Uint64 z => ev_number (to_string z)
  | Double d => ev_Double d
  | Str s _ => ev_string s
  | StartObj => StartObject
  | EndObj _ => EndObject
  | StartArr => StartArray
  | EndArr _ => EndArray
  end.

(** The handler functions of [GenericDocument], on its stack of values, the top
    first. *)
Definition push_dom (v : GenericValue) : M (list GenericValue) unit := modify (cons v).
Definition pop_dom (n : nat) : M (list GenericValue) (list GenericValue) := fun st =>
  if decide (n <= length st) then (Ret (rev (take n st)), drop n st) else (Terminated, st).
Definition set_dom_top (v : GenericValue) : M (list GenericValue) unit := fun st =>
  match st with _ :: st' => (Ret tt, v :: st') | [] => (Terminated, st) end.

(** A [Member] is a name and a value side by side. *)
Fixpoint pairs {A} (l : list A) : list (A * A) :=
  match l with
  | n :: v :: l' => (n, v) :: pairs l'
  | _ => []
  end.

Definition document_event (e : Event) : M (list GenericValue) unit :=
  match e with
  | Null => push_dom of_null
  | Bool b => push_dom (of_bool b)
  | Int z => push_dom (of_int z)
  | Uint z => push_dom (of_unsigned z)
  | Int64 z => push_dom (of_int64 z)
  | Uint64 z => push_dom (of_uint64 z)
  | Double d => push_dom (of_double d)
  | Str s copy => push_dom (if copy then of_string_copy s (String.length s) else of_string s (String.length s))
  | StartObj => push_dom (of_type kObjectType)
  | EndObj memberCount => members ← pop_dom (2 * memberCount); set_dom_top (SetObjectRaw (pairs members))
  | StartArr => push_dom (of_type kArrayType)
  | EndArr elementCount => elements ← pop_dom elementCount; set_dom_top (SetArrayRaw elements)
  end.

(** ** The abstract values *)
Definition string_flags (f : Z) : Prop := f = kConstStringFlag \/ f = kCopyStringFlag.
Definition capacity_ok (size : nat) (c : Z) : Prop := (Z.of_nat size <= c < 2 ^ 32)%Z.

#[warnings="-register-all"]
Inductive represents : GenericValue -> value -> Prop :=
  | rep_null d : represents (mkValue kNullFlag d) VNull
  | rep_bool (b : bool) d : represents (mkValue (if b then kTrueFlag else kFalseFlag) d) (VBool b)
  | rep_number z : (fits_int64 z || fits_uint64 z) = true -> represents (number z) (VInt z)
  | rep_double d : valid_binary 53 1024 d = true -> represents (of_double d) (VDouble (double_text d))
  | rep_string f s : string_flags f -> represents (mkValue f (DString s)) (VString s)
  | rep_array es c l :
      Forall2 represents es l -> capacity_ok (length es) c -> represents (mkValue kArrayFlag (DArray es c)) (VArray l)
  | rep_object ms c l :
      Forall2 (fun (m : GenericValue * GenericValue) (p : string * value) =>
                 represents m.1 (VString p.1) /\ represents m.2 p.2) ms l ->
      capacity_ok (length ms) c ->
      represents (mkValue kObjectFlag (DObject ms c)) (VObject l).

Abbreviation member_represents :=
  (fun (m : GenericValue * GenericValue) (p : string * value) => represents m.1 (VString p.1) /\ represents m.2 p.2).

Lemma represents_string v s : represents v (VString s) -> data_ v = DString s /\ IsString v = true.
Proof. intros H. inversion H as [| | | |f s' [-> | ->]| |]; by subst. Qed.

(** The event of a number carries its value. *)
Definition event_of (z : Z) : Event :=
  if fits_int z then Int z else if fits_unsigned z then Uint z else if fits_int64 z then Int64 z else Uint64 z.

Lemma event_number_ok {S} (handler : Event -> M S unit) z :
  (fits_int64 z || fits_uint64 z) = true -> event_number handler (number z) = handler (event_of z).
Proof.
  intros Hz. destruct (number_has z) as (H1 & H2 & H3 & H4 & _). unfold event_number, event_of.
  rewrite H1, H2, H3, H4. cbn [data_ number].
  destruct (fits_int z) eqn:F1, (fits_unsigned z) eqn:F2, (fits_int64 z) eqn:F3, (fits_uint64 z) eqn:F4;
    try discriminate Hz; do 2 f_equal;
    repeat match goal with H : _ = true |- _ => apply bool_decide_eq_true in H end; unfold int_min, int_max in *;
    try (apply to_signed_bits64; lia); unfold bits64; rewrite (Z.mod_small z (2 ^ 64)) by lia;
    by rewrite ?Z.mod_small by lia.
Qed.

Lemma Accept_number {S} (handler : Event -> M S unit) z :
  (fits_int64 z || fits_uint64 z) = true -> Accept_value handler (number z) = handler (event_of z).
Proof.
  intros Hz. pose proof (number_has z) as (_ & _ & _ & _ & _ & _ & _ & _ & Ht). unfold number in *.
  cbn [GetType flags_] in Ht. cbn [Accept_value]. unfold GetType, flags_ in Ht. rewrite Ht. cbn.
  by apply (event_number_ok handler z).
Qed.

Lemma Accept_array {S} (handler : Event -> M S unit) es c :
  Accept_value handler (mkValue kArrayFlag (DArray es c)) =
  (_ ← handler StartArr;
   _ ← (fix go l := match l with [] => mret tt | x :: l' => _ ← Accept_value handler x; go l' end) es;
   handler (EndArr (length es))).
Proof. reflexivity. Qed.

Lemma Accept_object {S} (handler : Event -> M S unit) ms c :
  Accept_value handler (mkValue kObjectFlag (DObject ms c)) =
  (_ ← handler StartObj;
   _ ← (fix go l := match l with
        | [] => mret tt
        | (n, x) :: l' => _ ← event_string handler n; _ ← Accept_value handler x; go l'
        end) ms;
   handler (EndObj (length ms))).
Proof. reflexivity. Qed.

(** Two loops of events that do the same on each element. *)
Lemma bind_ext {S A B} (m n : M S A) (k l : A -> M S B) s :
  (forall s, m s = n s) -> (forall a s, k a s = l a s) -> (m ≫= k) s = (n ≫= l) s.
Proof. intros Hm Hk. unfold mbind, M_bind. rewrite Hm. by destruct (n s) as [[] ?]. Qed.

(** [Accept] of a value writes what the abstract value writes. *)
Lemma Accept_value_ok w : forall v s, represents v w -> Accept_value writer_event v s = Accept w s.
Proof.
  induction w as [|b|z|g|t|l IH|l IH] using value_nested_ind; intros v s Hv; inversion Hv; subst.
  - done.
  - by destruct b.
  - rewrite Accept_number by done. unfold event_of. by repeat case_match.
  - by apply ev_Double_text.
  - match goal with H : string_flags _ |- _ => by destruct H as [-> | ->] end.
  - match goal with H : Forall2 _ _ _ |- _ => rename H into Hes end. rewrite Accept_array. cbn [Accept].
    apply bind_ext; [done|]. intros _ s1.
    apply bind_ext; [|done]. clear dependent c. clear s s1.
    induction Hes as [|x y es l Hxy _ IHes]; intros s; [done|].
    inversion IH as [|? ? Hy Hl]. subst. apply bind_ext; [intros s1; by apply Hy|]. intros _ s1. by apply IHes.
  - match goal with H : Forall2 _ _ _ |- _ => rename H into Hms end. rewrite Accept_object. cbn [Accept].
    apply bind_ext; [done|]. intros _ s1.
    apply bind_ext; [|done]. clear dependent c. clear s s1.
    induction Hms as [|[n x] [t y] ms l [Hn Hxy] _ IHms]; intros s; [done|].
    inversion IH as [|? ? Hy Hl]. subst. apply bind_ext.
    + intros s1. unfold event_string. apply represents_string in Hn as [E _]. cbn in E. by rewrite E.
    + intros _ s1. apply bind_ext; [intros s2; by apply Hy|]. intros _ s2. by apply IHms.
Qed.

(** The parser's values: [SetArrayRaw] and [SetObjectRaw]. *)
Lemma SetArrayRaw_ok es l :
  Forall2 represents es l -> (Z.of_nat (length es) < 2 ^ 32)%Z -> represents (SetArrayRaw es) (VArray l).
Proof.
  intros Hes Hl. constructor; [done|]. unfold capacity_ok, size_type. rewrite Z.mod_small by lia. lia.
Qed.

Lemma SetObjectRaw_ok ms l :
  Forall2 member_represents ms l -> (Z.of_nat (length ms) < 2 ^ 32)%Z -> represents (SetObjectRaw ms) (VObject l).
Proof.
  intros Hms Hl. constructor; [done|]. unfold capacity_ok, size_type. rewrite Z.mod_small by lia. lia.
Qed.

(** A value made of the type [kNumberType] lacks the type in its flags: it is a
    number to [IsNumber] and null to [GetType] and [Accept]. *)
Lemma number_type_is_null s :
  IsNumber (of_type kNumberType) = true /\ GetInt (of_type kNumberType) = Ret 0%Z /\
  GetType (of_type kNumberType) = type_number kNullType /\ 
  Accept_value writer_event (of_type kNumberType) s = Accept VNull s.
Proof. done. Qed.

Lemma GetDouble_number z :
  (fits_int64 z || fits_uint64 z) = true -> GetDouble (number z) = Ret (double_of_Z z).
Proof.
  intros Hz. destruct (number_has z) as (H1 & H2 & H3 & H4 & H5 & H6 & _).
  destruct (number_getters z) as (G1 & G2 & G3 & G4). unfold GetInt, GetUint, GetInt64, GetUint64 in *.
  unfold GetDouble. rewrite H1, H2, H3, H4, H5, H6 in *. cbn [asserting].
  destruct (fits_int z); [cbn [asserting] in G1; by rewrite G1|].
  destruct (fits_unsigned z); [cbn [asserting] in G2; by rewrite G2|].
  destruct (fits_int64 z); [cbn [asserting] in G3; by rewrite G3|].
  destruct (fits_uint64 z); [cbn [asserting] in *; by rewrite G4|done].
Qed.

(** ** The property of numbers *)

(** Whichever constructor makes a number, its flags are those of its value:
    [IsInt], [IsUint], [IsInt64] and [IsUint64] say exactly which types hold it,
    and the getters return it or fail their assertion. *)
Theorem number_types z :
  (fits_int z = true -> of_int z = number z) /\ (fits_unsigned z = true -> of_unsigned z = number z) /\
  (fits_int64 z = true -> of_int64 z = number z) /\ (fits_uint64 z = true -> of_uint64 z = number z) /\
  GetInt (number z) = asserting (fits_int z) (Ret z) /\ GetUint (number z) = asserting (fits_unsigned z) (Ret z) /\
  GetInt64 (number z) = asserting (fits_int64 z) (Ret z) /\ GetUint64 (number z) = asserting (fits_uint64 z) (Ret z) /\
  ((fits_int64 z || fits_uint64 z) = true -> GetDouble (number z) = Ret (double_of_Z z)) /\
  IsDouble (number z) = false /\ GetType (number z) = type_number kNumberType.
Proof.
  destruct (number_has z) as (_ & _ & _ & _ & Hd & _ & _ & _ & Ht). destruct (number_getters z) as (G1 & G2 & G3 & G4).
  auto 12 using of_int_number, of_unsigned_number, of_int64_number, of_uint64_number, GetDouble_number.
Qed.

Lemma number_types_witness :
  of_uint64 (2 ^ 63) = number (2 ^ 63) /\ GetInt64 (number (2 ^ 63)) = Terminated /\
  GetUint64 (number (2 ^ 63)) = Ret (2 ^ 63)%Z /\ of_int (-1) = number (-1) /\ GetUint (number (-1)) = Terminated.
Proof.
  destruct (number_types (2 ^ 63)) as (_ & _ & _ & H1 & _ & _ & H2 & H3 & _).
  destruct (number_types (-1)) as (H4 & _ & _ & _ & _ & H5 & _).
  split; [by apply H1|]. split; [exact H2|]. split; [exact H3|]. split; [by apply H4|exact H5].
Defined.
