(* ===== verification/DomSpec.v ===== *)
(** * Documents that programs build

    The refinement of rapidjson's values ([DomValue]) by the abstract ones of
    [Json]: programs with numbered variables that build documents and look at
    them see the same of both. *)
From S2P Require Import Prelude Numbers StringUtils Json Reader DoubleText DomValue.

(** ** Programs that build documents *)

(** A program with numbered variables: what it calls, and what it sees. *)
Inductive Constructor : Type :=
  | CType (t : Type_) | CBool (b : bool) | CInt (z : Z) | CUnsigned (z : Z) | CInt64 (z : Z) | CUint64 (z : Z)
  | CDouble (d : double) | CString (s : string) (length : nat) | CStringCopy (s : string) (length : nat).

Inductive DomOp : Type :=
  | New (c : Constructor) | OpSet (i : nat) (c : Constructor)
  | OpAddMember (i : nat) (name : string) (j : nat) | OpPushBack (i j : nat) | OpReserve (i : nat) (c : Z)
  | OpRemoveMember (i : nat) (name : string) | OpPopBack (i : nat) | OpClear (i : nat) | OpMove (i j : nat)
  | OpHasMember (i : nat) (name : string) | OpSize (i : nat) | OpIsObject (i : nat)
  | OpAccept (i : nat).

Inductive Seen : Type := SNothing | SBool (b : bool) | SSize (n : Z) | SText (s : string).

(** The text that [Accept] writes, as [stringify] reads it. *)
Definition written (m : W unit) : result string :=
  match m (mkWriter "" []) with
  | (Ret _, w) => Ret (out w)
  | (Throw e, _) => Throw e
  | (Terminated, _) => Terminated
  end.

Section Program.
Context {V : Type}.

Definition variable (i : nat) (vs : list V) : result V :=
  match vs !! i with Some v => Ret v | None => Terminated end.
Definition assign (i : nat) (v : V) (vs : list V) : list V := <[i := v]> vs.
Definition declare (v : V) (vs : list V) : result (Seen * list V) := Ret (SNothing, vs ++ [v]).
Definition update (i : nat) (f : V -> result V) (vs : list V) : result (Seen * list V) :=
  v ← variable i vs; v ← f v; Ret (SNothing, assign i v vs).
(** Both arguments are references: the value that is moved is written last. *)
Definition update_moving (i j : nat) (f : V -> V -> result (V * V)) (vs : list V) : result (Seen * list V) :=
  v ← variable i vs; x ← variable j vs; r ← f x v;
  Ret (SNothing, assign j r.2 (assign i r.1 vs)).
Definition observe {A} (i : nat) (f : V -> result A) (g : A -> Seen) (vs : list V) : result (Seen * list V) :=
  v ← variable i vs; a ← f v; Ret (g a, vs).
End Program.

(** [operator=]; [RAPIDJSON_ASSERT(this != &rhs)]. *)
Definition move_value (i j : nat) (x _v : GenericValue) : result (GenericValue * GenericValue) :=
  asserting (negb (bool_decide (i = j))) (Ret (RawAssign x)).

Definition construct (c : Constructor) : GenericValue :=
  match c with
  | CType t => of_type t
  | CBool b => of_bool b
  | CInt z => of_int z
  | CUnsigned z => of_unsigned z
  | CInt64 z => of_int64 z
  | CUint64 z => of_uint64 z
  | CDouble d => of_double d
  | CString s n => of_string s n
  | CStringCopy s n => of_string_copy s n
  end.

(** [SetNull], [SetBool], [SetInt] and the like, and the assignment of a primitive
    value: the old value is destructed, the new one constructed in its place. *)
Definition construct_at (c : Constructor) (_old : GenericValue) : result GenericValue := Ret (construct c).

Definition dom_op (o : DomOp) (vs : list GenericValue) : result (Seen * list GenericValue) :=
  match o with
  | New c => declare (construct c) vs
  | OpSet i c => update i (construct_at c) vs
  | OpAddMember i name j => update_moving i j (AddMember_name name) vs
  | OpPushBack i j => update_moving i j PushBack vs
  | OpReserve i c => update i (Reserve c) vs
  | OpRemoveMember i name =>
    v ← variable i vs; r ← RemoveMember name v; Ret (SBool r.1, assign i r.2 vs)
  | OpPopBack i => update i PopBack vs
  | OpClear i => update i Clear vs
  | OpMove i j => update_moving i j (move_value i j) vs
  | OpHasMember i name => observe i (HasMember_value name) SBool vs
  | OpSize i => observe i Size SSize vs
  | OpIsObject i => observe i (fun v => Ret (IsObject_flag v)) SBool vs
  | OpAccept i => observe i (fun v => written (Accept_value writer_event v)) SText vs
  end.

(** The same program on abstract values. *)
Definition value_of_type (t : Type_) : value :=
  match t with
  | kNullType => VNull | kFalseType => VBool false | kTrueType => VBool true | kObjectType => VObject []
  | kArrayType => VArray [] | kStringType => VString "" | kNumberType => VInt 0
  end.

Definition on_array {A} (v : value) (f : list value -> result A) : result A :=
  match v with VArray l => f l | _ => Terminated end.
Definition on_object {A} (v : value) (f : list (string * value) -> result A) : result A :=
  match v with VObject ms => f ms | _ => Terminated end.

(** The last member takes the place of the one that is removed. *)
Definition remove_member (name : string) (ms : list (string * value)) : bool * list (string * value) :=
  match list_find (fun m => m.1 = c_str name) ms, last ms with
  | Some (i, _), Some l => (true, take (length ms - 1) (<[i := l]> ms))
  | _, _ => (false, ms)
  end.

Definition constructed (c : Constructor) : value :=
  match c with
  | CType t => value_of_type t
  | CBool b => VBool b
  | CInt z | CUnsigned z | CInt64 z | CUint64 z => VInt z
  | CDouble d => VDouble (double_text d)
  | CString s n | CStringCopy s n => VString (substring 0 n s)
  end.

Definition value_op (o : DomOp) (vs : list value) : result (Seen * list value) :=
  match o with
  | New c => declare (constructed c) vs
  | OpSet i c => update i (fun _ => Ret (constructed c)) vs
  | OpAddMember i name j =>
    update_moving i j (fun x v => on_object v (fun _ => Ret (AddMember name x v, VNull))) vs
  | OpPushBack i j => update_moving i j (fun x v => on_array v (fun l => Ret (VArray (l ++ [x]), VNull))) vs
  | OpReserve i _ => update i (fun v => on_array v (fun _ => Ret v)) vs
  | OpRemoveMember i name =>
    v ← variable i vs;
    on_object v (fun ms => let r := remove_member name ms in Ret (SBool r.1, assign i (VObject r.2) vs))
  | OpPopBack i =>
    update i (fun v => on_array v (fun l =>
      match l with [] => Terminated | _ => Ret (VArray (take (length l - 1) l)) end)) vs
  | OpClear i => update i (fun v => on_array v (fun _ => Ret (VArray []))) vs
  | OpMove i j => update_moving i j (fun x _ => if decide (i = j) then Terminated else Ret (x, VNull)) vs
  | OpHasMember i name => observe i (fun v => on_object v (fun _ => Ret (HasMember v (c_str name)))) SBool vs
  | OpSize i => observe i (fun v => on_array v (fun l => Ret (Z.of_nat (length l)))) SSize vs
  | OpIsObject i => observe i (fun v => Ret (IsObject v)) SBool vs
  | OpAccept i => observe i (fun v => written (Accept v)) SText vs
  end.

Fixpoint run_program {V} (op : DomOp -> list V -> result (Seen * list V)) (os : list DomOp) (vs : list V)
  : result (list Seen) :=
  match os with
  | [] => Ret []
  | o :: os => r ← op o vs; cons r.1 <$> run_program op os r.2
  end.

(** The arguments are of the constructors' types, and [Value(kNumberType)] is not
    used. *)
Definition constructor_ok (c : Constructor) : Prop :=
  match c with
  | CType t => t <> kNumberType
  | CInt z => fits_int z = true
  | CUnsigned z => fits_unsigned z = true
  | CInt64 z => fits_int64 z = true
  | CUint64 z => fits_uint64 z = true
  | CDouble d => valid_binary 53 1024 d = true
  | _ => True
  end.
Definition dom_op_ok (o : DomOp) : Prop :=
  match o with
  | New c | OpSet _ c => constructor_ok c
  | OpReserve _ c => (0 <= c < 2 ^ 32)%Z
  | _ => True
  end.

(** *** Related results *)
Definition same_result {A B} (R : A -> B -> Prop) (r : result A) (q : result B) : Prop :=
  match r, q with
  | Ret a, Ret b => R a b
  | Throw e, Throw e' => e = e'
  | Terminated, Terminated => True
  | _, _ => False
  end.

Lemma same_bind {A B C D} (R : A -> B -> Prop) (Q : C -> D -> Prop) r q (f : A -> result C) (g : B -> result D) :
  same_result R r q -> (forall a b, R a b -> same_result Q (f a) (g b)) -> same_result Q (r ≫= f) (q ≫= g).
Proof. intros H Hf. destruct r, q; try done. by apply Hf. Qed.

Lemma same_eq {A} (r q : result A) : same_result eq r q -> r = q.
Proof. destruct r, q; cbn; try done; by intros ->. Qed.

(** A variable and its value; nothing has more than [k] elements. *)
Definition value_size (w : value) : nat :=
  match w with VArray l => length l | VObject ms => length ms | _ => 0 end.
Definition var_ok (k : nat) (v : GenericValue) (w : value) : Prop := represents v w /\ value_size w <= k.
Abbreviation vars_ok k := (Forall2 (var_ok k)).

Lemma vars_ok_weaken k vs ws : vars_ok k vs ws -> vars_ok (S k) vs ws.
Proof. intros H. eapply Forall2_impl; [exact H|]. intros v w [? ?]. split; [done|lia]. Qed.

Definition step_ok (k : nat) : Seen * list GenericValue -> Seen * list value -> Prop :=
  fun a b => a.1 = b.1 /\ vars_ok k a.2 b.2.

Lemma declare_ok k v w vs ws :
  vars_ok k vs ws -> represents v w -> value_size w = 0 -> same_result (step_ok (S k)) (declare v vs) (declare w ws).
Proof.
  intros Hvs Hv Hw. split; [done|]. apply Forall2_app; [by apply vars_ok_weaken|]. constructor; [|constructor].
  split; [done|lia].
Qed.

Lemma variable_ok k i vs ws : vars_ok k vs ws -> same_result (var_ok k) (variable i vs) (variable i ws).
Proof.
  intros H. unfold variable. destruct (vs !! i) as [v|] eqn:Hv.
  - by destruct (Forall2_lookup_l _ _ _ _ _ H Hv) as (w & -> & Hw).
  - rewrite (proj2 (lookup_ge_None ws i)); [done|]. rewrite <- (Forall2_length _ _ _ H). by apply lookup_ge_None.
Qed.

Lemma assign_ok k i v w vs ws : vars_ok k vs ws -> var_ok k v w -> vars_ok k (assign i v vs) (assign i w ws).
Proof. intros H Hv. by apply Forall2_insert. Qed.

Lemma update_ok k i f g vs ws :
  vars_ok k vs ws -> (forall v w, var_ok k v w -> same_result (var_ok (S k)) (f v) (g w)) ->
  same_result (step_ok (S k)) (update i f vs) (update i g ws).
Proof.
  intros H Hf. unfold update. eapply same_bind; [by apply variable_ok|]. intros v w Hv.
  eapply same_bind; [by apply Hf|]. intros v' w' Hv'. split; [done|]. apply assign_ok; [by apply vars_ok_weaken|done].
Qed.

Lemma update_moving_ok k i j f g vs ws :
  vars_ok k vs ws ->
  (forall v w x y, var_ok k v w -> var_ok k x y ->
     same_result (fun a b => var_ok (S k) a.1 b.1 /\ represents a.2 b.2 /\ b.2 = VNull) (f x v) (g y w)) ->
  same_result (step_ok (S k)) (update_moving i j f vs) (update_moving i j g ws).
Proof.
  intros H Hf. unfold update_moving. eapply same_bind; [by apply variable_ok|]. intros v w Hv.
  eapply same_bind; [by apply variable_ok|]. intros x y Hx.
  eapply same_bind; [by apply Hf|]. intros a b (H1 & H2 & E). split; [done|].
  apply assign_ok; [apply assign_ok; [by apply vars_ok_weaken|done]|]. split; [done|]. rewrite E. cbn. lia.
Qed.

Lemma observe_ok {A} k i (f : GenericValue -> result A) g (s : A -> Seen) vs ws :
  vars_ok k vs ws -> (forall v w, var_ok k v w -> f v = g w) ->
  same_result (step_ok (S k)) (observe i f s vs) (observe i g s ws).
Proof.
  intros H Hf. unfold observe. eapply same_bind; [by apply variable_ok|]. intros v w Hv. rewrite (Hf v w Hv).
  destruct (g w); cbn; try done. split; [done|]. by apply vars_ok_weaken.
Qed.

(** *** The operations *)
Lemma represents_flags v w :
  represents v w ->
  IsArray v = match w with VArray _ => true | _ => false end /\ IsObject_flag v = IsObject w.
Proof.
  intros H. inversion H as [|b| z| |f s [-> | ->]| |]; subst; try done; [by destruct b|].
  unfold IsArray, IsObject_flag, number. cbn [flags_]. unfold number_flags.
  by destruct (fits_int z), (fits_unsigned z), (fits_int64 z), (fits_uint64 z).
Qed.

Lemma as_array_array es c : as_array (mkValue kArrayFlag (DArray es c)) = Ret (es, c).
Proof. done. Qed.
Lemma as_object_object ms c : as_object (mkValue kObjectFlag (DObject ms c)) = Ret (ms, c).
Proof. done. Qed.

(** A variable is an array, or both sides fail when it is used as one. *)
Inductive array_view (k : nat) : GenericValue -> value -> Prop :=
  | is_array es c l :
      Forall2 represents es l -> capacity_ok (length es) c -> length es = length l -> length l <= k ->
      array_view k (mkValue kArrayFlag (DArray es c)) (VArray l)
  | not_array v w :
      as_array v = Terminated -> (forall A (f : list value -> result A), on_array w f = Terminated) -> array_view k v w.

Inductive object_view (k : nat) : GenericValue -> value -> Prop :=
  | is_obj ms c l :
      Forall2 member_represents ms l -> capacity_ok (length ms) c -> length ms = length l -> length l <= k ->
      object_view k (mkValue kObjectFlag (DObject ms c)) (VObject l)
  | not_obj v w :
      as_object v = Terminated -> (forall A (f : list (string * value) -> result A), on_object w f = Terminated) ->
      object_view k v w.

Lemma array_cases k v w : var_ok k v w -> array_view k v w.
Proof.
  intros [H Hk]. pose proof (represents_flags v w H) as [Hf _].
  inversion H; subst; try (constructor 2; [unfold as_array; by rewrite Hf|done]).
  constructor; [done..|by eapply Forall2_length|done].
Qed.

Lemma object_cases k v w : var_ok k v w -> object_view k v w.
Proof.
  intros [H Hk]. pose proof (represents_flags v w H) as [_ Hf].
  inversion H; subst; try (constructor 2; [unfold as_object; by rewrite Hf|done]).
  constructor; [done..|by eapply Forall2_length|done].
Qed.

(** Growing by doubling does not overflow. *)
Definition grown (size : nat) (c : Z) : Z :=
  if decide (c <= Z.of_nat size)%Z then if decide (c = 0)%Z then 16 else size_type (c * 2) else c.
Lemma grown_ok size c :
  capacity_ok size c -> (Z.of_nat size < 2 ^ 31)%Z -> (c <= grown size c)%Z /\ capacity_ok (S size) (grown size c).
Proof.
  unfold capacity_ok, grown, size_type. intros Hc Hs. repeat case_decide; [lia| |lia].
  rewrite Z.mod_small by lia. lia.
Qed.

Lemma Reserve_array n es c :
  Reserve n (mkValue kArrayFlag (DArray es c)) = Ret (mkValue kArrayFlag (DArray es (Z.max c n))).
Proof.
  unfold Reserve. rewrite as_array_array. cbn. case_decide; do 3 f_equal; lia.
Qed.

Definition moved (k : nat) (a : GenericValue * GenericValue) (b : value * value) : Prop :=
  var_ok (S k) a.1 b.1 /\ represents a.2 b.2 /\ b.2 = VNull.

Lemma PushBack_ok k v w x y :
  var_ok k v w -> var_ok k x y -> (Z.of_nat k < 2 ^ 31)%Z ->
  same_result (moved k) (PushBack x v) (on_array w (fun l => Ret (VArray (l ++ [y]), VNull))).
Proof.
  intros Hv [Hx _] Hk. destruct (array_cases k v w Hv) as [es c l Hes Hc Hl Hlk|v w Hv' Hw].
  2: { unfold PushBack. by rewrite Hv', Hw. }
  unfold PushBack. rewrite as_array_array. cbn [mbind result_bind fst snd].
  destruct (grown_ok (length es) c Hc) as [Hg1 Hg2]; [lia|].
  assert (E : (if decide (c <= Z.of_nat (length es))%Z
               then Reserve (if decide (c = 0%Z) then kDefaultArrayCapacity else size_type (c * 2))
                      (mkValue kArrayFlag (DArray es c))
               else Ret (mkValue kArrayFlag (DArray es c))) = Ret (mkValue kArrayFlag (DArray es (grown (length es)
                 c)))).
  { unfold grown in *. case_decide; [|done]. rewrite Reserve_array. unfold kDefaultArrayCapacity. do 3 f_equal. lia. }
  rewrite E. cbn [mbind result_bind]. rewrite as_array_array. cbn [mbind result_bind fst snd].
  unfold capacity_ok in Hg2. rewrite decide_True by lia. split; [|split; [constructor|done]]. split.
  - constructor; [by apply Forall2_app; [|constructor]|]. rewrite length_app. cbn. unfold capacity_ok. lia.
  - cbn. rewrite length_app. cbn. lia.
Qed.

Lemma of_literal_ok name : of_literal name = mkValue kConstStringFlag (DString (c_str name)).
Proof.
  unfold of_literal, of_string. do 2 f_equal. induction name as [|a s IH]; [done|].
  cbn. destruct (Ascii.eqb a "000") eqn:Ha; [done|]. cbn. by rewrite IH.
Qed.

Lemma AddMember_name_ok k name v w x y :
  var_ok k v w -> var_ok k x y -> (Z.of_nat k < 2 ^ 31)%Z ->
  same_result (moved k) (AddMember_name name x v) (on_object w (fun _ => Ret (AddMember name y w, VNull))).
Proof.
  intros Hv [Hx _] Hk. unfold AddMember_name, AddMember_value.
  destruct (object_cases k v w Hv) as [ms c l Hms Hc Hl Hlk|v w Hv' Hw]; [|by rewrite Hv', Hw].
  rewrite as_object_object, of_literal_ok. cbn [mbind result_bind fst snd asserting IsString has].
  destruct (grown_ok (length ms) c Hc) as [Hg1 Hg2]; [lia|]. fold (grown (length ms) c).
  change kDefaultObjectCapacity with 16%Z. fold (grown (length ms) c). unfold capacity_ok in Hg2.
  cbn. rewrite decide_True by lia. split; [|split; [constructor|done]]. cbn. split.
  - constructor; [|rewrite length_app; cbn; unfold capacity_ok; lia].
    apply Forall2_app; [done|]. constructor; [|constructor]. cbn. split; [|done]. constructor. by left.
  - cbn. rewrite length_app. cbn. lia.
Qed.

(** [FindMember] finds the first member of the name. *)
Lemma find_index_ok name ms l :
  Forall2 member_represents ms l -> find_index name ms = Ret (fst <$> list_find (fun m => m.1 = c_str name) l).
Proof.
  induction 1 as [|[n x] [t y] ms l [Hn _] _ IH]; [done|].
  apply represents_string in Hn as [E _]. cbn in E. cbn [find_index fst]. rewrite E, IH.
  cbn [list_find fst]. case_decide as Ht.
  - subst. by rewrite Nat.eqb_refl, String.eqb_refl.
  - rewrite (proj2 (String.eqb_neq _ _)) by congruence. rewrite andb_false_r.
    cbn. by destruct (list_find _ l) as [[]|].
Qed.

Lemma list_find_member name l :
  is_Some (list_find (fun m : string * value => m.1 = name) l) <-> is_Some (find_member name l).
Proof.
  induction l as [|[n x] l IH]; cbn; [by split; intros [? [=]]|].
  case_decide as H; cbn in H.
  - subst. rewrite String.eqb_refl. by split.
  - rewrite (proj2 (String.eqb_neq _ _)) by done. rewrite <- IH. by rewrite fmap_is_Some.
Qed.

Lemma HasMember_value_ok k name v w :
  var_ok k v w -> HasMember_value name v = on_object w (fun _ => Ret (HasMember w (c_str name))).
Proof.
  intros Hv. unfold HasMember_value, FindMember.
  destruct (object_cases k v w Hv) as [ms c l Hms Hc Hl Hlk|v w Hv' Hw]; [|by rewrite Hv', Hw].
  rewrite as_object_object. cbn [mbind result_bind fst on_object HasMember]. rewrite (find_index_ok name ms l Hms). cbn.
  f_equal. apply bool_decide_ext. rewrite fmap_is_Some. apply list_find_member.
Qed.

Definition removed (k : nat) (a : bool * GenericValue) (b : bool * value) : Prop := a.1 = b.1 /\ var_ok (S k) a.2 b.2.

Lemma take_insert_represents ms l i m p n :
  Forall2 member_represents ms l -> member_represents m p ->
  Forall2 member_represents (take n (<[i := m]> ms)) (take n (<[i := p]> l)).
Proof. intros H Hm. by apply Forall2_take, Forall2_insert. Qed.

Lemma RemoveMember_ok k name v w :
  var_ok k v w ->
  same_result (removed k) (RemoveMember name v)
    (on_object w (fun ms => let r := remove_member name ms in Ret (r.1, VObject r.2))).
Proof.
  intros Hv. unfold RemoveMember.
  destruct (object_cases k v w Hv) as [ms c l Hms Hc Hl Hlk|v w Hv' Hw]; [|by rewrite Hv', Hw].
  rewrite as_object_object. cbn [mbind result_bind fst snd on_object].
  rewrite (find_index_ok name ms l Hms). cbn [mbind result_bind]. unfold remove_member.
  destruct (list_find _ l) as [[i p]|] eqn:Hfind; cbn [fmap option_fmap option_map fst].
  2: { split; [done|]. destruct Hv. split; [done|cbn; lia]. }
  apply list_find_Some in Hfind as (Hi & _ & _). pose proof (lookup_lt_Some _ _ _ Hi) as Hlt.
  rewrite !last_lookup, <- Hl. replace (pred (length ms)) with (length ms - 1) by lia.
  destruct (lookup_lt_is_Some_2 l (length ms - 1)) as [q Hq]; [lia|]. rewrite Hq.
  destruct (Forall2_lookup_r _ _ _ _ _ Hms Hq) as (b & Hb & Hbq). rewrite Hb. cbn [fst snd]. split; [done|].
  assert (E : take (length ms - 1) (if decide (1 < length ms /\ i <> length ms - 1) then <[i := b]> ms else ms) =
              take (length ms - 1) (<[i := b]> ms)).
  { case_decide as Hcase; [done|]. rewrite take_insert_ge; [done|]. lia. }
  rewrite E. split.
  - constructor; [by apply take_insert_represents|]. unfold capacity_ok in *. rewrite length_take, length_insert. lia.
  - cbn. rewrite length_take, length_insert. lia.
Qed.

Lemma PopBack_ok k v w :
  var_ok k v w ->
  same_result (var_ok (S k)) (PopBack v)
    (on_array w (fun l => match l with [] => Terminated | _ => Ret (VArray (take (length l - 1) l)) end)).
Proof.
  intros Hv. unfold PopBack, Empty, Size.
  destruct (array_cases k v w Hv) as [es c l Hes Hc Hl Hlk|v w Hv' Hw]; [|by rewrite Hv', Hw].
  rewrite as_array_array. cbn -[take]. rewrite Hl. destruct l as [|y l]; [done|].
  rewrite bool_decide_eq_false_2 by (cbn; lia). cbn [negb asserting]. split.
  - constructor; [by apply Forall2_take|]. unfold capacity_ok in *. rewrite length_take. lia.
  - cbn [value_size]. rewrite length_take. lia.
Qed.

Lemma Clear_ok k v w :
  var_ok k v w -> same_result (var_ok (S k)) (Clear v) (on_array w (fun _ => Ret (VArray []))).
Proof.
  intros Hv. unfold Clear. destruct (array_cases k v w Hv) as [es c l Hes Hc Hl Hlk|v w Hv' Hw]; [|by rewrite Hv', Hw].
  cbn. split; [|cbn; lia]. constructor; [constructor|]. unfold capacity_ok in *. cbn. lia.
Qed.

Lemma Reserve_ok k n v w :
  var_ok k v w -> (0 <= n < 2 ^ 32)%Z -> same_result (var_ok (S k)) (Reserve n v) (on_array w (fun _ => Ret w)).
Proof.
  intros Hv Hn. destruct (array_cases k v w Hv) as [es c l Hes Hc Hl Hlk|v w Hv' Hw].
  2: { unfold Reserve. by rewrite Hv', Hw. }
  rewrite Reserve_array. split; [|cbn; lia]. constructor; [done|]. unfold capacity_ok in *. lia.
Qed.

Lemma Size_ok k v w : var_ok k v w -> Size v = on_array w (fun l => Ret (Z.of_nat (length l))).
Proof.
  intros Hv. unfold Size. destruct (array_cases k v w Hv) as [es c l Hes Hc Hl Hlk|v w Hv' Hw]; [|by rewrite Hv', Hw].
  rewrite as_array_array. unfold fmap, result_fmap. cbn [fst on_array]. by rewrite Hl.
Qed.

Lemma represents_number z : (fits_int64 z || fits_uint64 z) = true -> represents (number z) (VInt z).
Proof. by constructor. Qed.

Lemma fits_widen z : fits_int z = true \/ fits_unsigned z = true -> (fits_int64 z || fits_uint64 z) = true.
Proof.
  intros H. apply orb_true_intro. left. apply bool_decide_eq_true.
  destruct H as [H%bool_decide_eq_true|H%bool_decide_eq_true]; unfold int_min, int_max in *; lia.
Qed.

Lemma of_type_ok t : t <> kNumberType -> represents (of_type t) (value_of_type t) /\ value_size (value_of_type t) = 0.
Proof.
  intros Ht. destruct t; try done; split; try done;
    solve [apply (rep_bool false)|apply (rep_bool true)|constructor; [constructor|done]|constructor;
      by left|constructor].
Qed.

Lemma construct_ok c : constructor_ok c -> represents (construct c) (constructed c) /\ value_size (constructed c) = 0.
Proof.
  destruct c; cbn [constructor_ok construct constructed]; intros Hc; [by apply of_type_ok|split; [|done]..].
  - constructor.
  - rewrite of_int_number by done. apply represents_number, fits_widen. by left.
  - rewrite of_unsigned_number by done. apply represents_number, fits_widen. by right.
  - rewrite of_int64_number by done. apply represents_number. by rewrite Hc.
  - rewrite of_uint64_number by done. apply represents_number. by rewrite Hc, orb_true_r.
  - by constructor.
  - constructor. by left.
  - constructor. by right.
Qed.

Lemma step_refines k o vs ws :
  vars_ok k vs ws -> dom_op_ok o -> (Z.of_nat k < 2 ^ 31)%Z -> same_result (step_ok (S k)) (dom_op o vs) (value_op o
    ws).
Proof.
  intros H Ho Hk. destruct o; cbn [dom_op value_op dom_op_ok] in *.
  - by apply declare_ok; [|apply construct_ok..].
  - apply (update_ok k); [done|]. intros v w _. destruct (construct_ok c Ho) as [Hc Hs]. split; [done|lia].
  - apply (update_moving_ok k); [done|]. intros v w x y Hv Hx. by apply AddMember_name_ok.
  - apply (update_moving_ok k); [done|]. intros v w x y Hv Hx. by apply PushBack_ok.
  - apply (update_ok k); [done|]. intros v w Hv. by apply Reserve_ok.
  - eapply same_bind; [by apply variable_ok|]. intros v w Hv. pose proof (RemoveMember_ok k name v w Hv) as Hr.
    destruct w; cbn in *; try by destruct (RemoveMember name v).
    destruct (RemoveMember name v) as [[b v']| |]; try done. destruct Hr as [Hb Hv']. cbn in Hb, Hv'.
    split; [cbn; by rewrite Hb|]. apply assign_ok; [by apply vars_ok_weaken|done].
  - apply (update_ok k); [done|]. apply PopBack_ok.
  - apply (update_ok k); [done|]. apply Clear_ok.
  - apply (update_moving_ok k); [done|]. intros v w x y Hv [Hx Hs]. unfold move_value. case_decide as E.
    + by rewrite bool_decide_eq_true_2 by done.
    + rewrite bool_decide_eq_false_2 by done. cbn. split; [|split; [constructor|done]]. split; [done|lia].
  - apply (observe_ok k); [done|]. intros v w. apply HasMember_value_ok.
  - apply (observe_ok k); [done|]. apply Size_ok.
  - apply (observe_ok k); [done|]. intros v w [Hv _]. by rewrite (proj2 (represents_flags v w Hv)).
  - apply (observe_ok k); [done|]. intros v w [Hv _]. unfold written. by rewrite (Accept_value_ok w v _ Hv).
Qed.

Lemma program_refines os k vs ws :
  vars_ok k vs ws -> Forall dom_op_ok os -> (Z.of_nat (k + length os) < 2 ^ 31)%Z ->
  run_program dom_op os vs = run_program value_op os ws.
Proof.
  revert k vs ws. induction os as [|o os IH]; intros k vs ws H Hos Hk; [done|].
  inversion Hos as [|? ? Ho Hos']. subst. cbn [length] in Hk. cbn [run_program].
  pose proof (step_refines k o vs ws H Ho ltac:(lia)) as Hs.
  destruct (dom_op o vs) as [[x vs']| |], (value_op o ws) as [[y ws']| |]; try done; cbn in Hs |- *; [|by rewrite Hs].
  destruct Hs as [Hxy Hs]. cbn in Hxy, Hs. subst y. by rewrite (IH (S k) vs' ws') by (done || lia).
Qed.

(** Removing a member keeps the others, in another order. *)
Lemma remove_member_perm name ms :
  match list_find (fun m => m.1 = c_str name) ms with
  | Some (i, m) => (remove_member name ms).1 = true /\ m :: (remove_member name ms).2 ≡ₚ ms
  | None => remove_member name ms = (false, ms)
  end.
Proof.
  unfold remove_member. destruct (list_find _ ms) as [[i m]|] eqn:Hfind; [|done].
  apply list_find_Some in Hfind as (Hi & _ & _).
  destruct (exists_last (l := ms)) as (ms' & q & ->); [by destruct ms|].
  rewrite last_snoc, length_app. cbn [length fst snd]. split; [done|].
  replace (length ms' + 1 - 1) with (length ms') by lia.
  destruct (decide (i < length ms')) as [Hlt|Hge].
  - rewrite insert_app_l by done. rewrite take_app_length' by (by rewrite length_insert).
    rewrite lookup_app_l in Hi by done. rewrite <- (take_drop_middle ms' i m Hi) at 2.
    rewrite insert_take_drop by done. solve_Permutation.
  - rewrite lookup_app_r in Hi by lia. apply list_lookup_singleton_Some in Hi as [E <-].
    rewrite insert_app_r_alt by lia. rewrite take_app_length. solve_Permutation.
Qed.

(** ** Cloning through a document *)

Lemma substring_full t : substring 0 (String.length t) t = t.
Proof. induction t as [|c t IH]; [done|]. cbn. by rewrite IH. Qed.

Lemma pairs_members (ms : list (GenericValue * GenericValue)) : pairs (flat_map (fun m => [m.1; m.2]) ms) = ms.
Proof. induction ms as [|[n x] ms IH]; [done|]. cbn. by rewrite IH. Qed.

Lemma members_length (ms : list (GenericValue * GenericValue)) : length (flat_map (fun m => [m.1;
  m.2]) ms) = 2 * length ms.
Proof. induction ms as [|m ms IH]; [done|]. cbn [flat_map app length]. rewrite IH. lia. Qed.

Lemma pop_dom_rev vs st : pop_dom (length vs) (rev vs ++ st) = (Ret vs, st).
Proof.
  unfold pop_dom. rewrite decide_True by (rewrite length_app, length_rev; lia).
  by rewrite take_app_length', drop_app_length', rev_involutive by (by rewrite length_rev).
Qed.

(** The value that the events leave on top of the stack. *)
Definition clones (v : GenericValue) (w : value) : Prop := forall st,
  exists v', Accept_value document_event v st = (Ret tt, v' :: st) /\ represents v' w.

Lemma event_of_document z st :
  (fits_int64 z || fits_uint64 z) = true -> document_event (event_of z) st = (Ret tt, number z :: st).
Proof.
  intros Hz. unfold event_of.
  destruct (fits_int z) eqn:H1; [cbn; by rewrite of_int_number|].
  destruct (fits_unsigned z) eqn:H2; [cbn; by rewrite of_unsigned_number|].
  destruct (fits_int64 z) eqn:H3; [cbn; by rewrite of_int64_number|]. cbn. by rewrite of_uint64_number.
Qed.

Lemma clones_elements es l st :
  Forall (fun w => forall v, represents v w -> clones v w) l -> Forall2 represents es l ->
  exists vs, (fix go l := match l with
              | [] => mret tt
              | x :: l' => _ ← Accept_value document_event x; go l'
              end) es st = (Ret tt, rev vs ++ st) /\ Forall2 represents vs l.
Proof.
  intros IH Hes. revert st. induction Hes as [|x y es l Hxy _ IHes]; intros st; [by exists []|].
  inversion IH as [|? ? Hy Hl]. subst. destruct (Hy x Hxy st) as (v & Hv & Hr).
  destruct (IHes Hl (v :: st)) as (vs & Hvs & Hrs). exists (v :: vs). split; [|by constructor].
  erewrite bind_step by exact Hv. rewrite Hvs. cbn [rev]. by rewrite <- app_assoc.
Qed.

Lemma clones_members ms l st :
  Forall (fun m : string * value => forall v, represents v m.2 -> clones v m.2) l ->
  Forall2 member_represents ms l ->
  exists vs, (fix go l := match l with
              | [] => mret tt
              | (n, x) :: l' =>
                _ ← event_string document_event n; _ ← Accept_value document_event x; go l'
              end) ms st = (Ret tt, rev (flat_map (fun m => [m.1; m.2]) vs) ++ st) /\ Forall2 member_represents vs l.
Proof.
  intros IH Hms. revert st. induction Hms as [|[n x] [t y] ms l [Hn Hxy] _ IHms]; intros st; [by exists []|].
  inversion IH as [|? ? Hy Hl]. subst. cbn in Hn, Hxy, Hy. apply represents_string in Hn as [E _].
  set (k := of_string t (String.length t)).
  destruct (Hy x Hxy (k :: st)) as (v & Hv & Hr). destruct (IHms Hl (v :: k :: st)) as (vs & Hvs & Hrs).
  exists ((k, v) :: vs). split.
  - erewrite bind_step by (unfold event_string; rewrite E; reflexivity). erewrite bind_step by exact Hv. rewrite Hvs.
    cbn [flat_map fst snd app rev]. by rewrite <- !app_assoc.
  - constructor; [|done]. split; [|done]. unfold k, of_string. rewrite substring_full. constructor. by left.
Qed.

(** A value that is accepted by a document leaves a copy of itself on the stack. *)
Lemma Accept_clones w : forall v, represents v w -> clones v w.
Proof.
  induction w as [|b|z|g|t|l IH|l IH] using value_nested_ind; intros v Hv st; inversion Hv; subst.
  - exists of_null. by split; [|constructor].
  - exists (of_bool b). split; [by destruct b|constructor].
  - exists (number z). rewrite Accept_number, event_of_document by done. by split; [|constructor].
  - match goal with d : double |- _ => exists (of_double d) end. by split; [|constructor].
  - exists (of_string t (String.length t)). split.
    + match goal with H : string_flags _ |- _ => by destruct H as [-> | ->] end.
    + unfold of_string. rewrite substring_full. constructor. by left.
  - match goal with H : Forall2 _ _ _ |- _ => rename H into Hes end.
    destruct (clones_elements es l (of_type kArrayType :: st) IH Hes) as (vs & Hvs & Hrs).
    assert (Hlen : length es = length vs) by (by rewrite (Forall2_length _ _ _ Hes), (Forall2_length _ _ _ Hrs)).
    exists (SetArrayRaw vs). split.
    + rewrite Accept_array. erewrite bind_step by reflexivity. erewrite bind_step by exact Hvs.
      cbn [document_event]. rewrite Hlen. by erewrite bind_step by apply pop_dom_rev.
    + apply SetArrayRaw_ok; [done|]. unfold capacity_ok in *. lia.
  - match goal with H : Forall2 _ _ _ |- _ => rename H into Hms end.
    destruct (clones_members ms l (of_type kObjectType :: st) IH Hms) as (vs & Hvs & Hrs).
    assert (Hlen : length ms = length vs) by (by rewrite (Forall2_length _ _ _ Hms), (Forall2_length _ _ _ Hrs)).
    exists (SetObjectRaw vs). split.
    + rewrite Accept_object. erewrite bind_step by reflexivity. erewrite bind_step by exact Hvs.
      cbn [document_event]. rewrite Hlen, <- members_length.
      erewrite bind_step by apply pop_dom_rev. by rewrite pairs_members.
    + apply SetObjectRaw_ok; [done|]. unfold capacity_ok in *. lia.
Qed.

(** ** The properties *)

(** [C33] A program that builds documents cannot tell rapidjson's values from the
    abstract ones: for every sequence of constructors, [AddMember]s, [PushBack]s,
    moves, removals and inspections, the same assertions fail and the same is
    seen, the text that [Accept] writes included.  Moved values are null, growing
    arrays and objects keep what they hold, [RemoveMember] puts the last member
    in the place of the removed one.  [dom_op_ok] asks for integers and doubles of
    their C++ types and sizes below 2^32, and leaves out one constructor, which
    programs can tell from the abstract one and batyr does not use:
    [Value(kNumberType)], whose flags say zero to some functions and null to
    others ([number_type_is_null]). *)
Theorem dom_refines os :
  Forall dom_op_ok os -> (Z.of_nat (length os) < 2 ^ 31)%Z ->
  run_program dom_op os [] = run_program value_op os [].
Proof. intros Hos Hl. by apply (program_refines os 0). Qed.

Module DomExample.
Definition program : list DomOp :=
  [New (CType kObjectType); New (CType kArrayType); New (CInt (-5)); OpPushBack 1 2; New (CUnsigned 4294967295);
    OpPushBack 1 3;
   OpAccept 1; OpAddMember 0 "list" 1; OpIsObject 1; New (CBool true); OpAddMember 0 "ok" 4; New (CStringCopy "x" 1);
   OpAddMember 0 "text" 5; OpAccept 0; OpRemoveMember 0 "list"; OpHasMember 0 "list"; OpAccept 0].
Lemma program_ok : Forall dom_op_ok program.
Proof. by repeat constructor. Qed.
Definition texts (r : result (list Seen)) : list string :=
  match r with Ret l => omap (fun x => match x with SText s => Some s | _ => None end) l | _ => [] end.
Lemma program_texts :
  texts (run_program value_op program []) =
    map (fun s => unchars ((fun c => if Ascii.eqb c "'" then "034"%char else c) <$> chars s))
      ["[-5,4294967295]"; "{'list':[-5,4294967295],'ok':true,'text':'x'}"; "{'text':'x','ok':true}"]%string.
Proof. vm_compute. reflexivity. Qed.
End DomExample.

Lemma dom_refines_witness :
  DomExample.texts (run_program dom_op DomExample.program []) =
    map (fun s => unchars ((fun c => if Ascii.eqb c "'" then "034"%char else c) <$> chars s))
      ["[-5,4294967295]"; "{'list':[-5,4294967295],'ok':true,'text':'x'}"; "{'text':'x','ok':true}"]%string.
Proof.
  rewrite (dom_refines DomExample.program DomExample.program_ok) by (cbn; lia). exact DomExample.program_texts.
Defined.

(** A document can clone values: fed with the events of a value it is left with
    one value on its stack, which the writer writes in the same way. *)
Theorem document_clones v w :
  represents v w ->
  exists v', Accept_value document_event v [] = (Ret tt, [v']) /\ represents v' w /\
    forall s, Accept_value writer_event v' s = Accept_value writer_event v s.
Proof.
  intros Hv. destruct (Accept_clones w v Hv []) as (v' & Hr & Hv'). exists v'. split; [done|]. split; [done|].
  intros s. by rewrite (Accept_value_ok w v s Hv), (Accept_value_ok w v' s Hv').
Qed.

Lemma document_clones_witness :
  exists v', Accept_value document_event (mkValue kArrayFlag (DArray [of_int 7; of_bool true] 16)) [] = (Ret tt,
    [v']) /\
    represents v' (VArray [VInt 7; VBool true]).
Proof.
  destruct (document_clones (mkValue kArrayFlag (DArray [of_int 7; of_bool true] 16)) (VArray [VInt 7; VBool true]))
    as (v' & Hr & Hv & _); [|by exists v'].
  constructor; [|unfold capacity_ok; cbn; lia].
  constructor; [rewrite of_int_number by done; by constructor|]. constructor; [apply (rep_bool true)|constructor].
Defined.
