(* ===== verification/Job.v ===== *)
(** * Jobs

    [src/server/job.h] and [src/server/job.cpp]: the job object, its status
    changes, its JSON form, and the reading of a request body. *)
From S2P Require Import Prelude StringUtils NullableValue Json Reader.

Inductive JobType := PULL | REMOVE_BY_ATTRIBUTES.
Inductive Status := QUEUED | IN_PROCESS | FINISHED | FAILED.

#[export] Instance JobType_eq_dec : EqDecision JobType.
Proof. solve_decision. Defined.
#[export] Instance Status_eq_dec : EqDecision Status.
Proof. solve_decision. Defined.

Abbreviation AttributeSet := (gmap string NullableValue).

Record Job := mkJob {
  type : JobType;
  message : string;
  layerName : string;
  filter : string;
  id : string;
  status : Status;
  timeAdded : Z;
  timeFinished : Z;
  attributeSets : list AttributeSet;
  numCreated : Z;
  numUpdated : Z;
  numDeleted : Z;
  numPulled : Z;
  numIgnored : Z
}.

(** [id.erase(std::remove(id.begin(), id.end(), '-'), id.end())]. *)
Definition erase_dashes (s : string) : string :=
  unchars (List.filter (fun c => negb (Ascii.eqb c "-")) (chars s)).

(** [Job::Job(type)]: [uuid] is the text of the random UUID that Poco makes,
    [now] the clock.  A default [time_point] is the epoch. *)
Definition Job_new (_type : JobType) (uuid : string) (now : Z) : Job :=
  mkJob _type "" "" "" (erase_dashes uuid) QUEUED now 0 [] 0 0 0 0 0.

Definition isDone (j : Job) : bool :=
  bool_decide (status j = FINISHED \/ status j = FAILED).

(** Setters of single members. *)
Definition with_message (m : string) (j : Job) : Job :=
  mkJob (type j) m (layerName j) (filter j) (id j) (status j) (timeAdded j) (timeFinished j)
    (attributeSets j) (numCreated j) (numUpdated j) (numDeleted j) (numPulled j) (numIgnored j).
Definition with_layerName (n : string) (j : Job) : Job :=
  mkJob (type j) (message j) n (filter j) (id j) (status j) (timeAdded j) (timeFinished j)
    (attributeSets j) (numCreated j) (numUpdated j) (numDeleted j) (numPulled j) (numIgnored j).
Definition with_filter (f : string) (j : Job) : Job :=
  mkJob (type j) (message j) (layerName j) f (id j) (status j) (timeAdded j) (timeFinished j)
    (attributeSets j) (numCreated j) (numUpdated j) (numDeleted j) (numPulled j) (numIgnored j).
Definition with_attributeSets (a : list AttributeSet) (j : Job) : Job :=
  mkJob (type j) (message j) (layerName j) (filter j) (id j) (status j) (timeAdded j) (timeFinished j)
    a (numCreated j) (numUpdated j) (numDeleted j) (numPulled j) (numIgnored j).
Definition with_status (s : Status) (j : Job) : Job :=
  mkJob (type j) (message j) (layerName j) (filter j) (id j) s (timeAdded j) (timeFinished j)
    (attributeSets j) (numCreated j) (numUpdated j) (numDeleted j) (numPulled j) (numIgnored j).
Definition with_timeFinished (t : Z) (j : Job) : Job :=
  mkJob (type j) (message j) (layerName j) (filter j) (id j) (status j) (timeAdded j) t
    (attributeSets j) (numCreated j) (numUpdated j) (numDeleted j) (numPulled j) (numIgnored j).

Definition setMessage (m : string) (j : Job) : Job := with_message m j.

Definition setStatus (_status : Status) (now : Z) (j : Job) : Job :=
  let j := with_status _status j in
  if isDone j then with_timeFinished now j else j.

Definition setStatistics (_numPulled _numCreated _numUpdated _numDeleted _numIgnored : Z) (j : Job)
  : Job :=
  mkJob (type j) (message j) (layerName j) (filter j) (id j) (status j) (timeAdded j) (timeFinished j)
    (attributeSets j) _numCreated _numUpdated _numDeleted _numPulled _numIgnored.

(** ** [toJsonValue] *)
Definition typeString (t : JobType) : string :=
  match t with
  | PULL => "pull"
  | REMOVE_BY_ATTRIBUTES => "remove-by-attributes"
  end.

Definition statusString (s : Status) : string :=
  match s with
  | QUEUED => "queued"
  | IN_PROCESS => "in_process"
  | FINISHED => "finished"
  | FAILED => "failed"
  end.

Definition attribute_value (v : NullableValue) : value :=
  if isNull v then VNull else toValue (nv_get v).

Definition attributeSet_value (s : AttributeSet) : value :=
  foldl (fun o '(n, v) => AddMember n (attribute_value v) o) (VObject []) (ordered s).

Definition toJsonValue (j : Job) : value :=
  let o := VObject [] in
  let o := AddMember "id" (VString (c_str (id j))) o in
  let o := AddMember "timeAdded" (toValue_time (timeAdded j)) o in
  let o := if isDone j then AddMember "timeFinished" (toValue_time (timeFinished j)) o else o in
  let o := AddMember "type" (toValue (typeString (type j))) o in
  let o := AddMember "status" (toValue (statusString (status j))) o in
  let o := AddMember "layerName" (toValue (layerName j)) o in
  let o := match type j with
           | PULL => AddMember "filter" (toValue (filter j)) o
           | REMOVE_BY_ATTRIBUTES =>
             AddMember "attributeSets" (VArray (attributeSet_value <$> attributeSets j)) o
           end in
  let o := AddMember "message" (toValue (message j)) o in
  if bool_decide (status j = FINISHED) || bool_decide (status j = FAILED) then
    let o := AddMember "numCreated" (VInt (numCreated j)) o in
    let o := AddMember "numUpdated" (VInt (numUpdated j)) o in
    let o := AddMember "numDeleted" (VInt (numDeleted j)) o in
    let o := AddMember "numPulled" (VInt (numPulled j)) o in
    AddMember "numIgnored" (VInt (numIgnored j)) o
  else o.

(** [operator<<(std::ostream &, const Job &)]. *)
Definition job_text (j : Job) : result string := stringify (toJsonValue j).

(** ** [fromString] *)
Definition invalid {A} (msg : string) : M Job A := throw (InvalidArgument msg).

(** [GetString()] is a [const char *], so the [std::string] made from it ends at
    the first NUL byte. *)
Definition GetString (s : string) : string := c_str s.

(** One member of an element of [attributeSets]: [attributeSet[name]] is created
    as a null value when it is new. *)
Definition read_attribute (attributeSet : AttributeSet) (it : string * value) : result AttributeSet :=
  let n := GetString it.1 in
  let attributeValue := default Nullable_new (attributeSet !! n) in
  match it.2 with
  | VNull => Ret (<[n := setIsNull true attributeValue]> attributeSet)
  | VString s => Ret (<[n := nv_set (GetString s) (setIsNull false attributeValue)]> attributeSet)
  | _ => Throw (InvalidArgument "Attibute values must be strings or null")
  end.

(** The [for] over the elements, [i] being the index of the next one. *)
Fixpoint read_attributeSets (i : Z) (l : list value) : M Job unit :=
  match l with
  | [] => mret tt
  | VObject members :: l' =>
    attributeSet ← lift (fold_result read_attribute members ∅);
    _ ← (if decide (attributeSet = ∅) then mret tt
         else modify (fun j => with_attributeSets (attributeSets j ++ [attributeSet]) j));
    read_attributeSets (i + 1) l'
  | _ :: _ =>
    invalid (cat ["Element number "; to_string i; " in key attributeSets must be an object"])
  end.

Definition read_layerName (doc : value) : M Job unit :=
  match member doc "layerName" with
  | VString s => modify (with_layerName (GetString s))
  | _ => invalid "Key layerName should be a string"
  end.

Definition read_filter (doc : value) : M Job unit :=
  if HasMember doc "filter" then
    match member doc "filter" with
    | VString s => f ← lift (trim (GetString s) ws); modify (with_filter f)
    | _ => invalid "Key filter should be a string"
    end
  else mret tt.

Definition read_all_attributeSets (doc : value) : M Job unit :=
  if HasMember doc "attributeSets" then
    match member doc "attributeSets" with
    | VArray l => read_attributeSets 0 l
    | _ => invalid "Key attributeSets should be an array"
    end
  else mret tt.

(** [fromString] after the parse, whose error is [None]. *)
Definition fromDocument (parsed : option value) : M Job unit :=
  match parsed with
  | None => invalid "Invalid JSON data"
  | Some doc =>
    if negb (IsObject doc) then invalid "JSON data should be an object"
    else if negb (HasMember doc "layerName") then invalid "Missing key layerName in JSON object"
    else
      _ ← read_layerName doc;
      _ ← read_filter doc;
      read_all_attributeSets doc
  end.

(** [Job::fromString(data)]; the parser reads [data.c_str()]. *)
Definition fromString (data : string) : M Job unit :=
  parsed ← lift (Document_Parse data);
  fromDocument parsed.

(** ** Lemmas *)
Section Members.
Lemma AddMember_object n v ms : AddMember n v (VObject ms) = VObject (ms ++ [(c_str n, v)]).
Proof. done. Qed.

Lemma find_member_app n ms ms' :
  find_member n (ms ++ ms') =
    match find_member n ms with Some v => Some v | None => find_member n ms' end.
Proof. induction ms as [|[m v] ms IH]; simpl; [done|]. by destruct (String.eqb m n). Qed.

Lemma attributeSet_value_members (s : AttributeSet) :
  attributeSet_value s =
    VObject ((fun m => (c_str m.1, attribute_value m.2)) <$> ordered s).
Proof.
  unfold attributeSet_value. generalize (ordered s) as l. intros l.
  assert (H : forall ms, foldl (fun o '(n, v) => AddMember n (attribute_value v) o) (VObject ms) l =
     VObject (ms ++ ((fun m => (c_str m.1, attribute_value m.2)) <$> l))).
  { induction l as [|[n v] l IH]; intros ms; simpl; [by rewrite app_nil_r|].
    rewrite IH. by rewrite <- app_assoc. }
  apply H.
Qed.

(** The members of a job's document, in order. *)
Definition job_members (j : Job) : list (string * value) :=
  [("id", VString (c_str (id j))); ("timeAdded", toValue_time (timeAdded j))] ++
  (if isDone j then [("timeFinished", toValue_time (timeFinished j))] else []) ++
  [("type", toValue (typeString (type j))); ("status", toValue (statusString (status j)));
   ("layerName", toValue (layerName j));
   match type j with
   | PULL => ("filter", toValue (filter j))
   | REMOVE_BY_ATTRIBUTES =>
     ("attributeSets", VArray (attributeSet_value <$> attributeSets j))
   end;
   ("message", toValue (message j))] ++
  (if isDone j then
     [("numCreated", VInt (numCreated j)); ("numUpdated", VInt (numUpdated j));
      ("numDeleted", VInt (numDeleted j)); ("numPulled", VInt (numPulled j));
      ("numIgnored", VInt (numIgnored j))]
   else []).

Lemma toJsonValue_members j : toJsonValue j = VObject (job_members j).
Proof.
  unfold toJsonValue, job_members, isDone.
  destruct (status j); destruct (type j); reflexivity.
Qed.

Lemma no_double_attributeSet (s : AttributeSet) : no_double (attributeSet_value s) = true.
Proof.
  rewrite attributeSet_value_members. simpl. apply forallb_forall.
  intros [n v] Hin. apply in_map_iff in Hin as ([n' v'] & [= <- <-] & _). simpl.
  unfold attribute_value. by case_match.
Qed.

Lemma no_double_job j : no_double (toJsonValue j) = true.
Proof.
  assert (Ha : forallb no_double (attributeSet_value <$> attributeSets j) = true).
  { apply forallb_forall. intros v Hv. apply in_map_iff in Hv as (s & <- & _).
    apply no_double_attributeSet. }
  rewrite toJsonValue_members. unfold job_members. cbn [no_double].
  rewrite !forallb_app. destruct (isDone j); destruct (type j); simpl; by rewrite ?Ha.
Qed.

Lemma job_text_print j : job_text j = Ret (print (toJsonValue j)).
Proof.
  apply stringify_text; [by rewrite toJsonValue_members|apply no_double_job].
Qed.
End Members.

Section Reading.
Definition is_invalid (e : exn) : Prop := exists m, e = InvalidArgument m.

(** Everything but the three members that a request sets. *)
Definition same_frame (j j' : Job) : Prop :=
  type j' = type j /\ id j' = id j /\ status j' = status j /\ message j' = message j /\
  timeAdded j' = timeAdded j /\ timeFinished j' = timeFinished j.

Lemma only_throws_read_attribute s it : only_throws is_invalid (read_attribute s it).
Proof. unfold read_attribute. case_match; simpl; try done; by eexists. Qed.

Lemma read_attributeSets_spec l i j :
  wp (read_attributeSets i l) (fun r j' =>
    match r with
    | Ret _ => same_frame j j' /\ layerName j' = layerName j /\ filter j' = filter j /\
               exists sets, attributeSets j' = attributeSets j ++ sets /\
                            Forall (fun s => s <> ∅) sets
    | Throw e => is_invalid e
    | Terminated => False
    end) j.
Proof.
  revert i j. induction l as [|v l IH]; intros i j; cbn [read_attributeSets].
  - wp_steps. unfold same_frame. repeat split. exists []. rewrite app_nil_r. by split.
  - destruct v as [| | | | | |members]; try (wp_steps; by eexists).
    wp_steps. pose proof (only_throws_fold is_invalid read_attribute members ∅
      (fun s it _ => only_throws_read_attribute s it)) as Ho.
    destruct (fold_result _ _ _) as [s|e|]; simpl in Ho; wp_steps; [|done|done].
    case_decide as Hs.
    + wp_steps. apply IH.
    + wp_steps. eapply wp_mono; [apply IH|]. intros [[]|e|] j'; try done.
      intros (Hf & Hl & Hfi & sets & Ha & HF). split; [exact Hf|]. split; [done|]. split; [done|].
      exists (s :: sets). split; [|by constructor]. rewrite Ha. simpl. by rewrite <- app_assoc.
Qed.

Lemma HasMember_Some ms n v : find_member n ms = Some v -> HasMember (VObject ms) n = true.
Proof. intros H. simpl. rewrite H. by apply bool_decide_eq_true. Qed.
Lemma HasMember_None ms n : find_member n ms = None -> HasMember (VObject ms) n = false.
Proof. intros H. simpl. rewrite H. apply bool_decide_eq_false. by intros [? ?]. Qed.
Lemma member_Some ms n v : find_member n ms = Some v -> member (VObject ms) n = v.
Proof. intros H. simpl. by rewrite H. Qed.

(** What a successful read has done, and that nothing but
    [std::invalid_argument] is thrown. *)
Definition read_post (parsed : option value) (j : Job) (r : result unit) (j' : Job) : Prop :=
  match r with
  | Ret _ =>
    exists ms s sets, parsed = Some (VObject ms) /\
      find_member "layerName" ms = Some (VString s) /\ layerName j' = c_str s /\
      match find_member "filter" ms with
      | None => filter j' = filter j
      | Some v => exists f, v = VString f /\ trim (c_str f) ws = Ret (filter j')
      end /\
      attributeSets j' = attributeSets j ++ sets /\ Forall (fun s => s <> ∅) sets /\
      same_frame j j'
  | Throw e => is_invalid e
  | Terminated => False
  end.

Lemma fromDocument_post parsed j : wp (fromDocument parsed) (read_post parsed j) j.
Proof.
  unfold fromDocument, invalid. destruct parsed as [doc|]; [|by eexists].
  destruct doc as [| | | | | |ms]; try (by eexists). cbn [IsObject negb].
  destruct (find_member "layerName" ms) as [v|] eqn:Hn;
    [rewrite (HasMember_Some _ _ v) by done|rewrite HasMember_None by done; by eexists].
  cbn [negb]. wp_steps. unfold read_layerName. rewrite (member_Some _ _ v) by done.
  destruct v as [| | | |s| |]; try (wp_steps; by eexists). wp_steps.
  unfold read_filter, read_all_attributeSets, invalid.
  destruct (find_member "filter" ms) as [v|] eqn:Hf;
    [rewrite (HasMember_Some _ _ v), (member_Some _ _ v) by done|rewrite HasMember_None by done].
  1: destruct v as [| | | |f| |]; try (wp_steps; by eexists);
     destruct (trim_total ws (GetString f)) as [t Ht]; rewrite Ht.
  all: wp_steps.
  all: destruct (find_member "attributeSets" ms) as [v|] eqn:Ha;
    [rewrite (HasMember_Some _ _ v), (member_Some _ _ v) by done;
     destruct v as [| | | | |l|]; try (wp_steps; by eexists);
     eapply wp_mono; [apply read_attributeSets_spec|];
     intros [[]|e|] j'; try done;
     intros (Hfr & Hl & Hfi & sets & Hs & HF); simpl in *;
     exists ms, s, sets; rewrite Hf, ?Hl, ?Hfi; naive_solver
    |rewrite HasMember_None by done; wp_steps; exists ms, s, []; simpl;
     rewrite Hf, app_nil_r; unfold same_frame; naive_solver].
Qed.

(** The parser always returns. *)
Lemma fromString_run data :
  exists parsed, Document_Parse data = Ret parsed /\
    forall j, fromString data j = fromDocument parsed j.
Proof.
  destruct (Document_Parse_total data) as (parsed & Hp & _). exists parsed. split; [done|].
  intros j. unfold fromString. by rewrite Hp.
Qed.

Lemma fromString_post data j :
  exists parsed, Document_Parse data = Ret parsed /\ wp (fromString data) (read_post parsed j) j.
Proof.
  destruct (fromString_run data) as (parsed & Hp & Hr). exists parsed. split; [done|].
  unfold wp. rewrite Hr. apply fromDocument_post.
Qed.
End Reading.

(** ** Writing a job and reading it back *)
Section RoundTrip.
(** A null value holds no text, and the texts survive [GetString]. *)
Definition attribute_ok (m : string * NullableValue) : Prop :=
  nul_free m.1 /\
  if is_null m.2 then nv_value m.2 = "" else nul_free (nv_value m.2).

Record request_ok (j : Job) : Prop := {
  rq_layer : nul_free (layerName j);
  rq_filter : nul_free (filter j) /\ trim (filter j) ws = Ret (filter j);
  rq_sets : Forall (fun s => s <> ∅ /\ Forall attribute_ok (ordered s)) (attributeSets j)
}.

Lemma read_attribute_back m nv :
  attribute_ok nv -> m !! nv.1 = None ->
  read_attribute m (c_str nv.1, attribute_value nv.2) = Ret (<[nv.1 := nv.2]> m).
Proof.
  destruct nv as [n [b v]]. intros [Hn Hv] Hm. simpl in *.
  unfold read_attribute, GetString, attribute_value, isNull. simpl.
  rewrite (c_str_id (c_str n)) by apply c_str_nul_free. rewrite (c_str_id n) by done.
  rewrite Hm. destruct b; simpl in *; [by subst|]. unfold nv_set, setIsNull, nv_get. simpl.
  by rewrite c_str_id.
Qed.

Lemma read_attributes_back (l : list (string * NullableValue)) (m : AttributeSet) :
  NoDup l.*1 -> Forall attribute_ok l -> (forall n, n ∈ l.*1 -> m !! n = None) ->
  exists m', fold_result read_attribute ((fun m => (c_str m.1, attribute_value m.2)) <$> l) m
               = Ret m' /\
    forall k v, m' !! k = Some v <-> m !! k = Some v \/ (k, v) ∈ l.
Proof.
  revert m. induction l as [|[n v] l IH]; intros m Hnd Hok Hfresh; simpl.
  - exists m. split; [done|]. set_solver.
  - apply NoDup_cons in Hnd as [Hn Hnd]. apply Forall_cons in Hok as [Hnv Hok].
    pose proof (read_attribute_back m (n, v) Hnv) as Hb. cbn [fst snd] in Hb.
    rewrite Hb by (apply Hfresh; left). simpl.
    destruct (IH (<[n := v]> m)) as (m' & Hm' & Hk); [done|done| |].
    { intros k Hk. rewrite lookup_insert_ne by (intros ->; done). apply Hfresh. by right. }
    exists m'. split; [done|]. intros k u. rewrite Hk, elem_of_cons.
    destruct (decide (n = k)) as [->|Hne].
    + rewrite lookup_insert_eq. rewrite (Hfresh k) by left.
      assert ((k, u) ∉ l) by (intros Hin; apply Hn, list_elem_of_fmap; by exists (k, u)).
      naive_solver.
    + rewrite lookup_insert_ne by done. naive_solver.
Qed.

Lemma read_attributeSet_back (s : AttributeSet) :
  Forall attribute_ok (ordered s) ->
  fold_result read_attribute ((fun m => (c_str m.1, attribute_value m.2)) <$> ordered s) ∅ = Ret s.
Proof.
  intros Hok. destruct (read_attributes_back (ordered s) ∅) as (m' & -> & Hk);
    [apply ordered_NoDup|done|intros; apply lookup_empty|].
  f_equal. apply map_eq. intros k. apply option_eq. intros v.
  rewrite Hk, elem_of_ordered, lookup_empty. naive_solver.
Qed.

Lemma read_attributeSets_back (l : list AttributeSet) i j :
  Forall (fun s => s <> ∅ /\ Forall attribute_ok (ordered s)) l ->
  read_attributeSets i (attributeSet_value <$> l) j =
    (Ret tt, with_attributeSets (attributeSets j ++ l) j).
Proof.
  revert i j. induction l as [|s l IH]; intros i j Hl; cbn [fmap list_fmap].
  - cbn [read_attributeSets]. rewrite app_nil_r. by destruct j.
  - apply Forall_cons in Hl as [[Hs Hok] Hl].
    rewrite attributeSet_value_members. cbn [read_attributeSets].
    erewrite bind_step by (unfold lift; by rewrite read_attributeSet_back).
    rewrite decide_False by done.
    erewrite bind_step by reflexivity. rewrite IH by done.
    destruct j. unfold with_attributeSets. simpl. by rewrite <- app_assoc.
Qed.

Lemma find_layerName j : find_member "layerName" (job_members j) = Some (toValue (layerName j)).
Proof. unfold job_members. destruct (isDone j); reflexivity. Qed.
Lemma find_filter j : find_member "filter" (job_members j) =
  match type j with PULL => Some (toValue (filter j)) | _ => None end.
Proof. unfold job_members. destruct (isDone j), (type j); reflexivity. Qed.
Lemma find_attributeSets j : find_member "attributeSets" (job_members j) =
  match type j with
  | PULL => None
  | _ => Some (VArray (attributeSet_value <$> attributeSets j))
  end.
Proof. unfold job_members. destruct (isDone j), (type j); reflexivity. Qed.

Lemma read_back j j0 :
  request_ok j -> attributeSets j0 = [] ->
  fromDocument (Some (toJsonValue j)) j0 =
    (Ret tt, match type j with
             | PULL => with_filter (filter j) (with_layerName (layerName j) j0)
             | REMOVE_BY_ATTRIBUTES =>
               with_attributeSets (attributeSets j) (with_layerName (layerName j) j0)
             end).
Proof.
  intros [Hl [Hf Ht] Hs] H0. unfold fromDocument. rewrite toJsonValue_members. cbn [IsObject negb].
  rewrite (HasMember_Some _ _ _ (find_layerName j)). cbn [negb].
  unfold read_layerName. rewrite (member_Some _ _ _ (find_layerName j)). unfold toValue at 1.
  erewrite bind_step by reflexivity. unfold GetString. rewrite (c_str_id _ Hl).
  unfold read_filter, read_all_attributeSets.
  pose proof (find_filter j) as Hff. pose proof (find_attributeSets j) as Hfa.
  destruct (type j).
  - rewrite (HasMember_Some _ _ _ Hff), (member_Some _ _ _ Hff), (HasMember_None _ _ Hfa).
    unfold toValue, GetString. rewrite (c_str_id _ Hf), Ht.
    reflexivity.
  - rewrite (HasMember_None _ _ Hff), (HasMember_Some _ _ _ Hfa), (member_Some _ _ _ Hfa).
    erewrite bind_step by reflexivity. rewrite read_attributeSets_back by done.
    simpl. by rewrite H0.
Qed.
(** The text of a job is within what the parser reads back. *)
Definition counters_ok (j : Job) : Prop :=
  (int_min <= numCreated j <= int_max /\ int_min <= numUpdated j <= int_max /\
   int_min <= numDeleted j <= int_max /\ int_min <= numPulled j <= int_max /\
   int_min <= numIgnored j <= int_max)%Z.

Lemma ints_fit_attributeSet (s : AttributeSet) : ints_fit (attributeSet_value s) = true.
Proof.
  rewrite attributeSet_value_members. simpl. apply forallb_forall.
  intros [n v] Hin. apply in_map_iff in Hin as ([n' v'] & [= <- <-] & _). simpl.
  unfold attribute_value. by case_match.
Qed.

Lemma ints_fit_int z : (int_min <= z <= int_max)%Z -> ints_fit (VInt z) = true.
Proof. intros H. apply bool_decide_eq_true. unfold int_min, int_max in H. lia. Qed.

Lemma job_readable j : counters_ok j -> readable (toJsonValue j).
Proof.
  intros (H1 & H2 & H3 & H4 & H5). split; [apply no_double_job|].
  assert (Hs : forallb ints_fit (attributeSet_value <$> attributeSets j) = true).
  { apply forallb_forall. intros v (s & <- & _)%in_map_iff. apply ints_fit_attributeSet. }
  rewrite toJsonValue_members. unfold job_members.
  cbn [ints_fit]. destruct (isDone j), (type j); cbn [app forallb snd];
    rewrite ?ints_fit_int by done; cbn [ints_fit toValue toValue_time]; by rewrite ?Hs.
Qed.
End RoundTrip.

(** ** Properties *)

(** Reading a request: it succeeds only on an object whose [layerName] is a
    string; then the layer name is that string, a present [filter] must be a
    string and is stored trimmed, the attribute sets of the document are
    appended without the empty ones, and id, type, status and times stay as the
    constructor left them.  Every failure is a [std::invalid_argument]. *)
Theorem fromString_spec (data : string) (j : Job) :
  exists parsed, Document_Parse data = Ret parsed /\
    let '(r, j') := fromString data j in read_post parsed j r j'.
Proof. apply fromString_post. Qed.

(** [C34] The document that a job is written as, posted as the body of a request,
    becomes a new job of the same kind and layer: of a pull with the same filter,
    of a removal with the same attribute sets.  A removal's filter is not part of
    its document and comes back empty.  The strings may hold any bytes but NUL, the
    filter is trimmed and the sets are not empty, as [fromString] leaves them
    ([request_ok]), and the counters are [int]s. *)
Theorem job_roundtrip (j : Job) (uuid : string) (now : Z) :
  request_ok j -> counters_ok j ->
  exists text j', job_text j = Ret text /\
    fromString text (Job_new (type j) uuid now) = (Ret tt, j') /\
    layerName j' = layerName j /\ type j' = type j /\ status j' = QUEUED /\
    match type j with
    | PULL => filter j' = filter j /\ attributeSets j' = []
    | REMOVE_BY_ATTRIBUTES => attributeSets j' = attributeSets j /\ filter j' = ""
    end.
Proof.
  intros Hok Hc. exists (print (toJsonValue j)). eexists. split; [apply job_text_print|].
  unfold fromString. rewrite Document_Parse_print by first [by apply job_readable | by rewrite toJsonValue_members].
  erewrite bind_step by reflexivity. rewrite read_back by done. split; [reflexivity|].
  destruct j as [[] ? ? ? ? ? ? ? ? ? ? ? ? ?]; repeat split.
Qed.

Definition job_example : Job :=
  with_attributeSets [{["name" := Nullable_of "x"]}]
    (with_layerName "parks" (Job_new REMOVE_BY_ATTRIBUTES "12-34" 5)).

Lemma job_roundtrip_witness :
  request_ok job_example /\ counters_ok job_example /\
  exists text j', job_text job_example = Ret text /\
    fromString text (Job_new (type job_example) "u" 9) = (Ret tt, j') /\
    layerName j' = "parks" /\ attributeSets j' = [{["name" := Nullable_of "x"]}].
Proof.
  assert (H : request_ok job_example).
  { split; [by apply nul_free_lit|split; [by apply nul_free_lit|reflexivity]|].
    constructor; [|constructor]. split; [intros H; discriminate H|].
    change (ordered _) with [("name", Nullable_of "x")].
    constructor; [|constructor]. split; by apply nul_free_lit. }
  assert (Hc : counters_ok job_example) by (unfold counters_ok, int_min, int_max; simpl; lia).
  split; [exact H|]. split; [exact Hc|].
  destruct (job_roundtrip job_example "u" 9 H Hc) as (text & j' & Ht & Hj & Hl & _ & _ & Ha & _).
  exists text, j'. split; [exact Ht|]. split; [exact Hj|]. split; [exact Hl|exact Ha].
Defined.

(** The JSON text of a job is always produced, and the document holds the
    finish time and the five counters exactly when the job is done, that is
    finished or failed; a pull job shows its filter and a removal job its
    attribute sets, never both. *)
Theorem job_document (j : Job) :
  (exists text, job_text j = Ret text) /\
  forall n, HasMember (toJsonValue j) n = true <->
    n ∈ ["id"; "timeAdded"; "type"; "status"; "layerName"; "message"] \/
    (n = "filter" /\ type j = PULL) \/
    (n = "attributeSets" /\ type j = REMOVE_BY_ATTRIBUTES) \/
    (isDone j = true /\
     n ∈ ["timeFinished"; "numCreated"; "numUpdated"; "numDeleted"; "numPulled"; "numIgnored"]).
Proof.
  split; [rewrite job_text_print; eauto|]. intros n.
  assert (Hk : forall ms, HasMember (VObject ms) n = true <-> n ∈ ms.*1).
  { intros ms. simpl. rewrite bool_decide_eq_true.
    induction ms as [|[m v] ms IH]; simpl; [split; [by intros []|set_solver]|].
    rewrite elem_of_cons. destruct (String.eqb_spec m n) as [->|Hne];
      [split; eauto|rewrite IH; naive_solver]. }
  rewrite toJsonValue_members, Hk. unfold job_members.
  destruct (isDone j), (type j); simpl; rewrite ?elem_of_cons, ?elem_of_nil;
    (split; intros H; decompose [or and] H; try contradiction; try discriminate; subst; tauto).
Qed.
