(* ===== verification/QuitableQueue.v ===== *)
(** * The queue between the HTTP threads and the workers

    [src/server/quitablequeue.h].  The operations are modelled twice: as the
    functions that one call computes on the queue's members ([push],
    [popNoWait], [quit], [size] and the locked part of [popWait]), and as a
    step relation for any number of threads, in which every section under the
    mutex is one step and a thread may wait on the condition variable. *)
From S2P Require Import Prelude.

Section Queue.
Context {T : Type}.

Record QuitableQueue := mkQueue { queue_ : list T; continue_ : bool }.

(** [QuitableQueue()]. *)
Definition QuitableQueue_new : QuitableQueue := mkQueue [] true.

(** The part of [push] under the lock; [notify_one] follows the unlock. *)
Definition push (item : T) (q : QuitableQueue) : QuitableQueue :=
  mkQueue (queue_ q ++ [item]) (continue_ q).

(** [None]: the reference parameter is left as it was. *)
Definition popNoWait (q : QuitableQueue) : option T * QuitableQueue :=
  match queue_ q with
  | [] => (None, q)
  | item :: rest => (Some item, mkQueue rest (continue_ q))
  end.

(** The part of [quit] before [notify_all]; both are under the lock. *)
Definition quit (q : QuitableQueue) : QuitableQueue := mkQueue (queue_ q) false.

Definition size (q : QuitableQueue) : nat := length (queue_ q).

(** One evaluation of the loop condition of [popWait] under the lock, with
    what follows it: wait again, return [false], or return the front item. *)
Inductive pop_outcome := PopWaits | PopQuit | PopItem (item : T) (q : QuitableQueue).

Definition pop_locked (q : QuitableQueue) : pop_outcome :=
  if continue_ q then
    match queue_ q with
    | [] => PopWaits
    | item :: rest => PopItem item (mkQueue rest (continue_ q))
    end
  else PopQuit.

(** A call of [popWait] by one thread that finds the queue so that it need
    not wait: [None] blocks, [Some None] returned false. *)
Definition popWait (q : QuitableQueue) : option (option T * QuitableQueue) :=
  if negb (continue_ q) then Some (None, q)
  else
    match pop_locked q with
    | PopWaits => None
    | PopQuit => Some (None, q)
    | PopItem item q' => Some (Some item, q')
    end.

(** ** Threads

    A thread is outside the queue, in [popWait] before it owns the mutex
    ([Entering]: also after it was woken up), or blocked in [cond_.wait]. *)
Inductive pc := Outside | Entering | Waiting.

#[local] Instance pc_eq_dec : EqDecision pc.
Proof. solve_decision. Defined.

(** [pending] counts the [push]es that have released the mutex and not yet
    called [notify_one]. *)
Record state := mkState {
  q : QuitableQueue;
  threads : gmap nat pc;
  pending : nat
}.

(** The blocked threads after [notify_all]. *)
Definition wake (p : pc) : pc := match p with Waiting => Entering | p => p end.

(** What a step does to the outside: the item pushed or popped.  A wakeup
    that nobody caused, which [cond_.wait] may have, is an event of its own. *)
Inductive event := Push (item : T) | Pop (tid : nat) (item : T) | Silent | Spurious.

Inductive step : state -> event -> state -> Prop :=
  (** [push] up to [mlock.unlock()], and its [notify_one] with or without a
      thread to wake up. *)
  | step_push st item :
    step st (Push item) (mkState (push item (q st)) (threads st) (S (pending st)))
  | step_notify_none st n :
    pending st = S n -> (forall t, threads st !! t <> Some Waiting) ->
    step st Silent (mkState (q st) (threads st) n)
  | step_notify_one st n t :
    pending st = S n -> threads st !! t = Some Waiting ->
    step st Silent (mkState (q st) (<[t := Entering]> (threads st)) n)
  (** [quit]. *)
  | step_quit st :
    step st Silent (mkState (quit (q st)) (wake <$> threads st) (pending st))
  (** [popNoWait]. *)
  | step_popNoWait_item st t item q' :
    threads st !! t = Some Outside -> popNoWait (q st) = (Some item, q') ->
    step st (Pop t item) (mkState q' (threads st) (pending st))
  (** [popWait]: the test without lock, the locked loop, a spurious wakeup. *)
  | step_enter st t :
    threads st !! t = Some Outside -> continue_ (q st) = true ->
    step st Silent (mkState (q st) (<[t := Entering]> (threads st)) (pending st))
  | step_wait st t :
    threads st !! t = Some Entering -> pop_locked (q st) = PopWaits ->
    step st Silent (mkState (q st) (<[t := Waiting]> (threads st)) (pending st))
  | step_return_false st t :
    threads st !! t = Some Entering -> pop_locked (q st) = PopQuit ->
    step st Silent (mkState (q st) (<[t := Outside]> (threads st)) (pending st))
  | step_return_item st t item q' :
    threads st !! t = Some Entering -> pop_locked (q st) = PopItem item q' ->
    step st (Pop t item) (mkState q' (<[t := Outside]> (threads st)) (pending st))
  | step_spurious st t :
    threads st !! t = Some Waiting ->
    step st Spurious (mkState (q st) (<[t := Entering]> (threads st)) (pending st))
  (** [popWait] that returns [false] before it locks, [popNoWait] that finds
      nothing. *)
  | step_nothing st t :
    threads st !! t = Some Outside -> continue_ (q st) = false \/ queue_ (q st) = [] ->
    step st Silent st.

(** Runs, with the events in the order they happened. *)
Inductive steps : state -> list event -> state -> Prop :=
  | steps_refl st : steps st [] st
  | steps_snoc st es st' e st'' :
    steps st es st' -> step st' e st'' -> steps st (es ++ [e]) st''.

Definition initial (threads0 : gmap nat pc) : state := mkState QuitableQueue_new threads0 0.

Definition pushed (es : list event) : list T :=
  omap (fun e => match e with Push x => Some x | _ => None end) es.
Definition popped (es : list event) : list T :=
  omap (fun e => match e with Pop _ x => Some x | _ => None end) es.

(** ** Lemmas *)
Lemma wake_not_waiting (m : gmap nat pc) t : (wake <$> m) !! t <> Some Waiting.
Proof. rewrite lookup_fmap. destruct (m !! t) as [[]|]; simpl; congruence. Qed.

(** Items leave the queue in the order they entered it. *)
Lemma steps_fifo st es st' :
  steps st es st' -> queue_ (q st) ++ pushed es = popped es ++ queue_ (q st').
Proof.
  induction 1 as [|st es st' e st'' Hs IH Hstep]; [by rewrite app_nil_r|].
  unfold pushed, popped in *. rewrite !omap_app.
  destruct Hstep; simpl; rewrite ?app_nil_r; try done.
  - by rewrite !app_assoc, IH.
  - unfold popNoWait in *. rewrite IH. destruct (queue_ (q st0)); simplify_eq. simpl.
    by rewrite <- app_assoc.
  - unfold pop_locked in *. rewrite IH. destruct (continue_ _); [|done].
    destruct (queue_ (q st0)); simplify_eq. simpl. by rewrite <- app_assoc.
Qed.

(** No wakeup is lost: while the queue runs, a blocked thread coexists with at
    most as many items as there are threads and notifications on their way;
    after [quit] nobody is blocked. *)
Definition no_lost_wakeup (st : state) : Prop :=
  if continue_ (q st)
  then (exists t, threads st !! t = Some Waiting) ->
       size (q st) <= count_value Entering (threads st) + pending st
  else forall t, threads st !! t <> Some Waiting.

Lemma step_no_lost_wakeup st e st' :
  no_lost_wakeup st -> step st e st' -> no_lost_wakeup st'.
Proof.
  intros Hi Hs. unfold no_lost_wakeup, size in *.
  destruct Hs as [st item|st n Hn Hw|st n t Hn Ht|st|st t item q' Ht Hp|st t Ht Hc|st t Ht Hp
                 |st t Ht Hp|st t item q' Ht Hp|st t Ht|st t Ht Hq]; simpl in *.
  - destruct (continue_ (q st)); [|done]. intros Hw. rewrite length_app. simpl.
    specialize (Hi Hw). lia.
  - destruct (continue_ (q st)); [|done]. intros [t Ht]. by apply Hw in Ht.
  - pose proof (count_value_insert Entering _ t _ Entering Ht) as Hcnt.
    rewrite decide_False, decide_True in Hcnt by done.
    destruct (continue_ (q st)); [|by apply Hi in Ht]. intros _.
    specialize (Hi (ex_intro _ t Ht)). lia.
  - intros t. apply wake_not_waiting.
  - unfold popNoWait in Hp. destruct (queue_ (q st)) as [|x l] eqn:Hq; simplify_eq. simpl.
    destruct (continue_ (q st)); [|done]. intros Hw. specialize (Hi Hw). simpl in Hi. lia.
  - pose proof (count_value_insert Entering _ t _ Entering Ht) as Hcnt.
    rewrite decide_False, decide_True in Hcnt by done. rewrite Hc in *.
    intros [t' Ht']. destruct (decide (t = t')) as [->|Hne];
      [by rewrite lookup_insert_eq in Ht'|rewrite lookup_insert_ne in Ht' by done].
    specialize (Hi (ex_intro _ t' Ht')). lia.
  - unfold pop_locked in Hp. destruct (continue_ (q st)); [|done].
    destruct (queue_ (q st)); [|done]. simpl. lia.
  - unfold pop_locked in Hp. destruct (continue_ (q st)) eqn:Hc; [by destruct (queue_ (q st))|].
    intros t'. destruct (decide (t = t')) as [->|Hne];
      [by rewrite lookup_insert_eq|by rewrite lookup_insert_ne].
  - pose proof (count_value_insert Entering _ t _ Outside Ht) as Hcnt.
    rewrite decide_True, decide_False in Hcnt by done.
    unfold pop_locked in Hp. destruct (continue_ (q st)) eqn:Hc; [|done].
    destruct (queue_ (q st)) as [|x l] eqn:Hq; simplify_eq. simpl. rewrite ?Hc.
    intros [t' Ht']. destruct (decide (t = t')) as [->|Hne];
      [by rewrite lookup_insert_eq in Ht'|rewrite lookup_insert_ne in Ht' by done].
    specialize (Hi (ex_intro _ t' Ht')). simpl in Hi. lia.
  - pose proof (count_value_insert Entering _ t _ Entering Ht) as Hcnt.
    rewrite decide_False, decide_True in Hcnt by done.
    destruct (continue_ (q st)); [|by apply Hi in Ht]. intros _.
    specialize (Hi (ex_intro _ t Ht)). lia.
  - exact Hi.
Qed.

Lemma steps_no_lost_wakeup st es st' :
  no_lost_wakeup st -> steps st es st' -> no_lost_wakeup st'.
Proof. intros Hi. induction 1; eauto using step_no_lost_wakeup. Qed.

Lemma no_lost_wakeup_initial threads0 :
  (forall t, threads0 !! t <> Some Waiting) -> no_lost_wakeup (initial threads0).
Proof. intros Hw [t Ht]. by apply Hw in Ht. Qed.

Lemma steps_one st e st' : step st e st' -> steps st [e] st'.
Proof. intros H. exact (steps_snoc st [] st e st' (steps_refl st) H). Qed.

(** Any number of threads that push, pop, wait and quit in any
    interleaving: the items popped so far, followed by the items still in the
    queue, are the items pushed, in that order; no item is lost, duplicated
    or overtaken. *)
Theorem queue_fifo threads0 es st :
  steps (initial threads0) es st -> popped es ++ queue_ (q st) = pushed es.
Proof. intros H. symmetry. exact (steps_fifo _ _ _ H). Qed.

(** [C15] No lost wakeup: when a thread is blocked in [popWait], [quit] was not
    called, and the items in the queue are no more than the threads awake inside
    [popWait] and the calls of [notify_one] still to come; when there is an item,
    one such thread, or a blocked one after such a call, can return the front item
    without any spurious wakeup. *)
Theorem queue_no_lost_wakeup threads0 es st t :
  (forall t, threads0 !! t <> Some Waiting) ->
  steps (initial threads0) es st -> threads st !! t = Some Waiting ->
  continue_ (q st) = true /\
  size (q st) <= count_value Entering (threads st) + pending st /\
  forall item rest, queue_ (q st) = item :: rest ->
    exists es' st', steps st es' st' /\ ~ (Spurious ∈ es') /\
                    popped es' = [item] /\ queue_ (q st') = rest.
Proof.
  intros H0 Hs Ht. pose proof (steps_no_lost_wakeup _ _ _ (no_lost_wakeup_initial _ H0) Hs) as Hi.
  unfold no_lost_wakeup in Hi. destruct (continue_ (q st)) eqn:Hc; [|by apply Hi in Ht].
  specialize (Hi (ex_intro _ t Ht)). split; [done|]. split; [done|]. intros item rest Hq.
  unfold size in Hi. rewrite Hq in Hi. simpl in Hi.
  assert (Hpop : pop_locked (q st) = PopItem item (mkQueue rest true))
    by (unfold pop_locked; by rewrite Hc, Hq).
  destruct (pending st) as [|n] eqn:Hn.
  - destruct (count_value_exists Entering (threads st)) as [t' Ht']; [lia|].
    eexists [Pop t' item], _. split; [by eapply steps_one, step_return_item|].
    split; [set_solver|done].
  - eexists ([Silent] ++ [Pop t item]), _. split.
    { eapply steps_snoc; [by eapply steps_one, step_notify_one|].
      apply step_return_item; [apply lookup_insert_eq|exact Hpop]. }
    split; [set_solver|done].
Qed.
End Queue.

Arguments QuitableQueue : clear implicits.
Arguments state : clear implicits.
Arguments event : clear implicits.


(** ** Witnesses: one worker that blocks, then an item *)
Definition worker_blocked : state nat := mkState QuitableQueue_new {[0 := Waiting]} 0.

Lemma worker_blocks : steps (initial {[0 := Outside]}) [Silent; Silent] worker_blocked.
Proof.
  apply (steps_snoc _ [Silent] (mkState QuitableQueue_new {[0 := Entering]} 0)).
  - apply steps_one. exact (step_enter (initial {[0 := Outside]}) 0 eq_refl eq_refl).
  - exact (step_wait (mkState QuitableQueue_new {[0 := Entering]} 0) 0 eq_refl eq_refl).
Qed.

Lemma worker_pushed :
  steps (initial {[0 := Outside]}) [Silent; Silent; Push 7]
    (mkState (mkQueue [7] true) {[0 := Waiting]} 1).
Proof.
  apply (steps_snoc _ [Silent; Silent] worker_blocked); [exact worker_blocks|].
  exact (step_push worker_blocked 7).
Qed.

Lemma queue_fifo_witness :
  exists st : state nat, queue_ (q st) = [7] /\
    popped [Silent; Silent; Push 7] ++ queue_ (q st) = [7].
Proof.
  exists (mkState (mkQueue [7] true) {[0 := Waiting]} 1). split; [reflexivity|].
  exact (queue_fifo _ _ _ worker_pushed).
Defined.

Lemma queue_no_lost_wakeup_witness :
  exists es' st', steps (mkState (mkQueue [7] true) {[0 := Waiting]} 1) es' st' /\
    ~ (Spurious ∈ es') /\ popped es' = [7] /\ queue_ (q st') = [].
Proof.
  refine (proj2 (proj2 (queue_no_lost_wakeup {[0 := Outside]} _ _ 0 _ worker_pushed eq_refl)) 7 [] eq_refl).
  intros t. destruct (decide (t = 0)) as [->|H];
    [rewrite lookup_singleton_eq|rewrite lookup_singleton_ne]; done.
Defined.
