(* ===== verification/JobStorage.v ===== *)
(** * The job storage

    [src/server/jobstorage.h] and [src/server/jobstorage.cpp].  A
    [std::shared_ptr<Job>] is an address of [heap], so that the map, the queue,
    the workers and the HTTP handlers share one job object.  The first part has
    the operations as functions, the second the life of the jobs when HTTP
    threads, workers and the cleanup thread run concurrently. *)
From S2P Require Import Prelude Job QuitableQueue.

Abbreviation JobPtr := nat.

Record JobStorage := mkJobStorage {
  heap : gmap JobPtr Job;
  jobMap : gmap string JobPtr;
  queue : QuitableQueue JobPtr;
  maxAgeDoneJobs : Z
}.

Record JobStats := mkJobStats {
  numQueuedJobs : Z;
  numFailedJobs : Z;
  numInProcessJobs : Z;
  numFinishedJobs : Z
}.

(** [JobStats()]. *)
Definition JobStats_new : JobStats := mkJobStats 0 0 0 0.

(** The members that the constructor sets; the thread is [cleanup], below. *)
Definition JobStorage_new (_maxAgeDoneJobs : Z) : JobStorage :=
  mkJobStorage ∅ ∅ QuitableQueue_new _maxAgeDoneJobs.

Definition set_heap (h : gmap JobPtr Job) (s : JobStorage) : JobStorage :=
  mkJobStorage h (jobMap s) (queue s) (maxAgeDoneJobs s).
Definition set_jobMap (m : gmap string JobPtr) (s : JobStorage) : JobStorage :=
  mkJobStorage (heap s) m (queue s) (maxAgeDoneJobs s).
Definition set_queue (q : QuitableQueue JobPtr) (s : JobStorage) : JobStorage :=
  mkJobStorage (heap s) (jobMap s) q (maxAgeDoneJobs s).

(** [*_job]: an address without a job is not a valid pointer. *)
Definition deref (p : JobPtr) : M JobStorage Job := fun s =>
  match heap s !! p with
  | Some j => (Ret j, s)
  | None => (Terminated, s)
  end.

Definition addJob (_job : JobPtr) : M JobStorage unit :=
  j ← deref _job;
  modify (fun s => set_jobMap (<[id j := _job]> (jobMap s)) s).

Definition removeJob (_id : string) : M JobStorage unit :=
  modify (fun s => set_jobMap (delete _id (jobMap s)) s).

Definition getJob (_id : string) : M JobStorage JobPtr := fun s =>
  match jobMap s !! _id with
  | Some p => (Ret p, s)
  | None => (Throw (OutOfRange "job is not contained in jobstorage"), s)
  end.

Definition storage_push (_job : JobPtr) : M JobStorage unit :=
  _ ← addJob _job;
  modify (fun s => set_queue (push _job (queue s)) s).

(** [popNoWait]: [None] leaves the caller's pointer null. *)
Definition storage_popNoWait : M JobStorage (option JobPtr) := fun s =>
  let '(r, q') := popNoWait (queue s) in (Ret r, set_queue q' s).

Definition storage_quit : M JobStorage unit :=
  modify (fun s => set_queue (quit (queue s)) s).

Definition queueSize : M JobStorage nat := gets (fun s => size (queue s)).

Definition count_status (st : Status) (jobStats : JobStats) : JobStats :=
  let '(mkJobStats q f p d) := jobStats in
  match st with
  | FAILED => mkJobStats q (f + 1) p d
  | IN_PROCESS => mkJobStats q f (p + 1) d
  | FINISHED => mkJobStats q f p (d + 1)
  | QUEUED => mkJobStats (q + 1) f p d
  end.

Section Iteration.
(** The order in which a [std::unordered_map] goes through its elements. *)
Context (iteration : gmap string JobPtr -> list (string * JobPtr)).
Context (iteration_perm : forall m, iteration m ≡ₚ map_to_list m).

Fixpoint count_jobs (l : list (string * JobPtr)) (jobStats : JobStats) : M JobStorage JobStats :=
  match l with
  | [] => mret jobStats
  | jobPair :: l' => j ← deref jobPair.2; count_jobs l' (count_status (status j) jobStats)
  end.

Definition getStats : M JobStorage JobStats :=
  s ← get; count_jobs (iteration (jobMap s)) JobStats_new.

(** The comparison [j2->getTimeAdded() < j1->getTimeAdded()] as the order that
    [std::sort] establishes. *)
Definition added_later (x y : JobPtr * Job) : Prop := (timeAdded y.2 <= timeAdded x.2)%Z.

#[local] Instance added_later_dec : RelDecision added_later :=
  fun x y => decide (timeAdded y.2 <= timeAdded x.2)%Z.

Fixpoint derefs (l : list (string * JobPtr)) : M JobStorage (list (JobPtr * Job)) :=
  match l with
  | [] => mret []
  | kv :: l' => j ← deref kv.2; rest ← derefs l'; mret ((kv.2, j) :: rest)
  end.

Definition getOrderedJobs : M JobStorage (list JobPtr) :=
  s ← get;
  orderedJobs ← derefs (iteration (jobMap s));
  mret (fst <$> merge_sort added_later orderedJobs).

(** One turn of the cleanup thread's inner loop, and the part of the outer
    loop that holds the mutex; times are nanoseconds, the age is in seconds. *)
Definition cleanup_turn (minTime : Z) (it : string * JobPtr) : M JobStorage unit :=
  j ← deref it.2;
  if isDone j then
    if decide (timeFinished j < minTime)%Z then removeJob it.1 else mret tt
  else mret tt.

Definition cleanup (now : Z) : M JobStorage unit :=
  s ← get;
  let minTime := (now - maxAgeDoneJobs s * 1000000000)%Z in
  foreach (iteration (jobMap s)) (cleanup_turn minTime).

(** ** Lemmas *)
(** The pointers of the map are valid. *)
Definition pointers_ok (s : JobStorage) : Prop :=
  forall k p, jobMap s !! k = Some p -> is_Some (heap s !! p).

Definition expired (minTime : Z) (j : Job) : bool :=
  isDone j && bool_decide (timeFinished j < minTime)%Z.

Lemma cleanup_turns l minTime s :
  NoDup l.*1 -> (forall kv, kv ∈ l -> jobMap s !! kv.1 = Some kv.2) -> pointers_ok s ->
  exists m, foreach l (cleanup_turn minTime) s = (Ret tt, set_jobMap m s) /\
    forall k p, m !! k = Some p <->
      jobMap s !! k = Some p /\
      ((k, p) ∈ l -> forall j, heap s !! p = Some j -> expired minTime j = false).
Proof.
  revert s. induction l as [|[k p] l IH]; intros s Hnd Hin Hp.
  - exists (jobMap s). split; [by destruct s|]. intros k p. split; [|naive_solver].
    intros H. split; [done|]. intros Hn. by apply not_elem_of_nil in Hn.
  - apply NoDup_cons in Hnd as [Hk Hnd].
    destruct (Hp k p) as [j Hj]; [by apply (Hin (k, p)); left|].
    assert (Hstep : cleanup_turn minTime (k, p) s =
      (Ret tt, if expired minTime j then set_jobMap (delete k (jobMap s)) s else s)).
    { unfold cleanup_turn. erewrite bind_step by (unfold deref; simpl; by rewrite Hj).
      unfold expired. destruct (isDone j); [|done]. cbn [andb].
      case_decide; [by rewrite bool_decide_true|by rewrite bool_decide_false]. }
    assert (Hnot : forall p', (k, p') ∉ l)
      by (intros p' Hp'; apply Hk, list_elem_of_fmap; by exists (k, p')).
    simpl. erewrite bind_step by apply Hstep.
    set (s1 := if expired minTime j then _ else s) in *.
    assert (Hm : forall k' p', jobMap s1 !! k' = Some p' <->
              jobMap s !! k' = Some p' /\ (k' = k -> expired minTime j = false)).
    { intros k' p'. unfold s1. destruct (expired minTime j); simpl.
      - rewrite lookup_delete_Some. naive_solver.
      - naive_solver. }
    assert (Hh : heap s1 = heap s) by (unfold s1; by destruct (expired minTime j)).
    destruct (IH s1) as (m & Hr & Hm'); [done| | |].
    + intros [k' p'] Hkv. simpl. apply Hm.
      split; [apply (Hin (k', p')); by right|]. intros ->. by apply Hnot in Hkv.
    + intros k' p' H'. rewrite Hh. apply Hm in H' as [H' _]. eauto.
    + exists m. split; [rewrite Hr; unfold s1, set_jobMap; by destruct (expired minTime j)|].
      intros k' p'. rewrite Hm', Hm, Hh. split.
      * intros [[H1 H2] H3]. split; [done|]. intros [[= -> ->]|Hl]%elem_of_cons j' Hj'; [|eauto].
        rewrite Hj in Hj'. injection Hj' as <-. auto.
      * intros [H1 H2]. split; [split; [done|]|].
        -- intros ->. assert (p' = p) as ->.
           { specialize (Hin (k, p) ltac:(left)). simpl in Hin. congruence. }
           apply (H2 ltac:(left) j Hj).
        -- intros Hl. apply H2. by right.
Qed.

Lemma iteration_elem m k p : (k, p) ∈ iteration m <-> m !! k = Some p.
Proof. rewrite iteration_perm. apply elem_of_map_to_list. Qed.

Lemma iteration_NoDup m : NoDup (iteration m).*1.
Proof. rewrite iteration_perm. apply NoDup_fst_map_to_list. Qed.

Lemma cleanup_spec now s :
  pointers_ok s ->
  exists m, cleanup now s = (Ret tt, set_jobMap m s) /\
    forall k p, m !! k = Some p <->
      jobMap s !! k = Some p /\
      forall j, heap s !! p = Some j ->
                expired (now - maxAgeDoneJobs s * 1000000000) j = false.
Proof.
  intros Hp. unfold cleanup. erewrite bind_step by reflexivity.
  destruct (cleanup_turns (iteration (jobMap s)) (now - maxAgeDoneJobs s * 1000000000) s)
    as (m & -> & Hm); [apply iteration_NoDup| |done|].
  - intros [k p] Hkv. by apply iteration_elem.
  - exists m. split; [done|]. intros k p. rewrite Hm, iteration_elem. naive_solver.
Qed.

Lemma derefs_spec l s :
  (forall kv, kv ∈ l -> is_Some (heap s !! kv.2)) ->
  exists js, derefs l s = (Ret js, s) /\ js.*1 = l.*2 /\
             Forall (fun x => heap s !! x.1 = Some x.2) js.
Proof.
  induction l as [|[k p] l IH]; intros Hl; [by exists []|].
  destruct (Hl (k, p)) as [j Hj]; [left|]. destruct IH as (js & Hr & Hf & Hs).
  { intros kv Hkv. apply Hl. by right. }
  exists ((p, j) :: js). cbn [derefs].
  erewrite bind_step by (unfold deref; by rewrite Hj).
  erewrite bind_step by apply Hr. split; [done|]. split; [cbn; by f_equal|].
  by constructor.
Qed.

Definition stats_sum (st : JobStats) : Z :=
  numQueuedJobs st + numFailedJobs st + numInProcessJobs st + numFinishedJobs st.

Definition stats_of (st : JobStats) (s : Status) : Z :=
  match s with
  | QUEUED => numQueuedJobs st
  | FAILED => numFailedJobs st
  | IN_PROCESS => numInProcessJobs st
  | FINISHED => numFinishedJobs st
  end.

Lemma count_status_of st s s' :
  stats_of (count_status s st) s' = (stats_of st s' + if decide (s = s') then 1 else 0)%Z.
Proof. destruct st, s, s'; simpl; lia. Qed.

(** The number of elements of [l] whose job has status [x]. *)
Definition with_status_count (s : JobStorage) (l : list (string * JobPtr)) (x : Status) : nat :=
  length (base.filter (fun kv => status <$> (heap s !! kv.2) = Some x) l).

Lemma count_jobs_spec l st s :
  (forall kv, kv ∈ l -> is_Some (heap s !! kv.2)) ->
  exists st', count_jobs l st s = (Ret st', s) /\
    forall x, stats_of st' x = (stats_of st x + Z.of_nat (with_status_count s l x))%Z.
Proof.
  unfold with_status_count. revert st. induction l as [|[k p] l IH]; intros st Hl.
  - exists st. split; [done|]. intros x. simpl. lia.
  - destruct (Hl (k, p)) as [j Hj]; [left|]. simpl in Hj.
    destruct (IH (count_status (status j) st)) as (st' & Hr & Hs).
    { intros kv Hkv. apply Hl. by right. }
    exists st'. cbn [count_jobs]. erewrite bind_step by (unfold deref; simpl; by rewrite Hj).
    split; [done|]. intros x. rewrite Hs, count_status_of, filter_cons. simpl. rewrite Hj. simpl.
    destruct (decide (status j = x)) as [He|He];
      [rewrite decide_True by congruence; simpl; lia|rewrite decide_False by congruence; lia].
Qed.

Lemma getOrderedJobs_run s :
  pointers_ok s ->
  exists l, getOrderedJobs s = (Ret l, s) /\ l ≡ₚ (map_to_list (jobMap s)).*2 /\
    StronglySorted (fun p1 p2 => forall j1 j2, heap s !! p1 = Some j1 -> heap s !! p2 = Some j2 ->
                      (timeAdded j2 <= timeAdded j1)%Z) l.
Proof.
  intros Hp. unfold getOrderedJobs. erewrite bind_step by reflexivity.
  destruct (derefs_spec (iteration (jobMap s)) s) as (js & Hr & Hf & Hjs).
  { intros [k p] Hkv. apply iteration_elem in Hkv. eauto. }
  erewrite bind_step by apply Hr. eexists. split; [reflexivity|]. split.
  - rewrite merge_sort_Permutation, Hf. by rewrite iteration_perm.
  - assert (Hs : StronglySorted added_later (merge_sort added_later js)).
    { apply StronglySorted_merge_sort; [intros x y z; unfold added_later; lia|].
      intros x y. unfold added_later. lia. }
    assert (Hjs' : Forall (fun x => heap s !! x.1 = Some x.2) (merge_sort added_later js))
      by by rewrite merge_sort_Permutation.
    clear Hr Hf Hjs. induction Hs as [|x l Hs IH Hx]; [constructor|].
    inversion_clear Hjs' as [|? ? Hx' Hl]. simpl. constructor; [by apply IH|].
    apply Forall_fmap. rewrite Forall_forall in Hx, Hl |- *.
    intros y Hy j1 j2 H1 H2. specialize (Hx y Hy). specialize (Hl y Hy). simpl in *.
    unfold added_later in Hx. congruence.
Qed.

(** ** Properties *)

(** A pass of the cleanup thread removes from the map exactly the jobs
    that are done and finished before [now - maxAgeDoneJobs]; a job that is
    queued or in process stays whatever its age, and neither the jobs nor the
    queue change. *)
Theorem cleanup_removes_expired now s :
  pointers_ok s ->
  exists s', cleanup now s = (Ret tt, s') /\ heap s' = heap s /\ queue s' = queue s /\
    (forall k p, jobMap s' !! k = Some p -> jobMap s !! k = Some p) /\
    forall k p j, jobMap s !! k = Some p -> heap s !! p = Some j ->
      (jobMap s' !! k = None <->
       isDone j = true /\ (timeFinished j + maxAgeDoneJobs s * 1000000000 < now)%Z).
Proof.
  intros Hp. destruct (cleanup_spec now s Hp) as (m & Hr & Hm). eexists. split; [exact Hr|].
  simpl. split; [done|]. split; [done|]. split; [intros k p Hk; by apply Hm in Hk as [? _]|].
  intros k p j Hk Hj. specialize (Hm k).
  assert (He : expired (now - maxAgeDoneJobs s * 1000000000) j = true <->
               isDone j = true /\ (timeFinished j + maxAgeDoneJobs s * 1000000000 < now)%Z).
  { unfold expired. rewrite andb_true_iff, bool_decide_eq_true.
    split; intros [? ?]; split; done || lia. }
  rewrite <- He. split.
  - intros Hn. destruct (expired _ j) eqn:Hx; [done|].
    assert (m !! k = Some p); [|congruence]. apply Hm. split; [done|].
    intros j' Hj'. by rewrite Hj in Hj'; injection Hj' as <-.
  - intros Hx. destruct (m !! k) as [p'|] eqn:Hk'; [|done].
    destruct (proj1 (Hm p') eq_refl) as [Hk2 H2]. rewrite Hk in Hk2. injection Hk2 as <-.
    specialize (H2 j Hj). congruence.
Qed.

(** The job list of the HTTP interface: every job of the map once, the
    ones added last first. *)
Theorem getOrderedJobs_spec s :
  pointers_ok s ->
  exists l, getOrderedJobs s = (Ret l, s) /\ l ≡ₚ (map_to_list (jobMap s)).*2 /\
    StronglySorted (fun p1 p2 => forall j1 j2, heap s !! p1 = Some j1 -> heap s !! p2 = Some j2 ->
                      (timeAdded j2 <= timeAdded j1)%Z) l.
Proof. apply getOrderedJobs_run. Qed.

(** The statistics count every job of the map under its status, and under
    one status only. *)
Theorem getStats_spec s :
  pointers_ok s ->
  exists st, getStats s = (Ret st, s) /\
    (forall x, stats_of st x = Z.of_nat (with_status_count s (map_to_list (jobMap s)) x)) /\
    stats_sum st = Z.of_nat (base.size (jobMap s)).
Proof.
  intros Hp. unfold getStats. erewrite bind_step by reflexivity.
  assert (Hv : forall kv, kv ∈ iteration (jobMap s) -> is_Some (heap s !! kv.2)).
  { intros [k p] Hkv. apply iteration_elem in Hkv. eauto. }
  destruct (count_jobs_spec (iteration (jobMap s)) JobStats_new s Hv) as (st & Hr & Hs).
  exists st. split; [done|].
  assert (Hc : forall x, stats_of st x = Z.of_nat (with_status_count s (map_to_list (jobMap s)) x)).
  { intros x. rewrite Hs. unfold with_status_count. rewrite iteration_perm.
    destruct x; simpl; lia. }
  split; [done|]. unfold stats_sum.
  pose proof (Hc QUEUED) as H1. pose proof (Hc FAILED) as H2. pose proof (Hc IN_PROCESS) as H3.
  pose proof (Hc FINISHED) as H4. simpl in *. rewrite H1, H2, H3, H4.
  unfold with_status_count. rewrite <- length_map_to_list.
  assert (Hall : forall kv, kv ∈ map_to_list (jobMap s) -> is_Some (heap s !! kv.2)).
  { intros [k p] Hkv%elem_of_map_to_list. eauto. }
  clear - Hall. induction (map_to_list (jobMap s)) as [|[k p] l IH]; [done|].
  destruct (Hall (k, p)) as [j Hj]; [left|]. simpl in Hj.
  rewrite !filter_cons. simpl. rewrite !Hj. simpl.
  specialize (IH ltac:(intros kv Hkv; apply Hall; by right)).
  destruct (status j); repeat case_decide; simplify_eq; simpl; lia.
Qed.
End Iteration.

(** ** The life of a job

    HTTP threads create jobs and push them, in two critical sections; the
    workers take them from the queue, change their status and release them; the
    cleanup thread runs between any two steps.  [setStatus] takes no lock and is
    two writes, first of [status], then of [timeFinished]. *)
Inductive phase := Taken | Processing | StatusWritten | TimeWritten.
Inductive task := Idle | Holds (p : JobPtr) (ph : phase).

Record world := mkWorld {
  storage : JobStorage;
  (** Pushes between [addJob] and [queue.push]. *)
  adding : list JobPtr;
  tasks : gmap nat task
}.

Definition update_job (p : JobPtr) (j : Job) (s : JobStorage) : JobStorage :=
  set_heap (<[p := j]> (heap s)) s.

(** ** What a client sees of the jobs

    The contract of the storage towards the HTTP interface, without queue,
    pointers and threads: every id that can be asked for, with its status. *)
Inductive client_step : gmap string Status -> gmap string Status -> Prop :=
  | client_accept m k : m !! k = None -> client_step m (<[k := QUEUED]> m)
  | client_start m k : m !! k = Some QUEUED -> client_step m (<[k := IN_PROCESS]> m)
  | client_finish m k st :
    m !! k = Some IN_PROCESS -> st = FINISHED \/ st = FAILED -> client_step m (<[k := st]> m)
  (** Only jobs that are done are forgotten, any number of them at once. *)
  | client_forget m m' :
    m' ⊆ m ->
    (forall k st, m !! k = Some st -> m' !! k = None -> st = FINISHED \/ st = FAILED) ->
    client_step m m'.

Definition visible (s : JobStorage) : gmap string Status :=
  omap (fun p => status <$> heap s !! p) (jobMap s).

Section Life.
Context (iteration : gmap string JobPtr -> list (string * JobPtr)).
Context (iteration_perm : forall m, iteration m ≡ₚ map_to_list m).

Inductive lstep : world -> world -> Prop :=
  (** A handler constructs a job, whose UUID is new, and [addJob]s it. *)
  | lstep_add w p j :
    heap (storage w) !! p = None -> status j = QUEUED -> timeFinished j = 0%Z ->
    (forall p' j', heap (storage w) !! p' = Some j' -> id j' <> id j) ->
    lstep w (mkWorld (addJob p (update_job p j (storage w))).2 (p :: adding w) (tasks w))
  | lstep_enqueue w p l1 l2 :
    adding w = l1 ++ p :: l2 ->
    lstep w (mkWorld (set_queue (push p (queue (storage w))) (storage w)) (l1 ++ l2) (tasks w))
  (** [popNoWait], or a [popWait] that returns an item: the same change. *)
  | lstep_take w t p s' :
    tasks w !! t = Some Idle -> storage_popNoWait (storage w) = (Ret (Some p), s') ->
    lstep w (mkWorld s' (adding w) (<[t := Holds p Taken]> (tasks w)))
  (** [job->setStatus(IN_PROCESS)]. *)
  | lstep_start w t p j :
    tasks w !! t = Some (Holds p Taken) -> heap (storage w) !! p = Some j ->
    lstep w (mkWorld (update_job p (with_status IN_PROCESS j) (storage w)) (adding w)
               (<[t := Holds p Processing]> (tasks w)))
  (** [setMessage] and [setStatistics] at any moment. *)
  | lstep_message w t p ph j m :
    tasks w !! t = Some (Holds p ph) -> heap (storage w) !! p = Some j ->
    lstep w (mkWorld (update_job p (setMessage m j) (storage w)) (adding w) (tasks w))
  | lstep_statistics w t p ph j n1 n2 n3 n4 n5 :
    tasks w !! t = Some (Holds p ph) -> heap (storage w) !! p = Some j ->
    lstep w (mkWorld (update_job p (setStatistics n1 n2 n3 n4 n5 j) (storage w)) (adding w) (tasks w))
  (** [job->setStatus(FINISHED)] or [FAILED]: the first and the second write. *)
  | lstep_status w t p j st :
    tasks w !! t = Some (Holds p Processing) -> heap (storage w) !! p = Some j ->
    st = FINISHED \/ st = FAILED ->
    lstep w (mkWorld (update_job p (with_status st j) (storage w)) (adding w)
               (<[t := Holds p StatusWritten]> (tasks w)))
  | lstep_time w t p j now :
    tasks w !! t = Some (Holds p StatusWritten) -> heap (storage w) !! p = Some j ->
    lstep w (mkWorld (update_job p (with_timeFinished now j) (storage w)) (adding w)
               (<[t := Holds p TimeWritten]> (tasks w)))
  | lstep_release w t p :
    tasks w !! t = Some (Holds p TimeWritten) ->
    lstep w (mkWorld (storage w) (adding w) (<[t := Idle]> (tasks w)))
  | lstep_cleanup w now s' :
    cleanup iteration now (storage w) = (Ret tt, s') ->
    lstep w (mkWorld s' (adding w) (tasks w))
  | lstep_quit w :
    lstep w (mkWorld (storage_quit (storage w)).2 (adding w) (tasks w)).

Inductive reachable (maxAge : Z) : world -> Prop :=
  | reachable_start ts :
    (forall t k, ts !! t = Some k -> k = Idle) ->
    reachable maxAge (mkWorld (JobStorage_new maxAge) [] ts)
  | reachable_step w w' : reachable maxAge w -> lstep w w' -> reachable maxAge w'.

(** The jobs that no worker has taken. *)
Definition waiting (w : world) : list JobPtr := adding w ++ queue_ (queue (storage w)).

Definition phase_ok (ph : phase) (j : Job) : Prop :=
  match ph with
  | Taken => status j = QUEUED /\ timeFinished j = 0%Z
  | Processing => status j = IN_PROCESS /\ timeFinished j = 0%Z
  | StatusWritten => isDone j = true /\ timeFinished j = 0%Z
  | TimeWritten => isDone j = true
  end.

Record life_ok (w : world) : Prop := {
  lo_map : forall k p, jobMap (storage w) !! k = Some p ->
           exists j, heap (storage w) !! p = Some j /\ id j = k;
  lo_ids : forall p p' j j', heap (storage w) !! p = Some j -> heap (storage w) !! p' = Some j' ->
           id j = id j' -> p = p';
  lo_kept : forall p j, heap (storage w) !! p = Some j -> isDone j = false ->
            jobMap (storage w) !! id j = Some p;
  lo_nodup : NoDup (waiting w);
  lo_waiting : forall p, p ∈ waiting w -> exists j, heap (storage w) !! p = Some j /\ phase_ok Taken j;
  lo_holds : forall t p ph, tasks w !! t = Some (Holds p ph) ->
             ~ (p ∈ waiting w) /\ exists j, heap (storage w) !! p = Some j /\ phase_ok ph j;
  lo_owner : forall t t' p ph ph', tasks w !! t = Some (Holds p ph) ->
             tasks w !! t' = Some (Holds p ph') -> t = t';
  lo_place : forall p j, heap (storage w) !! p = Some j -> isDone j = false ->
             p ∈ waiting w \/ exists t ph, tasks w !! t = Some (Holds p ph)
}.

Lemma held_job w t p ph j :
  life_ok w -> tasks w !! t = Some (Holds p ph) -> heap (storage w) !! p = Some j -> phase_ok ph j.
Proof.
  intros Hok Ht Hj. destruct (lo_holds _ Hok _ _ _ Ht) as (_ & j' & Hj' & Hph). congruence.
Qed.

(** A worker that holds a job changes it and moves on. *)
Lemma life_ok_update w t p ph ph' j j' :
  life_ok w -> tasks w !! t = Some (Holds p ph) -> heap (storage w) !! p = Some j ->
  id j' = id j -> phase_ok ph' j' -> (isDone j' = false -> isDone j = false) ->
  life_ok (mkWorld (update_job p j' (storage w)) (adding w) (<[t := Holds p ph']> (tasks w))).
Proof.
  intros [Hm Hi Hk Hn Hw Hh Ho Hp] Ht Hj Hid Hph Hd.
  destruct (Hh _ _ _ Ht) as [Hnw _].
  split; simpl; unfold waiting; simpl.
  - intros k p' Hk'. destruct (Hm _ _ Hk') as (j0 & Hj0 & <-).
    destruct (decide (p = p')) as [<-|Hne]; [rewrite lookup_insert_eq|rewrite lookup_insert_ne by done];
      [exists j'; split; congruence|eauto].
  - intros p1 p2 j1 j2. rewrite !lookup_insert_Some.
    intros [[<- <-]|[? H1]] [[<- <-]|[? H2]] He; try done.
    + rewrite Hid in He. eauto.
    + rewrite Hid in He. eauto.
    + eauto.
  - intros p1 j1. rewrite lookup_insert_Some. intros [[<- <-]|[? H1]] Hf; [|by apply Hk].
    rewrite Hid. apply Hk; [done|]. by apply Hd.
  - exact Hn.
  - intros p1 Hp1. rewrite lookup_insert_ne; [by apply Hw|]. by intros ->.
  - intros t1 p1 ph1. rewrite lookup_insert_Some. intros [[<- [= <- <-]]|[Hne H1]].
    + split; [done|]. exists j'. by rewrite lookup_insert_eq.
    + destruct (Hh _ _ _ H1) as (Hx & j1 & Hj1 & Hph1). split; [done|]. exists j1.
      rewrite lookup_insert_ne; [done|]. intros <-. exfalso. by apply Hne, (Ho t t1 p ph ph1).
  - intros t1 t2 p1 ph1 ph2. rewrite !lookup_insert_Some.
    intros [[<- H1]|[? H1]] [[<- H2]|[? H2]]; simplify_eq; eauto.
  - intros p1 j1. rewrite lookup_insert_Some. intros [[<- <-]|[Hne H1]] Hf.
    + right. exists t, ph'. by rewrite lookup_insert_eq.
    + destruct (Hp _ _ H1 Hf) as [Hx|(t1 & ph1 & Hx)]; [by left|right].
      exists t1, ph1. rewrite lookup_insert_ne; [done|]. intros ->. congruence.
Qed.

(** The queue, and the jobs on their way to it, matter up to order. *)
Lemma life_ok_perm w w' :
  life_ok w -> heap (storage w') = heap (storage w) -> jobMap (storage w') = jobMap (storage w) ->
  tasks w' = tasks w -> waiting w' ≡ₚ waiting w -> life_ok w'.
Proof.
  intros [Hm Hi Hk Hn Hw Hh Ho Hp] E1 E2 E3 E4.
  split; rewrite ?E1, ?E2, ?E3; try done.
  - by rewrite E4.
  - intros p Hx. rewrite E4 in Hx. by apply Hw.
  - intros t p ph H. rewrite E4. by apply Hh in H.
  - intros p j Hj Hf. rewrite E4. exact (Hp p j Hj Hf).
Qed.

Lemma life_ok_add w p j :
  life_ok w -> heap (storage w) !! p = None -> status j = QUEUED -> timeFinished j = 0%Z ->
  (forall p' j', heap (storage w) !! p' = Some j' -> id j' <> id j) ->
  life_ok (mkWorld (addJob p (update_job p j (storage w))).2 (p :: adding w) (tasks w)).
Proof.
  intros [Hm Hi Hk Hn Hw Hh Ho Hp] Hf Hs Hz Hu.
  assert (E : (addJob p (update_job p j (storage w))).2 =
              set_jobMap (<[id j := p]> (jobMap (storage w))) (update_job p j (storage w))).
  { unfold addJob. by erewrite bind_step by (unfold deref; simpl; by rewrite lookup_insert_eq). }
  rewrite E. clear E.
  assert (Hnw : ~ (p ∈ waiting w)) by (intros Hx; destruct (Hw _ Hx) as (? & ? & _); congruence).
  split; simpl; unfold waiting; simpl.
  - intros k p'. rewrite lookup_insert_Some. intros [[<- <-]|[Hne H]].
    + exists j. by rewrite lookup_insert_eq.
    + destruct (Hm _ _ H) as (j0 & Hj0 & Hk0). exists j0. rewrite lookup_insert_ne; [done|congruence].
  - intros p1 p2 j1 j2. rewrite !lookup_insert_Some.
    intros [[<- <-]|[? H1]] [[<- <-]|[? H2]] He; try done.
    + symmetry in He. by apply (Hu _ _ H2) in He.
    + by apply (Hu _ _ H1) in He.
    + eauto.
  - intros p1 j1. rewrite !lookup_insert_Some. intros [[<- <-]|[? H1]] Hd; [by left|right].
    split; [|by apply Hk]. intros Hx. by apply (Hu p1 j1).
  - by constructor.
  - intros p1. change (adding w ++ queue_ (queue (storage w))) with (waiting w).
    rewrite elem_of_cons. intros [->|Hx]; [exists j; by rewrite lookup_insert_eq|].
    rewrite lookup_insert_ne by (by intros ->). by apply Hw.
  - intros t p1 ph H. destruct (Hh _ _ _ H) as (Hx & j1 & Hj1 & Hph).
    change (adding w ++ queue_ (queue (storage w))) with (waiting w). rewrite elem_of_cons.
    assert (p <> p1) by congruence. split; [naive_solver|]. exists j1. by rewrite lookup_insert_ne.
  - exact Ho.
  - intros p1 j1. rewrite lookup_insert_Some. intros [[<- <-]|[Hne H]] Hd; [left; left|].
    destruct (Hp _ _ H Hd) as [?|?]; [left; by right|by right].
Qed.

Lemma life_ok_take w t p s' :
  life_ok w -> tasks w !! t = Some Idle -> storage_popNoWait (storage w) = (Ret (Some p), s') ->
  life_ok (mkWorld s' (adding w) (<[t := Holds p Taken]> (tasks w))).
Proof.
  intros [Hm Hi Hk Hn Hw Hh Ho Hp] Ht Hpop. unfold storage_popNoWait, popNoWait in Hpop.
  destruct (queue_ (queue (storage w))) as [|x rest] eqn:Hq; simplify_eq.
  assert (Hpm : waiting w ≡ₚ p :: (adding w ++ rest))
    by (unfold waiting; rewrite Hq; by rewrite Permutation_middle).
  rewrite Hpm in Hn. apply NoDup_cons in Hn as [Hnp Hn].
  split; simpl; unfold waiting; simpl; try done.
  - intros p1 Hp1. apply Hw. rewrite Hpm. by right.
  - intros t1 p1 ph1. rewrite lookup_insert_Some.
    intros [[<- [= <- <-]]|[Hne H1]].
    + split; [done|]. apply Hw. rewrite Hpm. by left.
    + destruct (Hh _ _ _ H1) as [Hx Hy]. split; [|done]. rewrite Hpm in Hx. set_solver.
  - intros t1 t2 p1 ph1 ph2. rewrite !lookup_insert_Some.
    intros [[<- H1]|[? H1]] [[<- H2]|[? H2]]; simplify_eq; eauto.
    + destruct (Hh _ _ _ H2) as [Hx _]. exfalso. apply Hx. rewrite Hpm. by left.
    + destruct (Hh _ _ _ H1) as [Hx _]. exfalso. apply Hx. rewrite Hpm. by left.
  - intros p1 j1 H1 Hd. destruct (Hp _ _ H1 Hd) as [Hx|(t1 & ph1 & Hx)].
    + rewrite Hpm, elem_of_cons in Hx. destruct Hx as [->|Hx]; [right|by left].
      exists t, Taken. by rewrite lookup_insert_eq.
    + right. exists t1, ph1. rewrite lookup_insert_ne; [done|congruence].
Qed.

Lemma life_ok_release w t p :
  life_ok w -> tasks w !! t = Some (Holds p TimeWritten) ->
  life_ok (mkWorld (storage w) (adding w) (<[t := Idle]> (tasks w))).
Proof.
  intros [Hm Hi Hk Hn Hw Hh Ho Hp] Ht. split; simpl; try done.
  - intros t1 p1 ph1. rewrite lookup_insert_Some. intros [[_ ?]|[? H1]]; [done|]. by apply (Hh t1).
  - intros t1 t2 p1 ph1 ph2. rewrite !lookup_insert_Some.
    intros [[_ ?]|[_ H1]] [[_ ?]|[_ H2]]; try done. eauto.
  - intros p1 j1 H1 Hd. destruct (Hp _ _ H1 Hd) as [Hx|(t1 & ph1 & Hx)]; [by left|right].
    exists t1, ph1. rewrite lookup_insert_ne; [done|]. intros <-.
    rewrite Ht in Hx. injection Hx as -> <-.
    destruct (Hh _ _ _ Ht) as (_ & j2 & Hj2 & Hd2). simpl in Hd2. congruence.
Qed.

Lemma life_ok_cleanup w now s' :
  life_ok w -> cleanup iteration now (storage w) = (Ret tt, s') ->
  life_ok (mkWorld s' (adding w) (tasks w)).
Proof.
  intros Hok Hc. destruct Hok as [Hm Hi Hk Hn Hw Hh Ho Hp].
  destruct (cleanup_spec iteration iteration_perm now (storage w)) as (m & Hr & Hm').
  { intros k p H. destruct (Hm _ _ H) as (j & Hj & _). eauto. }
  rewrite Hc in Hr. injection Hr as ->. split; simpl; try done.
  - intros k p H. apply Hm. by apply Hm'.
  - intros p j Hj Hd. apply Hm'. split; [by apply Hk|]. intros j' Hj'.
    rewrite Hj in Hj'. injection Hj' as <-. unfold expired. by rewrite Hd.
Qed.

Lemma life_ok_step w w' : life_ok w -> lstep w w' -> life_ok w'.
Proof.
  intros Hok Hs. destruct Hs as [w p j|w p l1 l2 Ha|w t p s' Ht Hpop|w t p j Ht Hj|w t p ph j m Ht Hj
    |w t p ph j n1 n2 n3 n4 n5 Ht Hj|w t p j st Ht Hj Hst|w t p j now Ht Hj|w t p Ht|w now s' Hc|w].
  - by apply life_ok_add.
  - eapply life_ok_perm; [exact Hok|done..|]. unfold waiting. simpl. rewrite Ha.
    rewrite <- !app_assoc. simpl. rewrite (Permutation_app_comm (queue_ _) [p]). simpl.
    by rewrite <- Permutation_middle.
  - by eapply life_ok_take.
  - destruct (held_job _ _ _ _ _ Hok Ht Hj) as [Hs Hz].
    eapply life_ok_update; [done..| |]; simpl; [done|]. intros _.
    unfold isDone. rewrite Hs. by apply bool_decide_eq_false; intros [|].
  - pose proof (held_job _ _ _ _ _ Hok Ht Hj) as Hph. rewrite <- (insert_id (tasks w) t (Holds p ph)) by done.
    eapply life_ok_update; [done..| |done]; by destruct ph.
  - pose proof (held_job _ _ _ _ _ Hok Ht Hj) as Hph. rewrite <- (insert_id (tasks w) t (Holds p ph)) by done.
    eapply life_ok_update; [done..| |done]; by destruct ph.
  - destruct (held_job _ _ _ _ _ Hok Ht Hj) as [Hs Hz].
    assert (Hd : isDone (with_status st j) = true) by (by apply bool_decide_eq_true).
    eapply life_ok_update; [done..| |]; [by split|]. by rewrite Hd.
  - destruct (held_job _ _ _ _ _ Hok Ht Hj) as [Hs Hz].
    eapply life_ok_update; [done..| |done]. exact Hs.
  - by eapply life_ok_release.
  - by eapply life_ok_cleanup.
  - by eapply life_ok_perm.
Qed.

Lemma life_ok_reachable maxAge w : reachable maxAge w -> life_ok w.
Proof.
  induction 1 as [ts Hts|w w' Hr IH Hs]; [|by eapply life_ok_step].
  assert (Hno : forall t p ph, ts !! t = Some (Holds p ph) -> False)
    by (intros t p ph H; by apply Hts in H).
  split; simpl; unfold waiting; simpl; try (intros *; rewrite lookup_empty; done).
  - constructor.
  - intros p Hp. by apply not_elem_of_nil in Hp.
  - intros t p ph H. by apply Hno in H.
  - intros t t' p ph ph' H. by apply Hno in H.
Qed.

(** The steps of the storage, seen by a client. *)
Lemma lookup_visible s k st :
  visible s !! k = Some st <->
  exists p j, jobMap s !! k = Some p /\ heap s !! p = Some j /\ status j = st.
Proof.
  unfold visible. rewrite lookup_omap_Some. split.
  - intros (p & H1 & H2). apply fmap_Some in H1 as (j & Hj & ->). eauto.
  - intros (p & j & H1 & H2 & <-). exists p. by rewrite H2.
Qed.

Lemma visible_held w p j :
  life_ok w -> heap (storage w) !! p = Some j -> isDone j = false ->
  visible (storage w) !! id j = Some (status j).
Proof. intros Hok Hj Hd. apply lookup_visible. exists p, j. by rewrite (lo_kept _ Hok p j). Qed.

Lemma visible_update w p j j' :
  life_ok w -> heap (storage w) !! p = Some j -> jobMap (storage w) !! id j = Some p ->
  visible (update_job p j' (storage w)) = <[id j := status j']> (visible (storage w)).
Proof.
  intros Hok Hj Hk. apply map_eq. intros k. unfold visible at 1. rewrite lookup_omap. simpl.
  destruct (decide (id j = k)) as [<-|Hne].
  - by rewrite lookup_insert_eq, Hk; simpl; rewrite lookup_insert_eq.
  - rewrite lookup_insert_ne by done. unfold visible. rewrite lookup_omap.
    destruct (jobMap (storage w) !! k) as [p'|] eqn:Hp; [|done]. simpl.
    rewrite lookup_insert_ne; [done|]. intros <-.
    destruct (lo_map _ Hok _ _ Hp) as (j2 & Hj2 & <-). congruence.
Qed.

Lemma visible_same s p j j' :
  heap s !! p = Some j -> status j' = status j -> visible (update_job p j' s) = visible s.
Proof.
  intros Hj Hs. apply map_eq. intros k. unfold visible. rewrite !lookup_omap. simpl.
  destruct (jobMap s !! k) as [p'|]; [|done]. simpl.
  destruct (decide (p = p')) as [<-|Hne]; [|by rewrite lookup_insert_ne].
  rewrite lookup_insert_eq, Hj. simpl. by f_equal.
Qed.

Lemma visible_add w p j :
  life_ok w -> heap (storage w) !! p = None -> 
  visible (addJob p (update_job p j (storage w))).2 = <[id j := status j]> (visible (storage w)).
Proof.
  intros Hok Hf. unfold addJob.
  erewrite bind_step by (unfold deref; simpl; by rewrite lookup_insert_eq).
  apply map_eq. intros k. unfold visible at 1. rewrite lookup_omap. simpl.
  destruct (decide (id j = k)) as [<-|Hne].
  - by rewrite !lookup_insert_eq; simpl; rewrite lookup_insert_eq.
  - rewrite !lookup_insert_ne by done. unfold visible. rewrite lookup_omap.
    destruct (jobMap (storage w) !! k) as [p'|] eqn:Hp; [|done]. simpl.
    rewrite lookup_insert_ne; [done|]. intros <-.
    destruct (lo_map _ Hok _ _ Hp) as (j2 & Hj2 & _). congruence.
Qed.

Lemma visible_cleanup w now s' :
  life_ok w -> cleanup iteration now (storage w) = (Ret tt, s') ->
  client_step (visible (storage w)) (visible s').
Proof.
  intros Hok Hc. destruct (cleanup_spec iteration iteration_perm now (storage w)) as (m & Hr & Hm).
  { intros k p H. destruct (lo_map _ Hok _ _ H) as (j & Hj & _). eauto. }
  rewrite Hc in Hr. injection Hr as ->. apply client_forget.
  - apply map_subseteq_spec. intros k st (p & j & Hk & Hj & Hst)%lookup_visible.
    apply lookup_visible. exists p, j. split; [by apply Hm in Hk as [? _]|done].
  - intros k st (p & j & Hk & Hj & Hst)%lookup_visible Hno.
    destruct (decide (isDone j = true)) as [Hd|Hd].
    { apply bool_decide_eq_true in Hd. by rewrite Hst in Hd. }
    apply not_true_is_false in Hd.
    assert (visible (set_jobMap m (storage w)) !! k = Some st); [|congruence].
    apply lookup_visible. exists p, j. split; [|done]. apply Hm. split; [done|].
    intros j' Hj'. assert (j' = j) as -> by (simpl in Hj; congruence).
    unfold expired. by rewrite Hd.
Qed.

(** [C14] Whatever the interleaving of pushes, workers, cleanup passes and
    [quit]: a job that is not done is found by its id, and it is either waiting
    for a worker, or held by one worker and no other. *)
Theorem unfinished_job_kept maxAge w p j :
  reachable maxAge w -> heap (storage w) !! p = Some j -> isDone j = false ->
  getJob (id j) (storage w) = (Ret p, storage w) /\
  ((p ∈ waiting w /\ forall t ph, tasks w !! t <> Some (Holds p ph)) \/
   (~ (p ∈ waiting w) /\ exists! t, exists ph, tasks w !! t = Some (Holds p ph))).
Proof.
  intros Hr Hj Hd. pose proof (life_ok_reachable _ _ Hr) as Hok.
  split; [unfold getJob; by rewrite (lo_kept _ Hok p j Hj Hd)|].
  destruct (lo_place _ Hok p j Hj Hd) as [Hw|(t & ph & Ht)].
  - left. split; [done|]. intros t ph Ht. by apply (lo_holds _ Hok) in Ht as [? _].
  - right. destruct (lo_holds _ Hok _ _ _ Ht) as [Hnw _]. split; [done|].
    exists t. split; [by exists ph|]. intros t' [ph' Ht']. by apply (lo_owner _ Hok t t' p ph ph').
Qed.

(** [C24] The concurrent storage refines the machine that a client is promised:
    it starts without jobs, and every step of a handler, a worker, the cleanup
    thread or [quit] either is invisible or accepts a new job as queued, puts a
    queued job in process, finishes or fails a job in process, or forgets jobs
    that are done.  So no status is skipped or taken back, and no job vanishes
    before it is done. *)
Theorem storage_refines_client maxAge :
  visible (JobStorage_new maxAge) = ∅ /\
  forall w w', reachable maxAge w -> lstep w w' ->
    visible (storage w') = visible (storage w) \/
    client_step (visible (storage w)) (visible (storage w')).
Proof.
  split; [done|]. intros w w' Hr%life_ok_reachable Hs.
  destruct Hs as [w p j Hf Hs Hz Hu|w p l1 l2 Ha|w t p s' Ht Hpop|w t p j Ht Hj|w t p ph j m Ht Hj
    |w t p ph j n1 n2 n3 n4 n5 Ht Hj|w t p j st Ht Hj Hst|w t p j now Ht Hj|w t p Ht|w now s' Hc|w];
    simpl; try (by left).
  - right. rewrite visible_add, Hs by done. apply client_accept.
    destruct (visible (storage w) !! id j) as [st|] eqn:Hv; [|done].
    apply lookup_visible in Hv as (p' & j' & Hp' & Hj' & _).
    destruct (lo_map _ Hr _ _ Hp') as (j2 & Hj2 & Hid). by apply Hu in Hj2.
  - left. unfold storage_popNoWait in Hpop. destruct (popNoWait _). by simplify_eq.
  - right. destruct (held_job _ _ _ _ _ Hr Ht Hj) as [Hst Hz].
    assert (Hd : isDone j = false) by (unfold isDone; by rewrite Hst).
    erewrite visible_update by eauto using lo_kept. apply client_start.
    by rewrite (visible_held _ _ _ Hr Hj Hd), Hst.
  - left. by eapply visible_same.
  - left. by eapply visible_same.
  - right. destruct (held_job _ _ _ _ _ Hr Ht Hj) as [Hst' Hz].
    assert (Hd : isDone j = false) by (unfold isDone; by rewrite Hst').
    erewrite visible_update by eauto using lo_kept. apply client_finish; [|done].
    by rewrite (visible_held _ _ _ Hr Hj Hd), Hst'.
  - left. by eapply visible_same.
  - right. by eapply visible_cleanup.
Qed.

(** [setStatus] is not atomic: when a cleanup pass falls between its two
    writes, the finish time it reads is still the epoch, so the job that has
    this moment been finished is removed although it is younger than the
    configured age, and a client that asks for it gets an error. *)
Theorem cleanup_race maxAge w t p j now :
  reachable maxAge w -> tasks w !! t = Some (Holds p StatusWritten) ->
  heap (storage w) !! p = Some j -> (maxAgeDoneJobs (storage w) * 1000000000 < now)%Z ->
  exists s', cleanup iteration now (storage w) = (Ret tt, s') /\
    getJob (id j) s' = (Throw (OutOfRange "job is not contained in jobstorage"), s').
Proof.
  intros Hr Ht Hj Hnow. pose proof (life_ok_reachable _ _ Hr) as Hok.
  destruct (cleanup_spec iteration iteration_perm now (storage w)) as (m & Hc & Hm).
  { intros k p' H. destruct (lo_map _ Hok _ _ H) as (j' & Hj' & _). eauto. }
  eexists. split; [exact Hc|]. unfold getJob. simpl.
  destruct (m !! id j) as [p'|] eqn:Hk; [|done]. apply Hm in Hk as [Hk He].
  destruct (lo_map _ Hok _ _ Hk) as (j' & Hj' & Hid).
  pose proof (lo_ids _ Hok p' p j' j Hj' Hj Hid) as ->. simplify_eq.
  destruct (lo_holds _ Hok _ _ _ Ht) as (_ & j2 & Hj2 & Hd & Hz). simplify_eq.
  specialize (He _ Hj). unfold expired in He. rewrite Hd, Hz in He. simpl in He.
  apply bool_decide_eq_false in He. lia.
Qed.
End Life.

(** ** Witnesses *)
Definition storage_example : JobStorage :=
  mkJobStorage
    {[0 := with_timeFinished 5 (with_status FAILED (Job_new PULL "a" 1)); 1 := Job_new PULL "b" 2]}
    {["a" := 0; "b" := 1]} QuitableQueue_new 1.

Lemma storage_example_ok : pointers_ok storage_example.
Proof.
  intros k p. simpl. rewrite lookup_insert_Some, lookup_singleton_Some.
  intros [[_ <-]|[_ [_ <-]]]; by eexists.
Qed.

Lemma cleanup_removes_expired_witness :
  pointers_ok storage_example /\
  exists s', cleanup map_to_list 2000000000 storage_example = (Ret tt, s') /\
    jobMap s' !! "a" = None.
Proof.
  split; [exact storage_example_ok|].
  destruct (cleanup_removes_expired map_to_list (fun _ => reflexivity _) 2000000000 storage_example
              storage_example_ok) as (s' & Hr & _ & _ & _ & Hm).
  exists s'. split; [exact Hr|]. refine (proj2 (Hm "a" 0 _ eq_refl eq_refl) _). by split.
Defined.

Lemma getOrderedJobs_spec_witness :
  pointers_ok storage_example /\ exists l, getOrderedJobs map_to_list storage_example = (Ret l, storage_example).
Proof.
  split; [exact storage_example_ok|].
  destruct (getOrderedJobs_spec map_to_list (fun _ => reflexivity _) storage_example
              storage_example_ok) as (l & Hr & _). by exists l.
Defined.

Lemma getStats_spec_witness :
  pointers_ok storage_example /\
  exists st, getStats map_to_list storage_example = (Ret st, storage_example) /\ stats_sum st = 2%Z.
Proof.
  split; [exact storage_example_ok|].
  destruct (getStats_spec map_to_list (fun _ => reflexivity _) storage_example
              storage_example_ok) as (st & Hr & _ & Hs). by exists st.
Defined.

(** A run in which worker 0 has taken the only job and written its status. *)
Definition job_a : Job := Job_new PULL "a" 1.
Definition storage_a : JobStorage := mkJobStorage {[0 := job_a]} {["a" := 0]} QuitableQueue_new 10.
Definition world_taken : world := mkWorld storage_a [] {[0 := Holds 0 Taken]}.
Definition world_finishing : world :=
  mkWorld (update_job 0 (with_status FINISHED (with_status IN_PROCESS job_a)) storage_a) []
    {[0 := Holds 0 StatusWritten]}.

Lemma world_taken_reachable : reachable map_to_list 10 world_taken.
Proof.
  set (w0 := mkWorld (JobStorage_new 10) [] {[0 := Idle]}).
  assert (H0 : reachable map_to_list 10 w0).
  { apply reachable_start. intros t k. rewrite lookup_singleton_Some. by intros [_ <-]. }
  set (w1 := mkWorld storage_a [0] {[0 := Idle]}).
  assert (H1 : reachable map_to_list 10 w1).
  { eapply reachable_step; [exact H0|]. exact (lstep_add map_to_list w0 0 job_a eq_refl eq_refl eq_refl
      (fun p' j' H => ltac:(exfalso; revert H; apply lookup_empty_Some))). }
  set (w2 := mkWorld (set_queue (push 0 QuitableQueue_new) storage_a) [] {[0 := Idle]}).
  assert (H2 : reachable map_to_list 10 w2).
  { eapply reachable_step; [exact H1|]. exact (lstep_enqueue map_to_list w1 0 [] [] eq_refl). }
  eapply reachable_step; [exact H2|].
  exact (lstep_take map_to_list w2 0 0 storage_a eq_refl eq_refl).
Qed.

Lemma world_finishing_reachable : reachable map_to_list 10 world_finishing.
Proof.
  eapply reachable_step; [eapply reachable_step; [exact world_taken_reachable|]|].
  - exact (lstep_start map_to_list world_taken 0 0 job_a eq_refl eq_refl).
  - exact (lstep_status map_to_list
             (mkWorld (update_job 0 (with_status IN_PROCESS job_a) storage_a) [] {[0 := Holds 0 Processing]})
             0 0 _ FINISHED eq_refl eq_refl (or_introl eq_refl)).
Qed.

Lemma unfinished_job_kept_witness :
  reachable map_to_list 10 world_taken /\ getJob "a" storage_a = (Ret 0, storage_a).
Proof.
  split; [exact world_taken_reachable|].
  exact (proj1 (unfinished_job_kept map_to_list (fun _ => reflexivity _) 10 world_taken 0 job_a
                  world_taken_reachable eq_refl eq_refl)).
Defined.

Lemma cleanup_race_witness :
  reachable map_to_list 10 world_finishing /\
  exists s', cleanup map_to_list 1700000000000000000 (storage world_finishing) = (Ret tt, s') /\
    getJob "a" s' = (Throw (OutOfRange "job is not contained in jobstorage"), s').
Proof.
  split; [exact world_finishing_reachable|].
  exact (cleanup_race map_to_list (fun _ => reflexivity _) 10 world_finishing 0 0 _
           1700000000000000000 world_finishing_reachable eq_refl eq_refl eq_refl).
Defined.

Lemma storage_refines_client_witness :
  reachable map_to_list 10 world_taken /\
  (visible (storage world_taken) !! "a" = Some QUEUED) /\
  (visible (update_job 0 (with_status IN_PROCESS job_a) storage_a) = visible storage_a \/
   client_step (visible storage_a) (visible (update_job 0 (with_status IN_PROCESS job_a) storage_a))).
Proof.
  split; [exact world_taken_reachable|]. split; [reflexivity|].
  destruct (storage_refines_client map_to_list (fun m => reflexivity (R := Permutation) _) 10) as [_ H].
  exact (H world_taken _ world_taken_reachable
           (lstep_start map_to_list world_taken 0 0 job_a eq_refl eq_refl)).
Defined.
