(* ===== verification/CleanupThread.v ===== *)
(** * The cleanup thread from construction to destruction

    The constructor and the destructor of [JobStorage]
    ([server/jobstorage.cpp]): a thread that removes expired jobs every few
    seconds until it gets the timed mutex [cleanupExitMutex], which the storage
    holds for its whole life.  [try_lock_for] gives up only while somebody else
    holds the mutex; the pass over the map is [JobStorage.cleanup]. *)
From S2P Require Import Prelude Job QuitableQueue JobStorage.

(** ** The threads *)

(** Where the cleanup thread is: before [try_lock_for], in the body of its loop,
    behind the loop, or at its end. *)
Inductive CleanerPc := Trying | Passing | Leaving | Exited.
(** Where the thread is that owns the storage: the storage in use, behind
    [queue.quit()], behind [unlock()], and behind [join()]. *)
Inductive OwnerPc := InUse | Quitted | Joining | Destroyed.

#[export] Instance CleanerPc_eq_dec : EqDecision CleanerPc.
Proof. solve_decision. Defined.
#[export] Instance OwnerPc_eq_dec : EqDecision OwnerPc.
Proof. solve_decision. Defined.

(** Threads have numbers; [cleaner_id] is that of the cleanup thread. *)
Definition cleaner_id : nat := 0.

Record StorageLife := mkLife {
  jobs : JobStorage;
  (** The thread that holds [cleanupExitMutex]. *)
  cleanupExitMutex : option nat;
  cleaner : CleanerPc;
  owner : OwnerPc;
  (** Passes since the destructor was entered. *)
  late_passes : nat
}.

Section CleanupThread.
(** The thread of the constructor and the one of the destructor. *)
Context (creator destroyer : nat).
Context (iteration : gmap string JobPtr -> list (string * JobPtr)).

(** The constructor: it locks the mutex and starts the thread. *)
Definition life_new (_maxAgeDoneJobs : Z) : StorageLife :=
  mkLife (JobStorage_new _maxAgeDoneJobs) (Some creator) Trying InUse 0.

(** One step of the cleanup thread; [None] when it cannot go on. *)
Definition cleaner_step (now : Z) (l : StorageLife) : option StorageLife :=
  match cleaner l with
  | Trying =>
    match cleanupExitMutex l with
    | None => Some (mkLife (jobs l) (Some cleaner_id) Leaving (owner l) (late_passes l))
    | Some _ => Some (mkLife (jobs l) (cleanupExitMutex l) Passing (owner l) (late_passes l))
    end
  | Passing =>
    match cleanup iteration now (jobs l) with
    | (Ret _, s) =>
      Some (mkLife s (cleanupExitMutex l) Trying (owner l)
              (if decide (owner l = InUse) then late_passes l else S (late_passes l)))
    | _ => None
    end
  | Leaving => Some (mkLife (jobs l) None Exited (owner l) (late_passes l))
  | Exited => None
  end.

(** One step of the destructor.  A mutex may only be unlocked by its holder, and
    [join] returns when the thread has ended. *)
Definition owner_step (l : StorageLife) : option StorageLife :=
  match owner l with
  | InUse => Some (mkLife (storage_quit (jobs l)).2 (cleanupExitMutex l) (cleaner l) Quitted (late_passes l))
  | Quitted =>
    if decide (cleanupExitMutex l = Some destroyer)
    then Some (mkLife (jobs l) None (cleaner l) Joining (late_passes l))
    else None
  | Joining =>
    if decide (cleaner l = Exited)
    then Some (mkLife (jobs l) (cleanupExitMutex l) (cleaner l) Destroyed (late_passes l))
    else None
  | Destroyed => None
  end.

(** The two threads, and what handlers and workers do to a storage in use. *)
Inductive own_step (l : StorageLife) : StorageLife -> Prop :=
  | own_cleaner now l' : cleaner_step now l = Some l' -> own_step l l'
  | own_owner l' : owner_step l = Some l' -> own_step l l'.
Inductive life_step (l : StorageLife) : StorageLife -> Prop :=
  | life_own l' : own_step l l' -> life_step l l'
  | life_others s : owner l = InUse -> pointers_ok s ->
      life_step l (mkLife s (cleanupExitMutex l) (cleaner l) (owner l) (late_passes l)).

Definition life_reachable (maxAge : Z) (l : StorageLife) : Prop := rtc life_step (life_new maxAge) l.

(** ** The invariant *)
Record life_inv (l : StorageLife) : Prop := {
  li_pointers : pointers_ok (jobs l);
  (** Who holds the mutex, and where the threads are then. *)
  li_threads :
    match owner l with
    | InUse | Quitted => cleanupExitMutex l = Some creator /\ (cleaner l = Trying \/ cleaner l = Passing)
    | Joining => cleanupExitMutex l = if decide (cleaner l = Leaving) then Some cleaner_id else None
    | Destroyed => cleanupExitMutex l = None /\ cleaner l = Exited
    end
}.

Context (iteration_perm : forall m, iteration m ≡ₚ map_to_list m).

Lemma cleanup_runs now s :
  pointers_ok s -> exists s', cleanup iteration now s = (Ret tt, s') /\ pointers_ok s' /\ queue s' = queue s.
Proof.
  intros Hp. destruct (cleanup_spec iteration iteration_perm now s Hp) as (m & Hr & Hm).
  exists (set_jobMap m s). split; [done|]. split; [|done]. intros k p Hk. cbn in *.
  apply Hm in Hk as [Hk _]. by apply (Hp k p).
Qed.

Lemma life_inv_new maxAge : life_inv (life_new maxAge).
Proof. split; [intros k p Hk; cbn in Hk; by rewrite lookup_empty in Hk|]. split; [done|by left]. Qed.

Lemma life_inv_step l l' : life_inv l -> life_step l l' -> life_inv l'.
Proof.
  intros [Hp Ht] Hs. destruct Hs as [l' [now l'' Hc|l'' Ho]|s Hu Hp'].
  - unfold cleaner_step in Hc. destruct (cleaner l) eqn:Hcl.
    + destruct (cleanupExitMutex l) eqn:Hm; injection Hc as <-; (split; [done|]); cbn; destruct (owner l);
        rewrite ?decide_False in Ht by done; naive_solver.
    + destruct (cleanup_runs now (jobs l) Hp) as (s & Hr & Hps & _). rewrite Hr in Hc. injection Hc as <-.
      split; [done|]. cbn. destruct (owner l); rewrite ?decide_False in Ht |- * by done; naive_solver.
    + injection Hc as <-. split; [done|]. cbn. destruct (owner l); rewrite ?decide_False by done; naive_solver.
    + done.
  - unfold owner_step in Ho. destruct (owner l) eqn:Ho'; [| | |done].
    + injection Ho as <-. by split.
    + case_decide; [|done]. injection Ho as <-. split; [done|]. cbn.
      rewrite decide_False; [done|]. intros E. rewrite E in Ht. naive_solver.
    + case_decide as Hx; [|done]. injection Ho as <-. split; [done|]. cbn.
      rewrite Hx, decide_False in Ht by done. by split.
  - split; [done|]. cbn. by rewrite Hu in Ht |- *.
Qed.

Lemma life_reachable_inv maxAge l : life_reachable maxAge l -> life_inv l.
Proof.
  intros H. unfold life_reachable in H. remember (life_new maxAge) as l0 eqn:E.
  assert (H0 : life_inv l0) by (subst; apply life_inv_new). clear E.
  induction H as [|x y z Hxy _ IH]; [done|]. apply IH. by eapply life_inv_step.
Qed.

(** ** The end of the destructor *)

(** The steps that are left once the mutex has been unlocked. *)
Definition steps_left (l : StorageLife) : nat :=
  match owner l, cleaner l with
  | Joining, Passing => 4
  | Joining, Trying => 3
  | Joining, Leaving => 2
  | Joining, Exited => 1
  | _, _ => 0
  end.
Definition ending (l : StorageLife) : Prop := owner l = Joining \/ owner l = Destroyed.

Lemma ending_step l l' :
  life_inv l -> ending l -> own_step l l' ->
  ending l' /\ S (steps_left l') = steps_left l /\
  late_passes l' + (if decide (cleaner l' = Passing) then 1 else 0) =
  late_passes l + (if decide (cleaner l = Passing) then 1 else 0).
Proof.
  intros [Hp Ht] He [now l'' Hc|l'' Ho].
  - unfold cleaner_step in Hc. destruct He as [He|He]; rewrite He in Ht.
    2: { destruct Ht as [_ Ht]. by rewrite Ht in Hc. }
    unfold steps_left. rewrite He. destruct (cleaner l) eqn:Hcl.
    + rewrite decide_False in Ht by done. rewrite Ht in Hc. injection Hc as <-. cbn. rewrite He. by repeat split; left.
    + destruct (cleanup_runs now (jobs l) Hp) as (s & Hr & _). rewrite Hr in Hc. injection Hc as <-.
      cbn. rewrite He. split; [by left|]. split; [done|]. rewrite (decide_False (P := Joining = InUse)) by done.
      rewrite decide_False, decide_True by done. lia.
    + injection Hc as <-. cbn. rewrite He. split; [by left|]. split; [done|]. by rewrite !decide_False by done.
    + done.
  - unfold owner_step in Ho. destruct He as [He|He]; rewrite He in Ho, Ht; [|done].
    case_decide as Hx; [|done]. injection Ho as <-. unfold steps_left. cbn. rewrite He, Hx.
    split; [by right|]. by split.
Qed.

(** While the destructor waits, a thread can go on. *)
Lemma ending_progress l : life_inv l -> owner l = Joining -> exists l', own_step l l'.
Proof.
  intros [Hp Ht] He. rewrite He in Ht. destruct (cleaner l) eqn:Hcl.
  - eexists. apply (own_cleaner _ 0%Z). unfold cleaner_step. rewrite Hcl. rewrite decide_False in Ht by done.
    by rewrite Ht.
  - destruct (cleanup_runs 0%Z (jobs l) Hp) as (s & Hr & _).
    eexists. apply (own_cleaner _ 0%Z). unfold cleaner_step. by rewrite Hcl, Hr.
  - eexists. apply (own_cleaner _ 0%Z). unfold cleaner_step. by rewrite Hcl.
  - eexists. apply own_owner. unfold owner_step. by rewrite He, decide_True.
Qed.

Lemma own_steps_inv n l l' : life_inv l -> nsteps own_step n l l' -> life_inv l'.
Proof.
  intros Hl Hn. induction Hn as [|n x y z Hxy _ IH]; [done|]. apply IH. apply (life_inv_step x); [done|by left].
Qed.

Lemma ending_bounded n l l' :
  life_inv l -> ending l -> nsteps own_step n l l' ->
  ending l' /\ n + steps_left l' = steps_left l /\ late_passes l' <= late_passes l + (if decide (cleaner l = Passing) then 1 else 0).
Proof.
  intros Hl He Hn. induction Hn as [|n x y z Hxy _ IH]; [split; [done|lia]|].
  destruct (ending_step x y Hl He Hxy) as (He' & Hs & Hp).
  destruct IH as (H1 & H2 & H3); [apply (life_inv_step x); [done|by left]|done|]. split; [done|]. split; lia.
Qed.

Lemma steps_left_le l : steps_left l <= 4.
Proof. unfold steps_left. destruct (owner l), (cleaner l); lia. Qed.
End CleanupThread.

(** A destructor in another thread than the constructor's unlocks a mutex that it
    does not hold. *)
Lemma foreign_destructor creator destroyer iteration maxAge l :
  (forall m, iteration m ≡ₚ map_to_list m) -> life_reachable creator destroyer iteration maxAge l ->
  creator <> destroyer -> owner l = Quitted -> owner_step destroyer l = None.
Proof.
  intros Hi Hl N Ho. destruct (life_reachable_inv _ _ _ Hi _ _ Hl) as [_ Ht]. rewrite Ho in Ht. destruct Ht as [Hm _].
  unfold owner_step. rewrite Ho, Hm. rewrite decide_False; [done|]. congruence.
Qed.

Lemma destructor_run t iteration maxAge l :
  (forall m, iteration m ≡ₚ map_to_list m) -> life_reachable t t iteration maxAge l ->
  (owner l = Destroyed -> cleaner l = Exited /\ cleanupExitMutex l = None) /\
  (owner l = InUse \/ owner l = Quitted -> exists l', owner_step t l = Some l') /\
  (owner l = Joining -> forall n l', nsteps (own_step t iteration) n l l' ->
     n <= 4 /\ late_passes l' <= S (late_passes l) /\
     (owner l' = Destroyed \/ exists l'', own_step t iteration l' l'')).
Proof.
  intros Hi Hl. pose proof (life_reachable_inv _ _ _ Hi _ _ Hl) as Hinv. split; [|split].
  - intros Ho. destruct Hinv as [_ Ht]. rewrite Ho in Ht. by destruct Ht.
  - intros Ho. destruct Hinv as [_ Ht]. unfold owner_step. destruct Ho as [Ho|Ho]; rewrite Ho in Ht |- *; [by eexists|].
    destruct Ht as [Hm _]. rewrite decide_True by done. by eexists.
  - intros Ho n l' Hn.
    destruct (ending_bounded t t iteration Hi n l l' Hinv (or_introl Ho) Hn) as (He & Hs & Hp).
    pose proof (steps_left_le l). split; [lia|]. split; [case_decide; lia|]. destruct He as [He|He]; [|by left].
    right. apply (ending_progress t t iteration Hi); [|done]. by apply (own_steps_inv t t iteration Hi n l).
Qed.

(** [C20] The destructor of the storage ends and leaves nothing behind, when it
    runs in the thread of the constructor: whatever handlers, workers and the
    cleanup thread have done, it gets as far as [join]; from there on every run
    of the two threads has at most four steps and one more pass, and only stops
    when the storage is destroyed; by then the cleanup thread has ended and the
    mutex is free. *)
Theorem destructor_ends t iteration maxAge l :
  (forall m, iteration m ≡ₚ map_to_list m) -> life_reachable t t iteration maxAge l ->
  (owner l = Destroyed -> cleaner l = Exited /\ cleanupExitMutex l = None) /\
  (owner l = InUse \/ owner l = Quitted -> exists l', owner_step t l = Some l') /\
  (owner l = Joining -> forall n l', nsteps (own_step t iteration) n l l' ->
     n <= 4 /\ late_passes l' <= S (late_passes l) /\
     (owner l' = Destroyed \/ exists l'', own_step t iteration l' l'')).
Proof. apply destructor_run. Qed.

(** The destructor is entered in the middle of a pass. *)
Module CleanupExample.
Definition fail_free {A} (o : option A) (d : A) : A := match o with Some a => a | None => d end.
Definition life0 := life_new 7 60.
Definition passing := fail_free (cleaner_step map_to_list 0 life0) life0.
Definition quitted := fail_free (owner_step 7 passing) life0.
Definition joining := fail_free (owner_step 7 quitted) life0.
Lemma joining_reachable : life_reachable 7 7 map_to_list 60 joining.
Proof.
  eapply rtc_l; [left; by apply (own_cleaner _ _ _ 0%Z passing)|].
  eapply rtc_l; [left; by apply (own_owner _ _ _ quitted)|].
  eapply rtc_l; [left; by apply (own_owner _ _ _ joining)|]. apply rtc_refl.
Qed.
Definition trying := fail_free (cleaner_step map_to_list 0 joining) life0.
Lemma one_step : nsteps (own_step 7 map_to_list) 1 joining trying.
Proof. eapply nsteps_l; [by apply (own_cleaner _ _ _ 0%Z trying)|apply nsteps_O]. Qed.
End CleanupExample.

Lemma destructor_ends_witness :
  owner CleanupExample.joining = Joining /\ cleaner CleanupExample.joining = Passing /\
  late_passes CleanupExample.trying <= 1 /\
  (owner CleanupExample.trying = Destroyed \/ exists l'', own_step 7 map_to_list CleanupExample.trying l'').
Proof.
  split; [reflexivity|]. split; [reflexivity|].
  destruct (destructor_ends 7 map_to_list 60 CleanupExample.joining (fun m => reflexivity _)
    CleanupExample.joining_reachable) as (_ & _ & Hj).
  destruct (Hj eq_refl 1 CleanupExample.trying CleanupExample.one_step) as (_ & Hp & He). split; [exact Hp|exact He].
Defined.
