(* ===== verification/LibPQ.v ===== *)
(** * libpq

    The PostgreSQL client library is not part of the sources.  [LibPQ] has the
    functions of it that [src/server/db] calls, as parameters: a connection with
    the server behind it is an unknown state that every request may change.
    Nothing is assumed about the answers. *)
From S2P Require Import Prelude.

Inductive ExecStatusType :=
  | PGRES_EMPTY_QUERY | PGRES_COMMAND_OK | PGRES_TUPLES_OK | PGRES_COPY_OUT | PGRES_COPY_IN
  | PGRES_BAD_RESPONSE | PGRES_NONFATAL_ERROR | PGRES_FATAL_ERROR.

Inductive PGTransactionStatusType :=
  | PQTRANS_IDLE | PQTRANS_ACTIVE | PQTRANS_INTRANS | PQTRANS_INERROR | PQTRANS_UNKNOWN.

#[export] Instance ExecStatusType_eq_dec : EqDecision ExecStatusType.
Proof. solve_decision. Defined.
#[export] Instance PGTransactionStatusType_eq_dec : EqDecision PGTransactionStatusType.
Proof. solve_decision. Defined.

(** What the sources read of a [PGresult]; an error field may be missing. *)
Record PGresult := mkResult {
  resultStatus : ExecStatusType;
  diag_sqlstate : option string;
  diag_message_primary : option string;
  diag_context : option string;
  tuples : list (list string);
  cmdTuples : string
}.

(** The four calls that send a statement; a parameter value may be NULL. *)
Inductive request :=
  | Exec (sql : string)
  | ExecParams (sql : string) (values : list (option string))
  | Prepare (stmtName sql : string) (nParams : nat)
  | ExecPrepared (stmtName : string) (values : list (option string)).

#[export] Instance request_eq_dec : EqDecision request.
Proof. solve_decision. Defined.

Class LibPQ := {
  PGconn : Type;
  PQconnectdb : string -> PGconn;
  PQreset : PGconn -> PGconn;
  (** [PQstatus(pgconn) == CONNECTION_OK]. *)
  PQstatus_ok : PGconn -> bool;
  PQrequest : request -> PGconn -> option PGresult * PGconn;
  PQtransactionStatus : PGconn -> PGTransactionStatusType;
  PQerrorMessage : PGconn -> string;
  PQserverVersion : PGconn -> Z;
  PQescapeIdentifier : PGconn -> string -> option string;
  PQescapeLiteral : PGconn -> string -> option string;
  PQsetClientEncoding : string -> PGconn -> Z * PGconn
}.

Definition PQntuples (res : PGresult) : nat := length (tuples res).

(** [None] is the null pointer of an index that is out of range. *)
Definition PQgetvalue (res : PGresult) (i j : nat) : option string := tuples res !! i ≫= (.!! j).

(** A request that [Transaction::checkResult] lets pass. *)
Definition succeeded (res : option PGresult) : bool :=
  match res with
  | None => false
  | Some r => negb (bool_decide (resultStatus r = PGRES_FATAL_ERROR))
  end.

(** ** A concrete server for witnesses

    It gives every statement the answer [answer] and changes nothing. *)
Definition mock_pq (answer : request -> option PGresult) : LibPQ := {|
  PGconn := unit;
  PQconnectdb := fun _ => tt;
  PQreset := fun c => c;
  PQstatus_ok := fun _ => true;
  PQrequest := fun r c => (answer r, c);
  PQtransactionStatus := fun _ => PQTRANS_INTRANS;
  PQerrorMessage := fun _ => "";
  PQserverVersion := fun _ => 90100%Z;
  PQescapeIdentifier := fun _ s => Some (cat [dquote; s; dquote]);
  PQescapeLiteral := fun _ s => Some (cat ["'"; s; "'"]);
  PQsetClientEncoding := fun _ c => (0%Z, c)
|}.

Definition mock_ok (rows : list (list string)) (cmd : string) : option PGresult :=
  Some (mkResult PGRES_TUPLES_OK None None None rows cmd).
Definition mock_error (sqlstate msg : string) : option PGresult :=
  Some (mkResult PGRES_FATAL_ERROR (Some sqlstate) (Some msg) None [] "").
