(* ===== verification/Connection.v ===== *)
(** * The database connection

    [src/server/db/connection.h] and [src/server/db/connection.cpp].  The object
    keeps, next to its members, the list [sent] of the requests that went to the
    server, each with whether it succeeded; the code does not read it. *)
From S2P Require Import Prelude LibPQ.

Section Connection.
Context {PQ : LibPQ}.

Record Connection := mkConnection {
  pgconn : option PGconn;
  connection_ok : bool;
  sent : list (request * bool)
}.

Definition set_pgconn (p : option PGconn) (c : Connection) : Connection :=
  mkConnection p (connection_ok c) (sent c).
Definition set_connection_ok (b : bool) (c : Connection) : Connection :=
  mkConnection (pgconn c) b (sent c).

(** A request on [pgconn]; without a connection libpq answers NULL. *)
Definition send (r : request) : M Connection (option PGresult) := fun c =>
  match pgconn c with
  | None => (Ret None, c)
  | Some p =>
    let '(res, p') := PQrequest r p in
    (Ret res, mkConnection (Some p') (connection_ok c) (sent c ++ [(r, succeeded res)]))
  end.

(** [PQstatus(pgconn) == CONNECTION_OK]; it is not for a null pointer. *)
Definition status_ok (c : Connection) : bool :=
  match pgconn c with Some p => PQstatus_ok p | None => false end.

Definition transactionStatus (c : Connection) : PGTransactionStatusType :=
  match pgconn c with Some p => PQtransactionStatus p | None => PQTRANS_UNKNOWN end.

Definition errorMessage (c : Connection) : string :=
  match pgconn c with
  | Some p => PQerrorMessage p
  | None => "connection pointer is NULL" +:+ nl
  end.

Definition close : M Connection unit := modify (set_pgconn None).

Definition getVersion : M Connection Z :=
  c ← get;
  let version := match pgconn c with Some p => PQserverVersion p | None => 0%Z end in
  if decide (version = 0)%Z
  then throw (DbError "could not determinate postgresql server version" "" "")
  else mret version.

Definition setApplicationName : M Connection unit :=
  c ← get;
  match pgconn c with
  | None => mret tt
  | Some p =>
    version ← getVersion;
    if decide (90000 <= version)%Z then
      match PQescapeLiteral p "batyrd" with
      | None => mret tt
      | Some batyr_name_e =>
        _ ← send (Exec (c_str (cat ["set application_name to "; batyr_name_e]))); mret tt
      end
    else mret tt
  end.

Section Reconnect.
(** [configuration->getDbConnectionString()]. *)
Context (connString : string).

Definition reconnect_open (restore : bool) : M Connection unit :=
  _ ← send (Exec "select 1");
  c ← get;
  if negb (status_ok c) then
    if restore then
      _ ← modify (fun c => set_pgconn (PQreset <$> pgconn c) c);
      c ← get;
      if negb (status_ok c) then modify (set_connection_ok false)
      else _ ← modify (set_connection_ok true); setApplicationName
    else modify (set_connection_ok false)
  else modify (set_connection_ok true).

Definition reconnect_new : M Connection unit :=
  _ ← modify (set_pgconn (Some (PQconnectdb (c_str connString))));
  c ← get;
  if negb (status_ok c) then modify (set_connection_ok false)
  else _ ← modify (set_connection_ok true); setApplicationName.

Definition reconnect (restore : bool) : M Connection bool :=
  c ← get;
  _ ← match pgconn c with Some _ => reconnect_open restore | None => reconnect_new end;
  c ← get;
  _ ← (if connection_ok c
       then modify (fun c => set_pgconn (snd <$> (PQsetClientEncoding "UTF8" <$> pgconn c)) c)
       else mret tt);
  gets connection_ok.

(** [Connection::Connection]. *)
Definition Connection_new : result unit * Connection :=
  (ok ← reconnect false;
   if negb ok then throw (DbError "Unable to connect to the database" "" "") else mret tt)
    (mkConnection None true []).
End Reconnect.

(** ** [DbError] *)
(** [sqlstate.compare(0, 2, "22") == 0] on a text that is not empty. *)
Definition isDataException (e : exn) : bool :=
  match e with
  | DbError _ sqlstate _ => negb (is_empty sqlstate) && String.eqb (String.substring 0 2 sqlstate) "22"
  | _ => false
  end.

Definition is_db_error (e : exn) : bool := match e with DbError _ _ _ => true | _ => false end.

(** ** Lemmas *)

(** Requests are only ever added to the list. *)
Definition sent_le (c c' : Connection) : Prop := exists new, sent c' = sent c ++ new.

#[local] Instance sent_le_preorder : PreOrder sent_le.
Proof.
  split; [intros c; exists []; by rewrite app_nil_r|].
  intros c1 c2 c3 [n1 H1] [n2 H2]. exists (n1 ++ n2). by rewrite H2, H1, app_assoc.
Qed.

Abbreviation conn_keeps := (keeps sent_le (fun e => is_db_error e = true) False).

Lemma send_keeps r : conn_keeps (send r).
Proof.
  intros c. unfold wp, send. destruct (pgconn c); [|by split].
  destruct (PQrequest r _). split; [by eexists|done].
Qed.

Lemma modify_keeps (f : Connection -> Connection) :
  (forall c, sent (f c) = sent c) -> conn_keeps (modify f).
Proof. intros H. apply keeps_modify. intros c. exists []. by rewrite H, app_nil_r. Qed.

#[local] Hint Resolve send_keeps : keeps.
#[local] Hint Extern 1 (keeps _ _ _ (modify _)) => (apply modify_keeps; done) : keeps.

Lemma getVersion_keeps : conn_keeps getVersion.
Proof. unfold getVersion. keeps_steps. Qed.
#[local] Hint Resolve getVersion_keeps : keeps.

Lemma setApplicationName_keeps : conn_keeps setApplicationName.
Proof. unfold setApplicationName. keeps_steps. Qed.
#[local] Hint Resolve setApplicationName_keeps : keeps.

(** [reconnect] throws nothing but [DbError]s. *)
Lemma reconnect_keeps connString restore : conn_keeps (reconnect connString restore).
Proof. unfold reconnect, reconnect_open, reconnect_new. keeps_steps. Qed.
End Connection.
