(* ===== verification/Transaction.v ===== *)
(** * Transactions

    [src/server/db/transaction.h], [src/server/db/transaction.cpp] and
    [src/server/db/field.h].  A transaction is created by [getTransaction] and
    ended by its destructor when the scope that owns it is left, normally or by
    an exception: [with_transaction]. *)
From S2P Require Import Prelude StringUtils NullableValue LibPQ Connection.

(** [Db::Field] and [FieldMap]; [operator[]] makes a zeroed field. *)
Record Field := mkField {
  field_name : string;
  pgTypeName : string;
  pgTypeOid : Z;
  isPrimaryKey : bool
}.
Abbreviation FieldMap := (gmap string Field).
Definition Field_new : Field := mkField "" "" 0 false.

Section Transaction.
Context {PQ : LibPQ}.
(** The macro [HAVE_PQ_ESCAPE_IDENTIFIER] of the build. *)
Context (have_pq_escape_identifier : bool).

Record Transaction := mkTransaction {
  connection : Connection;
  exitSqls : list string;
  rollback : bool
}.

Definition set_connection (c : Connection) (t : Transaction) : Transaction :=
  mkTransaction c (exitSqls t) (rollback t).
Definition push_exitSql (sql : string) (t : Transaction) : Transaction :=
  mkTransaction (connection t) (exitSqls t ++ [sql]) (rollback t).
Definition set_rollback (t : Transaction) : Transaction :=
  mkTransaction (connection t) (exitSqls t) true.

Definition on_connection {A} (m : M Connection A) : M Transaction A := fun t =>
  let '(r, c) := m (connection t) in (r, set_connection c t).

Definition db_error {A} (msg : string) : M Transaction A := throw (DbError msg "" "").

Definition discard : M Transaction unit := modify set_rollback.

(** The error fields are made into [std::string]s without a test for NULL,
    which is undefined; a missing one is taken as a crash. *)
Definition checkResult (res : option PGresult) : M Transaction PGresult :=
  match res with
  | None =>
    t ← get;
    let msg := cat ["query result was null: "; errorMessage (connection t)] in
    _ ← modify set_rollback;
    db_error msg
  | Some r =>
    if decide (resultStatus r = PGRES_FATAL_ERROR) then
      _ ← modify set_rollback;
      match diag_message_primary r, diag_sqlstate r with
      | Some msg_primary, Some sqlstate =>
        throw (DbError msg_primary sqlstate (default "" (diag_context r)))
      | _, _ => terminate
      end
    else mret r
  end.

(** [PGParams]: the C arrays that libpq gets, NULL for a null value. *)
Definition PGParams (qValues : list NullableValue) : list (option string) :=
  (fun pV => if isNull pV then None else Some (c_str (nv_get pV))) <$> qValues.

Definition exec (_sql : string) : M Transaction PGresult :=
  result ← on_connection (send (Exec (c_str _sql)));
  checkResult result.

Definition execParams (_sql : string) (paramValues : list (option string)) : M Transaction PGresult :=
  result ← on_connection (send (ExecParams (c_str _sql) paramValues));
  checkResult result.

Definition execParams_values (_sql : string) (qValues : list NullableValue) : M Transaction PGresult :=
  execParams _sql (PGParams qValues).

Definition prepare (stmtName _sql : string) (nParams : nat) : M Transaction PGresult :=
  result ← on_connection (send (Prepare (c_str stmtName) (c_str _sql) nParams));
  result ← checkResult result;
  _ ← modify (push_exitSql (cat ["deallocate "; stmtName; ";"]));
  mret result.

Definition execPrepared (stmtName : string) (qValues : list NullableValue) : M Transaction PGresult :=
  result ← on_connection (send (ExecPrepared (c_str stmtName) (PGParams qValues)));
  checkResult result.

(** ** Identifiers *)
Fixpoint escape_identifiers (inStrings : list string) : M Transaction (list string) :=
  match inStrings with
  | [] => mret []
  | inString :: inStrings' =>
    t ← get;
    match pgconn (connection t) ≫= fun p => PQescapeIdentifier p (c_str inString) with
    | Some escaped => rest ← escape_identifiers inStrings'; mret (escaped :: rest)
    | None =>
      db_error (cat ["quoting sql identifier <"; inString; "> failed: ";
                     errorMessage (connection t)])
    end
  end.

(** [quote_ident($1), quote_ident($2), ...], [iParam] counted from [0]. *)
Fixpoint quote_ident_list (iParam n : nat) : string :=
  match n with
  | 0 => ""
  | S n' => (if decide (0 < iParam) then ", " else "") +:+
            cat ["quote_ident($"; to_string (Z.of_nat iParam + 1); ")"] +:+
            quote_ident_list (S iParam) n'
  end.

Fixpoint get_values (res : PGresult) (i n : nat) : M Transaction (list string) :=
  match n with
  | 0 => mret []
  | S n' =>
    match PQgetvalue res 0 i with
    | Some val => rest ← get_values res (S i) n'; mret (c_str val :: rest)
    | None => terminate
    end
  end.

Definition quote_remotely (inStrings : list string) : M Transaction (list string) :=
  res ← execParams ("select " +:+ quote_ident_list 0 (length inStrings))
          ((fun s => Some (c_str s)) <$> inStrings);
  if negb (Nat.eqb (PQntuples res) 1)
  then db_error "Transaction::quoteIdent should only get one tuple from db"
  else get_values res 0 (length inStrings).

Definition quoteIdent_all (inStrings : list string) : M Transaction (list string) :=
  if Nat.ltb 0 (length inStrings) then
    if have_pq_escape_identifier then escape_identifiers inStrings else quote_remotely inStrings
  else mret [].

Definition quoteIdent (uq1 : string) : M Transaction string :=
  qv ← quoteIdent_all [uq1];
  match qv with
  | [q1] => mret q1
  | _ => db_error "Quoted vector should contain excatly one element."
  end.

Definition quoteAndJoinIdent (uq1 uq2 : string) : M Transaction string :=
  qv ← quoteIdent_all [uq1; uq2];
  if negb (Nat.eqb (length qv) 2)
  then db_error "Quoted vector should contain exactly two elements."
  else mret (join qv ".").

(** ** Tables *)
Definition createTempTable (existingTableSchema existingTableName tempTableName : string)
  : M Transaction unit :=
  qTempTableName ← quoteIdent tempTableName;
  version ← on_connection getVersion;
  existing ← quoteAndJoinIdent existingTableSchema existingTableName;
  let query := cat ["create temporary"; if decide (901000 <= version)%Z then " unlogged" else "";
                    " table "; qTempTableName; " as"; " select * from"; " "; existing; " limit 0"] in
  _ ← modify (push_exitSql (cat ["drop table if exists "; qTempTableName]));
  _ ← exec query;
  mret tt.

Definition table_fields_query : string := cat
  ["select pa.attname, pt.typname, pt.oid, coalesce(is_pk.is_pk, 'N')::text as is_pk";
   " from pg_catalog.pg_attribute pa";
   " join pg_catalog.pg_class pc on pc.oid=pa.attrelid and pa.attnum>0";
   " join pg_catalog.pg_namespace pns on pc.relnamespace = pns.oid";
   " join pg_catalog.pg_type pt on pt.oid=pa.atttypid";
   " left join (";
   "    select pcs.conrelid as relid, unnest(conkey) as attnum, 'Y'::text as is_pk ";
   "        from pg_catalog.pg_constraint pcs";
   "        where pcs.contype = 'p'";
   " ) is_pk on is_pk.relid = pc.oid and is_pk.attnum=pa.attnum";
   " where pc.relname = $1::text and pns.nspname = $2::text"].

(** One turn of the loop over the tuples. *)
Definition read_field (res : PGresult) (fieldMap : FieldMap) (i : nat) : result FieldMap :=
  match PQgetvalue res i 0, PQgetvalue res i 1, PQgetvalue res i 2, PQgetvalue res i 3 with
  | Some attname, Some typname, Some oid, Some isPk =>
    let attname := c_str attname in
    let field := default Field_new (fieldMap !! attname) in
    if negb (is_empty (field_name field)) then
      Throw (DbError (cat ["Tables with multiple columns with the same name are not supported. Column: ";
                           attname]) "" "")
    else
      Ret (<[attname := mkField attname (c_str typname) (to_uint (atoi oid))
                          (String.eqb (c_str isPk) "Y")]> fieldMap)
  | _, _, _, _ => Terminated
  end.

Definition getTableFields (tableSchema tableName : string) : M Transaction FieldMap :=
  res ← execParams table_fields_query [Some (c_str tableName); Some (c_str tableSchema)];
  lift (fold_result (read_field res) (seq 0 (PQntuples res)) ∅).

(** ** Begin and end *)

(** [Transaction::Transaction]. *)
Definition Transaction_new (c : Connection) : result PGresult * Transaction :=
  exec "begin;" (mkTransaction c [] false).

Definition run_exitSql (exitSql : string) : M Transaction unit :=
  try_catch (_ ← exec exitSql; mret tt)
    (fun e => if is_db_error e then mret tt else throw e).

(** [Transaction::~Transaction], before the destructor of [exitSqls]. *)
Definition end_transaction : M Transaction unit :=
  t ← get;
  let transactionStatus := transactionStatus (connection t) in
  _ ← (if rollback t || bool_decide (transactionStatus = PQTRANS_INERROR)
          || bool_decide (transactionStatus = PQTRANS_UNKNOWN)
       then exec "rollback;" else exec "commit;");
  _ ← foreach (exitSqls t) run_exitSql;
  modify (fun t => mkTransaction (connection t) [] (rollback t)).

(** A destructor is [noexcept]: an exception that leaves it terminates the
    program. *)
Definition Transaction_destroy : M Transaction unit := fun t =>
  match end_transaction t with
  | (Ret u, t') => (Ret u, t')
  | (_, t') => (Terminated, t')
  end.

(** [if (auto transaction = db.getTransaction()) { body }]; [X] is the state of
    the body beside the transaction. *)
Definition on_transaction {X A} (m : M Transaction A) : M (X * Transaction) A := fun '(x, t) =>
  let '(r, t') := m t in (r, (x, t')).

Definition with_transaction {X A} (body : M (X * Transaction) A) : M (X * Connection) A := fun '(x, c) =>
  match Transaction_new c with
  | (Throw e, t) => (Throw e, (x, connection t))
  | (Terminated, t) => (Terminated, (x, connection t))
  | (Ret _, t1) =>
    match body (x, t1) with
    | (Terminated, (x', t2)) => (Terminated, (x', connection t2))
    | (r, (x', t2)) =>
      match Transaction_destroy t2 with
      | (Ret _, t3) => (r, (x', connection t3))
      | (_, t3) => (Terminated, (x', connection t3))
      end
    end
  end.

(** ** Lemmas *)

(** A request and the check of its result. *)
Record checked_post (r : request) (t : Transaction) (res : result PGresult) (t' : Transaction) : Prop := {
  cp_exit : exitSqls t' = exitSqls t;
  cp_sent : exists new, sent (connection t') = sent (connection t) ++ new /\
            (new = [] \/ new = [(r, is_ret res)]) /\ (is_ret res = true -> new = [(r, true)]) /\
            (is_Some (pgconn (connection t)) -> new = [(r, is_ret res)]);
  cp_rollback : rollback t' = rollback t || negb (is_ret res);
  cp_conn : is_Some (pgconn (connection t)) -> is_Some (pgconn (connection t'));
  cp_throw : match res with Throw e => is_db_error e = true | _ => True end
}.

Lemma checked_spec r t :
  wp (result ← on_connection (send r); checkResult result) (checked_post r t) t.
Proof.
  unfold wp, on_connection, send, checkResult, mbind, M_bind, mret, M_ret.
  destruct t as [c ex rb]. cbn [connection exitSqls rollback].
  destruct (pgconn c) as [p|] eqn:Hp.
  - destruct (PQrequest r p) as [[res|] p'] eqn:Hr; simpl.
    + case_decide as Hf.
      * unfold modify. simpl. destruct (diag_message_primary res), (diag_sqlstate res); simpl;
          (split; simpl; [done| |by rewrite orb_true_r|by eexists|done]);
          rewrite bool_decide_true by done; eexists; (split; [reflexivity|]); (split; [by right|done]).
      * split; simpl; [done| |by rewrite orb_false_r|by eexists|done].
        rewrite bool_decide_false by done. eexists. split; [reflexivity|]. split; [by right|done].
    + unfold get, modify. simpl. split; simpl; [done| |by rewrite orb_true_r|by eexists|done].
      eexists. split; [reflexivity|]. split; [by right|done].
  - unfold get, modify. simpl. split; simpl; [done| |by rewrite orb_true_r| |done].
    + exists []. rewrite app_nil_r. split; [done|]. split; [by left|]. split; [done|].
      rewrite Hp. by intros [? ?].
    + by rewrite Hp.
Qed.

(** What every call of a transaction does to it: requests are added, a failed
    one sets [rollback], and a prepared statement has its exit SQL.  Nothing but a
    failed request sets [rollback], unless [discards] allows [discard]. *)
Record tx_le_if (discards : bool) (t t' : Transaction) : Prop := {
  le_sent : exists new more,
    sent (connection t') = sent (connection t) ++ new /\
    exitSqls t' = exitSqls t ++ more /\
    (forall x, x ∈ new -> x.2 = false -> rollback t' = true) /\
    (is_Some (pgconn (connection t)) -> rollback t' = true ->
       rollback t = true \/ discards = true \/ exists x, x ∈ new /\ x.2 = false) /\
    (forall stmtName sql n, (Prepare stmtName sql n, true) ∈ new ->
       exists s, s ∈ more /\ String.prefix ("deallocate " +:+ stmtName) s = true);
  le_rollback : rollback t = true -> rollback t' = true;
  le_conn : is_Some (pgconn (connection t)) -> is_Some (pgconn (connection t'))
}.

Abbreviation tx_le := (tx_le_if false).

Lemma tx_le_same d t t' :
  sent (connection t') = sent (connection t) -> (exists more, exitSqls t' = exitSqls t ++ more) ->
  (rollback t = true -> rollback t' = true) -> (rollback t' = true -> rollback t = true \/ d = true) ->
  (is_Some (pgconn (connection t)) -> is_Some (pgconn (connection t'))) -> tx_le_if d t t'.
Proof.
  intros Hs (more & He) Hr Hr' Hc. split; [|done|done]. exists [], more. rewrite app_nil_r. split; [done|].
  split; [done|]. split; [intros x ?%not_elem_of_nil; done|].
  split; [intros _ [H|H]%Hr'; auto|]. by intros * ?%not_elem_of_nil.
Qed.

#[export] Instance tx_le_preorder d : PreOrder (tx_le_if d).
Proof.
  split.
  - intros t. apply tx_le_same; auto. exists []. by rewrite app_nil_r.
  - intros t1 t2 t3 [(n1 & m1 & S1 & E1 & F1 & G1 & P1) R1 C1] [(n2 & m2 & S2 & E2 & F2 & G2 & P2) R2 C2].
    split; [|auto|auto]. exists (n1 ++ n2), (m1 ++ m2).
    rewrite S2, S1, E2, E1, !app_assoc. split; [done|]. split; [done|]. split; [|split].
    + intros x [Hx|Hx]%elem_of_app Hf; [apply R2|]; eauto.
    + intros Hc H3. setoid_rewrite elem_of_app.
      destruct (G2 (C1 Hc) H3) as [H2|[?|(x & ? & ?)]]; [|naive_solver|naive_solver].
      destruct (G1 Hc H2) as [?|[?|(x & ? & ?)]]; naive_solver.
    + intros s q n [Hx|Hx]%elem_of_app.
      * destruct (P1 _ _ _ Hx) as (e & He & Hp). exists e. rewrite elem_of_app. auto.
      * destruct (P2 _ _ _ Hx) as (e & He & Hp). exists e. rewrite elem_of_app. auto.
Qed.

Abbreviation tx_keeps := (keeps tx_le (fun e => is_db_error e = true) True).

Lemma checked_le r t res t' :
  checked_post r t res t' -> is_ret res = false \/ (forall s q n, Prepare s q n <> r) -> tx_le t t'.
Proof.
  intros [He (new & Hs & Hn & _ & Hn') Hr Hc _] Hp. split; [|intros H; by rewrite Hr, H|done].
  exists new, []. rewrite app_nil_r. split; [done|]. split; [done|]. split; [|split].
  - intros x Hx Hf. destruct Hn as [->| ->]; [by apply not_elem_of_nil in Hx|].
    apply list_elem_of_singleton in Hx as ->. simpl in Hf. by rewrite Hr, Hf, orb_true_r.
  - intros Hp' Ht. rewrite Hr in Ht. apply orb_true_iff in Ht as [Ht|Ht]; [by left|]. right. right.
    rewrite (Hn' Hp'). exists (r, is_ret res). split; [left|]. simpl. by apply negb_true_iff.
  - destruct Hn as [->| ->]; [by intros * ?%not_elem_of_nil|].
    intros s q n [= Hx Hf]%list_elem_of_singleton. destruct Hp as [Hp|Hp]; [congruence|].
    by apply Hp in Hx.
Qed.

Lemma checked_keeps r :
  (forall s q n, Prepare s q n <> r) ->
  tx_keeps (result ← on_connection (send r); checkResult result).
Proof.
  intros Hp t. eapply wp_mono; [apply checked_spec|]. intros res t' Hc.
  split; [eapply checked_le; eauto|]. destruct Hc. by destruct res.
Qed.

Lemma exec_keeps sql : tx_keeps (exec sql).
Proof. by apply checked_keeps. Qed.
Lemma execParams_keeps sql vs : tx_keeps (execParams sql vs).
Proof. by apply checked_keeps. Qed.
Lemma execPrepared_keeps s vs : tx_keeps (execPrepared s vs).
Proof. by apply checked_keeps. Qed.

Lemma prefix_app (a b : string) : String.prefix a (a +:+ b) = true.
Proof. induction a as [|c a IH]; simpl; [by destruct b|]. by destruct (ascii_dec c c). Qed.

Lemma c_str_prefix (s : string) : exists rest, s = c_str s +:+ rest.
Proof.
  induction s as [|c s [rest IH]]; [by exists ""|]. simpl. destruct (Ascii.eqb c "000").
  - by exists (String c s).
  - exists rest. change (String c s = String c (c_str s +:+ rest)). by rewrite <- IH.
Qed.

Lemma prepare_keeps s sql n : tx_keeps (prepare s sql n).
Proof.
  intros t. unfold prepare. pose proof (checked_spec (Prepare (c_str s) (c_str sql) n) t) as Hc.
  unfold wp, mbind, M_bind in *. destruct (on_connection _ t) as [[r|e|] t1];
    [|split; [eapply checked_le; eauto|exact (cp_throw _ _ _ _ Hc)]
     |split; [eapply checked_le; eauto|done]].
  destruct (checkResult r t1) as [[r'|e|] t2] eqn:Hr.
  - unfold modify. destruct Hc as [He (new & Hs & _ & Hn & _) Hrb Hcn _]. simpl in *.
    rewrite (Hn eq_refl) in Hs. split; [|done]. split; simpl; [|by rewrite Hrb; intros ->|done].
    exists [(Prepare (c_str s) (c_str sql) n, true)], [cat ["deallocate "; s; ";"]].
    rewrite He. split; [done|]. split; [done|]. split; [|split].
    + intros x ->%list_elem_of_singleton. done.
    + intros _. simpl in Hrb. rewrite Hrb, orb_false_r. by left.
    + intros s' q' n' Hx%list_elem_of_singleton. injection Hx as -> _ _.
      eexists. split; [apply list_elem_of_singleton; reflexivity|].
      destruct (c_str_prefix s) as [rest Hs'].
      assert (Hd : forall x y, x = y +:+ rest ->
                cat ["deallocate "; x; ";"] = ("deallocate " +:+ y) +:+ (rest +:+ ";"))
        by (intros x y ->; unfold cat; simpl; by rewrite string_app_assoc).
      rewrite (Hd _ _ Hs'). apply prefix_app.
  - split; [|exact (cp_throw _ _ _ _ Hc)]. eapply checked_le; eauto.
  - split; [|done]. eapply checked_le; eauto.
Qed.

Lemma push_exitSql_keeps sql : tx_keeps (modify (push_exitSql sql)).
Proof.
  apply keeps_modify. intros t. apply tx_le_same; auto. by exists [sql].
Qed.

Lemma discard_keeps : keeps (tx_le_if true) (fun e => is_db_error e = true) True discard.
Proof.
  apply keeps_modify. intros t. apply tx_le_same; auto. exists []. by rewrite app_nil_r.
Qed.

Lemma db_error_keeps {A} msg : tx_keeps (db_error msg : M Transaction A).
Proof. by apply keeps_throw; [apply _|]. Qed.

Lemma terminate_keeps {A} : tx_keeps (terminate : M Transaction A).
Proof. by apply keeps_terminate; [apply _|]. Qed.

Lemma on_getVersion_keeps : tx_keeps (on_connection getVersion).
Proof.
  intros t. unfold wp, on_connection, getVersion, get, mbind, M_bind.
  destruct t as [c ex rb]. simpl. case_decide; (split; [apply PreOrder_Reflexive|done]).
Qed.

#[local] Hint Resolve exec_keeps execParams_keeps execPrepared_keeps prepare_keeps
  push_exitSql_keeps db_error_keeps terminate_keeps on_getVersion_keeps : keeps.

Lemma escape_identifiers_keeps l : tx_keeps (escape_identifiers l).
Proof. induction l; cbn [escape_identifiers]; keeps_steps. Qed.
#[local] Hint Resolve escape_identifiers_keeps : keeps.

Lemma get_values_keeps res i n : tx_keeps (get_values res i n).
Proof. revert i. induction n; intros i; cbn [get_values]; keeps_steps. Qed.
#[local] Hint Resolve get_values_keeps : keeps.

Lemma quoteIdent_all_keeps l : tx_keeps (quoteIdent_all l).
Proof. unfold quoteIdent_all, quote_remotely. keeps_steps. Qed.
#[local] Hint Resolve quoteIdent_all_keeps : keeps.

Lemma quoteIdent_keeps s : tx_keeps (quoteIdent s).
Proof. unfold quoteIdent. keeps_steps. Qed.
Lemma quoteAndJoinIdent_keeps s1 s2 : tx_keeps (quoteAndJoinIdent s1 s2).
Proof. unfold quoteAndJoinIdent. keeps_steps. Qed.
#[local] Hint Resolve quoteIdent_keeps quoteAndJoinIdent_keeps : keeps.

Lemma createTempTable_keeps s1 s2 s3 : tx_keeps (createTempTable s1 s2 s3).
Proof. unfold createTempTable. keeps_steps. Qed.

Lemma read_fields_throw res l m :
  match fold_result (read_field res) l m with Throw e => is_db_error e = true | _ => True end.
Proof.
  revert m. induction l as [|i l IH]; intros m; simpl; [done|].
  destruct (read_field res m i) as [m'|e|] eqn:Hr; simpl; [apply IH| |done].
  unfold read_field in Hr. repeat case_match; by simplify_eq.
Qed.

Lemma getTableFields_keeps s1 s2 : tx_keeps (getTableFields s1 s2).
Proof.
  unfold getTableFields. apply keeps_bind; [apply _|apply execParams_keeps|]. intros res.
  apply keeps_lift; [apply _|]. pose proof (read_fields_throw res (seq 0 (PQntuples res)) ∅).
  by destruct (fold_result _ _ _).
Qed.

(** *** The end of a transaction *)
Lemma run_exitSql_spec sql t :
  is_Some (pgconn (connection t)) ->
  wp (run_exitSql sql) (fun r t' =>
    is_Some (pgconn (connection t')) /\
    exists ok, sent (connection t') = sent (connection t) ++ [(Exec (c_str sql), ok)] /\
               match r with Throw _ => False | _ => True end) t.
Proof.
  intros Hc. unfold run_exitSql. apply wp_try_catch. apply wp_bind.
  eapply wp_mono; [apply checked_spec|]. intros r t' [_ (new & Hs & _ & _ & Hn) _ Hcn Ht].
  specialize (Hn Hc). subst new. specialize (Hcn Hc).
  destruct r as [a|e|]; simpl; [by split; eauto| |by split; eauto]. rewrite Ht. by split; eauto.
Qed.

Lemma run_exitSqls_spec l t :
  is_Some (pgconn (connection t)) ->
  wp (foreach l run_exitSql) (fun r t' =>
    match r with
    | Ret _ => exists exits, sent (connection t') = sent (connection t) ++ exits /\
                             exits.*1 = (fun s => Exec (c_str s)) <$> l
    | Throw _ => False
    | Terminated => True
    end) t.
Proof.
  revert t. induction l as [|sql l IH]; intros t Hc; cbn [foreach].
  - exists []. by rewrite app_nil_r.
  - apply wp_bind. eapply wp_mono; [by apply run_exitSql_spec|].
    intros [[]|e|] t' [Hc' (ok & Hs & Hr)]; [|done|done].
    eapply wp_mono; [by apply IH|]. intros [[]|e|] t'' H; [|done|done].
    destruct H as (exits & Hs' & He). exists ((Exec (c_str sql), ok) :: exits).
    rewrite Hs', Hs, <- app_assoc. split; [done|]. cbn. by f_equal.
Qed.

(** The states of libpq in which the destructor does not commit. *)
Definition unusable (c : Connection) : bool :=
  bool_decide (transactionStatus c = PQTRANS_INERROR) || bool_decide (transactionStatus c = PQTRANS_UNKNOWN).

(** The end of a transaction that the destructor finds in the state [t]. *)
Definition last_statement (t : Transaction) : string :=
  if rollback t || unusable (connection t) then "rollback;" else "commit;".

Lemma last_statement_rollback t : rollback t = true -> last_statement t = "rollback;".
Proof. unfold last_statement. by intros ->. Qed.

(** What the destructor sends when it returns. *)
Lemma Transaction_destroy_spec t :
  is_Some (pgconn (connection t)) ->
  wp Transaction_destroy (fun r t' =>
    match r with
    | Ret _ => exists exits,
        sent (connection t') = sent (connection t) ++ (Exec (last_statement t), true) :: exits /\
        exits.*1 = (fun s => Exec (c_str s)) <$> exitSqls t
    | Throw _ => False
    | Terminated => True
    end) t.
Proof.
  intros Hc.
  assert (Hend : wp end_transaction (fun r t' =>
    match r with
    | Ret _ => exists exits,
        sent (connection t') = sent (connection t) ++ (Exec (last_statement t), true) :: exits /\
        exits.*1 = (fun s => Exec (c_str s)) <$> exitSqls t
    | _ => True
    end) t).
  { unfold end_transaction. apply wp_bind. unfold get, wp at 1. cbn [seq_post].
    set (rb := rollback t || _ || _). apply wp_bind.
    assert (Hrb : (if rb then exec "rollback;" else exec "commit;") = exec (last_statement t) /\
              c_str (last_statement t) = last_statement t).
    { unfold last_statement, unusable. rewrite orb_assoc. fold rb. by destruct rb. }
    destruct Hrb as [-> Hcl].
    eapply wp_mono; [apply checked_spec|]. intros r t' [He (new & Hs & _ & _ & Hn) _ Hcn _].
    specialize (Hn Hc). subst new. specialize (Hcn Hc). rewrite Hcl in Hs.
    destruct r as [a|e|]; cbn [seq_post is_ret] in *; [|done|done].
    apply wp_bind. eapply wp_mono; [by apply run_exitSqls_spec|].
    intros [[]|e|] t'' H; [|done|done]. destruct H as (exits & Hs' & Hx).
    exists exits. simpl. by rewrite Hs', Hs, <- app_assoc. }
  revert Hend. unfold wp, Transaction_destroy. by destruct (end_transaction t) as [[] t'].
Qed.

(** *** A whole transaction *)
Definition body_le_if {X} (discards : bool) : relation (X * Transaction) := fun s s' => tx_le_if discards s.2 s'.2.
Abbreviation body_le := (body_le_if false).

#[export] Instance body_le_preorder {X} d : PreOrder (@body_le_if X d).
Proof.
  split; [intros s; exact (PreOrder_Reflexive (R := tx_le_if d) s.2)|].
  intros a b c H1 H2. exact (PreOrder_Transitive (R := tx_le_if d) a.2 b.2 c.2 H1 H2).
Qed.

Lemma on_transaction_keeps {X A} d E T (m : M Transaction A) :
  keeps (tx_le_if d) E T m -> keeps (@body_le_if X d) E T (on_transaction m).
Proof.
  intros Hm [x t]. specialize (Hm t). unfold wp, on_transaction in *. by destruct (m t).
Qed.

(** The requests of a transaction that was begun and ended, where [t] is what the
    destructor found: all or nothing. *)
Record transaction_trace (discards : bool) (c : Connection) (t : Transaction) (c' : Connection)
  (new : list (request * bool)) : Prop := {
  tt_body : sent (connection t) = sent c ++ (Exec "begin;", true) :: new;
  tt_sent : exists exits, sent c' =
    sent c ++ (Exec "begin;", true) :: new ++ (Exec (last_statement t), true) :: exits /\
    forall stmtName sql n, (Prepare stmtName sql n, true) ∈ new ->
      exists s, Exec (c_str s) ∈ exits.*1 /\ String.prefix ("deallocate " +:+ stmtName) s = true;
  tt_failed : (exists x, x ∈ new /\ x.2 = false) -> rollback t = true;
  tt_flag : rollback t = true -> discards = true \/ exists x, x ∈ new /\ x.2 = false
}.

Lemma with_transaction_spec {X A} d E (body : M (X * Transaction) A) x c r x' c' :
  keeps (body_le_if d) E True body -> is_Some (pgconn c) ->
  with_transaction body (x, c) = (r, (x', c')) ->
  r = Terminated \/
  (exists e, r = Throw e /\ x' = x /\ is_db_error e = true /\
             sent c' = sent c ++ [(Exec "begin;", false)]) \/
  (exists res t1 t2 new, Transaction_new c = (Ret res, t1) /\ body (x, t1) = (r, (x', t2)) /\
     transaction_trace d c t2 c' new).
Proof.
  intros Hb Hc. unfold with_transaction.
  pose proof (checked_spec (Exec "begin;") (mkTransaction c [] false)) as H0. unfold wp in H0.
  change ((result ← on_connection (send (Exec "begin;")); checkResult result) (mkTransaction c [] false))
    with (Transaction_new c) in H0.
  destruct (Transaction_new c) as [r1 t1] eqn:Hr1.
  destruct H0 as [He0 (new0 & Hs0 & _ & _ & Hn0) Hr0 Hc0 Ht0].
  specialize (Hn0 Hc). subst new0. specialize (Hc0 Hc). cbn [connection exitSqls rollback] in *.
  destruct r1 as [a|e|]; [|by intros [= <- <- <-]; right; left; eauto|by intros [= <- <- <-]; left].
  pose proof (Hb (x, t1)) as H1. unfold wp in H1.
  destruct (body (x, t1)) as [r2 [x2 t2]] eqn:Hr2. destruct H1 as [H1 _].
  destruct H1 as [(new & more & Hs & Hex & Hf & Hg & Hp) Hrb Hcn]. simpl in *. specialize (Hcn Hc0).
  pose proof (Transaction_destroy_spec t2 Hcn) as H2. unfold wp in H2.
  destruct (Transaction_destroy t2) as [r3 t3].
  assert (Hend : forall u, r3 = Ret u -> transaction_trace d c t2 (connection t3) new).
  { intros u ->. destruct H2 as (exits & Hs3 & Hexits). split.
    - by rewrite Hs, Hs0, <- app_assoc.
    - exists exits. rewrite Hs3, Hs, Hs0, <- !app_assoc. split; [done|].
      intros s q n Hx. destruct (Hp _ _ _ Hx) as (sql & Hin & Hpre). exists sql. split; [|done].
      rewrite Hexits, Hex, He0. apply list_elem_of_fmap. by exists sql.
    - intros (y & Hy & Hyf). exact (Hf y Hy Hyf).
    - intros Hrb2. destruct (Hg Hc0 Hrb2) as [Hr1'|H]; [|exact H]. rewrite Hr0 in Hr1'. discriminate Hr1'. }
  destruct r2 as [b|e|]; [..|by intros [= <- <- <-]; left];
    (destruct r3 as [u|e'|]; [|done|by intros [= <- <- <-]; left]);
    specialize (Hend u eq_refl); intros [= <- <- <-]; right; right; by exists a, t1, t2, new.
Qed.

Lemma last_statement_spec c t c' new :
  transaction_trace false c t c' new ->
  (last_statement t = "rollback;" <->
     (exists q, q ∈ new /\ q.2 = false) \/ transactionStatus (connection t) = PQTRANS_INERROR \/
     transactionStatus (connection t) = PQTRANS_UNKNOWN) /\
  (last_statement t = "commit;" \/ last_statement t = "rollback;").
Proof.
  intros [_ _ Hf Hg]. unfold last_statement, unusable. split; [|destruct (_ || _); auto].
  transitivity (rollback t || (bool_decide (transactionStatus (connection t) = PQTRANS_INERROR)
    || bool_decide (transactionStatus (connection t) = PQTRANS_UNKNOWN)) = true); [by destruct (_ || _)|].
  rewrite !orb_true_iff, !bool_decide_eq_true. naive_solver.
Qed.
End Transaction.
Abbreviation tx_le := (tx_le_if false).
Abbreviation body_le := (body_le_if false).
Arguments le_sent {_ _ _ _}.
Arguments le_rollback {_ _ _ _}.
Arguments le_conn {_ _ _ _}.

#[export] Hint Resolve exec_keeps execParams_keeps execPrepared_keeps prepare_keeps
  db_error_keeps terminate_keeps quoteIdent_all_keeps quoteIdent_keeps quoteAndJoinIdent_keeps
  createTempTable_keeps getTableFields_keeps on_transaction_keeps : keeps.

Section Properties.
Context {PQ : LibPQ} (have_pq_escape_identifier : bool).

Definition read_columns (res : PGresult) (i : nat) (f : Field) : Prop :=
  exists attname typname oid isPk,
    PQgetvalue res i 0 = Some attname /\ PQgetvalue res i 1 = Some typname /\
    PQgetvalue res i 2 = Some oid /\ PQgetvalue res i 3 = Some isPk /\
    f = mkField (c_str attname) (c_str typname) (to_uint (atoi oid)) (String.eqb (c_str isPk) "Y").

Lemma read_columns_inj res i f g : read_columns res i f -> read_columns res i g -> f = g.
Proof. intros (?&?&?&?&?&?&?&?&->) (?&?&?&?&?&?&?&?&->). by simplify_eq. Qed.

(** The map after the tuples [l]: one field per tuple, under its name. *)
Record fields_read (res : PGresult) (l : list nat) (m : FieldMap) : Prop := {
  fr_from : forall k f, m !! k = Some f -> field_name f = k /\ exists i, i ∈ l /\ read_columns res i f;
  fr_all : forall i, i ∈ l -> exists f, read_columns res i f /\
           (field_name f = "" \/ m !! field_name f = Some f);
  fr_unique : forall i j f g, i ∈ l -> j ∈ l -> read_columns res i f -> read_columns res j g ->
           field_name f = field_name g -> field_name f <> "" -> i = j
}.

Lemma read_field_inv res m i m' :
  read_field res m i = Ret m' ->
  exists f, read_columns res i f /\ m' = <[field_name f := f]> m /\
    forall g, m !! field_name f = Some g -> field_name g = "".
Proof.
  unfold read_field. intros Hr. repeat case_match; simplify_eq. eexists (mkField _ _ _ _).
  split; [by repeat eexists|]. split; [reflexivity|]. simpl. intros g Hg.
  match goal with H : negb _ = false |- _ => rewrite Hg in H; apply negb_false_iff in H end.
  by apply String.eqb_eq.
Qed.

Lemma read_field_step res l m i m' :
  fields_read res l m -> read_field res m i = Ret m' -> fields_read res (i :: l) m'.
Proof.
  intros [H1 H2 H3] (f & Hf & -> & Hnew)%read_field_inv.
  assert (Hold : forall j g, j ∈ l -> read_columns res j g -> field_name g = field_name f ->
            field_name g = "").
  { intros j g Hj Hg Hn. destruct (H2 _ Hj) as (g' & Hg' & Hm).
    pose proof (read_columns_inj _ _ _ _ Hg Hg') as <-. destruct Hm as [|Hm]; [done|].
    rewrite Hn in Hm. by apply Hnew. }
  split.
  - intros k f'. rewrite lookup_insert_Some. intros [[<- <-]|[_ Hk]].
    + split; [done|]. exists i. split; [left|done].
    + destruct (H1 _ _ Hk) as [? (i' & Hi' & ?)]. split; [done|]. exists i'. split; [by right|done].
  - intros i' [->|Hi']%elem_of_cons; [exists f; rewrite lookup_insert_eq; auto|].
    destruct (H2 _ Hi') as (f' & Hf' & Hn). exists f'. split; [done|].
    destruct Hn as [Hn|Hn]; [by left|]. destruct (decide (field_name f' = field_name f)) as [He|He].
    + left. by apply (Hold i').
    + right. by rewrite lookup_insert_ne.
  - intros i1 i2 f1 f2 [->|Hi1]%elem_of_cons [->|Hi2]%elem_of_cons Hf1 Hf2 He Hne; [done|..|by eauto].
    + pose proof (read_columns_inj _ _ _ _ Hf Hf1) as <-. rewrite He in Hne.
      destruct Hne. by apply (Hold i2).
    + pose proof (read_columns_inj _ _ _ _ Hf Hf2) as <-. destruct Hne. by apply (Hold i1).
Qed.

Lemma read_fields_ok res l l0 m m' :
  fields_read res l0 m -> fold_result (read_field res) l m = Ret m' ->
  fields_read res (rev l ++ l0) m'.
Proof.
  revert l0 m. induction l as [|i l IH]; intros l0 m Hm; cbn [fold_result].
  - by intros [= <-].
  - intros (m1 & H1 & H2)%bind_Ret_inv. simpl. rewrite <- app_assoc.
    eapply IH; [|exact H2]. by eapply read_field_step.
Qed.

Lemma getTableFields_read schema table t m t' :
  getTableFields schema table t = (Ret m, t') ->
  exists res, fields_read res (rev (seq 0 (PQntuples res))) m.
Proof.
  unfold getTableFields, mbind, M_bind, lift.
  destruct (execParams _ _ t) as [[res|e|] t1]; [|done..]. intros [= H _]. exists res.
  rewrite <- (app_nil_r (rev _)). eapply read_fields_ok; [|exact H].
  split; [by intros k f ?%lookup_empty_Some|by intros i ?%not_elem_of_nil|].
  intros i j f g Hi. by apply not_elem_of_nil in Hi.
Qed.

(** ** Properties *)


(** [getTableFields] gives one field per tuple of the catalog query, under
    its own name, and nothing else; two columns of the same name make it
    throw instead. *)
Theorem getTableFields_spec schema table t m t' :
  getTableFields schema table t = (Ret m, t') ->
  exists res,
    (forall k f, m !! k = Some f -> field_name f = k /\
       exists i, i < PQntuples res /\ read_columns res i f) /\
    (forall i, i < PQntuples res -> exists f, read_columns res i f /\
       (field_name f = "" \/ m !! field_name f = Some f)) /\
    (forall i j f g, i < PQntuples res -> j < PQntuples res ->
       read_columns res i f -> read_columns res j g ->
       field_name f = field_name g -> field_name f <> "" -> i = j).
Proof.
  intros (res & [H1 H2 H3])%getTableFields_read. exists res.
  assert (Hin : forall i, i ∈ rev (seq 0 (PQntuples res)) <-> i < PQntuples res).
  { intros i. rewrite list_elem_of_In, <- in_rev, in_seq. lia. }
  split; [|split].
  - intros k f Hk. destruct (H1 k f Hk) as [? (i & Hi & ?)]. split; [done|].
    exists i. by rewrite <- Hin.
  - intros i Hi. apply H2. by apply Hin.
  - intros i j f g Hi Hj. apply H3; by apply Hin.
Qed.
End Properties.

(** ** Witnesses: a table of two columns, and a server that refuses an insert *)
Definition table_rows : list (list string) := [["gid"; "int4"; ""; "Y"]; ["geom"; "geometry"; ""; "N"]].

Definition mock_server : LibPQ := mock_pq (fun r =>
  match r with
  | ExecPrepared _ _ => mock_error "22001" "value too long"
  | ExecParams _ _ => mock_ok table_rows "0"
  | _ => mock_ok [] "0"
  end).

Definition mock_connection : @Connection mock_server := @mkConnection mock_server (Some tt) true [].

(** A body that ignores the refusal. *)
Definition insert_body : M (unit * @Transaction mock_server) unit :=
  on_transaction (PQ := mock_server)
    (_ ← prepare (PQ := mock_server) "ins" "insert" 1;
     try_catch (_ ← execPrepared (PQ := mock_server) "ins" [Nullable_of "x"]; mret tt)
       (fun e => mret tt)).


Lemma getTableFields_spec_witness :
  exists m t', getTableFields (PQ := mock_server) "public" "t" (mkTransaction mock_connection [] false)
                 = (Ret m, t') /\
    (forall k f, m !! k = Some f -> field_name f = k) /\ is_Some (m !! "geom").
Proof.
  eexists _, _. split; [vm_compute; reflexivity|]. split; [|by eexists].
  intros k f Hk.
  destruct (getTableFields_spec (PQ := mock_server) "public" "t" (mkTransaction mock_connection [] false)
              _ _ eq_refl) as (res & Hm & _). by apply (Hm k f).
Defined.
