(* ===== verification/ParamArrays.v ===== *)
(** * The parameters of a statement in memory

    [PGParams] of [server/db/transaction.h] and [server/db/transaction.cpp] copies
    the values of a statement into C arrays for libpq: an array of pointers to
    strings that [strdup] has allocated, and an array of lengths.  [Transaction]
    uses the list of values; here the arrays lie in a heap of blocks, with
    [malloc] and [new[]] kept apart, and a read, write or release that the
    language leaves undefined is a crash.  Running out of memory is left out. *)
From S2P Require Import Prelude NullableValue LibPQ Connection Transaction.

(** ** The heap *)

(** A string of [malloc], or an array of [new[]] whose elements may not have been
    written; a pointer may be NULL. *)
Inductive block :=
  | CString (s : string)
  | Pointers (cells : list (option (option nat)))
  | Ints (cells : list (option Z)).
Abbreviation CHeap := (gmap nat block).

Definition allocate (b : block) : M CHeap nat := fun h => let a := fresh (dom h) in (Ret a, <[a := b]> h).
Definition strdup (s : string) : M CHeap nat := allocate (CString (c_str s)).
(** [new char *[n]] and [new int[n]]. *)
Definition new_pointers (n : Z) : M CHeap nat :=
  if decide (n < 0)%Z then terminate else allocate (Pointers (replicate (Z.to_nat n) None)).
Definition new_ints (n : Z) : M CHeap nat :=
  if decide (n < 0)%Z then terminate else allocate (Ints (replicate (Z.to_nat n) None)).

Definition write_pointer (a i : nat) (v : option nat) : M CHeap unit := fun h =>
  match h !! a with
  | Some (Pointers cells) =>
    if decide (i < length cells) then (Ret tt, <[a := Pointers (<[i := Some v]> cells)]> h) else (Terminated, h)
  | _ => (Terminated, h)
  end.
Definition write_int (a i : nat) (v : Z) : M CHeap unit := fun h =>
  match h !! a with
  | Some (Ints cells) =>
    if decide (i < length cells) then (Ret tt, <[a := Ints (<[i := Some v]> cells)]> h) else (Terminated, h)
  | _ => (Terminated, h)
  end.
Definition read_pointer (a i : nat) : M CHeap (option nat) := fun h =>
  match h !! a with
  | Some (Pointers cells) => match cells !! i with Some (Some v) => (Ret v, h) | _ => (Terminated, h) end
  | _ => (Terminated, h)
  end.
Definition read_int (a i : nat) : M CHeap Z := fun h =>
  match h !! a with
  | Some (Ints cells) => match cells !! i with Some (Some v) => (Ret v, h) | _ => (Terminated, h) end
  | _ => (Terminated, h)
  end.
Definition read_string (a : nat) : M CHeap string := fun h =>
  match h !! a with Some (CString s) => (Ret s, h) | _ => (Terminated, h) end.

(** [free] takes back what [malloc] gave, [delete[]] what [new[]] gave. *)
Definition free (a : nat) : M CHeap unit := fun h =>
  match h !! a with Some (CString _) => (Ret tt, delete a h) | _ => (Terminated, h) end.
Definition delete_array (a : nat) : M CHeap unit := fun h =>
  match h !! a with Some (Pointers _) | Some (Ints _) => (Ret tt, delete a h) | _ => (Terminated, h) end.

(** ** [PGParams] *)
Record PGParams := mkPGParams { _values : option nat; _valueLengths : option nat; _length : Z }.

(** The conversion of a [size_t] to [int]. *)
Definition to_int (z : Z) : Z := ((z + 2 ^ 31) mod 2 ^ 32 - 2 ^ 31)%Z.

(** The loop of the constructor from the index [i] on. *)
Fixpoint fill (values lengths i : nat) (qValues : list NullableValue) : M CHeap unit :=
  match qValues with
  | [] => mret tt
  | pV :: qValues =>
    _ ← (if isNull pV then
           _ ← write_pointer values i None; write_int lengths i 0
         else
           let v := nv_get pV in
           copy ← strdup v;
           _ ← write_pointer values i (Some copy);
           write_int lengths i (to_int (len v)));
    fill values lengths (S i) qValues
  end.

Definition PGParams_new (qValues : list NullableValue) : M CHeap PGParams :=
  let n := to_int (Z.of_nat (length qValues)) in
  values ← new_pointers n;
  lengths ← new_ints n;
  _ ← fill values lengths 0 qValues;
  mret (mkPGParams (Some values) (Some lengths) n).

(** The loop of the destructor; [n] elements are left. *)
Fixpoint free_values (values i n : nat) : M CHeap unit :=
  match n with
  | 0 => mret tt
  | S n =>
    v ← read_pointer values i;
    _ ← match v with
        | Some _ => v ← read_pointer values i; match v with Some a => free a | None => mret tt end
        | None => mret tt
        end;
    free_values values (S i) n
  end.

Definition PGParams_destroy (params : PGParams) : M CHeap unit :=
  _ ← match _values params with
      | Some values => _ ← free_values values 0 (Z.to_nat (_length params)); delete_array values
      | None => mret tt
      end;
  match _valueLengths params with
  | Some lengths => delete_array lengths
  | None => mret tt
  end.

(** ** Their use *)

(** What libpq reads: every parameter, NULL or a string, and every length. *)
Fixpoint read_values (values lengths i n : nat) : M CHeap (list (option string) * list Z) :=
  match n with
  | 0 => mret ([], [])
  | S n =>
    v ← read_pointer values i;
    s ← match v with Some a => s ← read_string a; mret (Some s) | None => mret None end;
    l ← read_int lengths i;
    rest ← read_values values lengths (S i) n;
    mret (s :: rest.1, l :: rest.2)
  end.

Definition read_params (params : PGParams) : M CHeap (list (option string) * list Z) :=
  match _values params, _valueLengths params with
  | Some values, Some lengths => read_values values lengths 0 (Z.to_nat (_length params))
  | _, _ => terminate
  end.

Section Calls.
Context {PQ : LibPQ}.

Definition on_heap {A} (m : M CHeap A) : M (CHeap * Transaction) A := fun '(h, t) =>
  let '(r, h) := m h in (r, (h, t)).
Definition on_transaction {A} (m : M Transaction A) : M (CHeap * Transaction) A := fun '(h, t) =>
  let '(r, t) := m t in (r, (h, t)).

(** The scope of a local object: its destructor runs on every exit. *)
Definition scope {S A} (destructor : M S unit) (body : M S A) : M S A := fun s =>
  match body s with
  | (Terminated, s) => (Terminated, s)
  | (r, s) =>
    match destructor s with
    | (Ret _, s) => (r, s)
    | (Throw e, s) => (Throw e, s)
    | (Terminated, s) => (Terminated, s)
    end
  end.

(** [auto params = PGParams(qValues)]: the compiler may leave out the copy of the
    temporary object, and then there is one object; otherwise the copy has the
    same pointers, and the temporary is destroyed at the end of the statement. *)
Definition local_params (elided : bool) (qValues : list NullableValue) : M CHeap PGParams :=
  params ← PGParams_new qValues;
  if elided then mret params else _ ← PGParams_destroy params; mret params.

Definition with_params {A} (elided : bool) (qValues : list NullableValue)
  (call : list (option string) -> M Transaction A) : M (CHeap * Transaction) A :=
  params ← on_heap (local_params elided qValues);
  scope (on_heap (PGParams_destroy params))
    (arrays ← on_heap (read_params params); on_transaction (call arrays.1)).

(** The two overloads that take values. *)
Definition execPrepared_arrays (elided : bool) (stmtName : string) (qValues : list NullableValue)
  : M (CHeap * Transaction) PGresult :=
  with_params elided qValues (fun paramValues =>
    result ← on_connection (send (ExecPrepared (c_str stmtName) paramValues));
    checkResult result).

Definition execParams_arrays (elided : bool) (_sql : string) (qValues : list NullableValue)
  : M (CHeap * Transaction) PGresult :=
  with_params elided qValues (execParams _sql).
End Calls.

(** ** The heap while the object lives *)
Section Heap.
Context (h0 : CHeap) (values lengths : nat).

(** The arrays with their cells, and strings apart from what was there before. *)
Definition with_arrays (strs : CHeap) (cells : list (option (option nat))) (ints : list (option Z)) : CHeap :=
  <[lengths := Ints ints]> (<[values := Pointers cells]> (strs ∪ h0)).

Definition apart (strs : CHeap) : Prop :=
  strs ##ₘ h0 /\ strs !! values = None /\ strs !! lengths = None.

Context (values_new : h0 !! values = None) (lengths_new : h0 !! lengths = None) (distinct : values <> lengths).

Lemma lookup_values strs cells ints : with_arrays strs cells ints !! values = Some (Pointers cells).
Proof. unfold with_arrays. by rewrite lookup_insert_ne, lookup_insert_eq. Qed.
Lemma lookup_lengths strs cells ints : with_arrays strs cells ints !! lengths = Some (Ints ints).
Proof. apply lookup_insert_eq. Qed.
Lemma lookup_string strs cells ints a s :
  apart strs -> strs !! a = Some s -> with_arrays strs cells ints !! a = Some s.
Proof.
  intros (_ & Hv & Hl) Ha. unfold with_arrays. rewrite !lookup_insert_ne by congruence. by rewrite lookup_union_l', Ha.
Qed.

Lemma write_pointer_run strs cells ints i v :
  i < length cells ->
  write_pointer values i v (with_arrays strs cells ints) = (Ret tt, with_arrays strs (<[i := Some v]> cells) ints).
Proof.
  intros Hi. unfold write_pointer. rewrite lookup_values, decide_True by done. unfold with_arrays.
  by rewrite insert_insert_ne, insert_insert_eq.
Qed.

Lemma write_int_run strs cells ints i v :
  i < length ints ->
  write_int lengths i v (with_arrays strs cells ints) = (Ret tt, with_arrays strs cells (<[i := Some v]> ints)).
Proof.
  intros Hi. unfold write_int. rewrite lookup_lengths, decide_True by done.
  unfold with_arrays. by rewrite insert_insert_eq.
Qed.

(** [strdup] adds a string at an address that nothing has. *)
Lemma strdup_run strs cells ints s :
  apart strs ->
  exists a, strdup s (with_arrays strs cells ints) =
      (Ret a, with_arrays (<[a := CString (c_str s)]> strs) cells ints) /\
    strs !! a = None /\ apart (<[a := CString (c_str s)]> strs).
Proof.
  intros (Hd & Hv & Hl). unfold strdup, allocate. set (a := fresh _). exists a.
  assert (Ha : with_arrays strs cells ints !! a = None) by (apply not_elem_of_dom, is_fresh).
  unfold with_arrays in Ha. apply lookup_insert_None in Ha as [Ha Nl]. apply lookup_insert_None in Ha as [Ha Nv].
  apply lookup_union_None in Ha as [Ha1 Ha0]. split; [|split; [done|]].
  - unfold with_arrays. rewrite <- insert_union_l.
    by rewrite (insert_insert_ne _ a lengths), (insert_insert_ne _ a values).
  - split; [by apply map_disjoint_insert_l|]. by rewrite !lookup_insert_ne by done.
Qed.

(** ** The constructor *)

(** The pointers [ps] and the strings [strs] are those of the values [qs]. *)
Definition points_to (strs : CHeap) (p : option nat) (q : NullableValue) : Prop :=
  match p with
  | None => isNull q = true
  | Some a => isNull q = false /\ strs !! a = Some (CString (c_str (nv_get q)))
  end.
Definition length_of (q : NullableValue) : Z := if isNull q then 0%Z else to_int (len (nv_get q)).

Record copied (strs : CHeap) (ps : list (option nat)) (qs : list NullableValue) : Prop := {
  cp_points : Forall2 (points_to strs) ps qs;
  cp_nodup : NoDup (omap (fun p => p) ps);
  cp_dom : forall a, is_Some (strs !! a) <-> Some a ∈ ps
}.

Lemma points_to_insert strs a s p q : strs !! a = None -> points_to strs p q -> points_to (<[a := s]> strs) p q.
Proof.
  intros Ha. destruct p as [b|]; cbn; [|done]. intros [Hq Hb]. split; [done|].
  rewrite lookup_insert_ne; [done|]. congruence.
Qed.

(** A list of cells of which the first are written. *)
Definition written {A} (l : list A) (n : nat) : list (option A) := (Some <$> l) ++ replicate n None.

Lemma written_set {A} (l : list A) n v : <[length l := Some v]> (written l (S n)) = written (l ++ [v]) n.
Proof.
  unfold written. replace (length l) with (length (Some <$> l) + 0) by (rewrite length_fmap; lia).
  rewrite insert_app_r, fmap_app, <- app_assoc. done.
Qed.
Lemma written_length {A} (l : list A) n : length (written l n) = length l + n.
Proof. unfold written. by rewrite length_app, length_fmap, length_replicate. Qed.

Lemma fill_run qs strs done_qs ps ls :
  apart strs -> copied strs ps done_qs -> length ls = length ps ->
  exists strs' ps', apart strs' /\ copied strs' ps' (done_qs ++ qs) /\
    fill values lengths (length ps) qs (with_arrays strs (written ps (length qs)) (written ls (length qs))) =
      (Ret tt, with_arrays strs' (Some <$> ps') (Some <$> (ls ++ (length_of <$> qs)))).
Proof.
  revert strs done_qs ps ls. induction qs as [|q qs IH]; intros strs done_qs ps ls Hap Hc Hl.
  - exists strs, ps. rewrite !app_nil_r. split; [done|]. split; [done|]. cbn [fill length fmap list_fmap].
    unfold written. cbn [replicate]. by rewrite !app_nil_r.
  - cbn [fill length]. destruct Hc as [Hp Hn Hd].
    cbn [fmap list_fmap]. destruct (isNull q) eqn:Hq.
    + assert (Hlq : length_of q = 0%Z) by (unfold length_of; by rewrite Hq).
      destruct (IH strs (done_qs ++ [q]) (ps ++ [None]) (ls ++ [0%Z]))
        as (strs' & ps' & H1 & H2 & H3).
      * done.
      * split; [by apply Forall2_app; [|constructor]|by rewrite omap_app, app_nil_r|]. intros a. rewrite Hd.
        rewrite elem_of_app, list_elem_of_singleton. naive_solver.
      * rewrite !length_app. cbn. lia.
      * exists strs', ps'. rewrite <- app_assoc in H2. split; [done|]. split; [done|].
        unfold mbind at 1, M_bind at 1. erewrite bind_step by (apply write_pointer_run; rewrite written_length; lia).
        rewrite write_int_run by (rewrite written_length; lia). rewrite written_set, <- Hl, written_set.
        rewrite length_app in H3. cbn in H3. rewrite Nat.add_1_r, <- Hl in H3. rewrite H3.
        by rewrite <- app_assoc, Hlq.
    + assert (Hlq : length_of q = to_int (len (nv_get q))) by (unfold length_of; by rewrite Hq).
      destruct (strdup_run strs (written ps (S (length qs))) (written ls (S (length qs))) (nv_get q) Hap)
        as (a & Hs & Ha & Hap').
      destruct (IH (<[a := CString (c_str (nv_get q))]> strs) (done_qs ++ [q]) (ps ++ [Some a])
        (ls ++ [to_int (len (nv_get q))])) as (strs' & ps' & H1 & H2 & H3).
      * done.
      * split.
        -- apply Forall2_app; [|constructor; [|constructor]].
           ++ eapply Forall2_impl; [exact Hp|]. intros p' q'. by apply points_to_insert.
           ++ cbn. by rewrite lookup_insert_eq.
        -- rewrite omap_app. cbn. apply NoDup_app. split; [done|]. split; [|apply NoDup_singleton].
           intros b Hb ->%list_elem_of_singleton. apply list_elem_of_omap in Hb as (p' & Hp' & ->).
           apply Hd in Hp'. rewrite Ha in Hp'. by destruct Hp'.
        -- intros b. rewrite elem_of_app, list_elem_of_singleton, <- Hd. rewrite lookup_insert_is_Some.
           destruct (decide (a = b)); naive_solver.
      * rewrite !length_app. cbn. lia.
      * exists strs', ps'. rewrite <- app_assoc in H2. split; [done|]. split; [done|].
        unfold mbind at 1, M_bind at 1. erewrite bind_step by exact Hs.
        erewrite bind_step by (apply write_pointer_run; rewrite written_length; lia).
        rewrite write_int_run by (rewrite written_length; lia). rewrite written_set, <- Hl, written_set.
        rewrite length_app in H3. cbn in H3. rewrite Nat.add_1_r, <- Hl in H3. rewrite H3.
        by rewrite <- app_assoc, Hlq.
Qed.

(** ** What libpq reads, and the destructor *)
Definition value_of (q : NullableValue) : option string := if isNull q then None else Some (c_str (nv_get q)).

Lemma read_values_run strs all_ps ls qs ps i :
  apart strs -> Forall2 (points_to strs) ps qs -> drop i all_ps = ps -> drop i ls = length_of <$> qs ->
  read_values values lengths i (length qs) (with_arrays strs (Some <$> all_ps) (Some <$> ls)) =
    (Ret (value_of <$> qs, length_of <$> qs), with_arrays strs (Some <$> all_ps) (Some <$> ls)).
Proof.
  intros Hap. revert i ps. induction qs as [|q qs IH]; intros i ps Hf Hi Hl; [done|].
  apply Forall2_cons_inv_r in Hf as (p & ps' & Hpq & Hf & ->). cbn [read_values length].
  assert (Hpi : all_ps !! i = Some p) by (rewrite <- (Nat.add_0_r i), <- lookup_drop, Hi; done).
  assert (Hli : ls !! i = Some (length_of q)) by (rewrite <- (Nat.add_0_r i), <- lookup_drop, Hl; done).
  erewrite bind_step by (unfold read_pointer; rewrite lookup_values, list_lookup_fmap, Hpi; reflexivity).
  assert (Hs : (match p with Some a => s ← read_string a; mret (Some s) | None => mret None end)
      (with_arrays strs (Some <$> all_ps) (Some <$> ls)) =
    (Ret (value_of q), with_arrays strs (Some <$> all_ps) (Some <$> ls))).
  { destruct p as [a|]; cbn in Hpq; [|unfold value_of; by rewrite Hpq]. destruct Hpq as [Hq Ha].
    unfold value_of. rewrite Hq. erewrite bind_step; [done|]. unfold read_string.
    by erewrite lookup_string by done. }
  erewrite bind_step by exact Hs.
  erewrite bind_step by (unfold read_int; rewrite lookup_lengths, list_lookup_fmap, Hli; reflexivity).
  assert (Hi' : drop (S i) all_ps = ps') by (rewrite <- Nat.add_1_r, <- drop_drop, Hi; done).
  assert (Hl' : drop (S i) ls = length_of <$> qs) by (rewrite <- Nat.add_1_r, <- drop_drop, Hl; done).
  by erewrite bind_step by exact (IH (S i) ps' Hf Hi' Hl').
Qed.

Lemma with_arrays_delete strs cells ints a :
  apart strs -> is_Some (strs !! a) -> delete a (with_arrays strs cells ints) = with_arrays (delete a strs) cells ints.
Proof.
  intros (Hd & Hv & Hl) [s Ha]. unfold with_arrays. rewrite !delete_insert_ne by congruence. do 2 f_equal.
  rewrite delete_union. f_equal. apply delete_id. by eapply map_disjoint_Some_l.
Qed.

Lemma free_values_run ps strs all_ps ints i :
  apart strs -> drop i all_ps = ps -> NoDup (omap (fun p => p) ps) ->
  (forall a, is_Some (strs !! a) <-> Some a ∈ ps) -> (forall a b, strs !! a = Some b -> exists s, b = CString s) ->
  free_values values i (length ps) (with_arrays strs (Some <$> all_ps) ints) =
    (Ret tt, with_arrays ∅ (Some <$> all_ps) ints).
Proof.
  revert strs i. induction ps as [|p ps IH]; intros strs i Hap Hi Hn Hd Hb.
  - cbn. replace strs with (∅ : CHeap); [done|]. symmetry. apply map_empty. intros a.
    destruct (strs !! a) eqn:E; [|done]. assert (is_Some (strs !! a)) as Hs%Hd by by eexists.
    by apply not_elem_of_nil in Hs.
  - cbn [free_values length].
    assert (Hpi : all_ps !! i = Some p) by (rewrite <- (Nat.add_0_r i), <- lookup_drop, Hi; done).
    assert (Hr : read_pointer values i (with_arrays strs (Some <$> all_ps) ints) =
              (Ret p, with_arrays strs (Some <$> all_ps) ints))
      by (unfold read_pointer; by rewrite lookup_values, list_lookup_fmap, Hpi).
    erewrite bind_step by exact Hr.
    assert (Hi' : drop (S i) all_ps = ps) by (rewrite <- Nat.add_1_r, <- drop_drop, Hi; done).
    destruct p as [a|]; cbn in Hn.
    + apply NoDup_cons in Hn as [Hna Hn]. destruct (proj2 (Hd a)) as [b Ha]; [left|]. destruct (Hb a b Ha) as [s ->].
      unfold mbind at 1, M_bind at 1. erewrite bind_step by exact Hr. unfold free.
      erewrite lookup_string by done. rewrite with_arrays_delete by (done || by eexists). apply IH; [|done|done|..].
      * destruct Hap as (H1 & H2 & H3). split; [by apply map_disjoint_delete_l|]. by rewrite !lookup_delete_None; auto.
      * intros c. rewrite lookup_delete_is_Some, Hd. split; [intros [N [[= ->]|]%elem_of_cons]; done|].
        intros Hc. split; [|by right]. intros <-. apply Hna. apply list_elem_of_omap. by exists (Some a).
      * intros c d [_ Hc]%lookup_delete_Some. by apply (Hb c).
    + erewrite bind_step by reflexivity. apply IH; [done..| |done]. intros a. rewrite Hd, elem_of_cons. naive_solver.
Qed.
End Heap.

Lemma to_int_small z : (0 <= z <= int_max)%Z -> to_int z = z.
Proof. unfold to_int, int_max. intros H. rewrite Z.mod_small; lia. Qed.

Lemma written_none {A} n : written (@nil A) n = replicate n None.
Proof. done. Qed.

(** The object in the heap [h0]. *)
Record object (h0 : CHeap) (params : PGParams) (qs : list NullableValue) (h : CHeap)
  (values lengths : nat) (strs : CHeap) (ps : list (option nat)) : Prop := {
  ob_values : h0 !! values = None;
  ob_lengths : h0 !! lengths = None;
  ob_distinct : values <> lengths;
  ob_params : params = mkPGParams (Some values) (Some lengths) (Z.of_nat (length qs));
  ob_heap : h = with_arrays h0 values lengths strs (Some <$> ps) (Some <$> (length_of <$> qs));
  ob_apart : apart h0 values lengths strs;
  ob_copied : copied strs ps qs
}.

Lemma PGParams_new_run qs h0 :
  (Z.of_nat (length qs) <= int_max)%Z ->
  exists params h values lengths strs ps,
    PGParams_new qs h0 = (Ret params, h) /\ object h0 params qs h values lengths strs ps.
Proof.
  intros Hn. unfold PGParams_new, new_pointers, new_ints. rewrite to_int_small by lia. rewrite !decide_False by lia.
  rewrite Nat2Z.id. set (values := fresh (dom h0)). set (h1 := <[values := Pointers (replicate (length qs) None)]> h0).
  set (lengths := fresh (dom h1)).
  assert (Hv : h0 !! values = None) by (apply not_elem_of_dom, is_fresh).
  assert (Hl : h1 !! lengths = None) by (apply not_elem_of_dom, is_fresh).
  apply lookup_insert_None in Hl as [Hl Hne].
  destruct (fill_run h0 values lengths Hv Hl Hne qs ∅ [] [] []) as (strs & ps & H1 & H2 & H3).
  - split; [apply map_disjoint_empty_l|]. by rewrite !lookup_empty.
  - split; [constructor|constructor|]. intros a. rewrite lookup_empty. split; [by intros [? ?]|].
    intros Ha. by apply not_elem_of_nil in Ha.
  - done.
  - do 6 eexists. split; [|split; [exact Hv|exact Hl|exact Hne|reflexivity|reflexivity|exact H1|exact H2]].
    erewrite bind_step by reflexivity. erewrite bind_step by reflexivity. fold values h1. fold lengths.
    rewrite !written_none in H3. unfold with_arrays in H3. rewrite map_empty_union in H3.
    erewrite bind_step by exact H3. reflexivity.
Qed.

Lemma read_params_run h0 params qs h values lengths strs ps :
  object h0 params qs h values lengths strs ps ->
  read_params params h = (Ret (Transaction.PGParams qs, length_of <$> qs), h).
Proof.
  intros [Hv Hl Hne -> -> Hap [Hp Hn Hd]]. unfold read_params. cbn [_values _valueLengths _length]. rewrite Nat2Z.id.
  erewrite (read_values_run h0 values lengths Hv Hl Hne strs ps (length_of <$> qs) qs ps 0);
    [done|done|done|by rewrite drop_0..].
Qed.

Lemma copied_strings strs ps qs : copied strs ps qs -> forall a b, strs !! a = Some b -> exists s, b = CString s.
Proof.
  intros [Hp _ Hd] a b Hab. assert (Ha : Some a ∈ ps) by (apply Hd; by eexists).
  apply list_elem_of_lookup in Ha as [i Hi]. destruct (Forall2_lookup_l _ _ _ _ _ Hp Hi) as (q & _ & _ & Hq).
  rewrite Hab in Hq. injection Hq as ->. by eexists.
Qed.

Lemma PGParams_destroy_run h0 params qs h values lengths strs ps :
  object h0 params qs h values lengths strs ps -> PGParams_destroy params h = (Ret tt, h0).
Proof.
  intros [Hv Hl Hne -> -> Hap Hc]. pose proof (copied_strings _ _ _ Hc) as Hs. destruct Hc as [Hp Hn Hd].
  unfold PGParams_destroy. cbn [_values _valueLengths _length]. rewrite Nat2Z.id, <- (Forall2_length _ _ _ Hp).
  unfold mbind at 1, M_bind at 1.
  erewrite bind_step
    by (apply (free_values_run h0 values lengths Hv Hl Hne ps strs ps _ 0); [done|apply drop_0|done..]).
  assert (Hd1 : delete values (with_arrays h0 values lengths ∅ (Some <$> ps) (Some <$> (length_of <$> qs))) =
    <[lengths := Ints (Some <$> (length_of <$> qs))]> h0).
  { unfold with_arrays. rewrite map_empty_union, (insert_insert_ne _ lengths values) by done.
    rewrite delete_insert_id; [done|]. by rewrite lookup_insert_ne. }
  unfold delete_array. rewrite lookup_values by done. rewrite Hd1, lookup_insert_eq. by rewrite delete_insert_id.
Qed.

(** ** Properties *)
Section Refinement.
Context {PQ : LibPQ}.

Lemma with_params_run {A} qs (call : list (option string) -> M Transaction A) h t :
  (Z.of_nat (length qs) <= int_max)%Z ->
  with_params true qs call (h, t) =
    let '(r, t') := call (Transaction.PGParams qs) t in
    (r, (match r with Terminated => (with_params true qs call (h, t)).2.1 | _ => h end, t')).
Proof.
  intros Hn. destruct (PGParams_new_run qs h Hn) as (params & h1 & values & lengths & strs & ps & H1 & Ho).
  unfold with_params. erewrite bind_step by (unfold on_heap, local_params; by erewrite bind_step by exact H1).
  unfold scope. erewrite bind_step by (unfold on_heap; by erewrite (read_params_run _ _ _ _ _ _ _ _ Ho)).
  unfold on_transaction. cbn [fst]. destruct (call _ t) as [[a|e|] t']; [| |done];
    unfold on_heap; by erewrite (PGParams_destroy_run _ _ _ _ _ _ _ _ Ho).
Qed.

(** [C13] The overloads that take values are correct in memory, when the copy in
    [auto params = PGParams(qValues)] is left out: for every statement, values
    and heap libpq reads exactly the parameters that [Transaction] passes to it,
    the result and what becomes of the transaction are the same, no read, write
    or release is undefined, and on every exit, exceptions included, every
    string and both arrays have been released, each once and by the function
    that belongs to its allocation. *)
Theorem params_in_memory qs h t :
  (Z.of_nat (length qs) <= int_max)%Z ->
  (forall stmtName r t', execPrepared stmtName qs t = (r, t') -> r <> Terminated ->
     execPrepared_arrays true stmtName qs (h, t) = (r, (h, t'))) /\
  (forall _sql r t', execParams_values _sql qs t = (r, t') -> r <> Terminated ->
     execParams_arrays true _sql qs (h, t) = (r, (h, t'))) /\
  exists params h', PGParams_new qs h = (Ret params, h') /\
    read_params params h' = (Ret (Transaction.PGParams qs, length_of <$> qs), h') /\
    PGParams_destroy params h' = (Ret tt, h).
Proof.
  intros Hn. split; [|split].
  - intros stmtName r t' Hr Ht. unfold execPrepared_arrays. rewrite with_params_run by done.
    unfold execPrepared in Hr. rewrite Hr. by destruct r.
  - intros _sql r t' Hr Ht. unfold execParams_arrays. rewrite with_params_run by done.
    unfold execParams_values in Hr. rewrite Hr. by destruct r.
  - destruct (PGParams_new_run qs h Hn) as (params & h1 & values & lengths & strs & ps & H1 & Ho).
    exists params, h1. split; [done|]. split; [by eapply read_params_run|by eapply PGParams_destroy_run].
Qed.

Lemma delete_array_undefined a (h : CHeap) : h !! a = None -> delete_array a h = (Terminated, h).
Proof. intros Ha. unfold delete_array. by rewrite Ha. Qed.

(** [PGParams] relies on the elision of that copy, which C++11 allows and does
    not require: the class releases what it points to and keeps the implicit copy
    constructor.  Where the copy is made, both overloads are undefined for every
    statement, every server and every list of values, the empty one included:
    libpq reads released arrays, or the arrays are released twice. *)
Theorem copied_params_undefined qs h t :
  (Z.of_nat (length qs) <= int_max)%Z ->
  (forall stmtName, (execPrepared_arrays false stmtName qs (h, t)).1 = Terminated) /\
  (forall _sql, (execParams_arrays false _sql qs (h, t)).1 = Terminated).
Proof.
  intros Hn. destruct (PGParams_new_run qs h Hn) as (params & h1 & values & lengths & strs & ps & H1 & Ho).
  pose proof (PGParams_destroy_run _ _ _ _ _ _ _ _ Ho) as Hd. destruct Ho as [Hv Hl Hne -> -> _ _].
  assert (Hall : forall A (call : list (option string) -> M Transaction A),
    (with_params false qs call (h, t)).1 = Terminated); [|by split; intros; apply Hall].
  intros A call. unfold with_params.
  erewrite bind_step
    by (unfold on_heap, local_params; erewrite bind_step by exact H1; by erewrite bind_step by exact Hd).
  unfold scope. destruct qs as [|q qs].
  - erewrite bind_step by reflexivity. unfold on_transaction. cbn [fst].
    assert (Hx : PGParams_destroy (mkPGParams (Some values) (Some lengths) (Z.of_nat (length (@nil NullableValue)))) h =
      (Terminated, h)).
    { unfold PGParams_destroy. cbn [_values _valueLengths _length length]. rewrite Nat2Z.id. unfold mbind, M_bind.
      change (free_values values 0 0 h) with (@Ret unit tt, h). cbv beta iota. by rewrite delete_array_undefined. }
    destruct (call [] t) as [[a|e|] t']; [| |done]; unfold on_heap; by rewrite Hx.
  - unfold on_heap at 1, read_params. cbn [_values _valueLengths _length length]. rewrite Nat2Z.id. cbn [read_values].
    unfold mbind, M_bind. unfold read_pointer. by rewrite Hv.
Qed.
End Refinement.

(** ** Witnesses: a value and a null value, sent to the server of [Transaction] that refuses the statement *)
Definition two_values : list NullableValue := [Nullable_of "x"; Nullable_new].

Lemma params_in_memory_witness :
  exists e t', execPrepared_arrays (PQ := mock_server) true "ins" two_values
      (∅, mkTransaction mock_connection [] false) = (Throw e, (∅, t')).
Proof.
  eexists _, _.
  refine (proj1 (params_in_memory (PQ := mock_server) two_values ∅ _ _) "ins" _ _ _ _).
  - vm_compute. discriminate.
  - vm_compute. reflexivity.
  - discriminate.
Defined.

Lemma copied_params_undefined_witness :
  (execPrepared_arrays (PQ := mock_server) false "ins" [] (∅, mkTransaction mock_connection [] false)).1 = Terminated.
Proof. refine (proj1 (copied_params_undefined (PQ := mock_server) [] ∅ _ _) "ins"). vm_compute. discriminate. Defined.
