(* ===== verification/PostGis.v ===== *)
(** * PostGIS

    [src/server/db/postgis.h] and [src/server/db/postgis.cpp]: the version of the
    extension and the SRID of a geometry column. *)
From S2P Require Import Prelude Numbers StringUtils LibPQ Connection Transaction.

Definition POSTGIS_NO_SRID_FOUND : Z := -555.

(** [VersionTuple]. *)
Abbreviation VersionTuple := (Z * Z * Z)%type.

(** The three numbers of the text, [0] for a missing one. *)
Definition version_numbers (versionString : string) : VersionTuple :=
  let versionNumbers := split versionString "." in
  let number i := match versionNumbers !! i with Some s => atoi s | None => 0%Z end in
  (number 0, number 1, number 2).

Definition getUndefinedSRIDValue (versionPostgis : VersionTuple) : Z :=
  if decide (versionPostgis.1.1 < 2)%Z then (-1)%Z else 0%Z.

Section PostGis.
Context {PQ : LibPQ}.

Definition postgis_getVersion : M Transaction VersionTuple :=
  res ← execParams "select postgis_lib_version();" [];
  if Nat.eqb (PQntuples res) 0 then db_error "postgis_lib_version returned nothing"
  else match PQgetvalue res 0 0 with
       | None => db_error "postgis_lib_version returned an empty version string"
       | Some versionString => mret (version_numbers (c_str versionString))
       end.

Definition srid_query : string := cat
  ["select gc.srid::text";
   " from geometry_columns gc";
   " where gc.f_table_schema = $1::text ";
   "   and gc.f_table_name = $2::text";
   "   and gc.f_geometry_column = $3::text"].

Definition getGeometryColumnSRID (tableSchema tableName columnName : string) : M Transaction Z :=
  res ← execParams srid_query [Some (c_str tableSchema); Some (c_str tableName); Some (c_str columnName)];
  mret (foldl (fun srid i => match PQgetvalue res i 0 with
                             | Some sridC => atoi sridC
                             | None => srid
                             end) POSTGIS_NO_SRID_FOUND (seq 0 (PQntuples res))).

Lemma postgis_getVersion_keeps :
  keeps tx_le (fun e => is_db_error e = true) True postgis_getVersion.
Proof. unfold postgis_getVersion. keeps_steps. Qed.

Lemma getGeometryColumnSRID_keeps s1 s2 s3 :
  keeps tx_le (fun e => is_db_error e = true) True (getGeometryColumnSRID s1 s2 s3).
Proof. unfold getGeometryColumnSRID. keeps_steps. Qed.
End PostGis.

#[export] Hint Resolve postgis_getVersion_keeps getGeometryColumnSRID_keeps : keeps.

Lemma split_loop_skip (a rest seg : list ascii) (c : ascii) :
  c ∉ a -> split_loop (a ++ c :: rest) c seg [] = unchars (seg ++ a) :: split_loop rest c [] [].
Proof.
  revert seg. induction a as [|d a IH]; intros seg Ha; cbn [split_loop app].
  - rewrite Ascii.eqb_refl, split_loop_app, app_nil_r. done.
  - apply not_elem_of_cons in Ha as [Hd Ha]. destruct (Ascii.eqb_spec d c); [congruence|].
    rewrite IH by done. by rewrite <- app_assoc.
Qed.

Lemma split_loop_last (a seg : list ascii) (c : ascii) :
  c ∉ a -> split_loop a c seg [] = [unchars (seg ++ a)].
Proof.
  revert seg. induction a as [|d a IH]; intros seg Ha; cbn [split_loop]; [by rewrite app_nil_r|].
  apply not_elem_of_cons in Ha as [Hd Ha]. destruct (Ascii.eqb_spec d c); [congruence|].
  rewrite IH by done. by rewrite <- app_assoc.
Qed.

(** ** Properties *)

(** A version text of three numbers is read as these numbers. *)
Theorem version_numbers_read (major minor patch : Z) :
  (0 <= major <= int_max)%Z -> (0 <= minor <= int_max)%Z -> (0 <= patch <= int_max)%Z ->
  version_numbers (cat [to_string major; "."; to_string minor; "."; to_string patch]) =
    (major, minor, patch).
Proof.
  intros H1 H2 H3.
  assert (Hd : forall z, (0 <= z <= int_max)%Z -> "."%char ∉ chars (to_string z)).
  { intros z Hz Hin. destruct (to_string_digits z) as (Hf & _); [lia|]. rewrite Forall_forall in Hf.
    by destruct (digit_not_space _ (Hf _ Hin)) as (_ & _ & _ & _ & ?). }
  unfold version_numbers, split, cat. cbn [String.concat]. rewrite !chars_app. cbn [chars].
  change (String.append "" (String.append "." ?x)) with (String.append "." x).
  simpl. rewrite (split_loop_skip _ _ [] _ (Hd _ H1)), (split_loop_skip _ _ [] _ (Hd _ H2)),
    (split_loop_last _ [] _ (Hd _ H3)).
  simpl. by rewrite !unchars_chars, !atoi_to_string.
Qed.

Lemma version_numbers_read_witness : version_numbers (cat ["2"; "."; "1"; "."; "8"]) = (2, 1, 8)%Z.
Proof. apply (version_numbers_read 2 1 8); unfold int_max; lia. Defined.
