(* ===== verification/Requests.v ===== *)
(** * Which statements reach the server

    [sends_le P]: every request that a call adds, and every one that it leaves
    for the end of the transaction, satisfies [P].  With it the statements of a
    whole transaction are found from those of its parts. *)
From S2P Require Import Prelude StringUtils LibPQ Connection Transaction PostGis.

Section Sends.
Context {PQ : LibPQ} (P : request -> Prop).

Definition sends_le (t t' : Transaction) : Prop :=
  exists new more,
    sent (connection t') = sent (connection t) ++ new /\ Forall P new.*1 /\
    exitSqls t' = exitSqls t ++ more /\ Forall (fun s => P (Exec (c_str s))) more.

#[export] Instance sends_le_preorder : PreOrder sends_le.
Proof.
  split.
  - intros t. exists [], []. rewrite !app_nil_r. by repeat constructor.
  - intros t1 t2 t3 (n1 & m1 & S1 & P1 & E1 & Q1) (n2 & m2 & S2 & P2 & E2 & Q2).
    exists (n1 ++ n2), (m1 ++ m2). rewrite S2, S1, E2, E1, !app_assoc, fmap_app.
    repeat split; by apply Forall_app.
Qed.

Abbreviation sends := (keeps sends_le (fun _ => True) True).

Lemma checked_sends r : P r -> sends (result ← on_connection (send r); checkResult result).
Proof.
  intros Hp t. eapply wp_mono; [apply checked_spec|].
  intros res t' [He (new & Hs & Hn & _) _ _ _]. split; [|by destruct res].
  exists new, []. rewrite app_nil_r. repeat split; try done.
  destruct Hn as [->| ->]; by repeat constructor.
Qed.

Lemma exec_sends sql : P (Exec (c_str sql)) -> sends (exec sql).
Proof. apply checked_sends. Qed.
Lemma execParams_sends sql vs : P (ExecParams (c_str sql) vs) -> sends (execParams sql vs).
Proof. apply checked_sends. Qed.
Lemma execPrepared_sends s vs : P (ExecPrepared (c_str s) (PGParams vs)) -> sends (execPrepared s vs).
Proof. apply checked_sends. Qed.

Lemma push_exitSql_sends sql : P (Exec (c_str sql)) -> sends (modify (push_exitSql sql)).
Proof.
  intros Hp. apply keeps_modify. intros t. exists [], [sql]. rewrite app_nil_r.
  by repeat constructor.
Qed.

Lemma prepare_sends s sql n :
  P (Prepare (c_str s) (c_str sql) n) -> P (Exec (c_str (cat ["deallocate "; s; ";"]))) ->
  sends (prepare s sql n).
Proof.
  intros H1 H2. unfold prepare.
  change (sends (result ← on_connection (send (Prepare (c_str s) (c_str sql) n));
                 result' ← checkResult result;
                 _ ← modify (push_exitSql (cat ["deallocate "; s; ";"])); mret result')).
  intros t. pose proof (checked_sends _ H1 t) as Hc. unfold wp, mbind, M_bind in *.
  destruct (on_connection _ t) as [[r|e|] t1]; [|done..].
  destruct (checkResult r t1) as [[r'|e|] t2]; [|done..]. destruct Hc as [Hc _].
  split; [|done]. etrans; [exact Hc|]. apply (push_exitSql_sends _ H2 t2).
Qed.

Lemma db_error_sends {A} msg : sends (db_error msg : M Transaction A).
Proof. by apply keeps_throw; [apply _|]. Qed.
Lemma terminate_sends {A} : sends (terminate : M Transaction A).
Proof. by apply keeps_terminate; [apply _|]. Qed.
Lemma lift_sends {A} (r : result A) : sends (lift r).
Proof. apply keeps_lift; [apply _|]. by destruct r. Qed.
Lemma throw_sends {A} e : sends (throw e : M Transaction A).
Proof. by apply keeps_throw; [apply _|]. Qed.
Lemma on_getVersion_sends : sends (on_connection getVersion).
Proof.
  intros t. unfold wp, on_connection, getVersion, get, mbind, M_bind.
  destruct t as [c ex rb]. simpl. case_decide; (split; [apply PreOrder_Reflexive|done]).
Qed.
#[local] Hint Resolve db_error_sends terminate_sends lift_sends throw_sends on_getVersion_sends : keeps.

(** The whole transaction: its end and its exit SQLs are added. *)
Definition sends_body_le {X} : relation (X * Transaction) := fun s s' => sends_le s.2 s'.2.

#[export] Instance sends_body_le_preorder {X} : PreOrder (@sends_body_le X).
Proof.
  split; [intros s; exact (PreOrder_Reflexive (R := sends_le) s.2)|].
  intros a b c H1 H2. exact (PreOrder_Transitive (R := sends_le) a.2 b.2 c.2 H1 H2).
Qed.

Lemma on_transaction_sends {X A} (m : M Transaction A) :
  sends m -> keeps (@sends_body_le X) (fun _ => True) True (on_transaction m).
Proof. intros Hm [x t]. specialize (Hm t). unfold wp, on_transaction in *. by destruct (m t). Qed.

Lemma run_exitSql_sends sql : P (Exec (c_str sql)) -> sends (run_exitSql sql).
Proof.
  intros Hp. unfold run_exitSql. apply (keeps_try_catch _ _ _ (fun _ => True)).
  - apply keeps_bind; [apply _|by apply exec_sends|]. intros _. apply keeps_ret, _.
  - intros e _. destruct (is_db_error e); [apply keeps_ret, _|apply throw_sends].
Qed.

Definition sent_all (c c' : Connection) : Prop :=
  exists new, sent c' = sent c ++ new /\ Forall P new.*1.

Lemma sends_sent_all t t' : sends_le t t' -> sent_all (connection t) (connection t').
Proof. intros (new & more & Hs & Hp & _). by exists new. Qed.

Lemma sent_all_trans c1 c2 c3 : sent_all c1 c2 -> sent_all c2 c3 -> sent_all c1 c3.
Proof.
  intros (n1 & H1 & P1) (n2 & H2 & P2). exists (n1 ++ n2). rewrite H2, H1, app_assoc, fmap_app.
  split; [done|]. by apply Forall_app.
Qed.

Lemma end_transaction_sends t :
  P (Exec "commit;") -> P (Exec "rollback;") -> Forall (fun s => P (Exec (c_str s))) (exitSqls t) ->
  sent_all (connection t) (connection (Transaction_destroy t).2).
Proof.
  intros Hc Hr Hx.
  assert (Hm : forall l t, Forall (fun s => P (Exec (c_str s))) l ->
            wp (foreach l run_exitSql) (fun _ t' => sent_all (connection t) (connection t')) t).
  { intros l t0 Hl. eapply wp_mono; [apply keeps_foreach; [apply sends_le_preorder|]|].
    - intros s Hs. apply run_exitSql_sends. rewrite Forall_forall in Hl. by apply Hl.
    - intros r t' [H _]. by apply sends_sent_all. }
  assert (Hend : wp end_transaction (fun _ t' => sent_all (connection t) (connection t')) t).
  { unfold end_transaction. apply wp_bind. unfold get, wp at 1. cbn [seq_post]. apply wp_bind.
    eapply wp_mono with (Q := fun r t' => sends_le t t').
    { match goal with |- wp (if ?b then _ else _) _ _ => destruct b end;
        (eapply wp_mono; [by apply exec_sends|]; by intros ? ? [? _]). }
    intros r t1 H1%sends_sent_all. destruct r; cbn [seq_post]; [|done|done].
    apply wp_bind. eapply wp_mono; [by apply Hm|]. intros r t2 H2.
    pose proof (sent_all_trans _ _ _ H1 H2) as H3. by destruct r. }
  revert Hend. unfold wp, Transaction_destroy. by destruct (end_transaction t) as [[] t'].
Qed.

Lemma with_transaction_sends {X A} (body : M (X * Transaction) A) x c r x' c' :
  P (Exec "begin;") -> P (Exec "commit;") -> P (Exec "rollback;") ->
  keeps sends_body_le (fun _ => True) True body ->
  with_transaction body (x, c) = (r, (x', c')) -> sent_all c c'.
Proof.
  intros Hb Hc Hr Hbody. unfold with_transaction, Transaction_new.
  pose proof (exec_sends "begin;" Hb (mkTransaction c [] false)) as H0. unfold wp in H0.
  destruct (exec "begin;" _) as [r1 t1]. destruct H0 as [H0 _].
  pose proof (sends_sent_all _ _ H0) as H0'. simpl in H0'.
  destruct r1 as [a|e|]; [|by intros [= <- <- <-]..].
  pose proof (Hbody (x, t1)) as H1. unfold wp in H1.
  destruct (body (x, t1)) as [r2 [x2 t2]]. destruct H1 as [H1 _].
  pose proof (sent_all_trans _ _ _ H0' (sends_sent_all _ _ H1)) as H1'.
  assert (Hx : Forall (fun s => P (Exec (c_str s))) (exitSqls t2)).
  { destruct H0 as (? & m0 & _ & _ & E0 & F0), H1 as (? & m1 & _ & _ & E1 & F1). simpl in *.
    rewrite E1, E0. simpl. by apply Forall_app. }
  pose proof (sent_all_trans _ _ _ H1' (end_transaction_sends t2 Hc Hr Hx)) as H2.
  destruct r2 as [b|e|]; [..|by intros [= <- <- <-]];
    destruct (Transaction_destroy t2) as [[] t3]; by intros [= <- <- <-].
Qed.
End Sends.

Lemma sends_weaken {PQ : LibPQ} {A} (P Q : request -> Prop) (m : M Transaction A) :
  (forall r, P r -> Q r) -> keeps (sends_le P) (fun _ => True) True m ->
  keeps (sends_le Q) (fun _ => True) True m.
Proof.
  intros HPQ Hm t. eapply wp_mono; [apply Hm|].
  intros r t' [(new & more & Hs & Hp & He & Hx) Hr]. split; [|done].
  exists new, more. repeat split; try done; eapply Forall_impl; eauto.
Qed.

(** ** Statements that remove rows of a table *)
Definition sql_of (r : request) : string :=
  match r with
  | Exec sql | ExecParams sql _ | Prepare _ sql _ => sql
  | ExecPrepared _ _ => ""
  end.

Definition removes (r : request) : bool :=
  String.prefix "delete" (sql_of r) || String.prefix "truncate" (sql_of r).

Abbreviation harmless := (keeps (sends_le (fun r => removes r = false)) (fun _ => True) True).

#[export] Hint Resolve db_error_sends terminate_sends lift_sends throw_sends on_getVersion_sends : keeps.
(** The first bytes of a statement are literal, so that it evaluates. *)
#[export] Hint Extern 1 (keeps (sends_le _) _ _ (exec _)) => (apply exec_sends; reflexivity) : keeps.
#[export] Hint Extern 1 (keeps (sends_le _) _ _ (execParams _ _)) => (apply execParams_sends; reflexivity) : keeps.
#[export] Hint Extern 1 (keeps (sends_le _) _ _ (execPrepared _ _)) => (apply execPrepared_sends; reflexivity) : keeps.
#[export] Hint Extern 1 (keeps (sends_le _) _ _ (prepare _ _ _)) => (apply prepare_sends; reflexivity) : keeps.
#[export] Hint Extern 1 (keeps (sends_le _) _ _ (modify (push_exitSql _))) =>
  (apply push_exitSql_sends; reflexivity) : keeps.

(** Requests that neither remove rows nor concern a prepared statement; what
    the questions to the catalogue and the quoting calls send. *)
Definition ordinary (r : request) : bool :=
  match r with
  | Exec _ | ExecParams _ _ => negb (removes r)
  | _ => false
  end.

(** The predicates on requests that hold of all of these. *)
Class Ordinary (P : request -> Prop) : Prop := ordinary_sent : forall r, ordinary r = true -> P r.

#[export] Instance harmless_ordinary : Ordinary (fun r => removes r = false).
Proof. by intros [] H; [apply negb_true_iff in H..| |]. Qed.

Section Ordinary.
Context {PQ : LibPQ} (have_pq : bool) {P : request -> Prop} `{!Ordinary P}.
Abbreviation sends := (keeps (sends_le P) (fun _ => True) True).

#[local] Hint Extern 1 (keeps (sends_le _) _ _ (exec _)) =>
  (apply exec_sends, ordinary_sent; reflexivity) : keeps.
#[local] Hint Extern 1 (keeps (sends_le _) _ _ (execParams _ _)) =>
  (apply execParams_sends, ordinary_sent; reflexivity) : keeps.
#[local] Hint Extern 1 (keeps (sends_le _) _ _ (modify (push_exitSql _))) =>
  (apply push_exitSql_sends, ordinary_sent; reflexivity) : keeps.

Lemma escape_identifiers_sends l : sends (escape_identifiers l).
Proof. induction l; cbn [escape_identifiers]; keeps_steps. Qed.
#[local] Hint Resolve escape_identifiers_sends : keeps.

Lemma get_values_sends res i n : sends (get_values res i n).
Proof. revert i. induction n; intros i; cbn [get_values]; keeps_steps. Qed.
#[local] Hint Resolve get_values_sends : keeps.

Lemma quoteIdent_all_sends l : sends (quoteIdent_all have_pq l).
Proof. unfold quoteIdent_all, quote_remotely. keeps_steps. Qed.
#[local] Hint Resolve quoteIdent_all_sends : keeps.

Lemma quoteIdent_sends s : sends (quoteIdent have_pq s).
Proof. unfold quoteIdent. keeps_steps. Qed.
Lemma quoteAndJoinIdent_sends s1 s2 : sends (quoteAndJoinIdent have_pq s1 s2).
Proof. unfold quoteAndJoinIdent. keeps_steps. Qed.
#[local] Hint Resolve quoteIdent_sends quoteAndJoinIdent_sends : keeps.

Lemma createTempTable_sends s1 s2 s3 : sends (createTempTable have_pq s1 s2 s3).
Proof. unfold createTempTable. keeps_steps. Qed.
Lemma getTableFields_sends s1 s2 : sends (getTableFields s1 s2).
Proof. unfold getTableFields. keeps_steps. Qed.
Lemma postgis_getVersion_sends : sends postgis_getVersion.
Proof. unfold postgis_getVersion. keeps_steps. Qed.
Lemma getGeometryColumnSRID_sends s1 s2 s3 : sends (getGeometryColumnSRID s1 s2 s3).
Proof. unfold getGeometryColumnSRID. keeps_steps. Qed.
End Ordinary.

#[export] Hint Extern 1 (keeps (sends_le _) _ _ (quoteIdent_all _ _)) =>
  (apply quoteIdent_all_sends; exact _) : keeps.
#[export] Hint Extern 1 (keeps (sends_le _) _ _ (quoteIdent _ _)) => (apply quoteIdent_sends; exact _) : keeps.
#[export] Hint Extern 1 (keeps (sends_le _) _ _ (quoteAndJoinIdent _ _ _)) =>
  (apply quoteAndJoinIdent_sends; exact _) : keeps.
#[export] Hint Extern 1 (keeps (sends_le _) _ _ (createTempTable _ _ _ _)) =>
  (apply createTempTable_sends; exact _) : keeps.
#[export] Hint Extern 1 (keeps (sends_le _) _ _ (getTableFields _ _)) => (apply getTableFields_sends; exact _) : keeps.
#[export] Hint Extern 1 (keeps (sends_le _) _ _ postgis_getVersion) => (apply postgis_getVersion_sends; exact _) : keeps.
#[export] Hint Extern 1 (keeps (sends_le _) _ _ (getGeometryColumnSRID _ _ _)) =>
  (apply getGeometryColumnSRID_sends; exact _) : keeps.
