(* ===== verification/Gdal.v ===== *)
(** * GDAL/OGR

    The library that reads the sources of the layers is not part of the program.
    What [src/server/worker.cpp] asks it about a dataset, a layer, a feature and
    a geometry is a field of a record here; [Gdal] has the global functions.
    Nothing is assumed about the answers, except that reading a layer ends: the
    features that [GetNextFeature] returns, one by one, form a list. *)
From S2P Require Import Prelude Numbers.

(** [OGRFieldType], with the numbers of the enumeration. *)
Inductive OGRFieldType :=
  | OFTInteger | OFTIntegerList | OFTReal | OFTRealList | OFTString | OFTStringList
  | OFTWideString | OFTWideStringList | OFTBinary | OFTDate | OFTTime | OFTDateTime
  | OFTInteger64 | OFTInteger64List.

Definition OGRFieldType_int (t : OGRFieldType) : Z :=
  match t with
  | OFTInteger => 0 | OFTIntegerList => 1 | OFTReal => 2 | OFTRealList => 3
  | OFTString => 4 | OFTStringList => 5 | OFTWideString => 6 | OFTWideStringList => 7
  | OFTBinary => 8 | OFTDate => 9 | OFTTime => 10 | OFTDateTime => 11
  | OFTInteger64 => 12 | OFTInteger64List => 13
  end.

#[export] Instance OGRFieldType_eq_dec : EqDecision OGRFieldType.
Proof. solve_decision. Defined.

(** [exportToWkb] fills a buffer of [WkbSize] bytes, [None] for an error. *)
Record OGRGeometry := mkGeometry {
  WkbSize : Z;
  exportToWkb : option string
}.

(** [GetFieldAsDateTime]: year, month, day, hour, minute, second. *)
Record OGRFeature := mkFeature {
  IsFieldSet : Z -> bool;
  GetFieldAsString : Z -> string;
  GetFieldAsInteger : Z -> Z;
  GetFieldAsDouble : Z -> double;
  GetFieldAsDateTime : Z -> option (Z * Z * Z * Z * Z * Z);
  GetFieldAsIntegerList : Z -> list Z;
  GetFieldAsDoubleList : Z -> list double;
  GetFieldAsStringList : Z -> list string;
  GetFID : Z;
  GetGeometryRef : option OGRGeometry
}.

(** [SetAttributeFilter]: the features that pass, or an error with the text of
    [CPLGetLastErrorMsg], if there is one. *)
Record OGRLayer := mkOGRLayer {
  GetName : string;
  GetFIDColumn : string;
  GetGeomFieldCount : Z;
  FieldDefns : list (string * OGRFieldType);
  AllFeatures : list OGRFeature;
  SetAttributeFilter : string -> list OGRFeature + option string
}.

(** [GetLayer(i)] may be null for a layer that the driver lists. *)
Record GDALDataset := mkDataset {
  GetLayers : list (option OGRLayer);
  GetLayerByName : string -> option OGRLayer
}.

Class Gdal := {
  (** [GDALOpenEx] or [OGRSFDriverRegistrar::Open], read only. *)
  OpenDataset : string -> option GDALDataset;
  CPLMalloc_ok : Z -> bool;
  CPLBinaryToHex : string -> option string;
  (** [GDAL_VERSION_MAJOR > 1]. *)
  gdal2 : bool
}.
