(* ===== verification/FieldConversion.v ===== *)
(** * From OGR values to PostgreSQL values

    The three member functions at the end of [src/server/worker.cpp] and the
    export of a geometry inside [Worker::pull]. *)
From S2P Require Import Prelude Numbers StringUtils NullableValue Gdal.

(** [QueryValue] is [NullableValue]: [src/server/db/queryvalue.h]. *)
Abbreviation QueryValue := NullableValue.

Definition worker_error {A} (msg : string) : result A := Throw (WorkerError msg).

Section Conversion.
Context {GD : Gdal}.

Definition getPostgresType (fieldType : OGRFieldType) : result string :=
  let unsupported := worker_error
    (cat ["No supported PostgreSQL type for OGR field type: "; to_string (OGRFieldType_int fieldType)]) in
  match fieldType with
  | OFTString => Ret "text"
  | OFTInteger => Ret "integer"
  | OFTReal => Ret "double precision"
  | OFTDate => Ret "date"
  | OFTTime => Ret "time"
  | OFTDateTime => Ret "timestamp"
  | OFTIntegerList => Ret "integer[]"
  | OFTRealList => Ret "double precision[]"
  | OFTStringList => Ret "text[]"
  | OFTBinary => Ret "bytea"
  | OFTInteger64 => if gdal2 then Ret "integer" else unsupported
  | OFTInteger64List => if gdal2 then Ret "integer[]" else unsupported
  | OFTWideString | OFTWideStringList => unsupported
  end.

(** The element of a text array, with backslashes and quotes escaped. *)
Definition array_element (currentValue : string) : result string :=
  match replaceAll currentValue "\" "\\" with
  | None => Terminated
  | Some v => match replaceAll v dquote (cat ["\"; dquote]) with
              | None => Terminated
              | Some v => Ret (cat [dquote; v; dquote])
              end
  end.

Fixpoint array_elements (l : list string) : result (list string) :=
  match l with
  | [] => Ret []
  | x :: l' => e ← array_element x; rest ← array_elements l'; Ret (e :: rest)
  end.

(** The text that the list types put into [valueStream]. *)
Definition array_text (ogrFeature : OGRFeature) (fieldIdx : Z) (fieldType : OGRFieldType)
  : result string :=
  elements ← match fieldType with
             | OFTIntegerList => Ret (to_string <$> GetFieldAsIntegerList ogrFeature fieldIdx)
             | OFTRealList => Ret (double_text <$> GetFieldAsDoubleList ogrFeature fieldIdx)
             | OFTStringList => array_elements (c_str <$> GetFieldAsStringList ogrFeature fieldIdx)
             | _ => worker_error "None of the implemented list types matched. This point should not be reacheable"
             end;
  Ret (cat ["{"; join elements ","; "}"]).

Definition datetime_text (fieldType : OGRFieldType) (v : Z * Z * Z * Z * Z * Z) : result string :=
  let '(dtYear, dtMonth, dtDay, dtHour, dtMinute, dtSecond) := v in
  match fieldType with
  | OFTDate =>
    Ret (cat [printf_0d 4 dtYear; "-"; printf_0d 2 dtMonth; "-"; printf_0d 2 dtDay])
  | OFTTime =>
    Ret (cat [printf_0d 2 dtHour; ":"; printf_0d 2 dtMinute; ":"; printf_0d 9 dtSecond; ".0"])
  | OFTDateTime =>
    Ret (cat [printf_0d 4 dtYear; "-"; printf_0d 2 dtMonth; "-"; printf_0d 2 dtDay; "T";
              printf_0d 2 dtHour; ":"; printf_0d 2 dtMinute; ":"; printf_0d 9 dtSecond; ".0"])
  | _ => worker_error "None of the implemented date/time/datetime types matched. This point should not be reacheable"
  end.

Definition unsupported_field {A} (fieldType : OGRFieldType) : result A :=
  worker_error (cat ["Unsupported OGR field type to convert to string: ";
                     to_string (OGRFieldType_int fieldType)]).

(** [setIsNull(!set)], then [set] of the text. *)
Definition scalar_value (isSet : bool) (text : string) : QueryValue :=
  let result := setIsNull (negb isSet) Nullable_new in
  if negb (isNull result) then nv_set text result else result.

(** The [switch]: the list types have no [break] and fall through to the
    [throw] of [default]. *)
Definition convert_switch (ogrFeature : OGRFeature) (fieldIdx : Z) (fieldType : OGRFieldType)
  : result QueryValue :=
  let isSet := IsFieldSet ogrFeature fieldIdx in
  let integer := Ret (scalar_value isSet (to_string (GetFieldAsInteger ogrFeature fieldIdx))) in
  let list_type :=
    text ← array_text ogrFeature fieldIdx fieldType;
    let result := nv_set text (setIsNull false Nullable_new) in
    unsupported_field fieldType in
  match fieldType with
  | OFTString => Ret (scalar_value isSet (c_str (GetFieldAsString ogrFeature fieldIdx)))
  | OFTInteger => integer
  | OFTInteger64 => if gdal2 then integer else unsupported_field fieldType
  | OFTReal => Ret (scalar_value isSet (to_string_double (GetFieldAsDouble ogrFeature fieldIdx)))
  | OFTDate | OFTTime | OFTDateTime =>
    match GetFieldAsDateTime ogrFeature fieldIdx with
    | Some v => text ← datetime_text fieldType v;
                Ret (nv_set text (setIsNull false Nullable_new))
    | None => Ret (setIsNull true Nullable_new)
    end
  | OFTIntegerList | OFTRealList | OFTStringList => list_type
  | OFTInteger64List => if gdal2 then list_type else unsupported_field fieldType
  | OFTBinary | OFTWideString | OFTWideStringList => unsupported_field fieldType
  end.

Definition is_time_type (pgTypeName : string) : bool :=
  bool_decide (pgTypeName ∈ ["timestamp"; "timestampz"; "time"; "date"]).

Definition convertToString (ogrFeature : OGRFeature) (fieldIdx : Z) (fieldType : OGRFieldType)
  (pgTypeName : string) : result QueryValue :=
  result ← convert_switch ogrFeature fieldIdx fieldType;
  Ret (if negb (isNull result) && is_empty (nv_get result) && is_time_type pgTypeName
       then setIsNull true result else result).

Definition convertFidToString (ogrFeature : OGRFeature) : QueryValue :=
  nv_set (to_string (GetFID ogrFeature)) (setIsNull false Nullable_new).

(** The geometry of a feature as hexadecimal WKB. *)
Definition geometry_value (ogrFeature : OGRFeature) (numPulled : Z) : result QueryValue :=
  match GetGeometryRef ogrFeature with
  | None => Ret (setIsNull true Nullable_new)
  | Some ogrGeometry =>
    let bufferSize := WkbSize ogrGeometry in
    if negb (CPLMalloc_ok bufferSize) then
      worker_error "Unable to allocate memory to export geometry"
    else
      match exportToWkb ogrGeometry with
      | None => worker_error (cat ["Could not export the geometry from feature #"; to_string numPulled])
      | Some buffer =>
        match CPLBinaryToHex buffer with
        | None => worker_error "Unable to allocate memory to convert geometry to hex"
        | Some hexBuffer => Ret (scalar_value (negb (bool_decide (bufferSize = 0%Z))) (c_str hexBuffer))
        end
      end
  end.

(** ** Lemmas *)
Definition is_worker_error (e : exn) : bool := match e with WorkerError _ => true | _ => false end.

Lemma array_element_total x : exists t, array_element x = Ret t.
Proof.
  unfold array_element. rewrite replaceAll_char_eq. unfold dquote. rewrite replaceAll_char_eq. eauto.
Qed.

Lemma array_elements_total l : exists ts, array_elements l = Ret ts.
Proof.
  induction l as [|x l [ts IH]]; simpl; [eauto|].
  destruct (array_element_total x) as [t ->]. simpl. rewrite IH. simpl. eauto.
Qed.

Lemma convert_switch_throws f i t :
  only_throws (fun e => is_worker_error e = true) (convert_switch f i t).
Proof.
  unfold convert_switch, unsupported_field, worker_error, array_text.
  destruct t; try done; try (destruct gdal2; done); try (by destruct (GetFieldAsDateTime _ _) as [[[[[[? ?] ?] ?] ?] ?]|]).
  destruct (array_elements_total (c_str <$> GetFieldAsStringList f i)) as [ts Hts]. by rewrite Hts.
Qed.

Lemma convertToString_throws f i t pg :
  only_throws (fun e => is_worker_error e = true) (convertToString f i t pg).
Proof.
  unfold convertToString. apply only_throws_bind; [apply convert_switch_throws|]. done.
Qed.

Lemma geometry_value_throws f n :
  only_throws (fun e => is_worker_error e = true) (geometry_value f n).
Proof. unfold geometry_value, worker_error. repeat case_match; done. Qed.
End Conversion.

(** ** Reading a quoted array element, as PostgreSQL does

    After the opening quote: a backslash takes the next byte as it is, the first
    other quote ends the element. *)
Fixpoint read_element (l : list ascii) : option (list ascii * list ascii) :=
  match l with
  | [] => None
  | c :: l' =>
    if Ascii.eqb c "034" then Some ([], l')
    else if Ascii.eqb c "\" then
      match l' with
      | [] => None
      | d :: l'' => prod_map (cons d) id <$> read_element l''
      end
    else prod_map (cons c) id <$> read_element l'
  end.

Section Properties.
Context {GD : Gdal}.

Lemma array_element_bytes x :
  array_element x = Ret (cat [dquote; unchars (flat_map (fun c =>
    if Ascii.eqb c "\" then ["\"; "\"]%char else if Ascii.eqb c "034" then ["\"; "034"]%char else [c])
    (chars x)); dquote]).
Proof.
  unfold array_element. rewrite replaceAll_char_eq. unfold dquote at 1. rewrite replaceAll_char_eq.
  rewrite chars_unchars. unfold subst_char. do 5 f_equal.
  induction (chars x) as [|c l IH]; cbn [flat_map]; [done|].
  rewrite flat_map_app, IH. f_equal. destruct (Ascii.eqb_spec c "\") as [->|Hne]; simpl; [done|].
  by destruct (Ascii.eqb c "034").
Qed.

(** An element of a text array is escaped so that it is read back as it
    was: the element ends at the quote that the code put there, whatever
    quotes and backslashes the source value contains, and whatever follows. *)
Theorem array_element_roundtrip (x : string) (rest : list ascii) :
  exists t body, array_element x = Ret t /\ chars t = "034"%char :: body /\
    read_element (body ++ rest) = Some (chars x, rest).
Proof.
  set (b := flat_map (fun c =>
    if Ascii.eqb c "\" then ["\"; "\"]%char else if Ascii.eqb c "034" then ["\"; "034"]%char else [c])
    (chars x)).
  exists (cat [dquote; unchars b; dquote]), (b ++ ["034"%char]). split; [apply array_element_bytes|].
  split; [change (chars (dquote +:+ (unchars b +:+ dquote)) = "034"%char :: b ++ ["034"%char]);
          by rewrite !chars_app, chars_unchars|].
  unfold b. clear b.
  induction (chars x) as [|c l IH]; [done|].
  cbn [flat_map]. rewrite <- !app_assoc in *.
  destruct (Ascii.eqb_spec c "\") as [->|Hne]; [|destruct (Ascii.eqb_spec c "034") as [->|Hne']];
    cbn [app read_element Ascii.eqb Bool.eqb] in *; [by rewrite IH..|].
  destruct (Ascii.eqb_spec c "034"); [done|]. destruct (Ascii.eqb_spec c "\"); [done|].
  by rewrite IH.
Qed.

(** The text of a scalar field that is set. *)
Definition scalar_text (f : OGRFeature) (i : Z) (t : OGRFieldType) : option string :=
  match t with
  | OFTString => Some (c_str (GetFieldAsString f i))
  | OFTInteger => Some (to_string (GetFieldAsInteger f i))
  | OFTInteger64 => if gdal2 then Some (to_string (GetFieldAsInteger f i)) else None
  | OFTReal => Some (to_string_double (GetFieldAsDouble f i))
  | _ => None
  end.

(** A string, integer or real field becomes NULL exactly when it is not
    set in the source, or when it is empty and the column has a time type;
    otherwise it becomes its text.  The [int64] types exist only with GDAL 2. *)
Theorem convertToString_scalar f i t pg text :
  scalar_text f i t = Some text ->
  exists v, convertToString f i t pg = Ret v /\
    nv_option v = if IsFieldSet f i && negb (is_empty text && is_time_type pg)
                  then Some text else None.
Proof.
  intros Ht. unfold convertToString, convert_switch, scalar_text in *.
  assert (Hs : forall text', exists v,
    (let result := scalar_value (IsFieldSet f i) text' in
     Ret (if negb (isNull result) && is_empty (nv_get result) && is_time_type pg
          then setIsNull true result else result)) = Ret v /\
    nv_option v = if IsFieldSet f i && negb (is_empty text' && is_time_type pg)
                  then Some text' else None).
  { intros text'. eexists. split; [reflexivity|]. unfold scalar_value, nv_option, isNull, nv_get.
    destruct (IsFieldSet f i); simpl; [|done].
    by destruct (is_empty text'), (is_time_type pg). }
  destruct t; try discriminate; [| | |destruct gdal2; [|discriminate]];
    injection Ht as <-; apply Hs.
Qed.

(** No list field and no binary field is ever converted, although
    [getPostgresType] accepts them when the insert is prepared: the array text
    is built and then discarded, because the [case] has no [break]. *)
Theorem convertToString_list f i t pg :
  t ∈ [OFTIntegerList; OFTRealList; OFTStringList; OFTBinary] ->
  is_ret (getPostgresType t) = true /\
  convertToString f i t pg =
    Throw (WorkerError (cat ["Unsupported OGR field type to convert to string: ";
                             to_string (OGRFieldType_int t)])).
Proof.
  rewrite !elem_of_cons, elem_of_nil. unfold convertToString, convert_switch, array_text.
  destruct (array_elements_total (c_str <$> GetFieldAsStringList f i)) as [ts Hts].
  intros [->|[->|[->|[->|[]]]]]; (split; [done|]); try done. by rewrite Hts.
Qed.

(** A real value smaller than half of the sixth decimal is sent to the
    database as zero, since [std::to_string] writes six decimals. *)
Theorem small_real_is_zero f i pg s m e :
  GetFieldAsDouble f i = S754_finite s m e -> IsFieldSet f i = true ->
  (e < 0)%Z -> (2 * (Zpos m * 1000000) < 2 ^ (- e))%Z ->
  exists v, convertToString f i OFTReal pg = Ret v /\
    nv_option v = Some ((if s then "-" else "") +:+ "0.000000").
Proof.
  intros Hd Hs He Hm. unfold convertToString, convert_switch. rewrite Hd, Hs.
  assert (Ht : to_string_double (S754_finite s m e) = (if s then "-" else "") +:+ "0.000000").
  { unfold to_string_double, format_f. rewrite decide_False by lia. unfold round_div.
    rewrite (Z.div_small (Zpos m * 1000000)), (Z.mod_small (Zpos m * 1000000)) by lia.
    rewrite decide_True by lia. by destruct s. }
  rewrite Ht. eexists. split; [reflexivity|]. by destruct s.
Qed.
End Properties.

(** ** Witnesses *)
Definition feature_example : OGRFeature :=
  mkFeature (fun _ => true) (fun _ => "x") (fun _ => 7%Z) (fun _ => S754_finite false 1 (-24))
    (fun _ => None) (fun _ => []) (fun _ => []) (fun _ => []) 1 None.

Definition gdal_example : Gdal := {|
  OpenDataset := fun _ => None;
  CPLMalloc_ok := fun _ => true;
  CPLBinaryToHex := fun _ => Some "";
  gdal2 := true
|}.

Lemma convertToString_scalar_witness :
  exists v, convertToString (GD := gdal_example) feature_example 0 OFTInteger "int4" = Ret v /\
    nv_option v = Some "7".
Proof.
  exact (convertToString_scalar (GD := gdal_example) feature_example 0 OFTInteger "int4" "7" eq_refl).
Defined.

Lemma convertToString_list_witness :
  convertToString (GD := gdal_example) feature_example 0 OFTStringList "_text" =
    Throw (WorkerError "Unsupported OGR field type to convert to string: 5").
Proof.
  refine (proj2 (convertToString_list (GD := gdal_example) feature_example 0 OFTStringList "_text" _)).
  right. right. left.
Defined.

Lemma small_real_is_zero_witness :
  exists v, convertToString (GD := gdal_example) feature_example 0 OFTReal "float8" = Ret v /\
    nv_option v = Some "0.000000".
Proof.
  apply (small_real_is_zero (GD := gdal_example) feature_example 0 "float8" false 1 (-24));
    [reflexivity|reflexivity|lia|lia].
Defined.
