(* ===== verification/PullSource.v ===== *)
(** * Pulling a layer: the source

    The first part of [Worker::pull] in [src/server/worker.cpp], up to the start
    of the transaction: the filter, the dataset, the layer in it and its
    fields. *)
From S2P Require Import Prelude Numbers StringUtils Configuration Gdal FieldConversion.

(** [OgrField]; [operator[]] of the map makes a zeroed one, type [OFTInteger]. *)
Record OgrField := mkOgrField { index : Z; ogr_type : OGRFieldType }.
Abbreviation OgrFieldMap := (gmap string OgrField).
Definition OgrField_new : OgrField := mkOgrField 0 OFTInteger.

(** The filter of the layer and of the job. *)
Definition filterString (layer_filter job_filter : string) : string :=
  let both := negb (is_empty layer_filter) && negb (is_empty job_filter) in
  cat [if both then "(" else "";
       if negb (is_empty layer_filter) then layer_filter else "";
       if both then ") and (" else "";
       if negb (is_empty job_filter) then job_filter else "";
       if both then ")" else ""].

(** ** The message when the layer is not found *)
Record search := mkSearch {
  layerExists : bool;
  layersNotOpenable : Z;
  closestMatch : string;
  ldClosestMatch : Z
}.
Definition search_new : search := mkSearch false 0 "" 5000.

Fixpoint search_layers (wanted : string) (l : list (option OGRLayer)) (s : search) : search :=
  match l with
  | [] => s
  | None :: l' =>
    search_layers wanted l'
      (mkSearch (layerExists s) (layersNotOpenable s + 1) (closestMatch s) (ldClosestMatch s))
  | Some searchLayer :: l' =>
    let name := c_str (GetName searchLayer) in
    if String.eqb wanted name then
      mkSearch true (layersNotOpenable s) (closestMatch s) (ldClosestMatch s)
    else
      let ldSearchLayer := Z.of_nat (levenshteinDistance wanted name) in
      search_layers wanted l'
        (if decide (ldSearchLayer < ldClosestMatch s)%Z
         then mkSearch (layerExists s) (layersNotOpenable s) name ldSearchLayer
         else s)
  end.

Definition missing_layer_message (layer : Layer) (s : search) : string :=
  cat [ "source_layer "; quoted (source_layer layer);
        " for configured layer "; quoted (name layer); " ";
        if layerExists s then "exists, but could not be opened."
        else cat ["does not exist.";
          if decide (ldClosestMatch s < 12)%Z
          then cat [" HINT: The source has a layer named "; quoted (closestMatch s); "."] else "";
          if decide (0 < layersNotOpenable s)%Z
          then cat [" HINT: "; to_string (layersNotOpenable s); " layer(s) could not be opened."]
          else ""] ].

Section Source.
Context {GD : Gdal}.

(** The open source: the layer, the features it returns and its fields. *)
Record Source := mkSource {
  ogrLayer : OGRLayer;
  features : list OGRFeature;
  ogrFields : OgrFieldMap
}.

Definition find_ogrLayer (layer : Layer) : result OGRLayer :=
  match OpenDataset (c_str (source layer)) with
  | None => worker_error (cat ["Could not open dataset for layer "; quoted (name layer)])
  | Some gdalDataset =>
    match GetLayerByName gdalDataset (c_str (source_layer layer)) with
    | Some ogrLayer => Ret ogrLayer
    | None =>
      worker_error (missing_layer_message layer
        (search_layers (source_layer layer) (GetLayers gdalDataset) search_new))
    end
  end.

(** The features to read; without a filter all of them. *)
Definition set_filter_on (layer : Layer) (ogrLayer : OGRLayer) (filterString : string)
  : result (list OGRFeature) :=
  if negb (is_empty filterString) then
    match SetAttributeFilter ogrLayer (c_str filterString) with
    | inl features => Ret features
    | inr error =>
      worker_error (cat
        ["The given filter for layer "; quoted (name layer); " is invalid";
         match error with Some msg => cat [": "; msg] | None => "." end;
         " The applied filter was [ "; filterString; " ]"])
    end
  else Ret (AllFeatures ogrLayer).

Definition check_geometry_fields (ogrLayer : OGRLayer) : result unit :=
  if gdal2 && bool_decide (1 < GetGeomFieldCount ogrLayer)%Z then
    worker_error (cat
      ["The source provides "; to_string (GetGeomFieldCount ogrLayer);
       "geometry fields. Currently only sources with no or only one geometry field are supported"])
  else Ret tt.

(** The fields by their name in lower case; a later field of the same name
    replaces an earlier one. *)
Fixpoint collect_fields (i : Z) (l : list (string * OGRFieldType)) (fields : OgrFieldMap)
  : OgrFieldMap :=
  match l with
  | [] => fields
  | (fieldNameRef, fieldType) :: l' =>
    collect_fields (i + 1) l'
      (<[tolower (c_str fieldNameRef) := mkOgrField i fieldType]> fields)
  end.

Definition open_source (layer : Layer) (job_filter : string) : result Source :=
  let filterString := filterString (Configuration.filter layer) job_filter in
  ogrLayer ← find_ogrLayer layer;
  features ← set_filter_on layer ogrLayer filterString;
  _ ← check_geometry_fields ogrLayer;
  Ret (mkSource ogrLayer features (collect_fields 0 (FieldDefns ogrLayer) ∅)).

(** A column that the source provides: a field of it, or its FID column. *)
Definition in_source (src : Source) (column : string) : bool :=
  bool_decide (is_Some (ogrFields src !! column)) || String.eqb (c_str (GetFIDColumn (ogrLayer src))) column.

Lemma open_source_throws layer f :
  only_throws (fun e => is_worker_error e = true) (open_source layer f).
Proof.
  unfold open_source. apply only_throws_bind.
  { unfold find_ogrLayer, worker_error. repeat case_match; done. }
  intros l _. apply only_throws_bind.
  { unfold set_filter_on, worker_error. repeat case_match; done. }
  intros fs _. apply only_throws_bind; [|done].
  unfold check_geometry_fields, worker_error. by case_match.
Qed.

(** ** Lemmas *)
Lemma filterString_empty f1 f2 : filterString f1 f2 = "" <-> f1 = "" /\ f2 = "".
Proof.
  unfold filterString, is_empty.
  destruct (String.eqb_spec f1 ""), (String.eqb_spec f2 ""); subst; simpl; split; try done.
  - intros H. split; [done|]. revert H. by destruct f2.
  - intros [_ H]. done.
  - intros H. destruct f1; done.
  - intros [H _]. done.
  - intros [? ?]. done.
Qed.

Lemma collect_fields_lookup l i fields k f :
  collect_fields i l fields !! k = Some f ->
  fields !! k = Some f \/
  exists n t, In (n, t) l /\ k = tolower (c_str n) /\ ogr_type f = t /\
    (i <= index f < i + Z.of_nat (length l))%Z /\ l !! Z.to_nat (index f - i) = Some (n, t).
Proof.
  revert i fields. induction l as [|[n t] l IH]; intros i fields; cbn [collect_fields]; [auto|].
  intros H. apply IH in H as [H|(n' & t' & Hin & Hk & Ht & Hi & Hl)].
  - apply lookup_insert_Some in H as [[<- <-]|[_ H]]; [right|by left]. exists n, t. simpl.
    repeat split; try lia; [by left|]. replace (Z.to_nat (i - i)) with 0 by lia. done.
  - right. exists n', t'. repeat split; [by right|done|done|simpl; lia..|].
    replace (Z.to_nat (index f - i)) with (S (Z.to_nat (index f - (i + 1)))) by lia. done.
Qed.
End Source.

(** ** The hint *)
Section Hint.
(** The best match so far among the layers seen, when none has the name. *)
Definition best_match (wanted : string) (l : list string) (s : search) : Prop :=
  layerExists s = false /\
  (forall n, n ∈ l -> (ldClosestMatch s <= Z.of_nat (levenshteinDistance wanted n))%Z) /\
  (ldClosestMatch s = 5000%Z \/
   (ldClosestMatch s = Z.of_nat (levenshteinDistance wanted (closestMatch s)) /\ closestMatch s ∈ l)).

Definition names (l : list (option OGRLayer)) : list string :=
  omap (fun o => (fun x => c_str (GetName x)) <$> o) l.

Lemma search_layers_best wanted l seen s :
  best_match wanted seen s ->
  if bool_decide (wanted ∈ names l)
  then layerExists (search_layers wanted l s) = true
  else best_match wanted (seen ++ names l) (search_layers wanted l s) /\
       layersNotOpenable (search_layers wanted l s) =
         (layersNotOpenable s + Z.of_nat (length (base.filter (fun o => o = None) l)))%Z.
Proof.
  revert seen s. induction l as [|[x|] l IH]; intros seen s Hb.
  - simpl. rewrite app_nil_r. split; [done|lia].
  - cbn [search_layers]. change (names (Some x :: l)) with (c_str (GetName x) :: names l).
    destruct (String.eqb_spec wanted (c_str (GetName x))) as [He|Hne].
    { rewrite bool_decide_true by (rewrite <- He; left). done. }
    set (n := c_str (GetName x)) in *. set (s' := if decide _ then _ else s).
    assert (Hb' : best_match wanted (seen ++ [n]) s').
    { destruct Hb as (H1 & H2 & H3). unfold s'.
      destruct (decide (Z.of_nat (levenshteinDistance wanted n) < ldClosestMatch s)%Z) as [Hd|Hd];
        (split; [exact H1|]); simpl; split.
      - intros m [Hm|Hm%list_elem_of_singleton]%elem_of_app; [|subst; lia].
        specialize (H2 m Hm). lia.
      - right. split; [done|]. apply elem_of_app. right. by apply list_elem_of_singleton.
      - intros m [Hm|Hm%list_elem_of_singleton]%elem_of_app; [auto|subst; lia].
      - destruct H3 as [|[? ?]]; [by left|right]. split; [done|]. apply elem_of_app. by left. }
    specialize (IH _ _ Hb'). rewrite <- app_assoc in IH.
    rewrite (bool_decide_ext (wanted ∈ n :: names l) (wanted ∈ names l))
      by (rewrite elem_of_cons; naive_solver).
    destruct (bool_decide _); [done|]. destruct IH as [IH1 IH2]. split; [done|].
    rewrite IH2, filter_cons_False by done. f_equal. unfold s'.
    by destruct (decide (Z.of_nat (levenshteinDistance wanted n) < ldClosestMatch s)%Z).
  - cbn [search_layers]. change (names (None :: l)) with (names l).
    assert (Hb' : best_match wanted seen (mkSearch (layerExists s) (layersNotOpenable s + 1)
                    (closestMatch s) (ldClosestMatch s))) by exact Hb.
    specialize (IH _ _ Hb'). destruct (bool_decide _); [done|]. destruct IH as [IH1 IH2].
    split; [done|]. rewrite IH2, filter_cons_True by done. simpl. lia.
Qed.

(** ** Properties *)

(** The diagnosis of a missing source layer: it says that the layer exists
    exactly when the dataset lists a layer of that name; otherwise the layer it
    hints at is one of the dataset's, at the least edit distance from the
    configured name, and the count is that of the layers that did not open. *)
Theorem search_layers_spec wanted l :
  let s := search_layers wanted l search_new in
  (layerExists s = true <-> wanted ∈ names l) /\
  (layerExists s = false ->
     layersNotOpenable s = Z.of_nat (length (base.filter (fun o => o = None) l)) /\
     ((ldClosestMatch s < 12)%Z -> closestMatch s ∈ names l /\
        forall n, n ∈ names l -> levenshteinDistance wanted (closestMatch s) <= levenshteinDistance wanted n)).
Proof.
  assert (H0 : best_match wanted [] search_new).
  { split; [done|]. split; [|by left]. intros n Hn. by apply not_elem_of_nil in Hn. }
  pose proof (search_layers_best wanted l [] search_new H0) as H. simpl in *.
  case_bool_decide as Hin.
  - rewrite H. split; [done|]. done.
  - destruct H as ((H1 & H2 & H3) & H4). rewrite H1. split; [done|]. intros _.
    split; [rewrite H4; simpl; lia|]. intros Hlt. destruct H3 as [|[H3 H5]]; [lia|].
    split; [done|]. intros n Hn. specialize (H2 n Hn). lia.
Qed.
End Hint.
