(* ===== verification/Pull.v ===== *)
(** * Pulling a layer: the database

    The second part of [Worker::pull] in [src/server/worker.cpp]: the columns of
    the table, the temporary table and its insert statement, the features, and
    the statements that bring the target table up to date. *)
From S2P Require Import Prelude Numbers StringUtils NullableValue Configuration Job.
From S2P Require Import LibPQ Connection Transaction PostGis Gdal FieldConversion PullSource.

(** ** The columns *)
Record Columns := mkColumns {
  primaryKeyColumns : list string;
  geometryColumn : string;
  insertColumns : list string;
  updateColumns : list string
}.
Definition Columns_new : Columns := mkColumns [] "" [] [].

Section Columns.
Context {GD : Gdal}.
Context (src : Source) (layer_name : string).

(** One turn of the loop over [tableFields]. *)
Definition column_turn (cols : Columns) (tableFieldPair : string * Field) : result Columns :=
  let f := tableFieldPair.2 in
  let n := field_name f in
  let '(mkColumns pk geom ins upd) := cols in
  let pk' := if isPrimaryKey f then pk ++ [n] else pk in
  let upd' := if isPrimaryKey f then upd else upd ++ [n] in
  let rest geom ins := Ret (mkColumns pk' geom (if in_source src n then ins ++ [n] else ins) upd') in
  if String.eqb (pgTypeName f) "geometry" then
    if negb (is_empty geom) then
      worker_error (cat ["Layer "; quoted layer_name;
                         " has multiple geometry columns. Currently only one is supported"])
    else rest n (ins ++ [n])
  else rest geom ins.

(** The primary key that the configuration sets, if it does. *)
Definition configured_key (layer : Layer) (tableFields : FieldMap) (pk : list string)
  : result (list string) :=
  if bool_decide (primary_key_columns layer = []) then Ret pk
  else
    _ ← fold_result (fun _ primary_key_column =>
          if bool_decide (tableFields !! primary_key_column = None) then
            worker_error (cat ["The configured primary key column "; quoted primary_key_column;
                               " does not exist in the table"; " of layer "; quoted layer_name])
          else Ret tt) (primary_key_columns layer) tt;
    Ret (primary_key_columns layer).

Definition analyse_columns (layer : Layer) (tableFields : FieldMap) : result Columns :=
  cols ← fold_result column_turn (ordered tableFields) Columns_new;
  pk ← configured_key layer tableFields (primaryKeyColumns cols);
  if bool_decide (pk = []) then
    worker_error (cat ["Got no primarykey for layer "; quoted layer_name])
  else
    let missingPrimaryKeysSource := List.filter (fun c => negb (in_source src c)) pk in
    if negb (bool_decide (missingPrimaryKeysSource = [])) then
      worker_error (cat ["The source for layer "; quoted layer_name;
                         " is missing the following fields required "; "by the primary key: ";
                         join missingPrimaryKeysSource ", "])
    else Ret (mkColumns pk (geometryColumn cols) (insertColumns cols) (updateColumns cols)).
End Columns.

(** [tableFields[c]] and [ogrFields[c]]: a missing entry is made. *)
Definition table_field (tableFields : FieldMap) (c : string) : Field :=
  default Field_new (tableFields !! c).
Definition ogr_field (src : Source) (c : string) : OgrField :=
  default OgrField_new (ogrFields src !! c).

Section Insert.
Context {GD : Gdal}.
Context (src : Source) (tableFields : FieldMap).

(** The expression of one column of the insert; [idxColumn] counts from [1]. *)
Definition insert_value (pgSrid pgUndefinedSrid : Z) (idxColumn : Z) (insertColumn : string)
  : result string :=
  let pgType := pgTypeName (table_field tableFields insertColumn) in
  let p := cat ["$"; to_string idxColumn] in
  if negb (String.eqb pgType "geometry") then
    t ← getPostgresType (ogr_type (ogr_field src insertColumn));
    Ret (cat [p; "::"; t; "::"; pgType])
  else if decide (pgSrid = POSTGIS_NO_SRID_FOUND) then Ret (cat [p; "::text::"; pgType])
  else if decide (pgSrid <= 0)%Z then
    Ret (cat ["st_setsrid("; p; "::text::"; pgType; ", "; to_string pgUndefinedSrid; ")"])
  else
    Ret (cat ["(select "; "case when st_srid(foo.g) = "; to_string pgUndefinedSrid; " then ";
              " st_setsrid(foo.g, "; to_string pgSrid; ") "; "else ";
              " st_transform(foo.g, "; to_string pgSrid; ") "; "end";
              " from ( select "; p; "::text::"; pgType; " as g "; " ) foo)"]).

Fixpoint insert_values (pgSrid pgUndefinedSrid : Z) (idxColumn : Z) (insertColumns : list string)
  : result (list string) :=
  match insertColumns with
  | [] => Ret []
  | c :: l => v ← insert_value pgSrid pgUndefinedSrid idxColumn c;
              vs ← insert_values pgSrid pgUndefinedSrid (idxColumn + 1) l;
              Ret (v :: vs)
  end.

(** The values of a feature, in the order of the columns. *)
Definition feature_value (numPulled : Z) (ogrFeature : OGRFeature) (insertColumn : string)
  : result QueryValue :=
  let tableField := table_field tableFields insertColumn in
  if String.eqb (pgTypeName tableField) "geometry" then geometry_value ogrFeature numPulled
  else if String.eqb (c_str (GetFIDColumn (ogrLayer src))) insertColumn then
    Ret (convertFidToString ogrFeature)
  else
    let ogrField := ogr_field src insertColumn in
    convertToString ogrFeature (index ogrField) (ogr_type ogrField) (pgTypeName tableField).

Fixpoint feature_values (numPulled : Z) (ogrFeature : OGRFeature) (insertColumns : list string)
  : result (list QueryValue) :=
  match insertColumns with
  | [] => Ret []
  | c :: l => v ← feature_value numPulled ogrFeature c;
              vs ← feature_values numPulled ogrFeature l;
              Ret (v :: vs)
  end.
End Insert.

(** ** The statements *)
Section Statements.
Context {PQ : LibPQ} (have_pq : bool).

#[local] Abbreviation quoteIdent := (quoteIdent have_pq).
#[local] Abbreviation quoteIdent_all := (quoteIdent_all have_pq).
#[local] Abbreviation quoteAndJoinIdent := (quoteAndJoinIdent have_pq).

(** A loop that writes one piece per column, with [sep] between two. *)
Fixpoint each_column (sep : string) (piece : string -> M Transaction string) (first : bool)
  (columns : list string) : M Transaction string :=
  match columns with
  | [] => mret ""
  | c :: l => p ← piece c;
              rest ← each_column sep piece false l;
              mret (cat [if first then "" else sep; p; rest])
  end.

Definition prepare_insert (insertStmtName tempTableName : string)
  (insertColumns insertQueryValues : list string) : M Transaction PGresult :=
  qTemp ← quoteIdent tempTableName;
  qCols ← quoteIdent_all insertColumns;
  prepare insertStmtName
    (cat ["insert into "; qTemp; " ("; join qCols ", "; ") "; "select "; join insertQueryValues ", "])
    (length insertColumns).

Definition set_piece (tempTableName column : string) : M Transaction string :=
  q ← quoteIdent column;
  qTemp ← quoteAndJoinIdent tempTableName column;
  mret (cat [q; " = "; qTemp; " "]).

Definition key_piece (target_table_name tempTableName column : string) : M Transaction string :=
  qTarget ← quoteAndJoinIdent target_table_name column;
  qTemp ← quoteAndJoinIdent tempTableName column;
  mret (cat [qTarget; " is not distinct from "; qTemp]).

Definition geometry_differs (versionPostgis : VersionTuple) (quotedTargetGeom quotedTempGeom : string)
  : string :=
  let collection g := cat [" or ("; "st_geometrytype("; g; ") = 'ST_GeometryCollection'";
                           " or st_geometrytype("; g; ") like 'ST_Multi%'"; ") "] in
  cat ["("; "case when "; "(st_srid("; quotedTargetGeom; ") != st_srid("; quotedTempGeom; ")) ";
       if decide (2 <= versionPostgis.1.1)%Z
       then cat [" or st_iscollection("; quotedTargetGeom; ") ";
                 " or st_iscollection("; quotedTempGeom; ") "]
       else cat [collection quotedTargetGeom; collection quotedTempGeom];
       "then "; quotedTargetGeom; "::bytea "; " is distinct from "; quotedTempGeom; "::bytea ";
       " else "; "not st_equals("; quotedTargetGeom; ", "; quotedTempGeom; ")"; " end "; ")"].

Definition differs_piece (tableFields : FieldMap) (versionPostgis : VersionTuple)
  (target_table_name tempTableName column : string) : M Transaction string :=
  qTarget ← quoteAndJoinIdent target_table_name column;
  qTemp ← quoteAndJoinIdent tempTableName column;
  mret (if String.eqb (pgTypeName (table_field tableFields column)) "geometry"
        then geometry_differs versionPostgis qTarget qTemp
        else cat ["("; qTarget; " is distinct from "; qTemp; ")"]).

Definition update_target (layer : Layer) (tableFields : FieldMap) (versionPostgis : VersionTuple)
  (tempTableName : string) (cols : Columns) : M Transaction PGresult :=
  let tn := target_table_name layer in
  qTable ← quoteAndJoinIdent (target_table_schema layer) tn;
  sets ← each_column ", " (set_piece tempTableName) true (updateColumns cols);
  qTemp ← quoteIdent tempTableName;
  keys ← each_column " and " (key_piece tn tempTableName) true (primaryKeyColumns cols);
  diffs ← each_column " or " (differs_piece tableFields versionPostgis tn tempTableName) true
            (updateColumns cols);
  exec (cat ["update "; qTable; " "; " set "; sets; " from "; qTemp; " where ("; keys; ") and (";
             diffs; ")"]).

Definition insert_all (layer : Layer) (tempTableName : string) (cols : Columns)
  : M Transaction PGresult :=
  qTable ← quoteAndJoinIdent (target_table_schema layer) (target_table_name layer);
  qCols ← quoteIdent_all (insertColumns cols);
  qCols2 ← quoteIdent_all (insertColumns cols);
  qTemp ← quoteIdent tempTableName;
  exec (cat ["insert into "; qTable; " ( "; join qCols ", "; ") "; " select "; join qCols2 ", "; " ";
             " from "; qTemp]).

Definition insert_missing (layer : Layer) (tempTableName : string) (cols : Columns)
  : M Transaction PGresult :=
  qTable ← quoteAndJoinIdent (target_table_schema layer) (target_table_name layer);
  qCols ← quoteIdent_all (insertColumns cols);
  qCols2 ← quoteIdent_all (insertColumns cols);
  qTemp ← quoteIdent tempTableName;
  qKey ← quoteIdent_all (primaryKeyColumns cols);
  qKey2 ← quoteIdent_all (primaryKeyColumns cols);
  qTable2 ← quoteAndJoinIdent (target_table_schema layer) (target_table_name layer);
  exec (cat ["insert into "; qTable; " ( "; join qCols ", "; ") "; " select "; join qCols2 ", "; " ";
             " from "; qTemp; " where ("; join qKey ", "; ") not in ("; " select "; join qKey2 ",";
             " "; "       from "; qTable2; ")"]).

Definition delete_removed (layer : Layer) (tempTableName : string) (cols : Columns)
  : M Transaction PGresult :=
  qKey ← quoteIdent_all (primaryKeyColumns cols);
  let quotedPrimaryKeyColumnsStr := join qKey ", " in
  qTable ← quoteAndJoinIdent (target_table_schema layer) (target_table_name layer);
  qTemp ← quoteIdent tempTableName;
  exec (cat ["delete from "; qTable; " where ("; quotedPrimaryKeyColumnsStr; ") not in (";
             " select "; quotedPrimaryKeyColumnsStr; " "; "       from "; qTemp; ")"]).
End Statements.

(** [std::atoi(PQcmdTuples(res))]. *)
Definition affected (res : PGresult) : Z := atoi (cmdTuples res).

(** ** The body of the transaction

    Its state is the job beside the transaction. *)
Section Body.
Context {PQ : LibPQ} {GD : Gdal} (have_pq : bool).

Abbreviation PullM := (M (Job * Transaction)).

#[local] Abbreviation tx := (on_transaction (X := Job)).
Definition on_job {X} (f : Job -> Job) : M (Job * X) unit := modify (fun '(j, t) => (f j, t)).
Definition get_job {X} : M (Job * X) Job := gets fst.

(** [numCreated], [numUpdated] and [numDeleted]. *)
Record Changes := mkChanges { created : Z; updated : Z; deleted : Z }.

(** One feature: with [ignore_failures] the insert runs in a savepoint, and a
    data exception is counted; the result is the new [numIgnored]. *)
Definition insert_feature (ignore : bool) (insertStmtName : string) (pgValues : list QueryValue)
  (numIgnored : Z) : M Transaction Z :=
  if ignore then
    try_catch
      (_ ← exec "savepoint insertfeature;";
       _ ← execPrepared insertStmtName pgValues;
       _ ← exec "release savepoint insertfeature;";
       mret numIgnored)
      (fun e =>
         if negb (isDataException e) then throw e
         else _ ← exec "rollback to savepoint insertfeature;"; mret (numIgnored + 1)%Z)
  else _ ← execPrepared insertStmtName pgValues; mret numIgnored.

(** The loop over the features: [numPulled] and [numIgnored]. *)
Fixpoint insert_features (src : Source) (tableFields : FieldMap) (ignore : bool)
  (insertStmtName : string) (insertColumns : list string) (l : list OGRFeature)
  (numPulled numIgnored : Z) : M Transaction (Z * Z) :=
  match l with
  | [] => mret (numPulled, numIgnored)
  | ogrFeature :: l' =>
    pgValues ← lift (feature_values src tableFields numPulled ogrFeature insertColumns);
    numIgnored' ← insert_feature ignore insertStmtName pgValues numIgnored;
    insert_features src tableFields ignore insertStmtName insertColumns l' (numPulled + 1) numIgnored'
  end.

(** The SRID of the geometry column, if there is one. *)
Definition column_srid (layer : Layer) (cols : Columns) : M Transaction Z :=
  if negb (is_empty (geometryColumn cols))
  then getGeometryColumnSRID (target_table_schema layer) (target_table_name layer) (geometryColumn cols)
  else mret POSTGIS_NO_SRID_FOUND.

Definition bulk_delete (layer : Layer) (cols : Columns) : M Transaction Z :=
  match bulk_delete_method layer with
  | BULK_TRUNCATE =>
    qTable ← quoteAndJoinIdent have_pq (target_table_schema layer) (target_table_name layer);
    countRes ← exec (cat ["select count("; default "" (head (primaryKeyColumns cols)); ") from "; qTable]);
    numDeleted ← match PQgetvalue countRes 0 0 with
                 | Some v => mret (atoi v)
                 | None => terminate
                 end;
    qTable ← quoteAndJoinIdent have_pq (target_table_schema layer) (target_table_name layer);
    _ ← exec (cat ["truncate "; qTable]);
    mret numDeleted
  | BULK_DELETE =>
    qTable ← quoteAndJoinIdent have_pq (target_table_schema layer) (target_table_name layer);
    deleteRes ← exec (cat ["delete from "; qTable]);
    mret (affected deleteRes)
  end.

Definition bulk_update (layer : Layer) (tempTableName : string) (cols : Columns) : M Transaction Changes :=
  numDeleted ← bulk_delete layer cols;
  insertRes ← insert_all have_pq layer tempTableName cols;
  mret (mkChanges (affected insertRes) 0 numDeleted).

Definition default_update (layer : Layer) (allow_feature_deletion : bool) (tableFields : FieldMap)
  (versionPostgis : VersionTuple) (tempTableName : string) (cols : Columns) : M Transaction Changes :=
  updateRes ← update_target have_pq layer tableFields versionPostgis tempTableName cols;
  insertMissingRes ← insert_missing have_pq layer tempTableName cols;
  numDeleted ← (if allow_feature_deletion then
                  deleteRemovedRes ← delete_removed have_pq layer tempTableName cols;
                  mret (affected deleteRemovedRes)
                else mret 0%Z);
  mret (mkChanges (affected insertMissingRes) (affected updateRes) numDeleted).

(** From [set DateStyle] to the prepared insert. *)
Definition prepare_pull (src : Source) (layer : Layer) (layer_name tempTableName insertStmtName : string)
  : M Transaction (VersionTuple * FieldMap * Columns) :=
  _ ← exec "set DateStyle to SQL, YMD";
  versionPostgis ← postgis_getVersion;
  _ ← createTempTable have_pq (target_table_schema layer) (target_table_name layer) tempTableName;
  tableFields ← getTableFields (target_table_schema layer) (target_table_name layer);
  cols ← lift (analyse_columns src layer_name layer tableFields);
  pgSrid ← column_srid layer cols;
  insertQueryValues ← lift (insert_values src tableFields pgSrid (getUndefinedSRIDValue versionPostgis) 1
                              (insertColumns cols));
  _ ← prepare_insert have_pq insertStmtName tempTableName (insertColumns cols) insertQueryValues;
  mret (versionPostgis, tableFields, cols).

Definition pull_body (src : Source) (layer : Layer) (allow_feature_deletion : bool) (now : Z)
  : PullM unit :=
  job ← get_job;
  let tempTableName := cat ["batyr_"; id job] in
  let insertStmtName := cat ["batyr_insert"; id job] in
  '(versionPostgis, tableFields, cols) ←
    tx (prepare_pull src layer (layerName job) tempTableName insertStmtName);
  '(numPulled, numIgnored) ←
    tx (insert_features src tableFields (ignore_failures layer) insertStmtName (insertColumns cols)
          (features src) 0 0);
  _ ← on_job (setStatistics numPulled 0 0 0 numIgnored);
  changes ← tx (if bulk_mode layer then bulk_update layer tempTableName cols
                else default_update layer allow_feature_deletion tableFields versionPostgis
                       tempTableName cols);
  _ ← on_job (setStatus FINISHED now);
  on_job (setStatistics numPulled (created changes) (updated changes) (deleted changes) numIgnored).

(** [Worker::pull]; [now] is the clock when the job is finished. *)
Definition pull (configuration : Configuration) (now : Z) : M (Job * Connection) unit :=
  job ← get_job;
  layer ← lift (getLayer configuration (layerName job));
  src ← lift (open_source layer (Job.filter job));
  let allow := allow_feature_deletion layer &&
               is_empty (filterString (Configuration.filter layer) (Job.filter job)) in
  with_transaction (pull_body src layer allow now).
End Body.
