(* ===== verification/PullSpec.v ===== *)
(** * What a pull does

    The properties of [Worker::pull]: its columns, its statements, its
    transaction and its outcome. *)
From S2P Require Import Prelude Numbers StringUtils NullableValue Configuration Job.
From S2P Require Import LibPQ Connection Transaction PostGis Requests Gdal FieldConversion PullSource Pull.

(** ** Columns *)
Section ColumnsSpec.
Context {GD : Gdal}.
Context (src : Source) (layer_name : string).

(** The columns after the turns for the table fields [seen]. *)
Record columns_ok (seen : list Field) (cols : Columns) : Prop := {
  co_key : primaryKeyColumns cols = field_name <$> List.filter isPrimaryKey seen;
  co_update : updateColumns cols = field_name <$> List.filter (fun f => negb (isPrimaryKey f)) seen;
  co_geometry : Forall (fun f => pgTypeName f = "geometry" -> field_name f = geometryColumn cols) seen;
  co_insert : insertColumns cols =
    flat_map (fun f => (if String.eqb (pgTypeName f) "geometry" then [field_name f] else []) ++
                       (if in_source src (field_name f) then [field_name f] else [])) seen
}.

Lemma column_turn_ok seen cols kf cols' :
  Forall (fun f => field_name f <> "") seen ->
  columns_ok seen cols -> column_turn src layer_name cols kf = Ret cols' ->
  (geometryColumn cols = "" -> Forall (fun f => pgTypeName f <> "geometry") seen) ->
  columns_ok (seen ++ [kf.2]) cols' /\
  (geometryColumn cols' = "" -> field_name kf.2 <> "" ->
   Forall (fun f => pgTypeName f <> "geometry") (seen ++ [kf.2])).
Proof.
  destruct cols as [pk geom ins upd], kf as [k f]. intros Hne [H1 H2 H3 H4] Ht Hg. simpl in *.
  assert (Hk : forall s f, field_name <$> List.filter isPrimaryKey (s ++ [f]) =
              (field_name <$> List.filter isPrimaryKey s) ++ (if isPrimaryKey f then [field_name f] else [])).
  { intros s f0. rewrite List.filter_app, fmap_app. f_equal. simpl. by destruct (isPrimaryKey f0). }
  assert (Hu : forall s f, field_name <$> List.filter (fun f => negb (isPrimaryKey f)) (s ++ [f]) =
              (field_name <$> List.filter (fun f => negb (isPrimaryKey f)) s) ++
              (if isPrimaryKey f then [] else [field_name f])).
  { intros s f0. rewrite List.filter_app, fmap_app. f_equal. simpl. by destruct (isPrimaryKey f0). }
  unfold column_turn in Ht. cbn [snd] in Ht.
  destruct (String.eqb_spec (pgTypeName f) "geometry") as [He|He].
  - destruct (String.eqb_spec geom "") as [->|]; [|unfold is_empty in Ht; destruct (String.eqb_spec geom ""); done].
    simpl in Ht. injection Ht as <-. split; [split|]; simpl.
    + rewrite Hk, <- H1. destruct (isPrimaryKey f); [done|by rewrite app_nil_r].
    + rewrite Hu, <- H2. destruct (isPrimaryKey f); [by rewrite app_nil_r|done].
    + apply Forall_app. split; [|by repeat constructor].
      eapply Forall_impl; [exact (Hg eq_refl)|]. intros; done.
    + rewrite flat_map_app, <- H4. simpl. rewrite He. simpl. rewrite app_nil_r.
      destruct (in_source _ _); simpl; by rewrite <- ?app_assoc, ?app_nil_r.
    + intros H ?. done.
  - injection Ht as <-. split; [split|]; simpl.
    + rewrite Hk, <- H1. destruct (isPrimaryKey f); [done|by rewrite app_nil_r].
    + rewrite Hu, <- H2. destruct (isPrimaryKey f); [by rewrite app_nil_r|done].
    + apply Forall_app. split; [exact H3|]. repeat constructor. intros; done.
    + rewrite flat_map_app, <- H4. simpl. destruct (String.eqb_spec (pgTypeName f) "geometry"); [done|].
      simpl. rewrite app_nil_r. destruct (in_source _ _); by rewrite ?app_nil_r.
    + intros H _. apply Forall_app. split; [by apply Hg|by repeat constructor].
Qed.

Lemma column_turns_ok l seen cols cols' :
  Forall (fun f => field_name f <> "") (seen ++ l.*2) ->
  columns_ok seen cols -> (geometryColumn cols = "" -> Forall (fun f => pgTypeName f <> "geometry") seen) ->
  fold_result (column_turn src layer_name) l cols = Ret cols' ->
  columns_ok (seen ++ l.*2) cols'.
Proof.
  revert seen cols. induction l as [|kf l IH]; intros seen cols Hne Hc Hg; cbn [fold_result].
  - intros [= <-]. by rewrite app_nil_r.
  - intros (c1 & H1 & H2)%bind_Ret_inv.
    change ((kf :: l).*2) with (kf.2 :: l.*2) in *. rewrite cons_middle, app_assoc in *.
    assert (Hs : Forall (fun f => field_name f <> "") (seen ++ [kf.2]))
      by (by apply Forall_app in Hne as [? _]).
    pose proof Hs as [Hs1 Hs2]%Forall_app. rewrite Forall_singleton in Hs2.
    destruct (column_turn_ok _ _ _ _ Hs1 Hc H1 Hg) as [Hc1 Hg1].
    exact (IH _ c1 Hne Hc1 (fun H => Hg1 H Hs2) H2).
Qed.

Lemma configured_key_ok layer tf pk pk' :
  (forall c, c ∈ pk -> is_Some (tf !! c)) -> configured_key layer_name layer tf pk = Ret pk' ->
  (forall c, c ∈ pk' -> is_Some (tf !! c)) /\
  (primary_key_columns layer <> [] -> pk' = primary_key_columns layer) /\
  (primary_key_columns layer = [] -> pk' = pk).
Proof.
  intros Hpk. unfold configured_key. case_bool_decide as Hc; [by intros [= <-]|].
  intros (u & Hf & [= <-])%bind_Ret_inv. split; [|done].
  assert (Hall : Forall (fun c => is_Some (tf !! c)) (primary_key_columns layer));
    [|intros c Hin; by rewrite Forall_forall in Hall; apply Hall].
  revert Hf. clear. generalize (primary_key_columns layer) as l. intros l.
  generalize tt at 2. generalize tt.
  induction l as [|c l IH]; intros u0 u1; cbn [fold_result]; [constructor|].
  case_bool_decide as Hc; [done|]. simpl. intros H. constructor; [|by eapply IH].
  destruct (tf !! c); [eauto|done].
Qed.

Lemma ordered_fields (tf : FieldMap) f :
  (forall k f, tf !! k = Some f -> field_name f = k) ->
  f ∈ (ordered tf).*2 <-> tf !! field_name f = Some f.
Proof.
  intros Hn. rewrite list_elem_of_fmap. split.
  - intros ([k f'] & -> & Hin%elem_of_ordered). simpl. by rewrite (Hn _ _ Hin).
  - intros H. exists (field_name f, f). split; [done|]. by apply elem_of_ordered.
Qed.

(** The columns that a pull works with, when the analysis of the table
    accepts it: there is a primary key, the configured one if there is one;
    every column of the key is in the table and among the columns that are
    filled from the source, so that the temporary table can be joined with the
    target; every inserted column is a table column that the source provides,
    or the only geometry column; the updated ones are those outside the
    table's own key. *)
Theorem analyse_columns_spec layer tf cols :
  (forall k f, tf !! k = Some f -> field_name f = k /\ k <> "") ->
  analyse_columns src layer_name layer tf = Ret cols ->
  primaryKeyColumns cols <> [] /\
  (primary_key_columns layer <> [] -> primaryKeyColumns cols = primary_key_columns layer) /\
  (forall c, c ∈ primaryKeyColumns cols ->
     is_Some (tf !! c) /\ in_source src c = true /\ c ∈ insertColumns cols) /\
  (forall c, c ∈ insertColumns cols <-> exists f, tf !! c = Some f /\
     (pgTypeName f = "geometry" \/ in_source src c = true)) /\
  (forall c, c ∈ updateColumns cols <-> exists f, tf !! c = Some f /\ isPrimaryKey f = false) /\
  (forall c f, tf !! c = Some f -> pgTypeName f = "geometry" -> c = geometryColumn cols).
Proof.
  intros Hn. unfold analyse_columns. intros (c0 & H0 & H)%bind_Ret_inv.
  apply bind_Ret_inv in H as (pk & Hpk & H).
  assert (Hok : columns_ok ((ordered tf).*2) c0).
  { apply (column_turns_ok (ordered tf) [] Columns_new); [|by repeat constructor|done|exact H0].
    simpl. apply Forall_forall. intros f Hf%ordered_fields; [|intros; by apply Hn].
    by apply Hn in Hf as [? ?]. }
  assert (Hn' : forall k f, tf !! k = Some f -> field_name f = k) by (intros k f Hk; by destruct (Hn _ _ Hk)).
  assert (Hin : forall c f, tf !! c = Some f <-> f ∈ (ordered tf).*2 /\ field_name f = c).
  { intros c f. rewrite ordered_fields by done. split; [|by intros [? <-]].
    intros Hc. rewrite (Hn' _ _ Hc). auto. }
  destruct Hok as [K1 K2 K3 K4].
  assert (Hins : forall c, c ∈ insertColumns c0 <-> exists f, tf !! c = Some f /\
     (pgTypeName f = "geometry" \/ in_source src c = true)).
  { intros c. rewrite K4, list_elem_of_In, in_flat_map. split.
    - intros (f & Hf%list_elem_of_In & Hc). exists f. rewrite Hin. apply in_app_iff in Hc.
      destruct (String.eqb_spec (pgTypeName f) "geometry"), (in_source src (field_name f)) eqn:Hs;
        destruct Hc as [Hc|Hc]; simpl in Hc; try done; destruct Hc as [<-|[]]; auto.
    - intros (f & [Hf <-]%Hin & Hc). exists f. rewrite <- list_elem_of_In. split; [done|].
      apply in_app_iff. destruct Hc as [-> | ->]; [by left; left|by right; left]. }
  assert (Hpk0 : forall c, c ∈ primaryKeyColumns c0 -> is_Some (tf !! c)).
  { intros c. rewrite K1, list_elem_of_fmap. intros (f & -> & Hf). apply list_elem_of_In, filter_In in Hf as [Hf _].
    exists f. apply Hin. split; [by apply list_elem_of_In|done]. }
  destruct (configured_key_ok _ _ _ _ Hpk0 Hpk) as (Hpk1 & Hpk2 & _).
  case_bool_decide as Hne; [done|].
  match type of H with (if ?b then _ else _) = _ => destruct b eqn:Hb; [done|] end.
  injection H as <-. simpl. apply negb_false_iff, bool_decide_eq_true in Hb.
  assert (Hsrc : forall c, c ∈ pk -> in_source src c = true).
  { intros c Hc. destruct (in_source src c) eqn:Hs; [done|].
    assert (In c (List.filter (fun c => negb (in_source src c)) pk)) as Hx
      by (apply filter_In; split; [by apply list_elem_of_In|by rewrite Hs]).
    by rewrite Hb in Hx. }
  split; [done|]. split; [done|]. split; [|split; [done|split]].
  - intros c Hc. split; [auto|]. split; [auto|]. apply Hins.
    destruct (Hpk1 c Hc) as [f Hf]. exists f. auto.
  - intros c. rewrite K2, list_elem_of_fmap. split.
    + intros (f & -> & Hf). apply list_elem_of_In, filter_In in Hf as [Hf Hp].
      exists f. rewrite Hin. repeat split; [by apply list_elem_of_In|by apply negb_true_iff].
    + intros (f & [Hf <-]%Hin & Hp). exists f. split; [done|].
      apply list_elem_of_In, filter_In. split; [by apply list_elem_of_In|by rewrite Hp].
  - intros c f Hc Hg. apply Hin in Hc as [Hf <-]. rewrite Forall_forall in K3. by apply K3.
Qed.
End ColumnsSpec.

(** ** The calls of a pull inside its transaction *)
Definition is_job_error (e : exn) : bool := is_db_error e || is_worker_error e.

Section Calls.
Context {PQ : LibPQ} {GD : Gdal} (have_pq : bool).

Abbreviation job_keeps := (keeps tx_le (fun e => is_job_error e = true) True).

Lemma db_keeps {A} (m : M Transaction A) :
  keeps tx_le (fun e => is_db_error e = true) True m -> job_keeps m.
Proof. apply keeps_weaken; [|done]. intros e H. unfold is_job_error. by rewrite H. Qed.

Lemma worker_keeps {A} (r : result A) :
  only_throws (fun e => is_worker_error e = true) r -> job_keeps (lift r).
Proof.
  intros H. apply keeps_lift; [apply _|]. destruct r as [a|e|]; simpl in *; [done| |done].
  unfold is_job_error. by rewrite H, orb_true_r.
Qed.

Lemma column_turns_throw src n l c :
  only_throws (fun e => is_worker_error e = true) (fold_result (column_turn src n) l c).
Proof.
  apply only_throws_fold. intros [pk geom ins upd] [k f] _. unfold column_turn, worker_error. simpl.
  by repeat case_match.
Qed.

Lemma analyse_columns_throws src n layer tf :
  only_throws (fun e => is_worker_error e = true) (analyse_columns src n layer tf).
Proof.
  unfold analyse_columns. apply only_throws_bind; [apply column_turns_throw|]. intros c _.
  apply only_throws_bind.
  { unfold configured_key. case_match; [done|]. apply only_throws_bind; [|done].
    apply only_throws_fold. intros. unfold worker_error. by case_match. }
  intros pk _. unfold worker_error. by repeat case_match.
Qed.

Lemma insert_values_throw src tf s1 s2 i l :
  only_throws (fun e => is_worker_error e = true) (insert_values src tf s1 s2 i l).
Proof.
  revert i. induction l as [|c l IH]; intros i; cbn [insert_values]; [done|].
  apply only_throws_bind; [|intros v _; apply only_throws_bind; [apply IH|done]].
  unfold insert_value. case_match; [|by repeat case_match].
  apply only_throws_bind; [|done]. unfold getPostgresType, worker_error. by repeat case_match.
Qed.

Lemma feature_values_throw src tf n f l :
  only_throws (fun e => is_worker_error e = true) (feature_values src tf n f l).
Proof.
  induction l as [|c l IH]; cbn [feature_values]; [done|].
  apply only_throws_bind; [|intros v _; apply only_throws_bind; [apply IH|done]].
  unfold feature_value. case_match; [apply geometry_value_throws|].
  case_match; [done|apply convertToString_throws].
Qed.

(** Everything that is a sequence of quoted pieces. *)
Lemma each_column_keeps R E T `{!PreOrder R} sep piece b l :
  (forall c, keeps R E T (piece c)) -> keeps R E T (each_column sep piece b l).
Proof.
  intros Hp. revert b. induction l as [|c l IH]; intros b; cbn [each_column]; [apply keeps_ret, _|].
  apply keeps_bind; [apply _|apply Hp|]. intros p. apply keeps_bind; [apply _|apply IH|].
  intros rest. apply keeps_ret, _.
Qed.
#[local] Hint Resolve each_column_keeps : keeps.

Section Statements.
(** What the operations of a transaction keep, the statements keep. *)
Context (R : relation Transaction) (E : exn -> Prop) (T : Prop) `{!PreOrder R}.
Context (Hq1 : forall s, keeps R E T (quoteIdent have_pq s)).
Context (Hq2 : forall l, keeps R E T (quoteIdent_all have_pq l)).
Context (Hq3 : forall s1 s2, keeps R E T (quoteAndJoinIdent have_pq s1 s2)).
#[local] Hint Resolve Hq1 Hq2 Hq3 : keeps.

Lemma prepare_insert_keeps s t c v :
  (forall s0 sql, keeps R E T (prepare s (cat ("insert into " :: s0 :: sql)) (length c))) ->
  keeps R E T (prepare_insert have_pq s t c v).
Proof. intros Hp. unfold prepare_insert. keeps_steps. Qed.

Lemma set_piece_keeps t c : keeps R E T (set_piece have_pq t c).
Proof. unfold set_piece. keeps_steps. Qed.
Lemma key_piece_keeps n t c : keeps R E T (key_piece have_pq n t c).
Proof. unfold key_piece. keeps_steps. Qed.
Lemma differs_piece_keeps tf v n t c : keeps R E T (differs_piece have_pq tf v n t c).
Proof. unfold differs_piece. keeps_steps. Qed.
#[local] Hint Resolve set_piece_keeps key_piece_keeps differs_piece_keeps : keeps.

Lemma update_target_keeps layer tf v t cols :
  (forall s0 sql, keeps R E T (exec (cat ("update " :: s0 :: sql)))) ->
  keeps R E T (update_target have_pq layer tf v t cols).
Proof. intros He. unfold update_target. keeps_steps. Qed.

Lemma insert_all_keeps layer t cols :
  (forall s0 sql, keeps R E T (exec (cat ("insert into " :: s0 :: sql)))) ->
  keeps R E T (insert_all have_pq layer t cols).
Proof. intros He. unfold insert_all. keeps_steps. Qed.

Lemma insert_missing_keeps layer t cols :
  (forall s0 sql, keeps R E T (exec (cat ("insert into " :: s0 :: sql)))) ->
  keeps R E T (insert_missing have_pq layer t cols).
Proof. intros He. unfold insert_missing. keeps_steps. Qed.

Lemma delete_removed_keeps layer t cols :
  (forall s0 sql, keeps R E T (exec (cat ("delete from " :: s0 :: sql)))) ->
  keeps R E T (delete_removed have_pq layer t cols).
Proof. intros He. unfold delete_removed. keeps_steps. Qed.
End Statements.

(** *** As a part of the transaction *)
#[local] Hint Resolve each_column_keeps prepare_insert_keeps update_target_keeps insert_all_keeps
  insert_missing_keeps delete_removed_keeps : keeps.

Lemma bulk_update_tx layer t cols : keeps tx_le (fun e => is_db_error e = true) True (bulk_update have_pq layer t cols).
Proof. unfold bulk_update, bulk_delete. keeps_steps. Qed.

Lemma default_update_tx layer allow tf v t cols :
  keeps tx_le (fun e => is_db_error e = true) True (default_update have_pq layer allow tf v t cols).
Proof. unfold default_update. keeps_steps. Qed.

Lemma default_update_harmless layer tf v t cols :
  harmless (default_update have_pq layer false tf v t cols).
Proof. unfold default_update. cbv match. keeps_steps. Qed.

#[local] Hint Resolve bulk_update_tx default_update_tx : keeps.
#[local] Hint Extern 3 (keeps tx_le (fun e => is_job_error e = true) _ _) =>
  (apply db_keeps; solve [eauto 3 with keeps]) : keeps.

Lemma column_srid_tx layer cols :
  keeps tx_le (fun e => is_db_error e = true) True (column_srid layer cols).
Proof. unfold column_srid. keeps_steps. Qed.
Lemma column_srid_harmless layer cols : harmless (column_srid layer cols).
Proof. unfold column_srid. keeps_steps. Qed.
#[local] Hint Resolve column_srid_tx column_srid_harmless : keeps.

Lemma prepare_pull_tx src layer n t s : job_keeps (prepare_pull have_pq src layer n t s).
Proof.
  unfold prepare_pull. keeps_steps; apply worker_keeps;
    [apply analyse_columns_throws|apply insert_values_throw].
Qed.

Lemma prepare_pull_harmless src layer n t s : harmless (prepare_pull have_pq src layer n t s).
Proof. unfold prepare_pull. keeps_steps. Qed.

Lemma insert_feature_tx ig s vs n : keeps tx_le (fun e => is_db_error e = true) True (insert_feature ig s vs n).
Proof.
  unfold insert_feature. destruct ig; [|keeps_steps].
  apply (keeps_try_catch _ _ _ (fun e => is_db_error e = true)); [keeps_steps|].
  intros e He. destruct (negb _); [by apply keeps_throw; [apply _|]|keeps_steps].
Qed.

Lemma insert_feature_harmless ig s vs n : harmless (insert_feature ig s vs n).
Proof.
  unfold insert_feature. destruct ig; [|keeps_steps].
  apply (keeps_try_catch _ _ _ (fun _ => True)); [keeps_steps|]. intros e _. keeps_steps.
Qed.
#[local] Hint Resolve insert_feature_tx insert_feature_harmless : keeps.

Lemma insert_features_tx src tf ig s cols l np ni : job_keeps (insert_features src tf ig s cols l np ni).
Proof.
  revert np ni. induction l as [|f l IH]; intros np ni; cbn [insert_features]; keeps_steps.
  apply worker_keeps, feature_values_throw.
Qed.

Lemma insert_features_harmless src tf ig s cols l np ni :
  harmless (insert_features src tf ig s cols l np ni).
Proof. revert np ni. induction l as [|f l IH]; intros np ni; cbn [insert_features]; keeps_steps. Qed.

(** A [DbError] of a request leaves the transaction marked for rollback. *)
Definition marks {A} (m : M Transaction A) : Prop :=
  forall t, wp m (fun r t' => tx_le t t' /\ match r with Throw _ => rollback t' = true | _ => True end) t.

Lemma marks_checked r :
  (forall s q n, Prepare s q n <> r) -> marks (result ← on_connection (send r); checkResult result).
Proof.
  intros Hp t. eapply wp_mono; [apply checked_spec|]. intros res t' Hc.
  split; [eapply checked_le; eauto|]. destruct res; try done. rewrite (cp_rollback _ _ _ _ Hc). by rewrite orb_true_r.
Qed.

(** An ignored feature leaves the transaction marked for rollback. *)
Lemma insert_feature_ignored ig s vs n t :
  wp (insert_feature ig s vs n) (fun r t' => tx_le t t' /\
    match r with
    | Ret n' => n' = n \/ (n' = n + 1)%Z /\ rollback t' = true
    | _ => True
    end) t.
Proof.
  pose proof (insert_feature_tx ig s vs n t) as Hle. revert Hle.
  unfold insert_feature. destruct ig.
  - intros Hle. assert (Hr : wp (try_catch
      (_ ← exec "savepoint insertfeature;"; _ ← execPrepared s vs;
       _ ← exec "release savepoint insertfeature;"; mret n)
      (fun e => if negb (isDataException e) then throw e
                else _ ← exec "rollback to savepoint insertfeature;"; mret (n + 1)%Z))
      (fun r t' => match r with
                   | Ret n' => n' = n \/ (n' = n + 1)%Z /\ rollback t' = true
                   | _ => True
                   end) t).
    { apply wp_try_catch.
      assert (Hm : forall t, wp (_ ← exec "savepoint insertfeature;"; _ ← execPrepared s vs;
          _ ← exec "release savepoint insertfeature;"; mret n)
          (fun r t' => match r with Ret n' => n' = n | Throw _ => rollback t' = true | _ => True end) t).
      { intros t0. apply wp_bind. eapply wp_mono; [by apply (marks_checked (Exec _))|].
        intros [a|e|] t1 [_ H1]; simpl; [|done|done].
        apply wp_bind. eapply wp_mono; [by apply (marks_checked (ExecPrepared _ _))|].
        intros [a1|e|] t2 [_ H2]; simpl; [|done|done].
        apply wp_bind. eapply wp_mono; [by apply (marks_checked (Exec _))|].
        intros [a2|e|] t3 [_ H3]; simpl; done. }
      eapply wp_mono; [apply Hm|]. intros [n'|e|] t1 H1; [by left| |done].
      destruct (negb _); [done|]. apply wp_bind.
      eapply wp_mono; [by apply (marks_checked (Exec _))|].
      intros [a|e'|] t2 [[_ H2 _] _]; simpl; [|done|done]. right. split; [done|]. by apply H2. }
    unfold wp in *. destruct (try_catch _ _ t) as [r t']. naive_solver.
  - intros Hle. unfold wp, mbind, M_bind in *. destruct (execPrepared s vs t) as [[a|e|] t']; naive_solver.
Qed.

Lemma insert_features_ignored src tf ig s cols l np ni t :
  wp (insert_features src tf ig s cols l np ni) (fun r t' => tx_le t t' /\
    match r with
    | Ret (np', ni') => np' = (np + Z.of_nat (length l))%Z /\
        (ni <= ni' <= ni + Z.of_nat (length l))%Z /\ ((ni < ni')%Z -> rollback t' = true)
    | _ => True
    end) t.
Proof.
  revert np ni t. induction l as [|f l IH]; intros np ni t; cbn [insert_features].
  - split; [apply PreOrder_Reflexive|]. cbn. lia.
  - apply wp_bind. unfold wp at 1, lift. destruct (feature_values _ _ _ _ _) as [vs|e|];
      [|split; [apply PreOrder_Reflexive|done]..].
    cbn [seq_post]. apply wp_bind. eapply wp_mono; [apply insert_feature_ignored|].
    intros [n'|e|] t1 [Ht1 H1]; cbn [seq_post]; [|done|done].
    eapply wp_mono; [apply IH|]. intros r t2 [Ht2 H2]. split; [by etrans|].
    destruct r as [[np' ni']|e|]; try done. destruct H2 as (-> & H3 & H4). cbn [length].
    split; [lia|]. split; [destruct H1 as [->|[-> _]]; lia|]. intros Hlt.
    destruct H1 as [->|[-> Hr]]; [by apply H4|].
    destruct (decide (ni + 1 < ni')%Z); [by apply H4|]. by apply (le_rollback Ht2).
Qed.
End Calls.

(** ** The whole pull *)
Section Whole.
Context {PQ : LibPQ} {GD : Gdal} (have_pq : bool).

Lemma on_job_keeps {X} (R : relation X) `{!PreOrder R} E T f :
  keeps (fun s s' : Job * X => R s.2 s'.2) E T (on_job f).
Proof. intros [j x]. split; [simpl; reflexivity|done]. Qed.

Lemma get_job_keeps {X} (R : relation X) `{!PreOrder R} E T :
  keeps (fun s s' : Job * X => R s.2 s'.2) E T get_job.
Proof. intros [j x]. split; [simpl; reflexivity|done]. Qed.

(** The changes at the end: both ways of updating the target. *)
Definition update_part (layer : Layer) (allow : bool) tf v temp cols : M Transaction Changes :=
  if bulk_mode layer then bulk_update have_pq layer temp cols
  else default_update have_pq layer allow tf v temp cols.

Lemma update_part_keeps layer allow tf v temp cols :
  keeps tx_le (fun e => is_job_error e = true) True (update_part layer allow tf v temp cols).
Proof.
  unfold update_part. destruct (bulk_mode layer); apply db_keeps;
    [apply bulk_update_tx|apply default_update_tx].
Qed.

Lemma pull_body_keeps src layer allow now :
  keeps body_le (fun e => is_job_error e = true) True (pull_body have_pq src layer allow now).
Proof.
  unfold pull_body, body_le. apply keeps_bind; [apply body_le_preorder|apply get_job_keeps, _|]. intros job.
  apply keeps_bind; [apply body_le_preorder|apply on_transaction_keeps, prepare_pull_tx|]. intros [[v tf] cols].
  apply keeps_bind; [apply body_le_preorder|apply on_transaction_keeps, insert_features_tx|]. intros [np ni].
  apply keeps_bind; [apply body_le_preorder|apply on_job_keeps, _|]. intros _.
  apply keeps_bind; [apply body_le_preorder|apply on_transaction_keeps, update_part_keeps|]. intros ch.
  apply keeps_bind; [apply body_le_preorder|apply on_job_keeps, _|]. intros _. apply on_job_keeps, _.
Qed.

Lemma pull_body_harmless src layer now :
  bulk_mode layer = false ->
  keeps (sends_body_le (fun r => removes r = false)) (fun _ => True) True
    (pull_body have_pq src layer false now).
Proof.
  intros Hb. set (R := sends_body_le _). assert (HR : PreOrder R) by apply sends_body_le_preorder.
  unfold pull_body. rewrite Hb.
  apply keeps_bind; [exact HR|apply (get_job_keeps (sends_le _))|]. intros job.
  apply keeps_bind; [exact HR|apply on_transaction_sends, prepare_pull_harmless|]. intros [[v tf] cols].
  apply keeps_bind; [exact HR|apply on_transaction_sends, insert_features_harmless|]. intros [np ni].
  apply keeps_bind; [exact HR|apply (on_job_keeps (sends_le _))|]. intros _.
  apply keeps_bind; [exact HR|apply on_transaction_sends, default_update_harmless|]. intros ch.
  apply keeps_bind; [exact HR|apply (on_job_keeps (sends_le _))|]. intros _.
  apply (on_job_keeps (sends_le _)).
Qed.

(** What the body does to the job. *)
Definition same_request (j j' : Job) : Prop :=
  id j' = id j /\ type j' = type j /\ layerName j' = layerName j /\ Job.filter j' = Job.filter j /\
  message j' = message j /\ attributeSets j' = attributeSets j /\ timeAdded j' = timeAdded j.

Definition pull_post (src : Source) (now : Z) (s : Job * Transaction) (r : result unit)
  (s' : Job * Transaction) : Prop :=
  same_request s.1 s'.1 /\
  match r with
  | Ret _ => status s'.1 = FINISHED /\ timeFinished s'.1 = now /\
      numPulled s'.1 = Z.of_nat (length (features src)) /\
      (0 <= numIgnored s'.1 <= numPulled s'.1)%Z /\
      ((0 < numIgnored s'.1)%Z -> rollback s'.2 = true)
  | _ => status s'.1 = status s.1 /\ timeFinished s'.1 = timeFinished s.1
  end.

(** One call of the transaction inside the body: the job stays. *)
Lemma wp_tx {A B} (m : M Transaction A) (k : A -> M (Job * Transaction) B) Q Q' j t :
  wp m Q t ->
  (forall a t', Q (Ret a) t' -> wp (k a) Q' (j, t')) ->
  (forall r t', Q r t' -> match r with Ret _ => True | Throw e => Q' (Throw e) (j, t')
                          | Terminated => Q' Terminated (j, t') end) ->
  wp (on_transaction m ≫= k) Q' (j, t).
Proof.
  intros Hm Hk Hf. unfold wp, on_transaction, mbind, M_bind in *.
  destruct (m t) as [[a|e|] t']; [by apply Hk|by apply (Hf (Throw e))|by apply (Hf Terminated)].
Qed.

Lemma pull_body_post src layer allow now s :
  wp (pull_body have_pq src layer allow now) (pull_post src now s) s.
Proof.
  destruct s as [j t]. unfold pull_body. apply wp_bind.
  unfold get_job, gets, wp at 1. cbn [seq_post fst].
  eapply wp_tx; [apply prepare_pull_tx| |intros [a|e|] t' _; by repeat split].
  intros [[v tf] cols] t1 _.
  eapply wp_tx; [apply insert_features_ignored| |intros [a|e|] t' _; by repeat split].
  intros [np ni] t2 (_ & -> & Hni & Hrb). apply wp_bind. unfold wp at 1, on_job at 1, modify.
  cbn [seq_post]. eapply wp_tx; [apply update_part_keeps| |intros [a|e|] t' _; by repeat split].
  intros ch t3 [Hle _]. unfold wp, on_job, mbind, M_bind, modify. split; [by repeat split|].
  simpl. split; [done|]. split; [done|]. split; [lia|]. split; [lia|].
  intros H. apply (le_rollback Hle). apply Hrb. lia.
Qed.

Lemma pull_result configuration now job c r job' c' layer :
  getLayer configuration (layerName job) = Ret layer ->
  pull have_pq configuration now (job, c) = (r, (job', c')) ->
  same_request job job' /\
  match r with
  | Ret _ => status job' = FINISHED /\ timeFinished job' = now /\
             exists src, open_source layer (Job.filter job) = Ret src /\
                         numPulled job' = Z.of_nat (length (features src))
  | Throw e => is_job_error e = true /\ status job' = status job /\ timeFinished job' = timeFinished job
  | Terminated => True
  end.
Proof.
  intros Hl. unfold pull, get_job, gets, lift, mbind, M_bind. cbn [fst]. rewrite Hl.
  pose proof (open_source_throws layer (Job.filter job)) as Ho.
  destruct (open_source layer (Job.filter job)) as [src|e|] eqn:Hsrc; simpl in Ho;
    [|intros [= <- <- <-]; unfold is_job_error; rewrite Ho, orb_true_r; by repeat split|done].
  set (allow := _ && _). intros Hw.
  unfold with_transaction in Hw. destruct (Transaction_new c) as [[a|e|] t1] eqn:Ht.
  - pose proof (pull_body_post src layer allow now (job, t1)) as Hp.
    pose proof (pull_body_keeps src layer allow now (job, t1)) as Hk. unfold wp in Hp, Hk.
    destruct (pull_body have_pq src layer allow now (job, t1)) as [r1 [j1 t2]].
    destruct Hp as [Hsr Hp]. destruct Hk as [_ Hk]. simpl in *.
    destruct r1 as [[]|e|]; [..|by injection Hw as <- <- <-];
      destruct (Transaction_destroy t2) as [[] t3]; injection Hw as <- <- <-; (split; [done|]); naive_solver.
  - injection Hw as <- <- <-. split; [by repeat split|]. split; [|done]. unfold is_job_error.
    pose proof (exec_keeps "begin;" (mkTransaction c [] false)) as Hk. unfold wp in Hk.
    unfold Transaction_new in Ht. rewrite Ht in Hk. destruct Hk as [_ Hk]. by rewrite Hk.
  - injection Hw as <- <- <-. by repeat split.
Qed.

(** ** Properties *)

(** A pull on a layer of the configuration ends in one of three ways: the
    job is FINISHED at the time given, with the number of features of the
    source as its count; or a [DbError] or [WorkerError] is thrown and the
    status is still the one before; or the process crashes.  The request
    itself, the id and the time of arrival never change. *)
Theorem pull_outcome configuration now job c r job' c' layer :
  getLayer configuration (layerName job) = Ret layer ->
  pull have_pq configuration now (job, c) = (r, (job', c')) ->
  same_request job job' /\
  match r with
  | Ret _ => status job' = FINISHED /\ timeFinished job' = now /\
             exists src, open_source layer (Job.filter job) = Ret src /\
                         numPulled job' = Z.of_nat (length (features src))
  | Throw e => is_job_error e = true /\ status job' = status job /\ timeFinished job' = timeFinished job
  | Terminated => True
  end.
Proof. apply pull_result. Qed.

(** [C2] Rows of the target are removed only with permission: outside of bulk
    mode, when the layer does not allow the deletion of features, or when the
    layer or the job has a filter, no statement that a pull sends, inside the
    transaction or after it, is a [delete] or a [truncate]. *)
Theorem pull_removes_only_if_allowed configuration now job c r job' c' layer :
  getLayer configuration (layerName job) = Ret layer ->
  bulk_mode layer = false ->
  allow_feature_deletion layer = false \/ Configuration.filter layer <> "" \/ Job.filter job <> "" ->
  pull have_pq configuration now (job, c) = (r, (job', c')) ->
  exists new, sent c' = sent c ++ new /\ Forall (fun q => removes q = false) new.*1.
Proof.
  intros Hl Hb Hno. unfold pull, get_job, gets, lift, mbind, M_bind. cbn [fst]. rewrite Hl.
  assert (Hnone : exists new, sent c = sent c ++ new /\ Forall (fun q => removes q = false) new.*1).
  { exists []. rewrite app_nil_r. split; [done|constructor]. }
  destruct (open_source layer (Job.filter job)) as [src|e|]; [|by intros [= <- <- <-]..].
  assert (Ha : allow_feature_deletion layer &&
               is_empty (filterString (Configuration.filter layer) (Job.filter job)) = false).
  { apply andb_false_iff. destruct Hno as [Ha|Hf]; [by left|right].
    unfold is_empty. apply String.eqb_neq. rewrite filterString_empty. tauto. }
  rewrite Ha. apply (with_transaction_sends (fun q => removes q = false)); try done.
  by apply pull_body_harmless.
Qed.

(** [C1] A pull is all or nothing.  Unless [begin;] fails or the process crashes,
    the last statement before the exit statements is [rollback;] when one of the
    statements of the pull failed, caught or not, or when libpq finds the
    transaction in error or does not know its state, and [commit;] in every other
    case.  That includes an exception that leaves the pull without a failed
    statement: the destructor cannot tell it from a return. *)
Theorem pull_atomic configuration now job c r job' c' layer src :
  getLayer configuration (layerName job) = Ret layer ->
  open_source layer (Job.filter job) = Ret src -> is_Some (pgconn c) ->
  pull have_pq configuration now (job, c) = (r, (job', c')) -> r <> Terminated ->
  sent c' = sent c ++ [(Exec "begin;", false)] \/
  exists res t1 t new last exits,
    let allow := allow_feature_deletion layer && is_empty (filterString (Configuration.filter layer) (Job.filter job)) in
    Transaction_new c = (Ret res, t1) /\ pull_body have_pq src layer allow now (job, t1) = (r, (job', t)) /\
    sent (connection t) = sent c ++ (Exec "begin;", true) :: new /\
    sent c' = sent c ++ (Exec "begin;", true) :: new ++ (Exec last, true) :: exits /\
    (last = "rollback;" <->
       (exists q, q ∈ new /\ q.2 = false) \/ transactionStatus (connection t) = PQTRANS_INERROR \/
       transactionStatus (connection t) = PQTRANS_UNKNOWN) /\
    (last = "commit;" \/ last = "rollback;").
Proof.
  intros Hl Hs Hc. unfold pull, get_job, gets, lift, mbind, M_bind. cbn [fst]. rewrite Hl, Hs.
  intros Hw Hr. destruct (with_transaction_spec _ _ _ _ _ _ _ _ (pull_body_keeps _ _ _ _) Hc Hw)
    as [?|[(e & _ & _ & _ & H)|(res & t1 & t2 & new & Hnew & Hb & Htr)]]; [done|by left|right].
  pose proof (last_statement_spec _ _ _ _ Htr) as Hlast. destruct Htr as [Hs2 (exits & H & _) _ _].
  exists res, t1, t2, new, (last_statement t2), exits. cbv zeta. by repeat (split; [done|]).
Qed.

(** [C36] With [ignore_failures] a refused feature is counted as ignored and the
    job ends as FINISHED, but nothing of the pull is kept: the refusal has
    marked the transaction, whose end is then [rollback;]. *)
Theorem ignored_feature_loses_pull configuration now job c job' c' :
  is_Some (pgconn c) ->
  pull have_pq configuration now (job, c) = (Ret tt, (job', c')) ->
  (0 < numIgnored job')%Z ->
  status job' = FINISHED /\
  exists new exits,
    sent c' = sent c ++ (Exec "begin;", true) :: new ++ (Exec "rollback;", true) :: exits.
Proof.
  intros Hc. unfold pull, get_job, gets, lift, mbind, M_bind. cbn [fst].
  destruct (getLayer _ _) as [layer|e|]; [|done..].
  destruct (open_source layer (Job.filter job)) as [src|e|]; [|done..].
  set (allow := _ && _). intros Hw Hn.
  destruct (with_transaction_spec _ _ _ _ _ _ _ _ (pull_body_keeps src layer allow now) Hc Hw)
    as [?|[(e & ? & _)|(res & t1 & t2 & new & _ & Hb & [_ (exits & H & _) _ _])]]; [done|done|].
  pose proof (pull_body_post src layer allow now (job, t1)) as Hp. unfold wp in Hp. rewrite Hb in Hp.
  destruct Hp as (_ & Hst & _ & _ & _ & Hrb). simpl in *. split; [done|].
  exists new, exits. by rewrite H, last_statement_rollback by auto.
Qed.

(** *** Bulk mode *)
Lemma exec_in sql t :
  wp (exec sql) (fun r t' => tx_le t t' /\
    match r with Ret _ => (Exec (c_str sql), true) ∈ sent (connection t') | _ => True end) t.
Proof.
  eapply wp_mono; [apply checked_spec|]. intros r t' Hc. split; [eapply checked_le; eauto|].
  destruct r; try done. destruct Hc as [_ (new & Hs & _ & Hn & _) _ _ _].
  rewrite Hs, (Hn eq_refl). apply elem_of_app. right. left.
Qed.

Definition removal_sent (t : Transaction) : Prop :=
  exists q, removes (Exec q) = true /\ (Exec q, true) ∈ sent (connection t).

Lemma removal_sent_le t t' : tx_le t t' -> removal_sent t -> removal_sent t'.
Proof.
  intros [(new & more & Hs & _) _ _] (q & Hq & Hin). exists q. split; [done|].
  rewrite Hs. apply elem_of_app. by left.
Qed.

Lemma bulk_delete_removes layer cols t :
  wp (bulk_delete have_pq layer cols) (fun r t' =>
    match r with Ret _ => removal_sent t' | _ => True end) t.
Proof.
  unfold bulk_delete. destruct (bulk_delete_method layer).
  - apply wp_bind. eapply wp_mono; [apply quoteAndJoinIdent_keeps|].
    intros [q|e|] t1 _; cbn [seq_post]; [|done|done].
    apply wp_bind. eapply wp_mono; [apply exec_in|]. intros [r|e|] t' [_ Hin]; cbn [seq_post]; [|done|done].
    eexists. split; [|exact Hin]. reflexivity.
  - apply wp_bind. eapply wp_mono; [apply quoteAndJoinIdent_keeps|].
    intros [q|e|] t1 _; cbn [seq_post]; [|done|done].
    apply wp_bind. eapply wp_mono; [apply exec_keeps|]. intros [r|e|] t2 _; cbn [seq_post]; [|done|done].
    apply wp_bind. destruct (PQgetvalue r 0 0); [|done]. apply wp_ret. cbn [seq_post].
    apply wp_bind. eapply wp_mono; [apply quoteAndJoinIdent_keeps|].
    intros [q'|e|] t3 _; cbn [seq_post]; [|done|done].
    apply wp_bind. eapply wp_mono; [apply exec_in|]. intros [r'|e|] t' [_ Hin]; cbn [seq_post]; [|done|done].
    eexists. split; [|exact Hin]. reflexivity.
Qed.

Lemma pull_body_bulk src layer allow now s :
  bulk_mode layer = true ->
  wp (pull_body have_pq src layer allow now) (fun r s' =>
    match r with Ret _ => removal_sent s'.2 | _ => True end) s.
Proof.
  intros Hb. destruct s as [j t]. unfold pull_body. rewrite Hb. apply wp_bind.
  unfold get_job, gets, wp at 1. cbn [seq_post fst].
  eapply wp_tx; [apply prepare_pull_tx| |by intros [a|e|] t' _].
  intros [[v tf] cols] t1 _. eapply wp_tx; [apply insert_features_tx| |by intros [a|e|] t' _].
  intros [np ni] t2 _. apply wp_bind. unfold wp at 1, on_job at 1, modify. cbn [seq_post].
  eapply wp_tx with (Q := fun r t' => match r with Ret _ => removal_sent t' | _ => True end);
    [| |by intros [a|e|] t' _].
  - unfold bulk_update. apply wp_bind. eapply wp_mono; [apply bulk_delete_removes|].
    intros [n|e|] t3 H3; cbn [seq_post]; [|done|done]. apply wp_bind.
    eapply wp_mono;
      [by apply (insert_all_keeps have_pq tx_le (fun e => is_db_error e = true) True);
         auto using quoteIdent_keeps, quoteIdent_all_keeps, quoteAndJoinIdent_keeps, exec_keeps|].
    intros [r|e|] t4 [H4 _]; cbn [seq_post]; [|done|done]. by eapply removal_sent_le.
  - intros ch t3 H3. unfold wp, on_job, mbind, M_bind, modify. exact H3.
Qed.

(** In bulk mode every successful pull empties the target table first,
    with a [delete] without condition or a [truncate], also when the layer does
    not allow the deletion of features and when a filter is set, so that the
    rows outside of the filter are lost. *)
Theorem bulk_mode_removes_all configuration now job c job' c' layer :
  getLayer configuration (layerName job) = Ret layer -> bulk_mode layer = true ->
  is_Some (pgconn c) ->
  pull have_pq configuration now (job, c) = (Ret tt, (job', c')) ->
  exists sql before after,
    sent c' = before ++ (Exec sql, true) :: after /\ removes (Exec sql) = true.
Proof.
  intros Hl Hb Hc. unfold pull, get_job, gets, lift, mbind, M_bind. cbn [fst]. rewrite Hl.
  destruct (open_source layer (Job.filter job)) as [src|e|]; [|done..]. set (allow := _ && _). intros Hw.
  destruct (with_transaction_spec _ _ _ _ _ _ _ _ (pull_body_keeps src layer allow now) Hc Hw)
    as [?|[(e & ? & _)|(res & t1 & t2 & new & _ & Hbody & [Hs2 (exits & H & _) _ _])]]; [done|done|].
  pose proof (pull_body_bulk src layer allow now (job, t1) Hb) as Hp. unfold wp in Hp. rewrite Hbody in Hp.
  destruct Hp as (q & Hq & Hin). simpl in Hin. rewrite Hs2 in Hin.
  apply list_elem_of_split in Hin as (l1 & l2 & Hin). exists q, l1, (l2 ++ (Exec (last_statement t2), true) :: exits).
  split; [|done]. rewrite H. change (l1 ++ (Exec q, true) :: l2 ++ (Exec (last_statement t2), true) :: exits)
    with (l1 ++ ((Exec q, true) :: l2) ++ (Exec (last_statement t2), true) :: exits).
  rewrite app_assoc, <- Hin, <- app_assoc. done.
Qed.
End Whole.

(** ** Witnesses: a layer of two columns and one feature *)
Module PullExample.
(** The server: [refuse] makes it refuse the inserts of features. *)
Definition server (refuse : bool) : LibPQ := mock_pq (fun r =>
  match r with
  | ExecPrepared _ _ => if refuse then mock_error "22001" "value too long" else mock_ok [] "1"
  | ExecParams sql _ =>
    if String.eqb sql "select postgis_lib_version();" then mock_ok [["2.1.3"]] "1"
    else mock_ok [["gid"; "int4"; ""; "Y"]; ["title"; "text"; ""; "N"]] "2"
  | _ => mock_ok [["0"]] "1"
  end).

Definition feature : OGRFeature :=
  mkFeature (fun _ => true) (fun _ => "oak") (fun _ => 7%Z) (fun _ => S754_nan)
    (fun _ => None) (fun _ => []) (fun _ => []) (fun _ => []) 1 None.
Definition source_layer : OGRLayer :=
  mkOGRLayer "trees" "" 1 [("GID", OFTInteger); ("title", OFTString)] [feature]
    (fun _ => inl [feature]).
Definition library : Gdal := {|
  OpenDataset := fun _ => Some (mkDataset [Some source_layer] (fun _ => Some source_layer));
  CPLMalloc_ok := fun _ => true;
  CPLBinaryToHex := fun _ => Some "";
  gdal2 := true
|}.

Definition layer (bulk ignore : bool) : Layer :=
  mkLayer "trees" "trees.shp" "trees" "" "trees" "public" "" false ignore [] true bulk BULK_DELETE.
Definition configuration (bulk ignore : bool) : Configuration :=
  set_layers {["trees" := layer bulk ignore]} Configuration_default.
Definition job : Job := with_layerName "trees" (Job_new PULL "ab-cd" 5).
Definition connection0 (refuse : bool) : @Connection (server refuse) :=
  @mkConnection (server refuse) (Some tt) true [].

Definition run (bulk ignore refuse : bool) :=
  pull (PQ := server refuse) (GD := library) true (configuration bulk ignore) 9 (job, connection0 refuse).
Definition run_result (bulk ignore refuse : bool) : result unit := (run bulk ignore refuse).1.
Definition run_job (bulk ignore refuse : bool) : Job := (run bulk ignore refuse).2.1.
Definition run_connection (bulk ignore refuse : bool) : @Connection (server refuse) :=
  (run bulk ignore refuse).2.2.

Lemma run_eq bulk ignore refuse :
  run bulk ignore refuse =
    (run_result bulk ignore refuse, (run_job bulk ignore refuse, run_connection bulk ignore refuse)).
Proof. unfold run_result, run_job, run_connection. by destruct (run _ _ _) as [? [? ?]]. Qed.

Definition src : Source :=
  mkSource source_layer [feature] (collect_fields 0 (FieldDefns source_layer) ∅).
End PullExample.

Lemma analyse_columns_spec_witness :
  exists cols, analyse_columns PullExample.src "trees" (PullExample.layer false false)
    {["gid" := mkField "gid" "int4" 0 true]} = Ret cols /\ primaryKeyColumns cols <> [].
Proof.
  eexists. split; [vm_compute; reflexivity|].
  refine (proj1 (analyse_columns_spec PullExample.src "trees" (PullExample.layer false false)
                   {["gid" := mkField "gid" "int4" 0 true]} _ _ eq_refl)).
  intros k f. rewrite lookup_singleton_Some. by intros [<- <-].
Defined.

Lemma pull_outcome_witness :
  PullExample.run_result false false false = Ret tt /\
  status (PullExample.run_job false false false) = FINISHED.
Proof.
  pose proof (pull_outcome (PQ := PullExample.server false) (GD := PullExample.library) true
    (PullExample.configuration false false) 9 PullExample.job (PullExample.connection0 false)
    _ _ _ (PullExample.layer false false) eq_refl (PullExample.run_eq false false false)) as [_ H].
  destruct (PullExample.run_result false false false) as [[]|e|] eqn:Hr;
    [split; [reflexivity|exact (proj1 H)]|vm_compute in Hr; discriminate Hr..].
Defined.

Lemma pull_removes_only_if_allowed_witness :
  exists new, sent (PullExample.run_connection false false false) = [] ++ new /\
    Forall (fun q => removes q = false) new.*1.
Proof.
  exact (pull_removes_only_if_allowed (PQ := PullExample.server false) (GD := PullExample.library) true
    (PullExample.configuration false false) 9 PullExample.job (PullExample.connection0 false)
    _ _ _ (PullExample.layer false false) eq_refl eq_refl (or_introl eq_refl)
    (PullExample.run_eq false false false)).
Defined.

Lemma pull_atomic_witness :
  exists new last exits,
    sent (PullExample.run_connection false false true) =
      [] ++ (Exec "begin;", true) :: new ++ (Exec last, true) :: exits /\
    ((exists q, q ∈ new /\ q.2 = false) -> last = "rollback;").
Proof.
  destruct (pull_atomic (PQ := PullExample.server true) (GD := PullExample.library) true
    (PullExample.configuration false false) 9 PullExample.job (PullExample.connection0 true)
    _ _ _ (PullExample.layer false false) PullExample.src eq_refl eq_refl (ex_intro _ tt eq_refl)
    (PullExample.run_eq false false true)) as [H|(res & t1 & t & new & last & exits & _ & _ & _ & H & Ha & _)].
  - intros H. vm_compute in H. discriminate H.
  - vm_compute in H. discriminate H.
  - exists new, last, exits. split; [exact H|]. intros Hf. apply Ha. by left.
Defined.

Lemma ignored_feature_loses_pull_witness :
  numIgnored (PullExample.run_job false true true) = 1%Z /\
  status (PullExample.run_job false true true) = FINISHED /\
  exists new exits, sent (PullExample.run_connection false true true) =
    [] ++ (Exec "begin;", true) :: new ++ (Exec "rollback;", true) :: exits.
Proof.
  split; [vm_compute; reflexivity|].
  apply (ignored_feature_loses_pull (PQ := PullExample.server true) (GD := PullExample.library) true
    (PullExample.configuration false true) 9 PullExample.job (PullExample.connection0 true)
    _ _ (ex_intro _ tt eq_refl)).
  - vm_compute. reflexivity.
  - vm_compute. reflexivity.
Defined.

Lemma bulk_mode_removes_all_witness :
  exists sql before after,
    sent (PullExample.run_connection true false false) = before ++ (Exec sql, true) :: after /\
    removes (Exec sql) = true.
Proof.
  apply (bulk_mode_removes_all (PQ := PullExample.server false) (GD := PullExample.library) true
    (PullExample.configuration true false) 9 PullExample.job (PullExample.connection0 false)
    (PullExample.run_job true false false) _ (PullExample.layer true false) eq_refl eq_refl
    (ex_intro _ tt eq_refl)).
  vm_compute. reflexivity.
Defined.
