(* ===== verification/PullTyped.v ===== *)
(** * The prepared statement of a pull is used as it was declared

    [well_typed] is the check that a server does on the use of prepared
    statements: a name is declared once, with a number of parameters, and used
    after that with as many values.  The property is that what a pull sends
    passes it. *)
From S2P Require Import Prelude Numbers StringUtils NullableValue Configuration Job.
From S2P Require Import LibPQ Connection Transaction PostGis Requests Gdal FieldConversion PullSource.
From S2P Require Import Pull PullSpec.

(** ** The check

    [env] has the declared names and their numbers of parameters; a [Prepare]
    that failed declares nothing. *)
Fixpoint well_typed (env : gmap string nat) (l : list (request * bool)) : Prop :=
  match l with
  | [] => True
  | (Prepare stmtName _ n, ok) :: l' =>
    env !! stmtName = None /\ well_typed (if ok : bool then <[stmtName := n]> env else env) l'
  | (ExecPrepared stmtName vs, _) :: l' => env !! stmtName = Some (length vs) /\ well_typed env l'
  | _ :: l' => well_typed env l'
  end.

(** Requests that do not concern a prepared statement. *)
Definition prepares (r : request) : bool :=
  match r with Prepare _ _ _ | ExecPrepared _ _ => true | _ => false end.
Abbreviation plain := (fun r => prepares r = false).

(** Requests that use at most the statement [name], with [n] values. *)
Definition uses (name : string) (n : nat) (r : request) : Prop :=
  match r with
  | Prepare _ _ _ => False
  | ExecPrepared stmtName vs => stmtName = name /\ length vs = n
  | _ => True
  end.

#[export] Instance plain_ordinary : Ordinary plain.
Proof. by intros []. Qed.

Lemma plain_uses name n r : plain r -> uses name n r.
Proof. by destruct r. Qed.

Lemma well_typed_plain env l1 l2 :
  Forall plain l1.*1 -> well_typed env l2 -> well_typed env (l1 ++ l2).
Proof.
  induction l1 as [|[[] ok] l1 IH]; cbn; [done|..]; intros [? ?]%Forall_cons ?; try done; auto.
Qed.

Lemma well_typed_uses name n env l :
  env !! name = Some n -> Forall (uses name n) l.*1 -> well_typed env l.
Proof.
  intros He. induction l as [|[[] ok] l IH]; cbn; [done|..]; intros [Hu ?]%Forall_cons; try done; auto.
  destruct Hu as [-> Hn]. rewrite Hn. auto.
Qed.

Section Typed.
Context {PQ : LibPQ} {GD : Gdal} (have_pq : bool).

Abbreviation sends P := (keeps (sends_le P) (fun _ => True) True).

(** ** What a call adds after requests that are plain *)
Definition after_plain {A} (Q : list (request * bool) -> result A -> Prop) (t : Transaction)
  (r : result A) (t' : Transaction) : Prop :=
  exists pre new, sent (connection t') = sent (connection t) ++ pre ++ new /\ Forall plain pre.*1 /\ Q new r.

Lemma after_plain_bind {A B} (m : M Transaction A) (k : A -> M Transaction B) Q t :
  sends plain m -> (forall e, Q [] (Throw e)) -> Q [] Terminated ->
  (forall a t1, wp (k a) (after_plain Q t1) t1) ->
  wp (m ≫= k) (after_plain Q t) t.
Proof.
  intros Hm He Ht Hk. apply wp_bind. eapply wp_mono; [apply Hm|].
  intros r t1 [(new & more & Hs & Hp & _) _].
  destruct r as [a|e|]; cbn [seq_post];
    [|exists new, []; rewrite app_nil_r; by auto..].
  eapply wp_mono; [apply Hk|]. intros r t2 (pre & new2 & Hs2 & Hp2 & HQ). exists (new ++ pre), new2.
  rewrite Hs2, Hs, fmap_app, !app_assoc. repeat split; [by apply Forall_app|done].
Qed.

(** ** The preparation declares the insert *)
Definition declares {A} (name : string) (n : A -> nat) (new : list (request * bool)) (r : result A) : Prop :=
  match r with
  | Ret a => exists sql, new = [(Prepare name sql (n a), true)]
  | _ => new = [] \/ exists sql k ok, new = [(Prepare name sql k, ok)]
  end.

Lemma prepare_declares name sql n t :
  wp (prepare name sql n) (after_plain (declares (c_str name) (fun _ => n)) t) t.
Proof.
  unfold prepare. pose proof (checked_spec (Prepare (c_str name) (c_str sql) n) t) as Hc.
  unfold wp, mbind, M_bind in *. destruct (on_connection _ t) as [[r|e|] t1];
    [destruct (checkResult r t1) as [[r'|e|] t2]|..];
    destruct Hc as [_ (new & Hs & Hn & Hok & _) _ _ _]; cbn in *; exists [], new;
    (split; [exact Hs|]); (split; [constructor|]); unfold declares; [naive_solver|..];
    destruct Hn as [->| ->]; eauto 6.
Qed.

Lemma prepare_insert_declares name temp columns values t :
  wp (prepare_insert have_pq name temp columns values)
    (after_plain (declares (c_str name) (fun _ => length columns)) t) t.
Proof.
  unfold prepare_insert, declares.
  apply after_plain_bind; [by eauto with keeps|auto..|]. intros q t1.
  apply after_plain_bind; [by eauto with keeps|auto..|]. intros qs t2. apply prepare_declares.
Qed.

Lemma prepare_pull_declares src layer n temp name t :
  wp (prepare_pull have_pq src layer n temp name)
    (after_plain (declares (c_str name) (fun r => length (insertColumns r.2))) t) t.
Proof.
  unfold prepare_pull, declares.
  apply after_plain_bind; [by apply exec_sends|auto..|]. intros _ t1.
  apply after_plain_bind; [by eauto with keeps|auto..|]. intros v t2.
  apply after_plain_bind; [by eauto with keeps|auto..|]. intros _ t3.
  apply after_plain_bind; [by eauto with keeps|auto..|]. intros tf t4.
  apply after_plain_bind; [apply lift_sends|auto..|]. intros cols t5.
  apply after_plain_bind; [unfold column_srid; keeps_steps|auto..|]. intros srid t6.
  apply after_plain_bind; [apply lift_sends|auto..|]. intros vs t7.
  apply wp_bind. eapply wp_mono; [apply prepare_insert_declares|]. by intros [].
Qed.

(** ** The features use it *)
Lemma feature_values_length src tf np f columns vs :
  feature_values src tf np f columns = Ret vs -> length vs = length columns.
Proof.
  revert vs. induction columns as [|c l IH]; intros vs; cbn [feature_values]; [by intros [= <-]|].
  destruct (feature_value src tf np f c) as [v|e|]; [|done..].
  cbn. destruct (feature_values src tf np f l) as [vs'|e|]; [|done..]. intros [= <-]. cbn. by rewrite IH.
Qed.

Lemma insert_feature_uses ig name vs ni :
  sends (uses (c_str name) (length vs)) (insert_feature ig name vs ni).
Proof.
  assert (He : sends (uses (c_str name) (length vs)) (execPrepared name vs)).
  { apply execPrepared_sends. split; [done|]. apply length_fmap. }
  assert (Hx : forall sql, sends (uses (c_str name) (length vs)) (exec sql)) by (intros sql; by apply exec_sends).
  unfold insert_feature. destruct ig; [|keeps_steps].
  apply (keeps_try_catch _ _ _ (fun _ => True)); [keeps_steps|]. intros e _. keeps_steps.
Qed.

Lemma insert_features_uses src tf ig name columns l np ni :
  sends (uses (c_str name) (length columns)) (insert_features src tf ig name columns l np ni).
Proof.
  revert np ni. induction l as [|f l IH]; intros np ni; cbn [insert_features]; [apply keeps_ret, _|].
  destruct (feature_values src tf np f columns) as [vs|e|] eqn:Hvs; [|exact (lift_sends _ _)..].
  rewrite <- (feature_values_length _ _ _ _ _ _ Hvs).
  apply (keeps_bind _ _ _ (insert_feature ig name vs ni)); [apply insert_feature_uses|]. intros ni'.
  rewrite (feature_values_length _ _ _ _ _ _ Hvs). apply IH.
Qed.

(** ** The statements on the tables are plain *)
#[local] Hint Resolve update_target_keeps insert_all_keeps insert_missing_keeps delete_removed_keeps : keeps.

Lemma update_part_plain layer allow tf v temp cols :
  sends plain (if bulk_mode layer then bulk_update have_pq layer temp cols
               else default_update have_pq layer allow tf v temp cols).
Proof.
  destruct (bulk_mode layer).
  - unfold bulk_update, bulk_delete. keeps_steps.
  - unfold default_update. keeps_steps.
Qed.

(** ** The whole transaction *)
Definition adds_typed (l l' : list (request * bool)) : Prop := exists new, l' = l ++ new /\ well_typed ∅ new.

Lemma pull_body_typed src layer allow now j t :
  wp (pull_body have_pq src layer allow now)
    (fun _ s' => adds_typed (sent (connection t)) (sent (connection s'.2))) (j, t).
Proof.
  unfold pull_body. apply wp_bind. unfold get_job at 1, gets, wp at 1. cbn [seq_post fst].
  apply wp_bind. unfold wp at 1, on_transaction at 1.
  pose proof (prepare_pull_declares src layer (layerName j) (cat ["batyr_"; id j]) (cat ["batyr_insert"; id j]) t) as Hp.
  unfold wp in Hp. destruct (prepare_pull _ _ _ _ _ _ t) as [r t1].
  destruct Hp as (pre & new & Hs & Hpre & Hd). destruct r as [[[v tf] cols]|e|]; cbn [seq_post declares] in *.
  - destruct Hd as [sql ->]. set (N := c_str _) in *. set (k := length _) in *.
    eapply wp_mono with (Q := fun _ s' => sends_body_le (uses N k) (j, t1) s').
    + match goal with |- wp ?m _ _ => assert (Hk : keeps (sends_body_le (uses N k)) (fun _ => True) True m) end.
      { assert (HR : PreOrder (@sends_body_le _ (uses N k) Job)) by apply sends_body_le_preorder.
        apply keeps_bind; [exact HR|apply on_transaction_sends, insert_features_uses|]. intros [np ni].
        apply keeps_bind; [exact HR|apply (on_job_keeps (sends_le _))|]. intros _.
        apply keeps_bind; [exact HR|apply on_transaction_sends, (sends_weaken plain _ _ (plain_uses N k)), update_part_plain|].
        intros ch. apply keeps_bind; [exact HR|apply (on_job_keeps (sends_le _))|]. intros _.
        apply (on_job_keeps (sends_le _)). }
      eapply wp_mono; [apply Hk|]. by intros ? ? [? _].
    + intros _ s' (new & more & Hs' & Hu & _). cbn [snd] in Hs'. exists (pre ++ (Prepare N sql k, true) :: new).
      rewrite Hs', Hs, <- !app_assoc. split; [done|]. apply well_typed_plain; [done|]. split; [done|].
      by apply (well_typed_uses N k); [apply lookup_insert_eq|].
  - exists (pre ++ new). split; [done|]. apply well_typed_plain; [done|]. by destruct Hd as [->|(? & ? & ? & ->)].
  - exists (pre ++ new). split; [done|]. apply well_typed_plain; [done|]. by destruct Hd as [->|(? & ? & ? & ->)].
Qed.

Lemma well_typed_then_plain env l1 l2 : well_typed env l1 -> Forall plain l2.*1 -> well_typed env (l1 ++ l2).
Proof.
  intros H1 H2. revert env H1. induction l1 as [|[[] ok] l1 IH]; intros env; cbn; [|naive_solver..].
  intros _. rewrite <- (app_nil_r l2). by apply well_typed_plain.
Qed.

Lemma with_transaction_typed {X A} (body : M (X * Transaction) A) x c r x' c' :
  (forall t, wp body (fun _ s' => adds_typed (sent (connection t)) (sent (connection s'.2))) (x, t)) ->
  with_transaction body (x, c) = (r, (x', c')) -> adds_typed (sent c) (sent c').
Proof.
  intros Hbody. unfold with_transaction, Transaction_new.
  pose proof (exec_sends plain "begin;" eq_refl (mkTransaction c [] false)) as H0. unfold wp in H0.
  destruct (exec "begin;" _) as [r1 t1]. destruct H0 as [H0 _].
  apply sends_sent_all in H0 as (n1 & S1 & P1). cbn in S1.
  assert (H1 : adds_typed (sent c) (sent (connection t1))).
  { exists n1. split; [done|]. rewrite <- (app_nil_r n1). by apply well_typed_plain. }
  destruct r1 as [a|e|]; [|by intros [= <- <- <-]..].
  specialize (Hbody t1). unfold wp in Hbody. destruct (body (x, t1)) as [r2 [x2 t2]].
  destruct Hbody as (n2 & S2 & T2). cbn in S2.
  assert (H2 : adds_typed (sent c) (sent (connection t2))).
  { exists (n1 ++ n2). rewrite S2, S1, app_assoc. split; [done|]. by apply well_typed_plain. }
  assert (H3 : adds_typed (sent c) (sent (connection (Transaction_destroy t2).2))).
  { destruct (end_transaction_sends plain t2) as (n3 & S3 & P3); [done|done|by apply Forall_true|].
    destruct H2 as (n & Sn & Tn). exists (n ++ n3). rewrite S3, Sn, app_assoc. split; [done|].
    by apply well_typed_then_plain. }
  destruct r2 as [b|e|]; [..|by intros [= <- <- <-]];
    destruct (Transaction_destroy t2) as [[] t3]; by intros [= <- <- <-].
Qed.

(** ** Properties *)

(** [C8] The prepared insert is used as it was declared: in what a pull sends,
    whatever its outcome, a statement is declared at most once, no statement is
    executed that was not declared with success before, and every execution has
    exactly the number of values that the declaration gave. *)
Theorem pull_statements_typed configuration now job c r job' c' :
  pull have_pq configuration now (job, c) = (r, (job', c')) ->
  exists new, sent c' = sent c ++ new /\ well_typed ∅ new.
Proof.
  unfold pull, get_job, gets, lift, mbind, M_bind. cbn [fst].
  assert (Hnone : adds_typed (sent c) (sent c)) by (exists []; by rewrite app_nil_r).
  destruct (getLayer _ _) as [layer|e|]; [|by intros [= <- <- <-]..].
  destruct (open_source layer _) as [src|e|]; [|by intros [= <- <- <-]..].
  apply with_transaction_typed. intros t. apply pull_body_typed.
Qed.
End Typed.

Lemma pull_statements_typed_witness :
  exists new, sent (PullExample.run_connection false false false) = [] ++ new /\ well_typed ∅ new /\
    exists name vs, (ExecPrepared name vs, true) ∈ new /\ length vs = 2.
Proof.
  destruct (pull_statements_typed (PQ := PullExample.server false) (GD := PullExample.library) true
    (PullExample.configuration false false) 9 PullExample.job (PullExample.connection0 false)
    _ _ _ (PullExample.run_eq false false false)) as (new & Hs & Ht).
  exists new. split; [exact Hs|]. split; [exact Ht|].
  cbn [sent PullExample.connection0 app] in Hs. exists "batyr_insertabcd", [Some "7"; Some "oak"].
  split; [|reflexivity]. rewrite <- Hs. apply (proj1 (bool_decide_eq_true _)). vm_compute. reflexivity.
Defined.
