(* ===== verification/Calls.v ===== *)
(** * Calls of a transaction, seen from the server

    [Sync] and [Removal] assume what a server does with the requests of a job.
    Here is what such assumptions say about the calls of [Transaction]: a state
    of the server is read off the connection, a call that returned relates the
    state before and after it, and the end of the transaction keeps what was
    done unless it rolls back. *)
From S2P Require Import Prelude Numbers StringUtils NullableValue LibPQ Connection Transaction Requests Gdal FieldConversion.
From S2P Require Import PullSource Pull.

Lemma M_bind_inv {S A B} (m : M S A) (k : A -> M S B) s b s' :
  (m ≫= k) s = (Ret b, s') -> exists a s1, m s = (Ret a, s1) /\ k a s1 = (Ret b, s').
Proof. unfold mbind, M_bind. destruct (m s) as [[a|e|] s1]; [eauto|done|done]. Qed.

(** What a client of [Transaction] may assume of a server: the state that is read
    off a connection, how a request that succeeds changes it, which requests only
    read, and how identifiers are quoted. *)
Class Server {PQ : LibPQ} {St : Type} (view : PGconn -> St) := {
  answers : request -> St -> PGresult -> St -> Prop;
  quiet : request -> bool;
  quote : string -> string;
  sv_answers : forall r p res p', PQrequest r p = (Some res, p') ->
    resultStatus res <> PGRES_FATAL_ERROR -> answers r (view p) res (view p');
  sv_quiet : forall r s res s', answers r s res s' -> quiet r = true -> s' = s;
  sv_select : forall sql vs, quiet (ExecParams ("select " +:+ sql) vs) = true;
  sv_escape : forall p s e, PQescapeIdentifier p s = Some e -> e = quote s;
  sv_nul : forall s, nul_free (quote s);
  sv_remote : forall l s res s',
    answers (ExecParams (c_str ("select " +:+ quote_ident_list 0 (length l))) ((fun x => Some (c_str x)) <$> l))
      s res s' ->
    tuples res = [(fun x => quote (c_str x)) <$> l]
}.

(** And about the ends of a transaction: what is observed of the database does
    not change with its begin, with the commit of a transaction that has not
    failed, and with the statements [exits]. *)
Class Transactional {PQ : LibPQ} {T : Type} (observe : PGconn -> T) (exits : list string) : Prop := {
  tr_begin : forall p res p', PQrequest (Exec "begin;") p = (Some res, p') ->
    resultStatus res <> PGRES_FATAL_ERROR -> observe p' = observe p;
  tr_commit : forall p res p', PQrequest (Exec "commit;") p = (Some res, p') ->
    resultStatus res <> PGRES_FATAL_ERROR ->
    PQtransactionStatus p <> PQTRANS_INERROR -> PQtransactionStatus p <> PQTRANS_UNKNOWN ->
    observe p' = observe p;
  tr_exit : forall sql p res p', sql ∈ exits -> PQrequest (Exec (c_str sql)) p = (res, p') ->
    observe p' = observe p
}.

Arguments answers {PQ St} view {_}.
Arguments quiet {PQ St} view {_}.
Arguments quote {PQ St} view {_}.

(** An identifier as it is quoted, and two of them joined. *)
Definition q (quote : string -> string) (s : string) : string := quote (c_str s).
Definition qj (quote : string -> string) (a b : string) : string := join [q quote a; q quote b] ".".

Section Calls.
Context {PQ : LibPQ} {St : Type} (view : PGconn -> St).

(** ** What a call does with the state

    [ran m P]: when [m] returns, the state and the exit statements before and
    after it are related by [P]. *)
Definition State : Type := St * list string.
Definition snap (t : Transaction) : option State :=
  (fun p => (view p, exitSqls t)) <$> pgconn (connection t).

Definition ran {A} (m : M Transaction A) (P : State -> A -> State -> Prop) : Prop :=
  forall t a t' s, m t = (Ret a, t') -> snap t = Some s -> exists s', snap t' = Some s' /\ P s a s'.

(** A call that only reads. *)
Definition reads {A} (m : M Transaction A) (P : A -> Prop) : Prop := ran m (fun s a s' => s' = s /\ P a).

Lemma ran_mono {A} (m : M Transaction A) (P Q : State -> A -> State -> Prop) :
  ran m P -> (forall s a s', P s a s' -> Q s a s') -> ran m Q.
Proof. intros H HPQ t a t' s Hm Hs. destruct (H t a t' s Hm Hs) as (s' & ? & ?). eauto. Qed.

Lemma ran_bind {A B} (m : M Transaction A) (k : A -> M Transaction B) P (Q : A -> State -> B -> State -> Prop) :
  ran m P -> (forall a, ran (k a) (Q a)) ->
  ran (m ≫= k) (fun s b s' => exists a s1, P s a s1 /\ Q a s1 b s').
Proof.
  intros Hm Hk t b t' s (a & t1 & H1 & H2)%M_bind_inv Hs.
  destruct (Hm _ _ _ _ H1 Hs) as (s1 & Hs1 & HP). destruct (Hk a _ _ _ _ H2 Hs1) as (s' & Hs' & HQ). eauto 6.
Qed.

(** After a call that only reads, or that is known to read one value. *)
Lemma ran_after {A B} (m : M Transaction A) (k : A -> M Transaction B) (Pa : A -> Prop) (Q : State -> B -> State -> Prop) :
  reads m Pa -> (forall a, Pa a -> ran (k a) Q) -> ran (m ≫= k) Q.
Proof.
  intros Hm Hk t b t' s (a & t1 & H1 & H2)%M_bind_inv Hs.
  destruct (Hm _ _ _ _ H1 Hs) as (s1 & Hs1 & -> & Ha). by apply (Hk a Ha _ _ _ _ H2).
Qed.

Lemma reads_ret {A} (a : A) : reads (mret a) (eq a).
Proof. intros t b t' s [= <- <-] Hs. eauto. Qed.

Lemma reads_lift {A} (r : result A) : reads (lift r) (fun a => r = Ret a).
Proof. intros t b t' s [= -> <-] Hs. eauto. Qed.

Lemma modify_ran (f : Transaction -> Transaction) :
  (forall t, connection (f t) = connection t) ->
  ran (modify f) (fun s _ s' => exists t, exitSqls t = s.2 /\ s' = (s.1, exitSqls (f t))).
Proof.
  intros Hf t a t' s [= <- <-]. unfold snap. rewrite Hf. destruct (pgconn (connection t)); [|done].
  intros [= <-]. eexists. split; [done|]. exists t. done.
Qed.

Lemma checked_inv r t res t' :
  (result ← on_connection (send r); checkResult result) t = (Ret res, t') ->
  exists p p', pgconn (connection t) = Some p /\ PQrequest r p = (Some res, p') /\
    resultStatus res <> PGRES_FATAL_ERROR /\
    t' = mkTransaction (mkConnection (Some p') (connection_ok (connection t))
           (sent (connection t) ++ [(r, true)])) (exitSqls t) (rollback t).
Proof.
  destruct t as [c ex rb]. intros (o & t1 & H1 & H2)%M_bind_inv.
  unfold on_connection, send in H1. cbn [connection exitSqls rollback] in *.
  destruct (pgconn c) as [p|] eqn:Hp.
  - destruct (PQrequest r p) as [o' p'] eqn:Hr. injection H1 as <- <-. unfold checkResult in H2.
    destruct o' as [r'|]; [|apply M_bind_inv in H2 as (? & ? & [= <- <-] & H2); done].
    destruct (decide (resultStatus r' = PGRES_FATAL_ERROR)) as [Hf|Hf].
    + apply M_bind_inv in H2 as (? & ? & [= <- <-] & H2).
      by destruct (diag_message_primary r'), (diag_sqlstate r').
    + injection H2 as <- <-. exists p, p'. repeat split; try done.
      unfold set_connection, succeeded. cbn. by rewrite bool_decide_eq_false_2.
  - injection H1 as <- <-. unfold checkResult in H2. by apply M_bind_inv in H2 as (? & ? & [= <- <-] & H2).
Qed.

(** ** A server with known answers *)
Section Answers.
Context {SV : Server view} (have_pq : bool).
#[local] Abbreviation q := (q (quote view)).
#[local] Abbreviation qj := (qj (quote view)).

Lemma checked_ran r :
  ran (result ← on_connection (send r); checkResult result)
    (fun s res s' => s'.2 = s.2 /\ answers view r s.1 res s'.1).
Proof.
  intros t res t' s (p & p' & Hp & Hr & Hf & ->)%checked_inv Hs. unfold snap in *. rewrite Hp in Hs.
  injection Hs as <-. eexists. split; [done|]. split; [done|]. exact (sv_answers _ _ _ _ Hr Hf).
Qed.

Lemma exec_ran sql : ran (exec sql) (fun s res s' => s'.2 = s.2 /\ answers view (Exec (c_str sql)) s.1 res s'.1).
Proof. apply checked_ran. Qed.
Lemma execParams_ran sql vs :
  ran (execParams sql vs) (fun s res s' => s'.2 = s.2 /\ answers view (ExecParams (c_str sql) vs) s.1 res s'.1).
Proof. apply checked_ran. Qed.
Lemma execPrepared_ran n vs :
  ran (execPrepared n vs)
    (fun s res s' => s'.2 = s.2 /\ answers view (ExecPrepared (c_str n) (PGParams vs)) s.1 res s'.1).
Proof. apply checked_ran. Qed.

Lemma answers_quiet (m : M Transaction PGresult) r :
  quiet view r = true -> ran m (fun s res s' => s'.2 = s.2 /\ answers view r s.1 res s'.1) ->
  reads m (fun res => exists s s', answers view r s res s').
Proof.
  intros Hq Hm. eapply ran_mono; [exact Hm|]. intros [s e] res [s' e'] [He Ha]. cbn [fst snd] in *.
  split; [|eauto]. by rewrite (sv_quiet _ _ _ _ Ha Hq), He.
Qed.

Lemma execParams_reads sql vs :
  quiet view (ExecParams (c_str sql) vs) = true ->
  reads (execParams sql vs) (fun res => exists s s', answers view (ExecParams (c_str sql) vs) s res s').
Proof. intros Hq. exact (answers_quiet _ _ Hq (execParams_ran sql vs)). Qed.

Lemma exec_reads sql : quiet view (Exec (c_str sql)) = true -> reads (exec sql) (fun _ => True).
Proof.
  intros Hq. eapply ran_mono; [apply (answers_quiet _ _ Hq (exec_ran _))|]. by intros s a s' [-> _].
Qed.

(** ** Identifiers, quoted here or by the server *)
Lemma escape_identifiers_reads l : reads (escape_identifiers l) (eq (q <$> l)).
Proof.
  induction l as [|x l IH]; cbn [escape_identifiers]; [apply reads_ret|].
  intros t a t' s H Hs. apply M_bind_inv in H as (t0 & t1 & [= <- <-] & H).
  unfold snap in *. destruct (pgconn (connection t)) as [p|] eqn:Hp; [|done]. cbn [mbind option_bind] in H.
  destruct (PQescapeIdentifier p (c_str x)) as [e|] eqn:He; [|done].
  apply M_bind_inv in H as (rest & t1 & H & [= <- <-]).
  destruct (IH t rest t1 s H) as (s' & Hs' & -> & <-); [unfold snap; by rewrite Hp|].
  exists s. split; [exact Hs'|]. split; [done|]. by rewrite (sv_escape _ _ _ He).
Qed.

Lemma get_values_read res pre l :
  tuples res = [pre ++ l] -> Forall nul_free l -> reads (get_values res (length pre) (length l)) (eq l).
Proof.
  revert pre. induction l as [|v l IH]; intros pre Hr Hl; cbn [length get_values]; [apply reads_ret|].
  apply Forall_cons in Hl as [Hv Hl].
  replace (PQgetvalue res 0 (length pre)) with (Some v)
    by (unfold PQgetvalue; rewrite Hr; simpl; by rewrite list_lookup_middle).
  eapply ran_after.
  - specialize (IH (pre ++ [v])). rewrite length_app, Nat.add_1_r, <- app_assoc in IH. by apply IH.
  - intros a <-. rewrite c_str_id by done. apply reads_ret.
Qed.

Lemma quote_remotely_reads l : reads (quote_remotely l) (eq (q <$> l)).
Proof.
  unfold quote_remotely. eapply ran_after.
  - apply execParams_reads. exact (sv_select (c_str (quote_ident_list 0 (length l))) _).
  - intros res (s & s' & Ha). pose proof (sv_remote l _ _ _ Ha) as Ht.
    destruct (negb _); [intros t a t' s0 [=]|].
    rewrite <- (length_fmap q l). apply (get_values_read res []); [done|].
    apply Forall_fmap, Forall_true. intros x. exact (sv_nul (c_str x)).
Qed.

Lemma quoteIdent_all_reads l : reads (quoteIdent_all have_pq l) (eq (q <$> l)).
Proof.
  unfold quoteIdent_all. destruct l as [|x l]; [apply reads_ret|].
  destruct have_pq; [apply escape_identifiers_reads|apply quote_remotely_reads].
Qed.

Lemma quoteIdent_reads x : reads (quoteIdent have_pq x) (eq (q x)).
Proof. eapply ran_after; [apply quoteIdent_all_reads|]. intros l <-. apply reads_ret. Qed.

Lemma quoteAndJoinIdent_reads a b : reads (quoteAndJoinIdent have_pq a b) (eq (qj a b)).
Proof. eapply ran_after; [apply quoteIdent_all_reads|]. intros l <-. apply reads_ret. Qed.

(** The columns of a table, if the catalogue describes them. *)
Lemma getTableFields_reads schema name fields :
  (forall s res s', answers view (ExecParams (c_str table_fields_query) [Some (c_str name); Some (c_str schema)]) s res s' ->
     forall m, fold_result (read_field res) (seq 0 (PQntuples res)) ∅ = Ret m -> m = fields) ->
  reads (getTableFields schema name) (eq fields).
Proof.
  intros Hfields. unfold getTableFields. eapply ran_after.
  - apply execParams_reads. exact (sv_select (c_str (String.substring 7 3000 table_fields_query)) _).
  - intros res (s & s' & Ha). eapply ran_mono; [apply reads_lift|].
    intros s1 m s2 [-> Hm]. split; [done|]. symmetry. by eapply Hfields.
Qed.
End Answers.

(** ** The begin and the end of the transaction *)
Section Ends.
Context {T : Type} (observe : PGconn -> T) (exits : list string) {TR : Transactional observe exits}.

Lemma begin_observed c p res t :
  pgconn c = Some p -> Transaction_new c = (Ret res, t) ->
  exists p1, snap t = Some (view p1, []) /\ observe p1 = observe p /\
    sent (connection t) = sent c ++ [(Exec "begin;", true)].
Proof.
  intros Hc (p0 & p1 & Hp & Hr & Hf & ->)%checked_inv. cbn in Hp. rewrite Hc in Hp. injection Hp as <-.
  exists p1. split; [done|]. split; [|done]. by apply (tr_begin _ res).
Qed.

Lemma run_exitSql_observed sql t t' p :
  sql ∈ exits -> pgconn (connection t) = Some p -> run_exitSql sql t = (Ret tt, t') ->
  exists p', pgconn (connection t') = Some p' /\ observe p' = observe p.
Proof.
  intros Hsql Hp. destruct (PQrequest (Exec (c_str sql)) p) as [o p'] eqn:Hr.
  pose proof (tr_exit _ _ _ _ Hsql Hr) as Ht. intros H. exists p'. split; [|done]. revert H.
  unfold run_exitSql, try_catch, exec, on_connection, send, mbind, M_bind. rewrite Hp, Hr.
  unfold checkResult, get, modify, mbind, M_bind. destruct o as [r|]; simpl; [|by intros [= <-]].
  case_decide; simpl; [|by intros [= <-]].
  by destruct (diag_message_primary r), (diag_sqlstate r); simpl; intros [= <-].
Qed.

Lemma run_exitSqls_observed l t t' p :
  Forall (.∈ exits) l -> pgconn (connection t) = Some p -> foreach l run_exitSql t = (Ret tt, t') ->
  exists p', pgconn (connection t') = Some p' /\ observe p' = observe p.
Proof.
  intros Hl. revert t p. induction Hl as [|sql l Hs _ IH]; intros t p Hp; cbn [foreach].
  - intros [= <-]. eauto.
  - intros ([] & t1 & H1 & H2)%M_bind_inv.
    destruct (run_exitSql_observed _ _ _ _ Hs Hp H1) as (p1 & Hp1 & <-). by apply (IH t1 p1).
Qed.

(** The destructor keeps what is observed, unless it sends [rollback;]. *)
Lemma destroy_observed t u t' p :
  Forall (.∈ exits) (exitSqls t) -> pgconn (connection t) = Some p -> Transaction_destroy t = (Ret u, t') ->
  (exists new, sent (connection t') = sent (connection t) ++ (Exec "rollback;", true) :: new) \/
  exists p', pgconn (connection t') = Some p' /\ observe p' = observe p.
Proof.
  intros He Hp H. unfold Transaction_destroy in H.
  destruct (end_transaction t) as [[[]|e|] t0] eqn:H0; [|done|done]. injection H as _ <-.
  unfold end_transaction in H0. apply M_bind_inv in H0 as (? & ? & [= <- <-] & H0).
  apply M_bind_inv in H0 as (res & t1 & H1 & H0). apply M_bind_inv in H0 as ([] & t2 & H2 & [= <-]).
  destruct (_ || _) eqn:Hb in H1; apply checked_inv in H1 as (p0 & p1 & Hp0 & Hr & Hf & ->);
    rewrite Hp in Hp0; injection Hp0 as <-.
  - left. pose proof (run_exitSqls_spec (exitSqls t) (mkTransaction (mkConnection (Some p1)
      (connection_ok (connection t)) (sent (connection t) ++ [(Exec (c_str "rollback;"), true)])) (exitSqls t) (rollback t)))
      as Hx. unfold wp in Hx. rewrite H2 in Hx. destruct Hx as (new & Hx & _); [by eexists|].
    exists new. cbn [connection]. rewrite Hx. cbn. by rewrite <- app_assoc.
  - right. apply orb_false_iff in Hb as [[_ Hb1]%orb_false_iff Hb2].
    unfold transactionStatus in *. rewrite Hp in Hb1, Hb2. rewrite bool_decide_eq_false in Hb1, Hb2.
    rewrite <- (tr_commit (observe := observe) p res p1 Hr Hf Hb1 Hb2).
    cbn [connection]. by eapply run_exitSqls_observed; [exact He| |exact H2].
Qed.
End Ends.
End Calls.

(** The numbers of the job are those of the server as long as they fit an [int]. *)
Definition counted (z : Z) (n : nat) : Prop := (Z.of_nat n <= int_max)%Z -> z = Z.of_nat n.

Lemma affected_counted res n : cmdTuples res = to_string (Z.of_nat n) -> counted (affected res) n.
Proof. unfold affected. intros -> Hn. apply atoi_to_string. lia. Qed.

(** ** Calls below a job *)
Lemma tx_inv {PQ : LibPQ} {X A B} (m : M Transaction A) (k : A -> M (X * Transaction) B) j t b s' :
  (on_transaction m ≫= k) (j, t) = (Ret b, s') -> exists a t1, m t = (Ret a, t1) /\ k a (j, t1) = (Ret b, s').
Proof.
  unfold mbind, M_bind, on_transaction. destruct (m t) as [[a|e|] t1]; [eauto|done|done].
Qed.

Lemma with_transaction_inv {PQ : LibPQ} {X A} (body : M (X * Transaction) A) x c a x' c' :
  with_transaction body (x, c) = (Ret a, (x', c')) ->
  exists res t1 t2 u t3, Transaction_new c = (Ret res, t1) /\ body (x, t1) = (Ret a, (x', t2)) /\
    Transaction_destroy t2 = (Ret u, t3) /\ c' = connection t3.
Proof.
  unfold with_transaction. destruct (Transaction_new c) as [[res|e|] t1]; [|done|done].
  destruct (body (x, t1)) as [[b|e|] [x2 t2]] eqn:Hb; [|by destruct (Transaction_destroy t2) as [[] ?]|done].
  destruct (Transaction_destroy t2) as [[u|e|] t3] eqn:Hd; [|done|done]. intros [= <- <- <-]. eauto 10.
Qed.
