(* ===== verification/Sql.v ===== *)
(** * What the statements of a pull mean

    The statements that [Worker::pull] builds are text for a server that is not
    part of the sources.  This file has the meaning that the PostgreSQL and
    PostGIS manuals give them, on tables without triggers: three-valued logic,
    [is distinct from], [not in], [st_equals] and the rest of the geometry test.
    It is the specification that [Sync] assumes of a server, as a hypothesis, and
    the theorems here are about the tables only. *)
From S2P Require Import Prelude.

(** ** Three-valued logic: [None] is the SQL value [NULL] *)
Abbreviation tv := (option bool).

Definition tv_or (a b : tv) : tv :=
  match a, b with
  | Some true, _ | _, Some true => Some true
  | Some false, Some false => Some false
  | _, _ => None
  end.
Definition tv_and (a b : tv) : tv :=
  match a, b with
  | Some false, _ | _, Some false => Some false
  | Some true, Some true => Some true
  | _, _ => None
  end.
Definition tv_not (a : tv) : tv := negb <$> a.

(** [where] keeps a row when the condition is true, not when it is NULL. *)
Definition holds (a : tv) : bool := bool_decide (a = Some true).

(** ** Values *)
Class SqlTypes := {
  (** The values that are not NULL, of all types. *)
  cell : Type;
  cell_eq_dec :: EqDecision cell;
  (** PostGIS: [st_srid], the test for collections (by [st_iscollection] from
      PostGIS 2 on, by the name of the type before), [st_equals], [::bytea]. *)
  st_srid : cell -> Z;
  st_iscollection : bool -> cell -> bool;
  st_equals : cell -> cell -> bool;
  as_bytea : cell -> string
}.

Section Sql.
Context {ST : SqlTypes}.

(** A row; a column without entry is NULL. *)
Abbreviation row := (gmap string cell).

(** An operator that is NULL when one of its operands is. *)
Definition strict2 (f : cell -> cell -> bool) (a b : option cell) : tv :=
  match a, b with Some x, Some y => Some (f x y) | _, _ => None end.

Definition sql_eq : option cell -> option cell -> tv := strict2 (fun x y => bool_decide (x = y)).
Definition is_distinct {A} `{EqDecision A} (a b : option A) : tv := Some (bool_decide (a <> b)).

Section Statements.
(** PostGIS 2 or later; the key, the inserted columns, and the updated ones with
    whether they are geometries. *)
Context (v2 : bool) (key icols : list string) (ucols : list (string * bool)).

(** [case when st_srid(a) != st_srid(b) or ... then a::bytea is distinct from
    b::bytea else not st_equals(a, b) end]. *)
Definition geometry_changed (a b : option cell) : tv :=
  let srids := strict2 (fun x y => bool_decide (st_srid x <> st_srid y)) a b in
  let collections := tv_or (st_iscollection v2 <$> a) (st_iscollection v2 <$> b) in
  if holds (tv_or srids collections)
  then is_distinct (as_bytea <$> a) (as_bytea <$> b)
  else tv_not (strict2 st_equals a b).

Definition column_changed (t s : row) (c : string * bool) : tv :=
  if c.2 then geometry_changed (t !! c.1) (s !! c.1) else is_distinct (t !! c.1) (s !! c.1).

Definition row_changed (t s : row) : tv :=
  foldr (fun c => tv_or (column_changed t s c)) (Some false) ucols.

(** [k1 is not distinct from k1' and ...]. *)
Definition same_key (t s : row) : bool := forallb (fun c => bool_decide (t !! c = s !! c)) key.

(** [(k1, ...) not in (select k1, ... from rows)]. *)
Definition key_eq (r x : row) : tv :=
  foldr (fun c => tv_and (sql_eq (r !! c) (x !! c))) (Some true) key.
Definition key_not_in (r : row) (rows : list row) : tv :=
  tv_not (foldr (fun x => tv_or (key_eq r x)) (Some false) rows).

(** ** Statements on the target and the temporary table *)
Record Tables := mkTables { target : list row; temp : list row }.

Inductive Statement :=
  | UpdateChanged
  | InsertMissing
  | DeleteRemoved
  | CountKey
  | Truncate
  | DeleteAll
  | InsertAll.

(** The rows of the temporary table that make the update change [t]; when there
    is more than one, the manual leaves open which one is used. *)
Definition updates (t s : row) : bool := same_key t s && holds (row_changed t s).
Definition set_columns (s t : row) : row :=
  foldr (fun c => partial_alter (fun _ => s !! c.1) c.1) t ucols.

Definition updated_row (tmp : list row) (t t' : row) : Prop :=
  (exists s, s ∈ tmp /\ updates t s = true /\ t' = set_columns s t) \/
  (existsb (updates t) tmp = false /\ t' = t).

(** A row that is inserted; the columns that are not named get their defaults. *)
Definition inserted_row (s r : row) : Prop := Forall (fun c => r !! c = s !! c) icols.

Definition insertion (l : list row) (tgt tgt' : list row) : Prop :=
  exists new, Forall2 inserted_row l new /\ tgt' ≡ₚ tgt ++ new.

Definition missing (tgt tmp : list row) : list row := List.filter (fun s => holds (key_not_in s tgt)) tmp.

(** The rows that an update changes. *)
Definition changed (tgt tmp : list row) : list row := List.filter (fun t => existsb (updates t) tmp) tgt.

(** The effect of a statement, and the number that goes with its result. *)
Definition effect (st : Statement) (db db' : Tables) (n : nat) : Prop :=
  let '(mkTables tgt tmp) := db in
  temp db' = tmp /\
  match st with
  | UpdateChanged =>
    (exists l, Forall2 (updated_row tmp) tgt l /\ target db' ≡ₚ l) /\
    n = length (changed tgt tmp)
  | InsertMissing => insertion (missing tgt tmp) tgt (target db') /\ n = length (missing tgt tmp)
  | DeleteRemoved =>
    target db' ≡ₚ List.filter (fun t => negb (holds (key_not_in t tmp))) tgt /\
    n = length (missing tmp tgt)
  (* The column is not quoted in the statement: its number is left open. *)
  | CountKey => target db' = tgt
  | Truncate => target db' = [] /\ n = 0
  | DeleteAll => target db' = [] /\ n = length tgt
  | InsertAll => insertion tmp tgt (target db') /\ n = length tmp
  end.

(** One effect of every statement, to run it: the first matching row is used
    for an update, and the columns without a value get the one of the source. *)
Definition run_statement (st : Statement) (db : Tables) : Tables * nat :=
  let '(mkTables tgt tmp) := db in
  match st with
  | UpdateChanged =>
    (mkTables ((fun t => match List.find (updates t) tmp with Some s => set_columns s t | None => t end) <$> tgt) tmp,
     length (changed tgt tmp))
  | InsertMissing => (mkTables (tgt ++ missing tgt tmp) tmp, length (missing tgt tmp))
  | DeleteRemoved =>
    (mkTables (List.filter (fun t => negb (holds (key_not_in t tmp))) tgt) tmp, length (missing tmp tgt))
  | CountKey => (db, length tgt)
  | Truncate => (mkTables [] tmp, 0)
  | DeleteAll => (mkTables [] tmp, length tgt)
  | InsertAll => (mkTables (tgt ++ tmp) tmp, length tmp)
  end.

Lemma inserted_as_is l : Forall2 inserted_row l l.
Proof. induction l; constructor; [|done]. by apply Forall_true. Qed.

Lemma run_statement_effect st db : effect st db (run_statement st db).1 (run_statement st db).2.
Proof.
  destruct db as [tgt tmp], st; cbn; (split; [done|]); try (split; [|done]); try done;
    try (eexists; split; [apply inserted_as_is|done]).
  eexists. split; [|done]. induction tgt as [|t l IH]; cbn; constructor; [|done].
  unfold updated_row. destruct (List.find (updates t) tmp) as [s|] eqn:Hf.
  - left. apply List.find_some in Hf as [Hs Hu]. exists s. by rewrite list_elem_of_In.
  - right. split; [|done]. apply not_true_iff_false. rewrite existsb_exists. intros (x & Hx & Hu).
    by rewrite (List.find_none _ _ Hf x Hx) in Hu.
Qed.

(** ** What a target table has of a temporary one *)
Definition key_of (r : row) : list (option cell) := (r !!.) <$> key.
Definition key_complete (r : row) : Prop := Forall (fun c => is_Some (r !! c)) key.
#[export] Instance key_complete_dec (r : row) : Decision (key_complete r).
Proof. unfold key_complete. apply _. Defined.
#[export] Instance keys_eq_dec : EqDecision (list (option cell)).
Proof. pose cell_eq_dec. apply _. Defined.

(** [t] shows the data of [s]: the plain columns are equal, and the geometries
    are the same or not told apart by the test. *)
Definition shows (t s : row) : Prop :=
  key_of t = key_of s /\
  forall c, c ∈ ucols -> c.1 ∈ icols ->
    t !! c.1 = s !! c.1 \/ (c.2 = true /\ geometry_changed (t !! c.1) (s !! c.1) <> Some true).

(** ** Lemmas *)
Lemma holds_true a : holds a = true <-> a = Some true.
Proof. apply bool_decide_eq_true. Qed.

Lemma tv_or_true a b : tv_or a b = Some true <-> a = Some true \/ b = Some true.
Proof. destruct a as [[]|], b as [[]|]; simpl; naive_solver. Qed.

Lemma tv_or_false a b : tv_or a b = Some false <-> a = Some false /\ b = Some false.
Proof. destruct a as [[]|], b as [[]|]; simpl; naive_solver. Qed.

Lemma tv_and_false a b : tv_and a b = Some false <-> a = Some false \/ b = Some false.
Proof. destruct a as [[]|], b as [[]|]; simpl; naive_solver. Qed.

Lemma tv_not_true a : tv_not a = Some true <-> a = Some false.
Proof. destruct a as [[]|]; simpl; naive_solver. Qed.

Lemma any_true {A} (f : A -> tv) l :
  foldr (fun x => tv_or (f x)) (Some false) l = Some true <-> exists x, x ∈ l /\ f x = Some true.
Proof.
  induction l as [|x l IH]; simpl; [set_solver|].
  rewrite tv_or_true, IH. set_solver.
Qed.

Lemma any_false {A} (f : A -> tv) l :
  foldr (fun x => tv_or (f x)) (Some false) l = Some false <-> forall x, x ∈ l -> f x = Some false.
Proof.
  induction l as [|x l IH]; simpl; [set_solver|].
  rewrite tv_or_false, IH. set_solver.
Qed.

Lemma sql_eq_false a b : sql_eq a b = Some false <-> is_Some a /\ is_Some b /\ a <> b.
Proof.
  destruct a as [x|], b as [y|]; unfold sql_eq; simpl;
    [|split; [done|by intros ([? ?] & [? ?] & ?)]..].
  rewrite (inj_iff Some), bool_decide_eq_false. naive_solver.
Qed.

(** The comparison of two keys is false only by a column that both have. *)
Lemma key_eq_false r x :
  key_eq r x = Some false <-> exists c, c ∈ key /\ is_Some (r !! c) /\ is_Some (x !! c) /\ r !! c <> x !! c.
Proof.
  unfold key_eq. induction key as [|c l IH]; simpl; [split; [done|set_solver]|].
  rewrite tv_and_false, IH, sql_eq_false. clear IH. set_solver.
Qed.

Lemma key_not_in_true r rows :
  holds (key_not_in r rows) = true <-> forall x, x ∈ rows -> key_eq r x = Some false.
Proof. unfold key_not_in. by rewrite holds_true, tv_not_true, any_false. Qed.

Lemma same_key_eq t s : same_key t s = true <-> key_of t = key_of s.
Proof.
  unfold same_key, key_of. induction key as [|c l IH]; simpl; [done|].
  rewrite andb_true_iff, bool_decide_eq_true, IH. split; [intros [E1 E2]; by f_equal|intros E; by injection E].
Qed.

Lemma key_of_differs r x : key_of r <> key_of x <-> exists c, c ∈ key /\ r !! c <> x !! c.
Proof.
  unfold key_of. induction key as [|c l IH]; cbn [fmap list_fmap].
  - split; [done|]. by intros (c & []%not_elem_of_nil & _).
  - destruct (decide (r !! c = x !! c)) as [E|E].
    + rewrite E. split.
      * intros N. destruct (proj1 IH) as (d & Hd & Nd); [intros Q; apply N; by f_equal|].
        exists d. by split; [right|].
      * intros (d & [->|Hd]%elem_of_cons & N); [done|]. intros Q. injection Q as Q. revert Q. apply IH. eauto.
    + split; [intros _; exists c; by split; [left|]|]. intros _ Q. by injection Q.
Qed.

(** With complete keys [not in] is what it looks like. *)
Lemma key_not_in_complete r rows :
  key_complete r -> (forall x, x ∈ rows -> key_complete x) ->
  holds (key_not_in r rows) = true <-> key_of r ∉ (key_of <$> rows).
Proof.
  unfold key_complete. intros Hr Hrows. setoid_rewrite Forall_forall in Hrows. rewrite Forall_forall in Hr.
  rewrite key_not_in_true, list_elem_of_fmap.
  setoid_rewrite key_eq_false. split.
  - intros H (x & E & Hx). destruct (H x Hx) as (c & Hc & _ & _ & N). revert E. apply key_of_differs. eauto.
  - intros H x Hx. destruct (proj1 (key_of_differs r x)) as (c & Hc & N); [naive_solver|].
    exists c. repeat split; [done|by apply Hr|by apply (Hrows x Hx)|done].
Qed.

(** ** The update *)
Lemma set_columns_lookup s t c :
  set_columns s t !! c = if bool_decide (c ∈ ucols.*1) then s !! c else t !! c.
Proof.
  unfold set_columns. induction ucols as [|u l IH]; cbn [foldr fmap list_fmap]; [done|].
  destruct (decide (u.1 = c)) as [<-|N].
  - rewrite lookup_partial_alter_eq, bool_decide_eq_true_2; [done|left].
  - rewrite lookup_partial_alter_ne, IH by done.
    rewrite (bool_decide_ext (c ∈ u.1 :: l.*1) (c ∈ l.*1)); [done|]. rewrite elem_of_cons. naive_solver.
Qed.

Lemma key_of_ext r x : (forall c, c ∈ key -> r !! c = x !! c) -> key_of r = key_of x.
Proof.
  intros H. destruct (decide (key_of r = key_of x)) as [|N]; [done|].
  apply key_of_differs in N as (c & Hc & N). by destruct N; apply H.
Qed.

Lemma key_of_lookup r x c : key_of r = key_of x -> c ∈ key -> r !! c = x !! c.
Proof.
  intros H Hc. destruct (decide (r !! c = x !! c)) as [|N]; [done|].
  destruct (proj2 (key_of_differs r x)); eauto.
Qed.

Lemma updates_key t s : updates t s = true -> key_of t = key_of s.
Proof. unfold updates. by intros [?%same_key_eq _]%andb_true_iff. Qed.

(** An update changes no key, as the new value is the one that was compared. *)
Lemma updated_row_key tmp t t' : updated_row tmp t t' -> key_of t' = key_of t.
Proof.
  intros [(s & _ & Hu%updates_key & ->)|[_ ->]]; [|done].
  apply key_of_ext. intros c Hc. rewrite set_columns_lookup. case_bool_decide; [|done].
  symmetry. by apply key_of_lookup.
Qed.

Lemma key_inj (rows : list row) x y :
  NoDup (key_of <$> rows) -> x ∈ rows -> y ∈ rows -> key_of x = key_of y -> x = y.
Proof.
  induction rows as [|r rows IH]; [by intros _ []%not_elem_of_nil|].
  cbn [fmap list_fmap]. intros [Hr Hn]%NoDup_cons [->|Hx]%elem_of_cons [->|Hy]%elem_of_cons E; [done|..|by apply IH].
  - destruct Hr. rewrite E. by apply list_elem_of_fmap_2.
  - destruct Hr. rewrite <- E. by apply list_elem_of_fmap_2.
Qed.

Lemma unchanged_column t s c :
  row_changed t s <> Some true -> c ∈ ucols -> column_changed t s c <> Some true.
Proof. unfold row_changed. rewrite any_true. naive_solver. Qed.

Lemma updated_row_shows tmp t t' s :
  NoDup (key_of <$> tmp) -> s ∈ tmp -> updated_row tmp t t' -> key_of t = key_of s -> shows t' s.
Proof.
  intros Hnd Hs Hu Hk. split; [by rewrite (updated_row_key _ _ _ Hu)|].
  intros c Hc _. destruct Hu as [(s' & Hs' & Hu & ->)|[Hu ->]].
  - rewrite (key_inj tmp s' s); try done; [|rewrite <- Hk; symmetry; by apply updates_key].
    left. rewrite set_columns_lookup, bool_decide_eq_true_2; [done|]. by apply list_elem_of_fmap_2.
  - assert (Hn : row_changed t s <> Some true).
    { intros Hr. rewrite <- not_true_iff_false in Hu. apply Hu, existsb_exists.
      exists s. split; [by apply list_elem_of_In|]. unfold updates.
      by rewrite (proj2 (same_key_eq t s) Hk), (proj2 (holds_true _) Hr). }
    apply (unchanged_column _ _ c Hn) in Hc. unfold column_changed in Hc.
    destruct c.2; [by right|left]. unfold is_distinct in Hc.
    destruct (decide (t !! c.1 = s !! c.1)) as [|N]; [done|]. by rewrite bool_decide_eq_true_2 in Hc.
Qed.

(** ** The statements of the default mode, one after the other *)
Definition default_effects (allow_feature_deletion : bool) (db db' : Tables) (created updated deleted : nat)
  : Prop :=
  exists db1 db2, effect UpdateChanged db db1 updated /\ effect InsertMissing db1 db2 created /\
    if allow_feature_deletion then effect DeleteRemoved db2 db' deleted else db' = db2 /\ deleted = 0.

(** What they are for: the target has the features of the source, the rows of
    other keys are gone or untouched, and no key is there twice. *)
Record synchronised (allow_feature_deletion : bool) (db db' : Tables) : Prop := {
  sy_temp : temp db' = temp db;
  sy_shown : forall s, s ∈ temp db -> exists t, t ∈ target db' /\ shows t s;
  sy_only : allow_feature_deletion = true -> forall t, t ∈ target db' -> key_of t ∈ key_of <$> temp db;
  sy_kept : allow_feature_deletion = false ->
            forall t, t ∈ target db -> key_of t ∉ key_of <$> temp db -> t ∈ target db';
  sy_unique : NoDup (key_of <$> target db) -> NoDup (key_of <$> target db')
}.

Lemma key_complete_eq r x : key_of r = key_of x -> key_complete r -> key_complete x.
Proof.
  unfold key_complete. rewrite !Forall_forall. intros E H c Hc.
  rewrite <- (key_of_lookup r x c E Hc). by apply H.
Qed.

Lemma Forall2_keys (R : row -> row -> Prop) l l' :
  (forall x y, R x y -> key_of y = key_of x) -> Forall2 R l l' -> key_of <$> l' = key_of <$> l.
Proof. intros HR. induction 1; cbn [fmap list_fmap]; [done|]. by f_equal; [apply HR|]. Qed.

(** Update and insert together. *)
Record upserted (db db2 : Tables) (created : nat) : Prop := {
  up_temp : temp db2 = temp db;
  up_keys : key_of <$> target db2 ≡ₚ (key_of <$> target db) ++ (key_of <$> missing (target db) (temp db));
  up_created : created = length (missing (target db) (temp db));
  up_shown : forall s, s ∈ temp db -> exists t, t ∈ target db2 /\ shows t s;
  up_kept : forall t, t ∈ target db -> key_of t ∉ key_of <$> temp db -> t ∈ target db2
}.

Lemma Forall2_in {A B} (R : A -> B -> Prop) l l' x : Forall2 R l l' -> x ∈ l -> exists y, y ∈ l' /\ R x y.
Proof.
  induction 1 as [|a b l l' Hab _ IH]; [by intros []%not_elem_of_nil|].
  setoid_rewrite elem_of_cons. naive_solver.
Qed.

Lemma Forall2_in_rev {A B} (R : A -> B -> Prop) l l' y : Forall2 R l l' -> y ∈ l' -> exists x, x ∈ l /\ R x y.
Proof. intros H%Forall2_flip. by apply (Forall2_in (flip R)). Qed.

Lemma NoDup_keys_filter (p : row -> bool) (rows : list row) :
  NoDup (key_of <$> rows) -> NoDup (key_of <$> List.filter p rows).
Proof.
  induction rows as [|r rows IH]; [done|].
  cbn [fmap list_fmap List.filter]. intros [Hr Hl]%NoDup_cons.
  destruct (p r); [|auto]. cbn [fmap list_fmap]. apply NoDup_cons. split; [|auto].
  intros (x & E & Hx)%list_elem_of_fmap. apply list_elem_of_In, List.filter_In in Hx as [Hx _].
  destruct Hr. rewrite E. by apply list_elem_of_fmap_2, list_elem_of_In.
Qed.

Lemma update_keys db db1 n : effect UpdateChanged db db1 n -> key_of <$> target db1 ≡ₚ key_of <$> target db.
Proof.
  destruct db as [tgt tmp]. intros (_ & (l & Hl & E) & _). cbn [target]. rewrite E.
  by rewrite (Forall2_keys _ _ _ (updated_row_key tmp) Hl).
Qed.

Lemma update_keeps db db1 n t :
  effect UpdateChanged db db1 n -> t ∈ target db -> key_of t ∉ key_of <$> temp db -> t ∈ target db1.
Proof.
  destruct db as [tgt tmp]. cbn [temp target] in *. intros (_ & (l & Hl & E) & _) Ht Hk.
  rewrite E. apply (Forall2_in _ _ _ _ Hl) in Ht as (t' & Ht' & Hu).
  destruct Hu as [(s & Hs & Hu%updates_key & _)|[_ ->]]; [|done].
  destruct Hk. rewrite Hu. by apply list_elem_of_fmap_2.
Qed.

Section Sync.
Context (Hkey : forall c, c ∈ key -> c ∈ icols).
Context (db : Tables) (Hunique : NoDup (key_of <$> temp db)).
Context (Htemp : forall r, r ∈ temp db -> key_complete r) (Htarget : forall r, r ∈ target db -> key_complete r).

Lemma inserted_row_key s r : inserted_row s r -> key_of r = key_of s.
Proof. unfold inserted_row. rewrite Forall_forall. intros H. apply key_of_ext. naive_solver. Qed.

Lemma inserted_row_shows s r : inserted_row s r -> shows r s.
Proof.
  intros H. split; [by apply inserted_row_key|]. intros c _ Hc. left.
  unfold inserted_row in H. rewrite Forall_forall in H. by apply H.
Qed.

Lemma missing_keys rows rows' :
  (forall r, r ∈ rows -> key_complete r) -> key_of <$> rows ≡ₚ key_of <$> rows' ->
  (forall r, r ∈ rows' -> key_complete r) ->
  missing rows (temp db) = missing rows' (temp db).
Proof.
  intros Hc E Hc'. unfold missing. apply List.filter_ext_in. intros s Hs%list_elem_of_In.
  apply eq_true_iff_eq. by rewrite !key_not_in_complete, E by auto.
Qed.

Lemma Permutation_complete rows rows' :
  key_of <$> rows ≡ₚ key_of <$> rows' -> (forall r, r ∈ rows -> key_complete r) ->
  forall r, r ∈ rows' -> key_complete r.
Proof.
  intros E Hc r Hr. apply (list_elem_of_fmap_2 key_of) in Hr. rewrite <- E in Hr.
  apply list_elem_of_fmap in Hr as (x & Hx & Hr). apply (key_complete_eq x); auto.
Qed.

Lemma update_shows db1 n s t1 :
  effect UpdateChanged db db1 n -> s ∈ temp db -> t1 ∈ target db1 -> key_of t1 = key_of s -> shows t1 s.
Proof.
  destruct db as [tgt tmp]. cbn [temp target] in *. intros (_ & (l & Hl & E) & _) Hs Ht Hk.
  rewrite E in Ht. apply (Forall2_in_rev _ _ _ _ Hl) in Ht as (t & Ht & Hu).
  apply (updated_row_shows tmp t); try done. by rewrite <- (updated_row_key _ _ _ Hu).
Qed.

Lemma upsert db1 db2 updated created :
  effect UpdateChanged db db1 updated -> effect InsertMissing db1 db2 created -> upserted db db2 created.
Proof.
  intros H1 H2. pose proof (update_keys _ _ _ H1) as Hk.
  assert (Hm : missing (target db1) (temp db) = missing (target db) (temp db)).
  { apply missing_keys; [|done..]. eapply Permutation_complete; [by symmetry|done]. }
  assert (Ht1 : temp db1 = temp db) by (by destruct db, H1).
  destruct db1 as [tgt1 tmp1] eqn:E1. cbn [temp target] in *. subst tmp1.
  destruct H2 as (Ht2 & (new & Hnew & Hp) & ->). rewrite Hm in *.
  split; [done|..|done| |].
  - by rewrite Hp, fmap_app, Hk, (Forall2_keys _ _ _ inserted_row_key Hnew).
  - intros s Hs. setoid_rewrite Hp. destruct (decide (key_of s ∈ key_of <$> tgt1)) as [Hi|Hi].
    + apply list_elem_of_fmap in Hi as (t & E & Ht). exists t. split; [apply elem_of_app; by left|].
      by apply (update_shows _ _ s t H1).
    + assert (Hin : s ∈ missing (target db) (temp db)).
      { rewrite <- Hm. unfold missing. apply list_elem_of_In, List.filter_In. rewrite <- list_elem_of_In.
        split; [done|]. apply key_not_in_complete; [auto| |done]. by eapply Permutation_complete. }
      apply (Forall2_in _ _ _ _ Hnew) in Hin as (r & Hr & Hi'). exists r.
      split; [apply elem_of_app; by right|]. by apply inserted_row_shows.
  - intros t Ht Hn. rewrite Hp. apply elem_of_app. left. exact (update_keeps _ _ _ t H1 Ht Hn).
Qed.

Lemma kept_by_delete (rows : list row) t :
  (forall r, r ∈ rows -> key_complete r) -> t ∈ rows ->
  negb (holds (key_not_in t (temp db))) = true <-> key_of t ∈ key_of <$> temp db.
Proof.
  intros Hc Ht. rewrite negb_true_iff, <- not_true_iff_false, key_not_in_complete by auto.
  destruct (decide (key_of t ∈ key_of <$> temp db)); naive_solver.
Qed.

(** The keys of the rows that an insert adds are new, and each is added once. *)
Lemma upserted_unique db2 created :
  upserted db db2 created -> NoDup (key_of <$> target db) -> NoDup (key_of <$> target db2).
Proof.
  intros [_ Hk _ _ _] Hn. rewrite Hk. apply NoDup_app. split; [done|split].
  - intros k Hi (s & -> & Hs)%list_elem_of_fmap. unfold missing in Hs.
    apply list_elem_of_In, List.filter_In in Hs as [Hs%list_elem_of_In Hm].
    apply key_not_in_complete in Hm; auto.
  - by apply NoDup_keys_filter.
Qed.

Lemma default_synchronised allow db' created updated deleted :
  default_effects allow db db' created updated deleted ->
  synchronised allow db db' /\
  created = length (missing (target db) (temp db)) /\ updated = length (changed (target db) (temp db)) /\
  length (target db') + deleted = length (target db) + created.
Proof.
  intros (db1 & db2 & H1 & H2 & H3). pose proof (upsert _ _ _ _ H1 H2) as Hup.
  assert (Hchanged : updated = length (changed (target db) (temp db))) by (destruct db; apply H1).
  pose proof (upserted_unique _ _ Hup) as Hn2. destruct Hup as [Ht Hk Hc Hs Hr].
  assert (Hl2 : length (target db2) = length (target db) + created).
  { rewrite Hc. apply Permutation_length in Hk. by rewrite length_app, !length_fmap in Hk. }
  destruct allow; [|destruct H3 as [-> ->]; split; [by split|auto with lia]].
  assert (Hcomplete : forall r, r ∈ target db2 -> key_complete r).
  { intros r Hin%(list_elem_of_fmap_2 key_of). rewrite Hk, <- fmap_app in Hin.
    apply list_elem_of_fmap in Hin as (x & E & [Hx|Hx]%elem_of_app); apply (key_complete_eq x); auto.
    unfold missing in Hx. apply list_elem_of_In, List.filter_In in Hx as [Hx%list_elem_of_In _]. auto. }
  assert (Hin : forall t, t ∈ target db' <-> t ∈ target db2 /\ key_of t ∈ key_of <$> temp db).
  { intros t. destruct db2 as [tgt2 tmp2]. cbn [temp target] in *. subst tmp2. destruct H3 as (_ & -> & _).
    rewrite list_elem_of_In, List.filter_In, <- list_elem_of_In.
    split; intros [Ht2 Hf]; (split; [done|]); by apply (kept_by_delete tgt2). }
  destruct db2 as [tgt2 tmp2]. cbn [temp target] in *. subst tmp2. destruct H3 as (Ht3 & H3 & ->).
  split; [split|split; [done|split; [done|]]].
  - done.
  - intros s Hss. destruct (Hs s Hss) as (t & Ht & Hsh). exists t. split; [|done]. apply Hin. split; [done|].
    rewrite (proj1 Hsh). by apply list_elem_of_fmap_2.
  - by intros _ t []%Hin.
  - done.
  - intros Hn%Hn2. rewrite H3. by apply NoDup_keys_filter.
  - rewrite H3, <- Hl2. unfold missing. rewrite (Nat.add_comm (length _)). apply List.filter_length.
Qed.
End Sync.

(** ** What NULL does to the statements *)

(** A key of the temporary table that is all NULL makes every [not in] unknown. *)
Lemma null_key_not_in t s rows :
  s ∈ rows -> (forall c, c ∈ key -> s !! c = None) -> holds (key_not_in t rows) = false.
Proof.
  intros Hs Hn. rewrite <- not_true_iff_false, key_not_in_true. intros H.
  destruct (proj1 (key_eq_false t s) (H s Hs)) as (c & Hc & _ & [v Hv] & _). by rewrite Hn in Hv.
Qed.

Lemma null_key_no_deletion db db' n s :
  s ∈ temp db -> (forall c, c ∈ key -> s !! c = None) -> effect DeleteRemoved db db' n ->
  n = 0 /\ target db' ≡ₚ target db.
Proof.
  destruct db as [tgt tmp]. cbn [target temp]. intros Hs Hn (_ & -> & ->).
  assert (H : forall t, holds (key_not_in t tmp) = false) by (intros t; by apply (null_key_not_in t s)).
  unfold missing. clear -H. induction tgt as [|t l [IH1 IH2]]; [done|].
  cbn [List.filter]. rewrite H. cbn. split; [done|]. by rewrite IH2.
Qed.

Lemma null_geometry_unchanged a b :
  (a = None /\ st_iscollection v2 <$> b = Some false) \/ (b = None /\ st_iscollection v2 <$> a = Some false) ->
  geometry_changed a b = None.
Proof.
  unfold geometry_changed. intros [[-> H]|[-> H]]; [destruct b|destruct a]; try done;
    cbn in *; injection H as ->; done.
Qed.

(** A row that no row of the temporary table changes is still there. *)
Lemma unchanged_stays allow db db' c u d t s :
  default_effects allow db db' c u d -> t ∈ target db -> s ∈ temp db -> key_of t = key_of s ->
  (forall s', s' ∈ temp db -> updates t s' = false) -> t ∈ target db'.
Proof.
  intros (db1 & db2 & H1 & H2 & H3) Ht Hs Hk Hu. destruct db as [tgt tmp]. cbn [target temp] in *.
  assert (Ht1 : t ∈ target db1 /\ temp db1 = tmp).
  { destruct H1 as (? & (l & Hl & E) & _). split; [|done]. rewrite E.
    apply (Forall2_in _ _ _ _ Hl) in Ht as (t' & Ht' & [(s' & Hs' & Hx & _)|[_ ->]]); [|done].
    by rewrite Hu in Hx. }
  assert (Ht2 : t ∈ target db2 /\ temp db2 = tmp).
  { destruct db1 as [tgt1 tmp1], Ht1 as [Ht1 <-]. destruct H2 as (? & (new & _ & E) & _).
    split; [|done]. rewrite E. apply elem_of_app. by left. }
  destruct allow; [|destruct H3 as [-> _]; by destruct Ht2].
  destruct db2 as [tgt2 tmp2], Ht2 as [Ht2 <-]. destruct H3 as (_ & E & _). rewrite E.
  apply list_elem_of_In, List.filter_In. split; [by apply list_elem_of_In|].
  apply negb_true_iff, not_true_iff_false. rewrite key_not_in_true. intros H.
  apply H, key_eq_false in Hs as (k & Hkin & _ & _ & N). destruct N. by apply key_of_lookup.
Qed.

(** The rows that are there before keep their keys when nothing is deleted. *)
Lemma null_key_keeps allow db db' c u d s :
  default_effects allow db db' c u d -> s ∈ temp db -> (forall c, c ∈ key -> s !! c = None) ->
  d = 0 /\ (key_of <$> target db) ⊆+ (key_of <$> target db').
Proof.
  intros (db1 & db2 & H1 & H2 & H3) Hs Hn.
  assert (Hk1 : key_of <$> target db1 ≡ₚ key_of <$> target db /\ temp db1 = temp db).
  { split; [exact (update_keys _ _ _ H1)|by destruct db, H1]. }
  destruct Hk1 as [<- E1]. assert (Hk2 : (key_of <$> target db1) ⊆+ (key_of <$> target db2) /\ temp db2 = temp db).
  { destruct db1 as [tgt1 tmp1]. cbn in E1. subst tmp1. destruct H2 as (? & (new & _ & ->) & _).
    split; [|done]. cbn. rewrite fmap_app. by apply submseteq_inserts_r. }
  destruct Hk2 as [Hk2 E2]. destruct allow; [|by destruct H3 as [-> ->]].
  rewrite <- E2 in Hs. destruct (null_key_no_deletion _ _ _ _ Hs Hn H3) as [-> ->]. done.
Qed.
End Statements.
End Sql.
