(* ===== verification/Sync.v ===== *)
(** * A pull synchronises the target table

    The statements of [Worker::pull] against a server that does what the
    PostgreSQL manual says: [render] writes the statements of [Sql], [answers] is
    what is assumed of the server, for the requests of one pull only, and the
    properties say that the table has the features of the source at the end. *)
From S2P Require Import Prelude Numbers StringUtils NullableValue Configuration Job.
From S2P Require Import LibPQ Connection Transaction PostGis Requests Gdal FieldConversion PullSource.
From S2P Require Import Pull PullSpec Calls Sql.

Section Sync.
Context {PQ : LibPQ} {GD : Gdal} {ST : SqlTypes} (have_pq : bool).

(** ** The layout of one pull *)
Record Layout := mkLayout {
  ly_layer : Layer;
  ly_source : Source;
  (** The name of the layer and the id of the job. *)
  ly_name : string;
  ly_id : string;
  ly_version : VersionTuple;
  ly_fields : FieldMap;
  ly_columns : Columns;
  ly_srid : Z;
  (** The expressions of the insert. *)
  ly_values : list string
}.
Context (ly : Layout).

#[local] Abbreviation layer := (ly_layer ly).
#[local] Abbreviation cols := (ly_columns ly).
#[local] Abbreviation schema := (target_table_schema layer).
#[local] Abbreviation name := (target_table_name layer).
Definition tempTableName : string := cat ["batyr_"; ly_id ly].
Definition insertStmtName : string := cat ["batyr_insert"; ly_id ly].

(** The layout is the one that the pull computes. *)
Record layout_ok : Prop := {
  ly_fields_ok : forall k f, ly_fields ly !! k = Some f -> field_name f = k /\ k <> "";
  ly_columns_ok : analyse_columns (ly_source ly) (ly_name ly) layer (ly_fields ly) = Ret cols;
  ly_srid_ok : geometryColumn cols = "" -> ly_srid ly = POSTGIS_NO_SRID_FOUND;
  ly_values_ok : insert_values (ly_source ly) (ly_fields ly) (ly_srid ly)
                   (getUndefinedSRIDValue (ly_version ly)) 1 (insertColumns cols) = Ret (ly_values ly)
}.

(** ** The text of the statements *)
Context (quote : string -> string).

#[local] Abbreviation q := (q quote).
#[local] Abbreviation qj := (qj quote).

Fixpoint columns_text (sep : string) (piece : string -> string) (first : bool) (columns : list string)
  : string :=
  match columns with
  | [] => ""
  | c :: l => cat [if first then "" else sep; piece c; columns_text sep piece false l]
  end.

Definition differs_text (c : string) : string :=
  if String.eqb (pgTypeName (table_field (ly_fields ly) c)) "geometry"
  then geometry_differs (ly_version ly) (qj name c) (qj tempTableName c)
  else cat ["("; qj name c; " is distinct from "; qj tempTableName c; ")"].

Definition render (st : Statement) : string :=
  let qCols := join (q <$> insertColumns cols) ", " in
  let qKey := join (q <$> primaryKeyColumns cols) ", " in
  match st with
  | UpdateChanged =>
    cat ["update "; qj schema name; " "; " set ";
         columns_text ", " (fun c => cat [q c; " = "; qj tempTableName c; " "]) true (updateColumns cols);
         " from "; q tempTableName; " where (";
         columns_text " and " (fun c => cat [qj name c; " is not distinct from "; qj tempTableName c])
           true (primaryKeyColumns cols); ") and (";
         columns_text " or " differs_text true (updateColumns cols); ")"]
  | InsertMissing =>
    cat ["insert into "; qj schema name; " ( "; qCols; ") "; " select "; qCols; " "; " from ";
         q tempTableName; " where ("; qKey; ") not in ("; " select ";
         join (q <$> primaryKeyColumns cols) ","; " "; "       from "; qj schema name; ")"]
  | DeleteRemoved =>
    cat ["delete from "; qj schema name; " where ("; qKey; ") not in ("; " select "; qKey; " ";
         "       from "; q tempTableName; ")"]
  | CountKey =>
    cat ["select count("; default "" (head (primaryKeyColumns cols)); ") from "; qj schema name]
  | Truncate => cat ["truncate "; qj schema name]
  | DeleteAll => cat ["delete from "; qj schema name]
  | InsertAll =>
    cat ["insert into "; qj schema name; " ( "; qCols; ") "; " select "; qCols; " "; " from ";
         q tempTableName]
  end.

Definition create_text (version : Z) : string :=
  cat ["create temporary"; if decide (901000 <= version)%Z then " unlogged" else "";
       " table "; q tempTableName; " as"; " select * from"; " "; qj schema name; " limit 0"].
Definition drop_text : string := cat ["drop table if exists "; q tempTableName].
Definition deallocate_text : string := cat ["deallocate "; insertStmtName; ";"].
Definition insert_text : string :=
  cat ["insert into "; q tempTableName; " ("; join (q <$> insertColumns cols) ", "; ") "; "select ";
       join (ly_values ly) ", "].

(** ** What the server answers *)
Record Session := mkSession { tables : Tables; prepared : gmap string string }.

(** The value of an expression of the insert, for the text of its parameter. *)
Context (value_of : string -> option string -> option cell).

(** The row that the prepared insert adds; the other columns are NULL. *)
Definition row_of (vs : list (option string)) : gmap string cell :=
  foldr (fun '(c, (e, v)) => partial_alter (fun _ => value_of e v) c) ∅
        (zip (insertColumns cols) (zip (ly_values ly) vs)).

Definition is_geometry (c : string) : bool := String.eqb (pgTypeName (table_field (ly_fields ly) c)) "geometry".

Definition statement_effect : Statement -> Tables -> Tables -> nat -> Prop :=
  effect (bool_decide (2 <= (ly_version ly).1.1)%Z) (primaryKeyColumns cols) (insertColumns cols)
    ((fun c => (c, is_geometry c)) <$> updateColumns cols).

Definition counts (st : Statement) (res : PGresult) (n : nat) : Prop :=
  match st with
  | CountKey | Truncate => True
  | _ => cmdTuples res = to_string (Z.of_nat n)
  end.

(** The requests that read, and those for the savepoint of a feature. *)
Definition quiet (r : request) : bool :=
  match r with
  | Exec sql => bool_decide (sql ∈ ["set DateStyle to SQL, YMD"; "savepoint insertfeature;";
                                    "release savepoint insertfeature;"])
  | ExecParams sql _ => String.prefix "select " sql
  | _ => false
  end.

Record answers (r : request) (s : Session) (res : PGresult) (s' : Session) : Prop := {
  an_quiet : quiet r = true -> s' = s;
  an_quote : forall l, r = ExecParams (c_str ("select " +:+ quote_ident_list 0 (length l)))
                             ((fun x => Some (c_str x)) <$> l) -> tuples res = [q <$> l];
  an_version : r = ExecParams "select postgis_lib_version();" [] ->
    forall v, PQgetvalue res 0 0 = Some v -> version_numbers (c_str v) = ly_version ly;
  an_fields : r = ExecParams (c_str table_fields_query) [Some (c_str name); Some (c_str schema)] ->
    forall m, fold_result (read_field res) (seq 0 (PQntuples res)) ∅ = Ret m -> m = ly_fields ly;
  an_srid : r = ExecParams (c_str srid_query)
                  [Some (c_str schema); Some (c_str name); Some (c_str (geometryColumn cols))] ->
    foldl (fun srid i => match PQgetvalue res i 0 with Some sridC => atoi sridC | None => srid end)
      POSTGIS_NO_SRID_FOUND (seq 0 (PQntuples res)) = ly_srid ly;
  an_create : forall version, r = Exec (c_str (create_text version)) ->
    s' = mkSession (mkTables (target (tables s)) []) (prepared s);
  an_prepare : forall n sql k, r = Prepare n sql k -> s' = mkSession (tables s) (<[n := sql]> (prepared s));
  an_insert : forall n vs, r = ExecPrepared n vs -> prepared s !! n = Some (c_str insert_text) ->
    s' = mkSession (mkTables (target (tables s)) (temp (tables s) ++ [row_of vs])) (prepared s);
  an_statement : forall st, r = Exec (c_str (render st)) ->
    prepared s' = prepared s /\ exists n, statement_effect st (tables s) (tables s') n /\ counts st res n
}.

(** ** The assumptions on the server *)
Context (view : PGconn -> Session).

Record postgres : Prop := {
  pg_escape : forall p s e, PQescapeIdentifier p s = Some e -> e = quote s;
  pg_quote : forall s, nul_free (quote s);
  pg_answers : forall r p res p', PQrequest r p = (Some res, p') ->
    resultStatus res <> PGRES_FATAL_ERROR -> answers r (view p) res (view p');
  pg_begin : forall p res p', PQrequest (Exec "begin;") p = (Some res, p') ->
    resultStatus res <> PGRES_FATAL_ERROR -> target (tables (view p')) = target (tables (view p));
  (** A commit of a transaction that has not failed. *)
  pg_commit : forall p res p', PQrequest (Exec "commit;") p = (Some res, p') ->
    resultStatus res <> PGRES_FATAL_ERROR ->
    PQtransactionStatus p <> PQTRANS_INERROR -> PQtransactionStatus p <> PQTRANS_UNKNOWN ->
    target (tables (view p')) = target (tables (view p));
  (** The exit statements concern the temporary table and the prepared insert. *)
  pg_exit : forall sql p res p', sql ∈ [drop_text; deallocate_text] ->
    PQrequest (Exec (c_str sql)) p = (res, p') -> target (tables (view p')) = target (tables (view p))
}.

(** ** The calls of a transaction, seen on the session *)
#[local] Abbreviation State := (State (St := Session)).
#[local] Abbreviation ran := (ran view).
#[local] Abbreviation reads := (reads view).
#[local] Abbreviation snap := (snap view).
Definition target_of (p : PGconn) : list (gmap string cell) := target (tables (view p)).

Section Server.
Context (Hpg : postgres).

#[local] Instance sync_server : Server view := {|
  Calls.answers := answers;
  Calls.quiet := quiet;
  Calls.quote := quote;
  sv_answers := pg_answers Hpg;
  sv_quiet := an_quiet;
  sv_select := fun sql _ => prefix_app "select " sql;
  sv_escape := pg_escape Hpg;
  sv_nul := pg_quote Hpg;
  sv_remote := fun l s res s' H => an_quote _ _ _ _ H l eq_refl
|}.

#[local] Instance sync_transactional : Transactional target_of [drop_text; deallocate_text].
Proof. destruct Hpg as [_ _ _ Hb Hc He]. split; [exact Hb|exact Hc|exact He]. Qed.

Lemma each_column_reads sep piece text first l :
  (forall c, reads (piece c) (eq (text c))) ->
  reads (each_column sep piece first l) (eq (columns_text sep text first l)).
Proof.
  intros Hp. revert first. induction l as [|c l IH]; intros first; cbn [each_column columns_text];
    [apply reads_ret|].
  eapply ran_after; [apply Hp|]. intros p <-. eapply ran_after; [apply IH|]. intros r <-. apply reads_ret.
Qed.

Lemma set_piece_reads c :
  reads (set_piece have_pq tempTableName c) (eq (cat [q c; " = "; qj tempTableName c; " "])).
Proof.
  eapply ran_after; [apply quoteIdent_reads|]. intros ? <-.
  eapply ran_after; [apply quoteAndJoinIdent_reads|]. intros ? <-. apply reads_ret.
Qed.

Lemma key_piece_reads c :
  reads (key_piece have_pq name tempTableName c)
    (eq (cat [qj name c; " is not distinct from "; qj tempTableName c])).
Proof.
  eapply ran_after; [apply quoteAndJoinIdent_reads|]. intros ? <-.
  eapply ran_after; [apply quoteAndJoinIdent_reads|]. intros ? <-. apply reads_ret.
Qed.

Lemma differs_piece_reads c :
  reads (differs_piece have_pq (ly_fields ly) (ly_version ly) name tempTableName c) (eq (differs_text c)).
Proof.
  eapply ran_after; [apply quoteAndJoinIdent_reads|]. intros ? <-.
  eapply ran_after; [apply quoteAndJoinIdent_reads|]. intros ? <-. apply reads_ret.
Qed.

(** ** The statements run as they are rendered *)
Definition ran_statement (st : Statement) (s : State) (res : PGresult) (s' : State) : Prop :=
  s'.2 = s.2 /\ prepared s'.1 = prepared s.1 /\
  exists n, statement_effect st (tables s.1) (tables s'.1) n /\ counts st res n.

Lemma render_ran st : ran (exec (render st)) (ran_statement st).
Proof.
  eapply ran_mono; [apply exec_ran|]. intros s res s' [He Ha]. split; [done|].
  exact (an_statement _ _ _ _ Ha st eq_refl).
Qed.

(** Goes through the quoting calls of a statement, up to the [exec] at its end. *)
Ltac quoted :=
  repeat (eapply ran_after;
    [first [apply quoteIdent_reads | apply quoteIdent_all_reads | apply quoteAndJoinIdent_reads
           |apply each_column_reads; intros ?;
            first [apply set_piece_reads | apply key_piece_reads | apply differs_piece_reads]]
    |intros ? <-]).

Lemma update_target_ran :
  ran (update_target have_pq layer (ly_fields ly) (ly_version ly) tempTableName cols) (ran_statement UpdateChanged).
Proof. unfold update_target. quoted. apply (render_ran UpdateChanged). Qed.

Lemma insert_missing_ran : ran (insert_missing have_pq layer tempTableName cols) (ran_statement InsertMissing).
Proof. unfold insert_missing. quoted. apply (render_ran InsertMissing). Qed.

Lemma delete_removed_ran : ran (delete_removed have_pq layer tempTableName cols) (ran_statement DeleteRemoved).
Proof. unfold delete_removed. quoted. apply (render_ran DeleteRemoved). Qed.

Lemma insert_all_ran : ran (insert_all have_pq layer tempTableName cols) (ran_statement InsertAll).
Proof. unfold insert_all. quoted. apply (render_ran InsertAll). Qed.

Definition default_done (allow : bool) (s : State) (ch : Changes) (s' : State) : Prop :=
  s'.2 = s.2 /\ prepared s'.1 = prepared s.1 /\
  exists c u d,
    default_effects (bool_decide (2 <= (ly_version ly).1.1)%Z) (primaryKeyColumns cols) (insertColumns cols)
      ((fun c => (c, is_geometry c)) <$> updateColumns cols) allow (tables s.1) (tables s'.1) c u d /\
    counted (created ch) c /\ counted (updated ch) u /\ counted (deleted ch) d.

Lemma default_update_ran allow :
  ran (default_update have_pq layer allow (ly_fields ly) (ly_version ly) tempTableName cols) (default_done allow).
Proof.
  eapply ran_mono.
  { eapply ran_bind; [apply update_target_ran|intros ures].
    eapply ran_bind; [apply insert_missing_ran|intros ires].
    eapply ran_bind; [|intros d; apply reads_ret].
    instantiate (1 := fun s z s' => s'.2 = s.2 /\ prepared s'.1 = prepared s.1 /\ exists d,
      (if allow then statement_effect DeleteRemoved (tables s.1) (tables s'.1) d
       else tables s'.1 = tables s.1 /\ d = 0) /\ counted z d).
    destruct allow.
    - eapply ran_mono; [eapply ran_bind; [apply delete_removed_ran|intros; apply reads_ret]|].
      intros s z s' (dres & s1 & (E & P & n & He & Hc) & -> & <-). repeat split; [done..|].
      exists n. split; [done|]. by apply affected_counted.
    - eapply ran_mono; [apply reads_ret|]. intros s z s' [-> <-]. repeat split. by exists 0. }
  intros s ch s' (ures & s1 & (E1 & P1 & u & U & Cu) & ires & s2 & (E2 & P2 & i & I & Ci) & z & s3 &
                  (E3 & P3 & d & D & Cd) & -> & <-).
  split; [congruence|]. split; [congruence|]. exists i, u, d.
  split; [|by repeat split; try apply affected_counted].
  exists (tables s1.1), (tables s2.1). split; [done|]. split; [done|].
  destruct allow; [done|]. destruct D as [D ->]. by split.
Qed.

Definition bulk_done (s : State) (ch : Changes) (s' : State) : Prop :=
  s'.2 = s.2 /\ prepared s'.1 = prepared s.1 /\
  exists n db1, target db1 = [] /\ temp db1 = temp (tables s.1) /\
    statement_effect InsertAll db1 (tables s'.1) n /\ counted (created ch) n /\ updated ch = 0%Z /\
    (bulk_delete_method layer = BULK_DELETE -> counted (deleted ch) (length (target (tables s.1)))).

Lemma statement_temp st db db' n : statement_effect st db db' n -> temp db' = temp db.
Proof. destruct db. by intros [? _]. Qed.

Lemma bulk_delete_ran :
  ran (bulk_delete have_pq layer cols) (fun s z s' =>
    s'.2 = s.2 /\ prepared s'.1 = prepared s.1 /\ target (tables s'.1) = [] /\
    temp (tables s'.1) = temp (tables s.1) /\
    (bulk_delete_method layer = BULK_DELETE -> counted z (length (target (tables s.1))))).
Proof.
  unfold bulk_delete. destruct (bulk_delete_method layer); quoted.
  - eapply ran_mono; [eapply ran_bind; [apply (render_ran DeleteAll)|intros; apply reads_ret]|].
    intros s z s' (res & s1 & (E & P & n & He & Hc) & -> & <-).
    pose proof (statement_temp _ _ _ _ He) as Ht. destruct (tables s.1) as [tgt tmp]. destruct He as (_ & Hn & ->).
    repeat split; try done. intros _. by apply affected_counted.
  - eapply ran_mono.
    { eapply ran_bind; [apply (render_ran CountKey)|intros cres].
      eapply ran_bind with (P := fun s _ s' => s' = s).
      - destruct (PQgetvalue cres 0 0); [|by intros ????].
        eapply ran_mono; [apply reads_ret|]. by intros ??? [-> _].
      - intros z. quoted. eapply ran_bind; [apply (render_ran Truncate)|intros; apply reads_ret]. }
    intros s z s' (cres & s1 & (E1 & P1 & n1 & He1 & _) & z' & ? & -> & tres & s2 &
                   (E2 & P2 & n2 & He2 & _) & -> & <-).
    pose proof (statement_temp _ _ _ _ He1). pose proof (statement_temp _ _ _ _ He2).
    destruct (tables s.1), (tables s1.1). destruct He2 as (_ & -> & _). repeat split; try done; congruence.
Qed.

Lemma bulk_update_ran : ran (bulk_update have_pq layer tempTableName cols) bulk_done.
Proof.
  eapply ran_mono.
  { eapply ran_bind; [apply bulk_delete_ran|intros d].
    eapply ran_bind; [apply insert_all_ran|intros; apply reads_ret]. }
  intros s ch s' (d & s1 & (E1 & P1 & T1 & T2 & C1) & ires & s2 & (E2 & P2 & n & He & Hc) & -> & <-).
  split; [congruence|]. split; [congruence|]. exists n, (tables s1.1).
  repeat split; try done. by apply affected_counted.
Qed.

(** ** The preparation *)
Context (Hly : layout_ok).

Lemma postgis_getVersion_reads : reads postgis_getVersion (eq (ly_version ly)).
Proof.
  unfold postgis_getVersion. eapply ran_after.
  - apply (execParams_reads view); reflexivity.
  - intros res (s & s' & Ha). destruct (Nat.eqb _ _); [by intros ????|].
    destruct (PQgetvalue res 0 0) as [v|] eqn:Hv; [|by intros ????].
    rewrite <- (an_version _ _ _ _ Ha eq_refl v Hv). apply reads_ret.
Qed.

Lemma ly_fields_reads : reads (getTableFields schema name) (eq (ly_fields ly)).
Proof. apply (getTableFields_reads view). intros s res s' Ha. exact (an_fields _ _ _ _ Ha eq_refl). Qed.

Lemma column_srid_reads : reads (column_srid layer cols) (eq (ly_srid ly)).
Proof.
  unfold column_srid, is_empty. destruct (String.eqb_spec (geometryColumn cols) "") as [He|_]; simpl.
  - rewrite (ly_srid_ok Hly He). apply reads_ret.
  - unfold getGeometryColumnSRID. eapply ran_after.
    + apply (execParams_reads view); reflexivity.
    + intros res (s & s' & Ha). rewrite (an_srid _ _ _ _ Ha eq_refl). apply reads_ret.
Qed.

Lemma createTempTable_ran :
  ran (createTempTable have_pq schema name tempTableName) (fun s _ s' =>
    s' = (mkSession (mkTables (target (tables s.1)) []) (prepared s.1), s.2 ++ [drop_text])).
Proof.
  unfold createTempTable. quoted. eapply ran_after with (Pa := fun _ => True).
  { intros t a t' s H Hs. exists s. unfold on_connection, getVersion, get, mbind, M_bind in H.
    destruct t as [c ex rb]. simpl in H. case_decide; [done|]. by injection H as _ <-. }
  intros version _. quoted. eapply ran_mono.
  { eapply ran_bind; [by apply modify_ran|intros u].
    eapply ran_bind; [apply (exec_ran view (create_text version))|intros; apply reads_ret]. }
  intros [s ex] u [s' ex'] (u' & s1 & (t & Ht & ->) & res & [s2 e2] & [He Ha] & [= -> ->] & _). cbn [fst snd] in *.
  rewrite (an_create _ _ _ _ Ha version eq_refl), He. cbn [push_exitSql exitSqls]. by rewrite Ht.
Qed.

Lemma prepare_insert_ran :
  ran (prepare_insert have_pq insertStmtName tempTableName (insertColumns cols) (ly_values ly)) (fun s _ s' =>
    s' = (mkSession (tables s.1) (<[c_str insertStmtName := c_str insert_text]> (prepared s.1)),
          s.2 ++ [deallocate_text])).
Proof.
  unfold prepare_insert. quoted. unfold prepare. intros t a t' s H Hs.
  apply M_bind_inv in H as (o & t1 & H1 & H). apply M_bind_inv in H as (res & t2 & H2 & H).
  apply M_bind_inv in H as ([] & t3 & [= <-] & [= <- <-]).
  destruct (checked_ran view (Prepare (c_str insertStmtName) (c_str insert_text) (length (insertColumns cols)))
              t res t2 s) as ([s2 e2] & Hs2 & He & Ha); [|done|].
  { by rewrite (bind_step _ _ _ _ _ H1). }
  cbn [fst snd] in *. subst e2. pose proof (an_prepare _ _ _ _ Ha _ _ _ eq_refl) as Hp. subst s2.
  unfold snap in *. cbn [push_exitSql connection exitSqls].
  destruct (pgconn (connection t2)); [|done]. injection Hs2 as H3 H4. eexists. split; [done|]. by rewrite H3, H4.
Qed.

(** The session after the preparation: an empty temporary table and the insert. *)
Definition prepared_session (s : Session) : Session :=
  mkSession (mkTables (target (tables s)) []) (<[c_str insertStmtName := c_str insert_text]> (prepared s)).

Lemma prepare_pull_ran :
  ran (prepare_pull have_pq (ly_source ly) layer (ly_name ly) tempTableName insertStmtName) (fun s r s' =>
    r = (ly_version ly, ly_fields ly, cols) /\
    s' = (prepared_session s.1, s.2 ++ [drop_text; deallocate_text])).
Proof.
  unfold prepare_pull. eapply ran_after; [by apply (exec_reads view)|intros _ _].
  eapply ran_after; [apply postgis_getVersion_reads|intros ? <-].
  eapply ran_mono.
  { eapply ran_bind; [apply createTempTable_ran|intros u].
    eapply ran_after; [apply ly_fields_reads|intros ? <-].
    eapply ran_after; [apply reads_lift|intros c Hc]. rewrite (ly_columns_ok Hly) in Hc. injection Hc as <-.
    eapply ran_after; [apply column_srid_reads|intros ? <-].
    eapply ran_after; [apply reads_lift|intros c Hc]. rewrite (ly_values_ok Hly) in Hc. injection Hc as <-.
    eapply ran_bind; [apply prepare_insert_ran|intros; apply reads_ret]. }
  intros [s ex] r s' (u & s1 & -> & res & s2 & -> & -> & <-). split; [done|].
  unfold prepared_session. cbn. by rewrite <- app_assoc.
Qed.

(** ** The features *)
Fixpoint feature_rows (numPulled : Z) (l : list OGRFeature) : result (list (gmap string cell)) :=
  match l with
  | [] => Ret []
  | f :: l' =>
    vs ← feature_values (ly_source ly) (ly_fields ly) numPulled f (insertColumns cols);
    rows ← feature_rows (numPulled + 1) l';
    Ret (row_of (PGParams vs) :: rows)
  end.

Definition add_rows (rows : list (gmap string cell)) (s : Session) : Session :=
  mkSession (mkTables (target (tables s)) (temp (tables s) ++ rows)) (prepared s).

Definition has_insert (s : Session) : Prop := prepared s !! c_str insertStmtName = Some (c_str insert_text).

Lemma execPrepared_inserts vs s e res s' :
  has_insert s -> answers (ExecPrepared (c_str insertStmtName) (PGParams vs)) s res s' ->
  (s', e) = (add_rows [row_of (PGParams vs)] s, e : list string).
Proof. intros Hi Ha. by rewrite (an_insert _ _ _ _ Ha _ _ eq_refl Hi). Qed.

Lemma insert_once_ran vs n :
  ran (_ ← exec "savepoint insertfeature;"; _ ← execPrepared insertStmtName vs;
       _ ← exec "release savepoint insertfeature;"; mret n : M Transaction Z)
    (fun s n' s' => n' = n /\ (has_insert s.1 -> s' = (add_rows [row_of (PGParams vs)] s.1, s.2))).
Proof.
  eapply ran_after; [by apply (exec_reads view)|intros _ _]. eapply ran_mono.
  { eapply ran_bind; [apply execPrepared_ran|intros res].
    eapply ran_after; [by apply (exec_reads view)|intros _ _]. apply reads_ret. }
  intros [s e] n' s' (res & [s1 e1] & [He Ha] & -> & <-). split; [done|]. intros Hi. cbn in *. subst e1.
  by apply (execPrepared_inserts vs s e res).
Qed.

(** The insert of a feature that was not ignored. *)
Lemma insert_feature_ran ig vs n :
  ran (insert_feature ig insertStmtName vs n) (fun s n' s' =>
    n' = n -> has_insert s.1 -> s' = (add_rows [row_of (PGParams vs)] s.1, s.2)).
Proof.
  intros t n' t' s H Hs.
  assert (Hc : is_Some (pgconn (connection t'))).
  { apply (le_conn (discards := false) (t := t) (t' := t')); [by eapply keeps_run; [apply insert_feature_tx|exact H]|].
    unfold snap in Hs. by destruct (pgconn (connection t)). }
  destruct Hc as [p Hp]. revert H. unfold insert_feature. destruct ig; intros H.
  - unfold try_catch in H.
    match type of H with context [match ?m with _ => _ end] => destruct m as [[a|e|] t1] eqn:Hm end; [| |done].
    + injection H as -> ->. destruct (insert_once_ran vs n _ _ _ _ Hm Hs) as (s' & ? & _ & ?). eauto.
    + destruct (negb _); [done|]. apply M_bind_inv in H as (res & t2 & H1 & [= <- <-]).
      exists (view p, exitSqls t2). unfold snap. rewrite Hp. split; [done|]. lia.
  - apply M_bind_inv in H as (res & t1 & H1 & [= <- <-]).
    destruct (execPrepared_ran view _ _ _ _ _ _ H1 Hs) as ([s1 e1] & Hs1 & He & Ha). eexists. split; [done|].
    intros _ Hi. cbn in *. subst e1. by apply (execPrepared_inserts vs s.1 s.2 res).
Qed.

Lemma insert_features_ran ig l np ni :
  ran (insert_features (ly_source ly) (ly_fields ly) ig insertStmtName (insertColumns cols) l np ni)
    (fun s n s' => n.1 = (np + Z.of_nat (length l))%Z /\ (ni <= n.2)%Z /\
       (n.2 = ni -> has_insert s.1 -> exists rows, feature_rows np l = Ret rows /\ s' = (add_rows rows s.1, s.2))).
Proof.
  revert np ni. induction l as [|f l IH]; intros np ni; cbn [insert_features feature_rows].
  - eapply ran_mono; [apply reads_ret|]. intros [[[tgt tmp] pr] e] n s' [-> <-]. cbn [fst snd length].
    split; [lia|]. split; [lia|]. intros _ _. exists []. unfold add_rows. cbn. by rewrite app_nil_r.
  - eapply ran_after; [apply reads_lift|intros vs Hvs]. intros t n t' s H Hs.
    apply M_bind_inv in H as (ni1 & t1 & H1 & H2).
    assert (Hn : ni1 = ni \/ ni1 = (ni + 1)%Z).
    { pose proof (insert_feature_ignored ig insertStmtName vs ni t) as Hi. unfold wp in Hi.
      rewrite H1 in Hi. naive_solver. }
    destruct (insert_feature_ran _ _ _ _ _ _ _ H1 Hs) as (s1 & Hs1 & Hi1).
    destruct (IH _ _ _ _ _ _ H2 Hs1) as (s' & Hs' & Hp & Hle & Hi2). exists s'. split; [done|]. cbn [length].
    split; [lia|]. split; [lia|]. intros E Hins.
    assert (ni1 = ni) as -> by lia. rewrite Hi1 in Hi2 by done.
    destruct (Hi2 E Hins) as (rows & Hr & ->). exists (row_of (PGParams vs) :: rows).
    rewrite Hvs. cbn. rewrite Hr. split; [done|]. unfold add_rows. cbn. by rewrite <- app_assoc.
Qed.

(** ** The body of the transaction *)
Definition changes_done (allow : bool) (s : State) (ch : Changes) (s' : State) : Prop :=
  if bulk_mode layer then bulk_done s ch s' else default_done allow s ch s'.

Lemma pull_body_ran allow now job t job' t' s :
  id job = ly_id ly -> layerName job = ly_name ly ->
  pull_body have_pq (ly_source ly) layer allow now (job, t) = (Ret tt, (job', t')) -> snap t = Some s ->
  exists s', snap t' = Some s' /\
    numPulled job' = Z.of_nat (length (features (ly_source ly))) /\
    (numIgnored job' = 0%Z -> exists rows ch,
       feature_rows 0 (features (ly_source ly)) = Ret rows /\
       changes_done allow (add_rows rows (prepared_session s.1), s.2 ++ [drop_text; deallocate_text]) ch s' /\
       numCreated job' = created ch /\ numUpdated job' = updated ch /\ numDeleted job' = deleted ch).
Proof.
  intros Hid Hname H Hs. unfold pull_body in H. apply M_bind_inv in H as (j & [j0 t0] & [= <- <- <-] & H).
  rewrite Hid, Hname in H. fold tempTableName insertStmtName in H.
  apply tx_inv in H as ([[v tf] c] & t1 & H1 & H).
  destruct (prepare_pull_ran _ _ _ _ H1 Hs) as (s1 & Hs1 & [= -> -> ->] & ->).
  apply tx_inv in H as ([np ni] & t2 & H2 & H).
  destruct (insert_features_ran _ _ _ _ _ _ _ _ H2 Hs1) as (s2 & Hs2 & Hnp & Hni & Hi). cbn [fst snd] in *.
  apply M_bind_inv in H as ([] & [j2 t2'] & [= <- <-] & H).
  apply tx_inv in H as (ch & t3 & H3 & H). injection H as <- <-. cbn.
  assert (Hc : exists s3, snap t3 = Some s3 /\ changes_done allow s2 ch s3).
  { unfold changes_done. destruct (bulk_mode layer);
      [exact (bulk_update_ran _ _ _ _ H3 Hs2)|exact (default_update_ran _ _ _ _ _ H3 Hs2)]. }
  destruct Hc as (s3 & Hs3 & Hc). exists s3. split; [done|]. split; [lia|]. intros Hz.
  destruct (Hi Hz) as (rows & Hr & ->); [by apply lookup_insert_eq|]. by exists rows, ch.
Qed.


(** ** The whole pull *)

(** A pull that returned, has ignored no feature and was not rolled back; [p] is
    the connection before it. *)
Record committed_pull (configuration : Configuration) (now : Z) (job : Job) (c : Connection) (p : PGconn)
  (job' : Job) (c' : Connection) : Prop := {
  cp_layer : getLayer configuration (layerName job) = Ret layer;
  cp_source : open_source layer (Job.filter job) = Ret (ly_source ly);
  cp_name : layerName job = ly_name ly;
  cp_id : id job = ly_id ly;
  cp_pgconn : pgconn c = Some p;
  cp_run : pull have_pq configuration now (job, c) = (Ret tt, (job', c'));
  cp_ignored : numIgnored job' = 0%Z;
  cp_committed : exists new, sent c' = sent c ++ new /\ (Exec "rollback;", true) ∉ new
}.

Definition allows (job : Job) : bool :=
  allow_feature_deletion layer && is_empty (filterString (Configuration.filter layer) (Job.filter job)).

Lemma changes_exits allow s ch s' : changes_done allow s ch s' -> s'.2 = s.2.
Proof. unfold changes_done. by destruct (bulk_mode layer); intros [? _]. Qed.

Lemma committed_pull_done configuration now job c p job' c' :
  committed_pull configuration now job c p job' c' ->
  exists rows ch s s' p',
    feature_rows 0 (features (ly_source ly)) = Ret rows /\ tables s.1 = mkTables (target_of p) rows /\
    changes_done (allows job) s ch s' /\ pgconn c' = Some p' /\ target_of p' = target (tables s'.1) /\
    numPulled job' = Z.of_nat (length (features (ly_source ly))) /\
    numCreated job' = created ch /\ numUpdated job' = updated ch /\ numDeleted job' = deleted ch.
Proof.
  intros [Hl Hsrc Hn Hi Hc Hrun Hz (new & Hsent & Hnew)].
  unfold pull, get_job, gets, lift, mbind, M_bind in Hrun. cbn [fst] in Hrun. rewrite Hl, Hsrc in Hrun.
  apply with_transaction_inv in Hrun as (res & t1 & t2 & u & t3 & H1 & H2 & H3 & ->).
  destruct (begin_observed view target_of [drop_text; deallocate_text] _ _ _ _ Hc H1) as (p1 & Hs1 & Ht1 & Hsent1).
  destruct (pull_body_ran _ _ _ _ _ _ _ Hi Hn H2 Hs1) as (s' & Hs' & Hp & Hd).
  destruct (Hd Hz) as (rows & ch & Hr & Hch & Hcounts). cbn [fst snd app] in *.
  pose proof (changes_exits _ _ _ _ Hch) as He. unfold snap in Hs'.
  destruct (pgconn (connection t2)) as [p2|] eqn:Hp2; [|done]. injection Hs' as <-. cbn in He.
  destruct (destroy_observed target_of [drop_text; deallocate_text] t2 u t3 p2) as [(more & Hm)|(p' & Hp' & Ht')]; try done.
  - rewrite He. repeat constructor; set_solver.
  - destruct Hnew. destruct (le_sent (keeps_run _ _ _ _ _ _ _ (pull_body_keeps _ _ _ _ _) H2))
      as (mid & exits & Hmid & _).
    cbn [snd] in Hmid. rewrite Hm, Hmid, Hsent1, <- !app_assoc in Hsent.
    apply app_inv_head in Hsent as <-. set_solver.
  - exists rows, ch. eexists _, _, p'. split; [done|]. split; [|split; [exact Hch|done]].
    unfold add_rows, prepared_session. cbn. by f_equal.
Qed.

Lemma key_inserted c : c ∈ primaryKeyColumns cols -> c ∈ insertColumns cols.
Proof.
  intros Hc. destruct (analyse_columns_spec _ _ _ _ _ (ly_fields_ok Hly) (ly_columns_ok Hly)) as (_ & _ & H & _).
  by apply H.
Qed.

Lemma key_nonempty : primaryKeyColumns cols <> [].
Proof. apply (analyse_columns_spec _ _ _ _ _ (ly_fields_ok Hly) (ly_columns_ok Hly)). Qed.
End Server.

Abbreviation v2 := (bool_decide (2 <= (ly_version ly).1.1)%Z).
Abbreviation key := (primaryKeyColumns cols).
Abbreviation ucols := ((fun c => (c, is_geometry c)) <$> updateColumns cols).

(** The table after a pull in the default mode. *)
Lemma committed_pull_synchronises configuration now job c p job' c' :
  postgres -> layout_ok -> committed_pull configuration now job c p job' c' -> bulk_mode layer = false ->
  (forall rows, feature_rows 0 (features (ly_source ly)) = Ret rows ->
     NoDup (key_of key <$> rows) /\ Forall (key_complete key) rows) ->
  Forall (key_complete key) (target_of p) ->
  exists p' rows created updated deleted,
    pgconn c' = Some p' /\ feature_rows 0 (features (ly_source ly)) = Ret rows /\
    synchronised v2 key (insertColumns cols) ucols (allows job)
      (mkTables (target_of p) rows) (mkTables (target_of p') rows) /\
    created = length (missing key (target_of p) rows) /\
    updated = length (changed v2 key ucols (target_of p) rows) /\
    length (target_of p') + deleted = length (target_of p) + created /\
    counted (numCreated job') created /\ counted (numUpdated job') updated /\
    counted (numDeleted job') deleted.
Proof.
  intros Hpg Hly Hpull Hb Hrows Htarget.
  destruct (committed_pull_done Hpg Hly _ _ _ _ _ _ _ Hpull)
    as (rows & ch & s & s' & p' & Hr & Ht & Hd & Hc & Hp' & _ & -> & -> & ->).
  unfold changes_done in Hd. rewrite Hb in Hd. destruct Hd as (_ & _ & cr & u & d & Heff & Hcr & Hu & Hdel).
  rewrite Ht in Heff. destruct (Hrows rows Hr) as [Hnd Hcomp].
  rewrite Forall_forall in Hcomp. rewrite Forall_forall in Htarget.
  destruct (default_synchronised _ _ _ _ (key_inserted Hly) (mkTables (target_of p) rows) Hnd Hcomp Htarget
              _ _ _ _ _ Heff) as (Hsync & Hmiss & Hupd & Hlen).
  exists p', rows, cr, u, d. rewrite Hp'. cbn [target temp] in *.
  repeat (split; [done|]). split; [|by repeat split].
  pose proof (sy_temp _ _ _ _ _ _ _ Hsync) as E. destruct (tables s'.1). cbn in *. by subst.
Qed.

(** ** Properties *)

(** [C3] What a pull is for.  When it returns outside of bulk mode, ignored
    nothing and was committed, on a server that does what the manual says, and
    the keys are complete on both sides and different in the source, then every
    feature of the source has a row with its key in the target, with equal
    columns and a geometry that is the same or that the test for changes cannot
    tell apart; with permission no other key is left, without it the other rows
    are untouched; and no key is there twice if none was.  The counts of the job
    are the number of source keys that the target did not have, of target rows
    that differed from the source row of their key, and of rows that are gone. *)
Theorem default_pull_synchronises configuration now job c p job' c' :
  postgres -> layout_ok -> committed_pull configuration now job c p job' c' -> bulk_mode layer = false ->
  (forall rows, feature_rows 0 (features (ly_source ly)) = Ret rows ->
     NoDup (key_of key <$> rows) /\ Forall (key_complete key) rows) ->
  Forall (key_complete key) (target_of p) ->
  exists p' rows created updated deleted,
    pgconn c' = Some p' /\ feature_rows 0 (features (ly_source ly)) = Ret rows /\
    synchronised v2 key (insertColumns cols) ucols (allows job)
      (mkTables (target_of p) rows) (mkTables (target_of p') rows) /\
    created = length (missing key (target_of p) rows) /\
    updated = length (changed v2 key ucols (target_of p) rows) /\
    length (target_of p') + deleted = length (target_of p) + created /\
    counted (numCreated job') created /\ counted (numUpdated job') updated /\
    counted (numDeleted job') deleted.
Proof. apply committed_pull_synchronises. Qed.

(** [C4] In bulk mode a committed pull replaces the table: whatever it held, it
    then has one row per feature of the source and no other, with the inserted
    columns of the feature, and that many rows are counted as created. *)
Theorem bulk_pull_replaces configuration now job c p job' c' :
  postgres -> layout_ok -> committed_pull configuration now job c p job' c' -> bulk_mode layer = true ->
  exists p' rows new,
    pgconn c' = Some p' /\ feature_rows 0 (features (ly_source ly)) = Ret rows /\
    target_of p' ≡ₚ new /\ Forall2 (inserted_row (insertColumns cols)) rows new /\
    counted (numCreated job') (length rows) /\ numUpdated job' = 0%Z /\
    (bulk_delete_method layer = BULK_DELETE -> counted (numDeleted job') (length (target_of p))).
Proof.
  intros Hpg Hly Hpull Hb.
  destruct (committed_pull_done Hpg Hly _ _ _ _ _ _ _ Hpull)
    as (rows & ch & s & s' & p' & Hr & Ht & Hd & Hc & Hp' & _ & -> & -> & ->).
  unfold changes_done in Hd. rewrite Hb in Hd.
  destruct Hd as (_ & _ & n & [tgt1 tmp1] & E1 & E2 & Heff & Hcr & Hu & Hdel). cbn in E1, E2. subst tgt1 tmp1.
  rewrite Ht in *. destruct Heff as (_ & (new & Hnew & E) & ->). cbn [target temp] in *.
  exists p', rows, new. by rewrite Hp'.
Qed.

(** [C35] A feature whose key is NULL in every column makes the [not in] of the
    deletion unknown: however many rows the source has lost, a committed pull
    outside of bulk mode deletes none, even with permission. *)
Theorem null_key_stops_deletion configuration now job c p job' c' rows s :
  postgres -> layout_ok -> committed_pull configuration now job c p job' c' -> bulk_mode layer = false ->
  feature_rows 0 (features (ly_source ly)) = Ret rows -> s ∈ rows -> (forall k, k ∈ key -> s !! k = None) ->
  exists p', pgconn c' = Some p' /\ numDeleted job' = 0%Z /\
    (key_of key <$> target_of p) ⊆+ (key_of key <$> target_of p').
Proof.
  intros Hpg Hly Hpull Hb Hrows Hs Hnull.
  destruct (committed_pull_done Hpg Hly _ _ _ _ _ _ _ Hpull)
    as (rows' & ch & st & s' & p' & Hr & Ht & Hd & Hc & Hp' & _ & _ & _ & ->).
  rewrite Hr in Hrows. injection Hrows as <-.
  unfold changes_done in Hd. rewrite Hb in Hd. destruct Hd as (_ & _ & cr & u & d & Heff & _ & _ & Hdel).
  rewrite Ht in Heff. destruct (null_key_keeps _ _ _ _ _ _ _ _ _ _ _ Heff Hs Hnull) as [-> Hk].
  exists p'. rewrite Hp'. split; [done|]. split; [by apply Hdel|done].
Qed.

(** A geometry is never filled in: for a row whose geometry is NULL, when
    the feature has one that is no collection, or the other way round, the
    comparison is NULL instead of true.  If nothing else differs the row stays
    as it is. *)
Theorem null_geometry_kept configuration now job c p job' c' rows t s g :
  postgres -> layout_ok -> committed_pull configuration now job c p job' c' -> bulk_mode layer = false ->
  feature_rows 0 (features (ly_source ly)) = Ret rows -> NoDup (key_of key <$> rows) ->
  t ∈ target_of p -> s ∈ rows -> key_of key t = key_of key s ->
  is_geometry g = true ->
  (t !! g = None /\ st_iscollection v2 <$> s !! g = Some false) \/
  (s !! g = None /\ st_iscollection v2 <$> t !! g = Some false) ->
  (forall k, k ∈ updateColumns cols -> k <> g -> is_geometry k = false /\ t !! k = s !! k) ->
  exists p', pgconn c' = Some p' /\ t ∈ target_of p'.
Proof.
  intros Hpg Hly Hpull Hb Hrows Hnd Htin Hs Hk Hg Hnull Hrest.
  destruct (committed_pull_done Hpg Hly _ _ _ _ _ _ _ Hpull)
    as (rows' & ch & st & s' & p' & Hr & Ht & Hd & Hc & Hp' & _).
  rewrite Hr in Hrows. injection Hrows as <-.
  unfold changes_done in Hd. rewrite Hb in Hd. destruct Hd as (_ & _ & cr & u & d & Heff & _).
  rewrite Ht in Heff. exists p'. rewrite Hp'. split; [done|].
  apply (unchanged_stays _ _ _ _ _ _ _ _ _ _ t s Heff); try done.
  intros x Hx. destruct (updates _ _ _ t x) eqn:Hux; [|done]. exfalso.
  rewrite (key_inj key rows' x s Hnd Hx Hs) in Hux by (rewrite <- Hk; symmetry; by apply updates_key in Hux).
  apply andb_true_iff in Hux as [_ Hux]. rewrite holds_true in Hux.
  apply any_true in Hux as ([k' geo] & Hin & Hch). apply list_elem_of_fmap in Hin as (k & [= -> ->] & Hin).
  unfold column_changed in Hch. cbn [fst snd] in Hch.
  destruct (decide (k = g)) as [->|N].
  - rewrite Hg in Hch. by rewrite null_geometry_unchanged in Hch.
  - destruct (Hrest k Hin N) as [Hgeo E]. rewrite Hgeo, E in Hch. unfold is_distinct in Hch.
    injection Hch as Hch. by apply bool_decide_eq_true in Hch.
Qed.
End Sync.

(** ** Witnesses: a table of trees on a server that runs the statements *)
Module SyncExample.
Definition types : SqlTypes := {|
  cell := string;
  cell_eq_dec := _;
  st_srid := fun _ => 4326%Z;
  st_iscollection := fun _ _ => false;
  st_equals := String.eqb;
  as_bytea := fun c => c
|}.

(** A tree: its key, if it has one, its title and its geometry. *)
Definition feature (gid : option Z) (title : string) (geom : option string) : OGRFeature :=
  mkFeature (fun i => negb (bool_decide (i = 0%Z)) || bool_decide (is_Some gid))
    (fun _ => title) (fun _ => default 0%Z gid) (fun _ => S754_nan)
    (fun _ => None) (fun _ => []) (fun _ => []) (fun _ => []) 1
    ((fun g => mkGeometry 1 (Some g)) <$> geom).

Definition source_layer (l : list OGRFeature) : OGRLayer :=
  mkOGRLayer "trees" "" 1 [("GID", OFTInteger); ("title", OFTString)] l (fun _ => inl l).
Definition library (l : list OGRFeature) : Gdal := {|
  OpenDataset := fun _ => Some (mkDataset [Some (source_layer l)] (fun _ => Some (source_layer l)));
  CPLMalloc_ok := fun _ => true;
  CPLBinaryToHex := fun b => Some b;
  gdal2 := true
|}.

Definition layer (bulk : bool) : Layer :=
  mkLayer "trees" "trees.shp" "trees" "" "trees" "public" "" true false [] true bulk BULK_DELETE.
Definition configuration (bulk : bool) : Configuration :=
  set_layers {["trees" := layer bulk]} Configuration_default.
Definition job : Job := with_layerName "trees" (Job_new PULL "ab-cd" 5).

Definition catalogue : list (list string) :=
  [["geom"; "geometry"; "17"; "N"]; ["gid"; "int4"; "23"; "Y"]; ["title"; "text"; "25"; "N"]].
Definition fields : FieldMap :=
  {["geom" := mkField "geom" "geometry" 17 false; "gid" := mkField "gid" "int4" 23 true;
    "title" := mkField "title" "text" 25 false]}.

Definition quote (s : string) : string := cat [dquote; c_str s; dquote].
Definition value_of (_ : string) (v : option string) : option string := v.

Section Run.
Context (bulk : bool) (l : list OGRFeature).

Definition columns : Columns := mkColumns ["gid"] "geom" ["geom"; "gid"; "title"] ["geom"; "title"].
Definition source : Source :=
  mkSource (source_layer l) l (collect_fields 0 (FieldDefns (source_layer l)) ∅).
Definition values : list string :=
  match insert_values (GD := library l) source fields 4326 0 1 ["geom"; "gid"; "title"] with Ret v => v | _ => [] end.
Definition layout : Layout :=
  mkLayout (layer bulk) source "trees" (id job) (2, 1, 3)%Z fields columns 4326 values.

(** What a statement is for the server. *)
Inductive kind := KStatement (st : Statement) | KCreate | KQuiet | KUnknown.

Definition classify (sql : string) : kind :=
  match List.find (fun st => String.eqb sql (c_str (render layout quote st)))
          [UpdateChanged; InsertMissing; DeleteRemoved; CountKey; Truncate; DeleteAll; InsertAll] with
  | Some st => KStatement st
  | None =>
    if bool_decide (sql ∈ [c_str (create_text layout quote 0); c_str (create_text layout quote 901000)]) then KCreate
    else if bool_decide (sql ∈ ["set DateStyle to SQL, YMD"; "savepoint insertfeature;";
             "release savepoint insertfeature;"; "begin;"; "commit;";
             c_str (drop_text layout quote); c_str (deallocate_text layout)]) then KQuiet
    else KUnknown
  end.

Definition failure : option PGresult := mock_error "42601" "not understood".

Definition run_request (r : request) (s : @Session types) : option PGresult * @Session types :=
  match r with
  | Exec sql =>
    match classify sql with
    | KStatement st =>
      let '(db, n) := @run_statement types true ["gid"] [("geom", true); ("title", false)] st (tables s) in
      (mock_ok [] (to_string (Z.of_nat n)), mkSession db (prepared s))
    | KCreate => (mock_ok [] "", mkSession (mkTables (target (tables s)) []) (prepared s))
    | KQuiet => (mock_ok [] "", s)
    | KUnknown => (failure, s)
    end
  | ExecParams sql vs =>
    (if bool_decide (sql = "select postgis_lib_version();") then mock_ok [["2.1.3"]] "1"
     else if bool_decide (sql = c_str table_fields_query) then mock_ok catalogue "3"
     else if bool_decide (sql = c_str srid_query) then mock_ok [["4326"]] "1" else failure, s)
  | Prepare n sql _ => (mock_ok [] "", mkSession (tables s) (<[n := sql]> (prepared s)))
  | ExecPrepared n vs =>
    if bool_decide (prepared s !! n = Some (c_str (insert_text layout quote)))
    then (mock_ok [] "1", mkSession (mkTables (target (tables s))
            (temp (tables s) ++ [row_of (ST := types) layout value_of vs])) (prepared s))
    else (failure, s)
  end.

Definition server : LibPQ := {|
  PGconn := @Session types;
  PQconnectdb := fun _ => mkSession (mkTables [] []) ∅;
  PQreset := fun c => c;
  PQstatus_ok := fun _ => true;
  PQrequest := run_request;
  PQtransactionStatus := fun _ => PQTRANS_INTRANS;
  PQerrorMessage := fun _ => "";
  PQserverVersion := fun _ => 90100%Z;
  PQescapeIdentifier := fun _ s => Some (quote s);
  PQescapeLiteral := fun _ s => Some (cat ["'"; s; "'"]);
  PQsetClientEncoding := fun _ c => (0%Z, c)
|}.

Lemma classify_render st : classify (c_str (render layout quote st)) = KStatement st.
Proof. destruct st; vm_compute; reflexivity. Qed.

Lemma quote_request_unknown n :
  let sql := c_str ("select " +:+ quote_ident_list 0 n) in
  sql <> "select postgis_lib_version();" /\ sql <> c_str table_fields_query /\ sql <> c_str srid_query.
Proof.
  destruct n as [|n]; [repeat split; intros H; vm_compute in H; discriminate H|]. cbn [quote_ident_list]. rewrite decide_False by lia.
  generalize (quote_ident_list 1 n). intros rest. repeat split; intros H; cbn in H; discriminate H.
Qed.

Lemma answers_ok r s res s' :
  run_request r s = (Some res, s') -> resultStatus res <> PGRES_FATAL_ERROR ->
  answers (ST := types) layout quote value_of r s res s'.
Proof.
  intros Hr Hf. split.
  - intros Hq. destruct r as [sql|sql vs|n sql k|n vs]; [..|done|done].
    + unfold quiet in Hq. apply bool_decide_eq_true in Hq. cbn [run_request] in Hr.
      assert (classify sql = KQuiet) as E; [|rewrite E in Hr; injection Hr as _ <-; reflexivity].
      repeat (apply elem_of_cons in Hq as [->|Hq]; [vm_compute; reflexivity|]); by apply not_elem_of_nil in Hq.
    + injection Hr as _ <-. reflexivity.
  - intros names ->. cbn [run_request] in Hr. destruct (quote_request_unknown (length names)) as (H1 & H2 & H3).
    rewrite (bool_decide_eq_false_2 _ H1), (bool_decide_eq_false_2 _ H2), (bool_decide_eq_false_2 _ H3) in Hr. injection Hr as <- _. by destruct Hf.
  - intros -> v. injection Hr as <- _. by intros [= <-].
  - intros -> m. injection Hr as <- _. intros [= <-]. reflexivity.
  - intros ->. injection Hr as <- _. reflexivity.
  - intros version ->. cbn [run_request] in Hr. 
    assert (classify (c_str (create_text layout quote version)) = KCreate) as E.
    { unfold create_text. case_decide; vm_compute; reflexivity. }
    rewrite E in Hr. injection Hr as _ <-. reflexivity.
  - intros n sql k ->. injection Hr as _ <-. reflexivity.
  - intros n vs -> Hp. cbn [run_request] in Hr. rewrite bool_decide_eq_true_2 in Hr by done. injection Hr as _ <-. reflexivity.
  - intros st ->. cbn [run_request] in Hr. rewrite classify_render in Hr.
    pose proof (run_statement_effect true ["gid"] ["geom"; "gid"; "title"] [("geom", true); ("title", false)] st (tables s)) as He.
    destruct (run_statement _ _ _ _ _) as [db n]. injection Hr as <- <-.
    split; [done|]. exists n. split; [exact He|by destruct st].
Qed.

Lemma quiet_exec sql s res s' :
  classify sql = KQuiet -> run_request (Exec sql) s = (res, s') -> s' = s.
Proof. cbn [run_request]. intros ->. by intros [= _ <-]. Qed.

Lemma server_ok : postgres (PQ := server) (ST := types) layout quote value_of (fun s => s).
Proof.
  split.
  - by intros p s e [= <-].
  - intros s. unfold quote, cat. cbn [String.concat].
    repeat (apply nul_free_app; split); try apply c_str_nul_free; vm_compute; set_solver.
  - intros r p res p'. apply answers_ok.
  - intros p res p' H _. apply quiet_exec in H as ->; [done|]. vm_compute; reflexivity.
  - intros p res p' H _ _ _. apply quiet_exec in H as ->; [done|]. vm_compute; reflexivity.
  - intros sql p res p' Hs H. apply quiet_exec in H as ->; [done|].
    apply elem_of_cons in Hs as [->|Hs]; [|apply list_elem_of_singleton in Hs as ->]; vm_compute; reflexivity.
Qed.

Lemma layout_is_ok : layout_ok (GD := library l) layout.
Proof.
  split; [|vm_compute; reflexivity|done|reflexivity].
  intros k f Hk. apply elem_of_map_to_list in Hk. vm_compute in Hk.
  repeat (apply elem_of_cons in Hk as [[= -> ->]|Hk]; [done|]). by apply not_elem_of_nil in Hk.
Qed.

(** A run on a target table that holds [rows]. *)
Context (rows : list (gmap string string)).

Definition connection0 : @Connection server :=
  @mkConnection server (Some (@mkSession types (@mkTables types rows []) ∅)) true [].
Definition run := pull (PQ := server) (GD := library l) true (configuration bulk) 9 (job, connection0).
Definition job_after : Job := run.2.1.
Definition connection_after : @Connection server := run.2.2.

Lemma committed :
  run.1 = Ret tt -> numIgnored job_after = 0%Z -> (Exec "rollback;", true) ∉ sent connection_after ->
  committed_pull (PQ := server) (GD := library l) true layout (configuration bulk) 9 job connection0
    (@mkSession types (@mkTables types rows []) ∅) job_after connection_after.
Proof.
  intros Hr Hi Hs.
  split; [vm_compute; reflexivity|reflexivity..| |exact Hi|].
  - unfold job_after, connection_after in *. change (run = (Ret tt, (run.2.1, run.2.2))).
    revert Hr. destruct run as [r [j c]]. simpl. by intros ->.
  - exists (sent connection_after). split; [reflexivity|exact Hs].
Qed.
End Run.

Definition row (gid : Z) (title : string) (geom : option string) : gmap string string :=
  partial_alter (fun _ => geom) "geom" {["gid" := to_string gid; "title" := title]}.

(** Number 2 is gone from the source, number 3 is new, number 1 has another title. *)
Definition before : list (gmap string string) := [row 1 "oak" (Some "01"); row 2 "elm" (Some "02")].
Definition source_trees : list OGRFeature :=
  [feature (Some 1%Z) "ash" (Some "01"); feature (Some 3%Z) "fir" (Some "03")].
Definition unnamed_tree : list OGRFeature := [feature None "ash" (Some "01")].
Definition placed_tree : list OGRFeature := [feature (Some 1%Z) "oak" (Some "01")].
Definition unplaced : list (gmap string string) := [row 1 "oak" None].

(** The rows of the features, and whether a run is one that the properties are
    about. *)
Definition rows_of (bulk : bool) (l : list OGRFeature) : list (gmap string string) :=
  match feature_rows (GD := library l) (ST := types) (layout bulk l) value_of 0 l with
  | Ret rows => rows
  | _ => []
  end.
Definition good_run (bulk : bool) (l : list OGRFeature) (rows : list (gmap string string)) : bool :=
  is_ret (run bulk l rows).1 && bool_decide (numIgnored (job_after bulk l rows) = 0%Z) &&
  bool_decide ((Exec "rollback;", true) ∉ sent (connection_after bulk l rows)).

Lemma good_run_committed bulk l rows :
  good_run bulk l rows = true ->
  committed_pull (PQ := server bulk l) (GD := library l) true (layout bulk l) (configuration bulk) 9 job
    (connection0 bulk l rows) (@mkSession types (@mkTables types rows []) ∅) (job_after bulk l rows)
    (connection_after bulk l rows).
Proof.
  intros [[Hr Hi]%andb_true_iff Hs]%andb_true_iff. apply bool_decide_eq_true in Hi, Hs.
  apply committed; [|exact Hi|exact Hs]. revert Hr. generalize (run bulk l rows).1.
  intros [[]|e|]; [reflexivity|discriminate..].
Qed.

(** The rows of the sample features, and what the properties ask of them. *)
Lemma rows_of_eq bulk l rows :
  feature_rows (GD := library l) (ST := types) (layout bulk l) value_of 0 (features (source l)) = Ret rows ->
  rows = rows_of bulk l.
Proof. unfold rows_of. change (features (source l)) with l. by intros ->. Qed.

Definition keys_ok (rows : list (gmap string string)) : bool :=
  bool_decide (NoDup (key_of (ST := types) ["gid"] <$> rows)) &&
  bool_decide (Forall (key_complete (ST := types) ["gid"]) rows).

Lemma keys_ok_spec rows :
  keys_ok rows = true ->
  NoDup (key_of (ST := types) ["gid"] <$> rows) /\ Forall (key_complete (ST := types) ["gid"]) rows.
Proof. unfold keys_ok. by rewrite andb_true_iff, !bool_decide_eq_true. Qed.
End SyncExample.

Lemma default_pull_synchronises_witness :
  numCreated (SyncExample.job_after false SyncExample.source_trees SyncExample.before) = 1%Z /\
  exists p' rows,
    pgconn (SyncExample.connection_after false SyncExample.source_trees SyncExample.before) = Some p' /\
    synchronised (ST := SyncExample.types) true ["gid"] ["geom"; "gid"; "title"]
      [("geom", true); ("title", false)] true
      (@mkTables SyncExample.types SyncExample.before rows)
      (@mkTables SyncExample.types (target (tables p')) rows).
Proof.
  split; [vm_compute; reflexivity|].
  assert (Hg : SyncExample.good_run false SyncExample.source_trees SyncExample.before = true)
    by (vm_compute; reflexivity).
  destruct (default_pull_synchronises (PQ := SyncExample.server false SyncExample.source_trees)
    (GD := SyncExample.library SyncExample.source_trees) (ST := SyncExample.types) true
    (SyncExample.layout false SyncExample.source_trees) SyncExample.quote SyncExample.value_of (fun s => s)
    (SyncExample.configuration false) 9 SyncExample.job _ _ _ _
    (SyncExample.server_ok false _) (SyncExample.layout_is_ok false _)
    (SyncExample.good_run_committed false _ SyncExample.before Hg) eq_refl)
    as (p' & rows & _ & _ & _ & H1 & _ & H2 & _).
  - intros rows ->%SyncExample.rows_of_eq. apply SyncExample.keys_ok_spec. vm_compute. reflexivity.
  - apply (SyncExample.keys_ok_spec SyncExample.before). vm_compute. reflexivity.
  - exists p', rows. split; [exact H1|exact H2].
Defined.

Lemma bulk_pull_replaces_witness :
  numDeleted (SyncExample.job_after true SyncExample.source_trees SyncExample.before) = 2%Z /\
  exists p' rows new,
    pgconn (SyncExample.connection_after true SyncExample.source_trees SyncExample.before) = Some p' /\
    target (tables p') ≡ₚ new /\
    Forall2 (inserted_row (ST := SyncExample.types) ["geom"; "gid"; "title"]) rows new.
Proof.
  split; [vm_compute; reflexivity|].
  assert (Hg : SyncExample.good_run true SyncExample.source_trees SyncExample.before = true)
    by (vm_compute; reflexivity).
  destruct (bulk_pull_replaces (PQ := SyncExample.server true SyncExample.source_trees)
    (GD := SyncExample.library SyncExample.source_trees) (ST := SyncExample.types) true
    (SyncExample.layout true SyncExample.source_trees) SyncExample.quote SyncExample.value_of (fun s => s)
    (SyncExample.configuration true) 9 SyncExample.job _ _ _ _
    (SyncExample.server_ok true _) (SyncExample.layout_is_ok true _)
    (SyncExample.good_run_committed true _ SyncExample.before Hg) eq_refl)
    as (p' & rows & new & H1 & _ & H2 & H3 & _).
  exists p', rows, new. split; [exact H1|split; [exact H2|exact H3]].
Defined.

Lemma null_key_stops_deletion_witness :
  numDeleted (SyncExample.job_after false SyncExample.unnamed_tree SyncExample.before) = 0%Z /\
  exists p', pgconn (SyncExample.connection_after false SyncExample.unnamed_tree SyncExample.before) = Some p' /\
    (key_of (ST := SyncExample.types) ["gid"] <$> SyncExample.before) ⊆+
    (key_of (ST := SyncExample.types) ["gid"] <$> target (tables p')).
Proof.
  assert (Hg : SyncExample.good_run false SyncExample.unnamed_tree SyncExample.before = true)
    by (vm_compute; reflexivity).
  assert (Hs : exists s, s ∈ SyncExample.rows_of false SyncExample.unnamed_tree /\ s !! "gid" = None)
    by (eexists; split; [left|vm_compute; reflexivity]).
  destruct Hs as (s & Hs & Hn).
  destruct (null_key_stops_deletion (PQ := SyncExample.server false SyncExample.unnamed_tree)
    (GD := SyncExample.library SyncExample.unnamed_tree) (ST := SyncExample.types) true
    (SyncExample.layout false SyncExample.unnamed_tree) SyncExample.quote SyncExample.value_of (fun s => s)
    (SyncExample.configuration false) 9 SyncExample.job _ _ _ _
    (SyncExample.rows_of false SyncExample.unnamed_tree) s
    (SyncExample.server_ok false _) (SyncExample.layout_is_ok false _)
    (SyncExample.good_run_committed false _ SyncExample.before Hg) eq_refl)
    as (p' & H1 & H2 & H3); [vm_compute; reflexivity|exact Hs| |].
  - intros k ->%list_elem_of_singleton. exact Hn.
  - split; [exact H2|]. exists p'. split; [exact H1|exact H3].
Defined.

Lemma null_geometry_kept_witness :
  exists p', pgconn (SyncExample.connection_after false SyncExample.placed_tree SyncExample.unplaced) = Some p' /\
    SyncExample.row 1 "oak" None ∈ target (tables p').
Proof.
  assert (Hg : SyncExample.good_run false SyncExample.placed_tree SyncExample.unplaced = true)
    by (vm_compute; reflexivity).
  apply (null_geometry_kept (PQ := SyncExample.server false SyncExample.placed_tree)
    (GD := SyncExample.library SyncExample.placed_tree) (ST := SyncExample.types) true
    (SyncExample.layout false SyncExample.placed_tree) SyncExample.quote SyncExample.value_of (fun s => s)
    (SyncExample.configuration false) 9 SyncExample.job _ _ _ _
    (SyncExample.rows_of false SyncExample.placed_tree)
    (SyncExample.row 1 "oak" None) (SyncExample.row 1 "oak" (Some "01")) "geom"
    (SyncExample.server_ok false _) (SyncExample.layout_is_ok false _)
    (SyncExample.good_run_committed false _ SyncExample.unplaced Hg) eq_refl).
  - vm_compute. reflexivity.
  - refine (proj1 (SyncExample.keys_ok_spec (SyncExample.rows_of false SyncExample.placed_tree) _)).
    vm_compute. reflexivity.
  - left.
  - vm_compute. left.
  - vm_compute. reflexivity.
  - reflexivity.
  - left. split; vm_compute; reflexivity.
  - intros k [->|Hk]%elem_of_cons N; [by destruct N|]. apply list_elem_of_singleton in Hk as ->.
    split; vm_compute; reflexivity.
Defined.
