(* ===== verification/Worker.v ===== *)
(** * The worker

    [src/server/worker.h] and the rest of [src/server/worker.cpp]: the job that
    removes features, the handling of one job with its error paths, and the loop
    that takes jobs from the storage. *)
From S2P Require Import Prelude Numbers StringUtils NullableValue Configuration Job QuitableQueue JobStorage.
From S2P Require Import LibPQ Connection Transaction PostGis Requests Gdal FieldConversion PullSource Pull PullSpec.

(** ** [removeByAttributes] *)
Section Remove.
Context {PQ : LibPQ} (have_pq : bool).

(** The text of the statement so far, and the values for its parameters. *)
Abbreviation Stmt := (string * list NullableValue)%type.

(** The loop over one attribute set, [i] being its counter. *)
Fixpoint attribute_conditions (layer_name table : string) (tableFields : FieldMap) (i : nat)
  (attributes : list (string * NullableValue)) (acc : Stmt) : M Transaction Stmt :=
  match attributes with
  | [] => mret acc
  | attributePair :: attributes' =>
    match tableFields !! attributePair.1 with
    | None =>
      throw (WorkerError (cat ["Layer "; quoted layer_name; " has no field "; quoted attributePair.1]))
    | Some field =>
      let attrValues := acc.2 ++ [attributePair.2] in
      q ← quoteAndJoinIdent have_pq table attributePair.1;
      attribute_conditions layer_name table tableFields (S i) attributes'
        (cat [acc.1; if decide (0 < i) then " and " else ""; q; " is not distinct from $";
              to_string (Z.of_nat (length attrValues)); "::"; pgTypeName field], attrValues)
    end
  end.

(** The loop over the attribute sets. *)
Fixpoint set_conditions (layer_name table : string) (tableFields : FieldMap)
  (attributeSets : list AttributeSet) (acc : Stmt) : M Transaction Stmt :=
  match attributeSets with
  | [] => mret acc
  | attributeSet :: attributeSets' =>
    if decide (0 < base.size attributeSet) then
      acc' ← attribute_conditions layer_name table tableFields 0 (ordered attributeSet)
               (cat [acc.1; if bool_decide (acc.2 = []) then "" else " or "; " ( "], acc.2);
      set_conditions layer_name table tableFields attributeSets' (cat [acc'.1; " ) "], acc'.2)
    else set_conditions layer_name table tableFields attributeSets' acc
  end.

Definition delete_by_attributes (layer : Layer) (layer_name : string) (attributeSets : list AttributeSet)
  : M Transaction Z :=
  _ ← exec "set DateStyle to SQL, YMD";
  tableFields ← getTableFields (target_table_schema layer) (target_table_name layer);
  qTable ← quoteAndJoinIdent have_pq (target_table_schema layer) (target_table_name layer);
  '(conditions, attrValues) ←
    set_conditions layer_name (target_table_name layer) tableFields attributeSets ("", []);
  if negb (bool_decide (attrValues = [])) then
    deleteRes ← execParams_values (cat ["delete from "; qTable; " where "; conditions]) attrValues;
    mret (affected deleteRes)
  else mret 0%Z.

Definition remove_body (layer : Layer) (now : Z) : M (Job * Transaction) unit :=
  job ← get_job;
  numDeleted ← on_transaction (delete_by_attributes layer (layerName job) (attributeSets job));
  _ ← on_job (setStatus FINISHED now);
  on_job (setStatistics 0 0 0 numDeleted 0).

Definition deletion_refused (layer_name : string) : string :=
  cat ["Layer "; quoted layer_name; " does not allow deletion of features."].

Definition removeByAttributes (configuration : Configuration) (now : Z) : M (Job * Connection) unit :=
  job ← get_job;
  layer ← lift (getLayer configuration (layerName job));
  if negb (allow_feature_deletion layer) then
    let msg := deletion_refused (layerName job) in
    _ ← on_job (setStatus FAILED now);
    on_job (setMessage msg)
  else with_transaction (remove_body layer now).
End Remove.

(** ** One job *)
Section Run.
Context {PQ : LibPQ} {GD : Gdal} (have_pq : bool) (configuration : Configuration).

Definition on_db {A} (m : M Connection A) : M (Job * Connection) A := fun '(j, c) =>
  let '(r, c') := m c in (r, (j, c')).

(** [while (!db.reconnect(true))]: every attempt is followed by a pause.  The
    result is whether a connection was there before the fuel ended. *)
Fixpoint await_connection (fuel reconnectAttempts : nat) : M (Job * Connection) bool :=
  match fuel with
  | 0 => mret false
  | S fuel' =>
    ok ← on_db (reconnect (db_connection_string configuration) true);
    if ok : bool then mret true
    else
      _ ← (if decide (reconnectAttempts = 0)
           then on_job (setMessage "Waiting to aquire a database connection") else mret tt);
      await_connection fuel' (S reconnectAttempts)
  end.

(** The handlers of [run]: the first two [catch] blocks, and the third, which
    throws again.  The [std::logic_error]s have no handler. *)
Definition handle_error (now : Z) (e : exn) : M (Job * Connection) bool :=
  let fail : M (Job * Connection) unit :=
    _ ← on_job (setStatus FAILED now); on_job (setMessage (what e)) in
  match e with
  | DbError _ _ _ | WorkerError _ => _ ← fail; mret true
  | _ => if is_runtime_error e then _ ← fail; throw e else throw e
  end.

(** The part of the loop's [try] block that handles a job; [false] when the
    fuel ended while there was no connection. *)
Definition process (fuel : nat) (now : Z) : M (Job * Connection) bool :=
  try_catch
    (_ ← on_job (setStatus IN_PROCESS now);
     connected ← await_connection fuel 0;
     if connected : bool then
       _ ← on_job (setMessage "");
       job ← get_job;
       _ ← match type job with
           | PULL => pull have_pq configuration now
           | REMOVE_BY_ATTRIBUTES => removeByAttributes have_pq configuration now
           end;
       mret true
     else mret false)
    (handle_error now).

(** ** The loop *)
Record Worker := mkWorker { jobs : JobStorage; db : Connection }.

Inductive turn :=
  | Blocked               (** waits in [popWait] *)
  | WaitsForDatabase      (** the fuel ended in [await_connection] *)
  | Exited                (** the [break] *)
  | Handled (p : JobPtr). (** a job was handled *)

Definition on_jobs {A} (m : M JobStorage A) : M Worker A := fun w =>
  let '(r, s) := m (jobs w) in (r, mkWorker s (db w)).

(** [popWait] on the storage, as far as one thread goes: [None] blocks. *)
Definition storage_popWait : M JobStorage (option (option JobPtr)) := fun s =>
  match popWait (queue s) with
  | None => (Ret None, s)
  | Some (r, q') => (Ret (Some r), set_queue q' s)
  end.

(** The handling of the job that [p] points to. *)
Definition process_pointer (fuel : nat) (now : Z) (p : JobPtr) : M Worker turn := fun w =>
  match heap (jobs w) !! p with
  | None => (Terminated, w)
  | Some j =>
    let '(r, (j', c')) := process fuel now (j, db w) in
    let w' := mkWorker (update_job p j' (jobs w)) c' in
    match r with
    | Ret true => (Ret (Handled p), w')
    | Ret false => (Ret WaitsForDatabase, w')
    | Throw e => (Throw e, w')
    | Terminated => (Terminated, w')
    end
  end.

Definition run_turn (fuel : nat) (now : Z) : M Worker turn :=
  job ← on_jobs storage_popNoWait;
  match job with
  | Some p => process_pointer fuel now p
  | None =>
    _ ← (if negb (use_persistent_connections configuration)
         then modify (fun w => mkWorker (jobs w) (set_pgconn None (db w))) else mret tt);
    job ← on_jobs storage_popWait;
    match job with
    | None => mret Blocked
    | Some None => mret Exited
    | Some (Some p) => process_pointer fuel now p
    end
  end.

(** [Worker::run] for at most [turns] turns, with what the last one did. *)
Fixpoint run (fuel : nat) (now : Z) (turns : nat) : M Worker turn :=
  match turns with
  | 0 => mret Blocked
  | S turns' =>
    t ← run_turn fuel now;
    match t with
    | Handled _ => run fuel now turns'
    | _ => mret t
    end
  end.
End Run.
