(* ===== verification/WorkerSpec.v ===== *)
(** * What a worker does

    The properties of [removeByAttributes], of the handling of a job and of the
    loop. *)
From S2P Require Import Prelude Numbers StringUtils NullableValue Configuration Job QuitableQueue JobStorage.
From S2P Require Import LibPQ Connection Transaction PostGis Requests Gdal FieldConversion PullSource Pull PullSpec Worker.

(** ** The statement of a removal *)
Section RemoveStatement.
Context {PQ : LibPQ} (have_pq : bool).

(** Two runs that agree on everything but the values. *)
Definition same_text (r1 r2 : result (string * list NullableValue)) : Prop :=
  match r1, r2 with
  | Ret (s1, v1), Ret (s2, v2) => s1 = s2 /\ length v1 = length v2
  | Throw e1, Throw e2 => e1 = e2
  | Terminated, Terminated => True
  | _, _ => False
  end.

Lemma attribute_conditions_values n tb tf i l acc t :
  wp (attribute_conditions have_pq n tb tf i l acc) (fun r _ =>
    match r with Ret acc' => acc'.2 = acc.2 ++ l.*2 | _ => True end) t.
Proof.
  revert i acc t. induction l as [|[k v] l IH]; intros i acc t; cbn [attribute_conditions fst snd].
  - apply wp_ret. cbn. by rewrite app_nil_r.
  - destruct (tf !! k); [|done]. apply wp_bind. eapply wp_mono; [apply quoteAndJoinIdent_keeps|].
    intros [q|e|] t' _; cbn [seq_post]; [|done|done]. eapply wp_mono; [apply IH|].
    intros [acc'|e|] t'' H; [|done|done]. rewrite H. cbn. by rewrite <- app_assoc.
Qed.

Lemma attribute_conditions_text n tb tf i l1 l2 s v1 v2 t :
  l1.*1 = l2.*1 -> length v1 = length v2 ->
  let '(r1, t1) := attribute_conditions have_pq n tb tf i l1 (s, v1) t in
  let '(r2, t2) := attribute_conditions have_pq n tb tf i l2 (s, v2) t in
  t1 = t2 /\ same_text r1 r2.
Proof.
  revert i l2 s v1 v2 t. induction l1 as [|[k u1] l1 IH]; intros i [|[k' u2] l2] s v1 v2 t Hk Hv;
    try discriminate; [done|].
  injection Hk as <- Hk. cbn [attribute_conditions fst snd].
  destruct (tf !! k) as [f|]; [|done]. unfold mbind, M_bind.
  destruct (quoteAndJoinIdent have_pq tb k t) as [[q|e|] t']; [|done|done].
  assert (Hlen : length (v1 ++ [u1]) = length (v2 ++ [u2])) by (rewrite !length_app; simpl; lia).
  rewrite <- Hlen. by apply IH.
Qed.

(** The values of the sets in the order of the placeholders. *)
Definition set_values (sets : list AttributeSet) : list NullableValue :=
  flat_map (fun s => (ordered s).*2) sets.

Lemma size_ordered (s1 s2 : AttributeSet) :
  (ordered s1).*1 = (ordered s2).*1 -> base.size s1 = base.size s2.
Proof.
  intros H. apply (f_equal length) in H. rewrite !length_fmap in H. unfold ordered in H.
  rewrite !(merge_sort_Permutation key_le) in H. by rewrite !length_map_to_list in H.
Qed.

Lemma ordered_empty (s : AttributeSet) : base.size s = 0 -> (ordered s).*2 = [].
Proof. intros H. apply map_size_empty_inv in H as ->. done. Qed.

Lemma set_conditions_values n tb tf sets acc t :
  wp (set_conditions have_pq n tb tf sets acc) (fun r _ =>
    match r with Ret acc' => acc'.2 = acc.2 ++ set_values sets | _ => True end) t.
Proof.
  revert acc t. induction sets as [|s sets IH]; intros acc t; cbn [set_conditions].
  - apply wp_ret. cbn. by rewrite app_nil_r.
  - case_decide as Hs.
    + apply wp_bind. eapply wp_mono; [apply attribute_conditions_values|].
      intros [acc'|e|] t' H; cbn [seq_post]; [|done|done]. eapply wp_mono; [apply IH|].
      intros [acc2|e|] t'' H2; [|done|done]. rewrite H2. cbn in *. rewrite H. by rewrite <- app_assoc.
    + eapply wp_mono; [apply IH|]. intros [acc2|e|] t'' H2; [|done|done]. rewrite H2.
      unfold set_values. cbn [flat_map]. rewrite ordered_empty by lia. done.
Qed.

Lemma set_conditions_text n tb tf sets1 sets2 s v1 v2 t :
  (fun x => (ordered x).*1) <$> sets1 = (fun x => (ordered x).*1) <$> sets2 ->
  length v1 = length v2 ->
  let '(r1, t1) := set_conditions have_pq n tb tf sets1 (s, v1) t in
  let '(r2, t2) := set_conditions have_pq n tb tf sets2 (s, v2) t in
  t1 = t2 /\ same_text r1 r2.
Proof.
  revert sets2 s v1 v2 t. induction sets1 as [|x1 sets1 IH]; intros [|x2 sets2] s v1 v2 t Hk Hv;
    try discriminate; [done|].
  injection Hk as Hx Hk. cbn [set_conditions fst snd]. rewrite (size_ordered x1 x2 Hx).
  case_decide; [|by apply IH]. unfold mbind, M_bind.
  assert (Hb : bool_decide (v1 = []) = bool_decide (v2 = []))
    by (apply bool_decide_ext; destruct v1, v2; simpl in Hv; naive_solver).
  rewrite <- Hb.
  pose proof (attribute_conditions_text n tb tf 0 (ordered x1) (ordered x2)
    (cat [s; if bool_decide (v1 = []) then "" else " or "; " ( "]) v1 v2 t Hx Hv) as Ha.
  destruct (attribute_conditions _ _ _ _ _ (ordered x1) _ t) as [[[s1 w1]|e1|] t1];
    destruct (attribute_conditions _ _ _ _ _ (ordered x2) _ t) as [[[s2 w2]|e2|] t2];
    destruct Ha as [<- Ha]; simpl in Ha; try done.
  destruct Ha as [<- Hw]. by apply IH.
Qed.

(** [C22] The values of a removal never become part of its SQL: two requests
    with the same attribute names, set by set, lead to the same statement text
    and the same questions to the server, or to the same error, and the values
    are passed as parameters, one per placeholder and in that order. *)
Theorem removal_is_parameterised n tb tf sets1 sets2 t :
  (fun x => (ordered x).*1) <$> sets1 = (fun x => (ordered x).*1) <$> sets2 ->
  let '(r1, t1) := set_conditions have_pq n tb tf sets1 ("", []) t in
  let '(r2, t2) := set_conditions have_pq n tb tf sets2 ("", []) t in
  t1 = t2 /\
  match r1, r2 with
  | Ret (s1, v1), Ret (s2, v2) => s1 = s2 /\ v1 = set_values sets1 /\ v2 = set_values sets2
  | Throw e1, Throw e2 => e1 = e2
  | Terminated, Terminated => True
  | _, _ => False
  end.
Proof.
  intros Hk. pose proof (set_conditions_text n tb tf sets1 sets2 "" [] [] t Hk eq_refl) as Ht.
  pose proof (set_conditions_values n tb tf sets1 ("", []) t) as H1.
  pose proof (set_conditions_values n tb tf sets2 ("", []) t) as H2. unfold wp in H1, H2.
  destruct (set_conditions _ _ _ _ sets1 _ t) as [[[s1 v1]|e1|] t1];
    destruct (set_conditions _ _ _ _ sets2 _ t) as [[[s2 v2]|e2|] t2];
    destruct Ht as [<- Ht]; simpl in *; naive_solver.
Qed.
End RemoveStatement.

(** ** The handling of a job *)
Section Process.
Context {PQ : LibPQ} {GD : Gdal} (have_pq : bool) (configuration : Configuration).

Lemma attribute_conditions_tx n tb tf i l acc :
  keeps tx_le (fun e => is_job_error e = true) True (attribute_conditions have_pq n tb tf i l acc).
Proof.
  revert i acc. induction l as [|[k v] l IH]; intros i acc; cbn [attribute_conditions fst snd];
    [apply keeps_ret, _|].
  destruct (tf !! k); [|by apply keeps_throw; [apply _|]].
  apply keeps_bind; [apply _|apply db_keeps, quoteAndJoinIdent_keeps|]. intros q. apply IH.
Qed.

Lemma set_conditions_tx n tb tf sets acc :
  keeps tx_le (fun e => is_job_error e = true) True (set_conditions have_pq n tb tf sets acc).
Proof.
  revert acc. induction sets as [|s sets IH]; intros acc; cbn [set_conditions]; [apply keeps_ret, _|].
  case_decide; [|apply IH].
  apply keeps_bind; [apply _|apply attribute_conditions_tx|]. intros acc'. apply IH.
Qed.

Lemma delete_by_attributes_tx layer n sets :
  keeps tx_le (fun e => is_job_error e = true) True (delete_by_attributes have_pq layer n sets).
Proof.
  unfold delete_by_attributes, execParams_values.
  apply keeps_bind; [apply _|apply db_keeps, exec_keeps|]. intros _.
  apply keeps_bind; [apply _|apply db_keeps, getTableFields_keeps|]. intros tf.
  apply keeps_bind; [apply _|apply db_keeps, quoteAndJoinIdent_keeps|]. intros q.
  apply keeps_bind; [apply _|apply set_conditions_tx|]. intros [s vs].
  destruct (negb _); [|apply keeps_ret, _].
  apply keeps_bind; [apply _|apply db_keeps, execParams_keeps|]. intros r. apply keeps_ret, _.
Qed.

(** A statement that removes rows has a condition with parameters. *)
Definition conditioned (r : request) : Prop :=
  removes r = true -> exists sql v vs, r = ExecParams sql (v :: vs).

#[local] Instance conditioned_ordinary : Ordinary conditioned.
Proof. intros r Hr H. by destruct r; [apply negb_true_iff in Hr; congruence..| |]. Qed.

Lemma set_conditions_sends n tb tf sets acc :
  keeps (sends_le conditioned) (fun _ => True) True (set_conditions have_pq n tb tf sets acc).
Proof.
  assert (Ha : forall i l acc, keeps (sends_le conditioned) (fun _ => True) True
                                 (attribute_conditions have_pq n tb tf i l acc)).
  { intros i l. revert i. induction l as [|[k v] l IH]; intros i a; cbn [attribute_conditions fst snd];
      keeps_steps. }
  revert acc. induction sets as [|s sets IH]; intros acc; cbn [set_conditions]; keeps_steps.
Qed.

Lemma delete_by_attributes_conditioned layer n sets :
  keeps (sends_le conditioned) (fun _ => True) True (delete_by_attributes have_pq layer n sets).
Proof.
  unfold delete_by_attributes, execParams_values.
  apply keeps_bind; [apply _|by apply exec_sends, conditioned_ordinary|]. intros _.
  apply keeps_bind; [apply _|by eauto with keeps|]. intros tf.
  apply keeps_bind; [apply _|by eauto with keeps|]. intros q.
  apply keeps_bind; [apply _|apply set_conditions_sends|]. intros [s vs].
  case_bool_decide as Hv; simpl; [by eauto with keeps|].
  apply keeps_bind; [apply _| |intros r; by eauto with keeps].
  apply execParams_sends. intros _. destruct vs as [|v vs]; [done|].
  unfold PGParams. cbn. eauto.
Qed.

Lemma remove_body_keeps layer now :
  keeps body_le (fun e => is_job_error e = true) True (remove_body have_pq layer now).
Proof.
  unfold remove_body, body_le. apply keeps_bind; [apply body_le_preorder|apply get_job_keeps, _|]. intros job.
  apply keeps_bind; [apply body_le_preorder|apply on_transaction_keeps, delete_by_attributes_tx|]. intros n.
  apply keeps_bind; [apply body_le_preorder|apply on_job_keeps, _|]. intros _. apply on_job_keeps, _.
Qed.

Lemma remove_body_conditioned layer now :
  keeps (sends_body_le conditioned) (fun _ => True) True (remove_body have_pq layer now).
Proof.
  set (R := sends_body_le _). assert (HR : PreOrder R) by apply sends_body_le_preorder.
  unfold remove_body. apply keeps_bind; [exact HR|apply (get_job_keeps (sends_le _))|]. intros job.
  apply keeps_bind; [exact HR|apply on_transaction_sends, delete_by_attributes_conditioned|]. intros n.
  apply keeps_bind; [exact HR|apply (on_job_keeps (sends_le _))|]. intros _.
  apply (on_job_keeps (sends_le _)).
Qed.

(** How [pull] and [removeByAttributes] leave the job. *)
Definition job_outcome (now : Z) (job : Job) (r : result unit) (job' : Job) : Prop :=
  id job' = id job /\ layerName job' = layerName job /\
  match r with
  | Ret _ => isDone job' = true /\ timeFinished job' = now
  | Throw e => is_job_error e = true
  | Terminated => True
  end.

Lemma remove_body_post layer now s :
  wp (remove_body have_pq layer now) (fun r s' => id s'.1 = id s.1 /\ layerName s'.1 = layerName s.1 /\
    match r with Ret _ => isDone s'.1 = true /\ timeFinished s'.1 = now | _ => True end) s.
Proof.
  destruct s as [j t]. unfold remove_body. apply wp_bind.
  unfold get_job, gets, wp at 1. cbn [seq_post fst].
  eapply wp_tx; [apply delete_by_attributes_tx| |by intros [a|e|] t' _].
  intros n t1 _. unfold wp, on_job, mbind, M_bind, modify. by repeat split.
Qed.

Lemma removeByAttributes_outcome now job c layer :
  getLayer configuration (layerName job) = Ret layer ->
  wp (removeByAttributes have_pq configuration now) (fun r s' => job_outcome now job r s'.1) (job, c).
Proof.
  intros Hl. unfold removeByAttributes, wp, get_job, gets, lift, mbind, M_bind. cbn [fst]. rewrite Hl.
  destruct (negb (allow_feature_deletion layer)); [by repeat split|].
  unfold with_transaction. destruct (Transaction_new c) as [[a|e|] t1] eqn:Ht.
  - pose proof (remove_body_post layer now (job, t1)) as Hp.
    pose proof (remove_body_keeps layer now (job, t1)) as Hk. unfold wp in Hp, Hk.
    destruct (remove_body have_pq layer now (job, t1)) as [r1 [j1 t2]].
    destruct Hp as (H1 & H2 & H3). destruct Hk as [_ Hk]. simpl in *.
    destruct r1 as [[]|e|]; [..|by repeat split];
      destruct (Transaction_destroy t2) as [[] t3]; unfold job_outcome; simpl; naive_solver.
  - repeat split. unfold is_job_error.
    pose proof (exec_keeps "begin;" (mkTransaction c [] false)) as Hk. unfold wp in Hk.
    unfold Transaction_new in Ht. rewrite Ht in Hk. destruct Hk as [_ Hk]. by rewrite Hk.
  - by repeat split.
Qed.
End Process.

(** ** Properties *)
Section Properties.
Context {PQ : LibPQ} {GD : Gdal} (have_pq : bool) (configuration : Configuration).

(** [C23] A removal job changes the database only with permission and only by
    conditions with parameters: on a layer that does not allow the deletion of
    features it fails with a message and sends nothing; otherwise every statement
    that removes rows is a parameterised one with at least one value.  (What such
    a statement removes is the subject of [Removal].) *)
Theorem removal_needs_permission now job c r job' c' layer :
  getLayer configuration (layerName job) = Ret layer ->
  removeByAttributes have_pq configuration now (job, c) = (r, (job', c')) ->
  if allow_feature_deletion layer then
    exists new, sent c' = sent c ++ new /\
      forall q, q ∈ new.*1 -> removes q = true -> exists sql v vs, q = ExecParams sql (v :: vs)
  else
    r = Ret tt /\ c' = c /\ status job' = FAILED /\ message job' = deletion_refused (layerName job).
Proof.
  intros Hl. unfold removeByAttributes, get_job, gets, lift, mbind, M_bind. cbn [fst]. rewrite Hl.
  destruct (allow_feature_deletion layer); cbn [negb].
  - intros Hw. destruct (with_transaction_sends conditioned (remove_body have_pq layer now) job c r job' c')
      as (new & Hs & Hp); try done; [by apply remove_body_conditioned|].
    exists new. split; [done|]. intros q Hq. rewrite Forall_forall in Hp. by apply Hp.
  - intros [= <- <- <-]. by repeat split.
Qed.

Lemma await_connection_post fuel n s :
  wp (await_connection configuration fuel n) (fun r s' =>
    (exists m, s'.1 = setMessage m s.1) /\
    match r with Ret _ => True | Throw e => is_db_error e = true | Terminated => False end) s.
Proof.
  assert (Hself : forall j, exists m, j = setMessage m j)
    by (intros j; exists (message j); by destruct j).
  revert n s. induction fuel as [|fuel IH]; intros n s; cbn [await_connection]; [by split; auto|].
  apply wp_bind. destruct s as [j c]. unfold wp at 1, on_db.
  pose proof (reconnect_keeps (db_connection_string configuration) true c) as Hk. unfold wp in Hk.
  destruct (reconnect _ true c) as [[[]|e|] c1]; destruct Hk as [_ Hk]; cbn [seq_post];
    [by split; simpl; auto| |by split; simpl; auto|done].
  apply wp_bind. case_decide; unfold wp at 1; cbn [on_job modify seq_post mret M_ret].
  - eapply wp_mono; [apply IH|]. intros r s' [[m Hm] Hr]. split; [|done]. exists m.
    rewrite Hm. by destruct j.
  - exact (IH (S n) (j, c1)).
Qed.

(** What a handler of [run] leaves behind. *)
Lemma process_result fuel now job c layer :
  getLayer configuration (layerName job) = Ret layer ->
  wp (process have_pq configuration fuel now) (fun r s' =>
    id s'.1 = id job /\ layerName s'.1 = layerName job /\
    match r with
    | Ret true => isDone s'.1 = true /\ timeFinished s'.1 = now
    | Ret false => status s'.1 = IN_PROCESS
    | Throw _ => False
    | Terminated => True
    end) (job, c).
Proof.
  intros Hl. unfold process. apply wp_try_catch.
  assert (Hm : wp
    (_ ← on_job (setStatus IN_PROCESS now);
     connected ← await_connection configuration fuel 0;
     if connected : bool then
       _ ← on_job (setMessage "");
       job ← get_job;
       _ ← match type job with
           | PULL => pull have_pq configuration now
           | REMOVE_BY_ATTRIBUTES => removeByAttributes have_pq configuration now
           end;
       mret true
     else mret false)
    (fun r s' => id s'.1 = id job /\ layerName s'.1 = layerName job /\
      match r with
      | Ret true => isDone s'.1 = true /\ timeFinished s'.1 = now
      | Ret false => status s'.1 = IN_PROCESS
      | Throw e => is_job_error e = true
      | Terminated => True
      end) (job, c)).
  { apply wp_bind. unfold wp at 1, on_job at 1, modify. cbn [seq_post].
    apply wp_bind. eapply wp_mono; [apply await_connection_post|].
    intros r [j1 c1] [[m Hj] Hr]. simpl in Hj.
    assert (Hj1 : id j1 = id job /\ layerName j1 = layerName job /\ status j1 = IN_PROCESS) by (by subst j1).
    destruct Hj1 as (Hi & Hn & Hst).
    destruct r as [[]|e|]; cbn [seq_post]; [..|done].
    - apply wp_bind. unfold wp at 1, on_job at 1, modify. cbn [seq_post].
      apply wp_bind. unfold get_job at 1, gets, wp at 1. cbn [seq_post fst].
      set (j2 := setMessage "" j1). assert (Hl2 : getLayer configuration (layerName j2) = Ret layer)
        by (simpl; by rewrite Hn).
      apply wp_bind. eapply wp_mono with (Q := fun r s' => job_outcome now j2 r s'.1).
      + destruct (type j2).
        * unfold wp. destruct (pull have_pq configuration now (j2, c1)) as [r [j3 c3]] eqn:Hp.
          destruct (pull_result have_pq configuration now j2 c1 r j3 c3 layer Hl2 Hp)
            as [(Hi3 & _ & Hn3 & _) Hr3]. split; [done|]. split; [done|]. simpl.
          destruct r as [u|e|]; [|by destruct Hr3|done]. destruct Hr3 as (Hs3 & Ht3 & _).
          split; [|done]. apply bool_decide_eq_true. by left.
        * eapply removeByAttributes_outcome; exact Hl2.
      + intros r [j3 c3] (Hi3 & Hn3 & Hr3).
        assert (Hi' : id j3 = id job) by (rewrite <- Hi; exact Hi3).
        assert (Hn' : layerName j3 = layerName job) by (rewrite <- Hn; exact Hn3).
        simpl in Hr3. destruct r as [u|e|]; cbn [seq_post]; [apply wp_ret|..]; simpl; naive_solver.
    - by repeat split.
    - split; [done|]. split; [done|]. unfold is_job_error. by rewrite Hr. }
  eapply wp_mono; [exact Hm|]. intros r [j1 c1] (Hi & Hn & Hr). simpl in *.
  destruct r as [[]|e|]; [done|done| |done].
  destruct e; try discriminate Hr; unfold wp; simpl; repeat split; try done;
    by apply bool_decide_eq_true; right.
Qed.

(** [C10] The worker never loses a job: when the layer is configured, handling
    the job ends, unless the process crashes or still waits for a connection,
    with the job finished or failed and the finish time set; no exception
    leaves the loop, whatever the source and the database answer. *)
Theorem process_completes fuel now job c r job' c' layer :
  getLayer configuration (layerName job) = Ret layer ->
  process have_pq configuration fuel now (job, c) = (r, (job', c')) ->
  id job' = id job /\
  match r with
  | Ret true => (status job' = FINISHED \/ status job' = FAILED) /\ timeFinished job' = now
  | Ret false => status job' = IN_PROCESS
  | Throw _ => False
  | Terminated => True
  end.
Proof.
  intros Hl Hr. pose proof (process_result fuel now job c layer Hl) as H. unfold wp in H. rewrite Hr in H.
  destruct H as (Hi & _ & H). split; [done|]. simpl in *.
  destruct r as [[]|e|]; try done. destruct H as [Hd Ht]. split; [|done].
  by apply bool_decide_eq_true in Hd.
Qed.

(** A job for a layer that is not configured is marked FAILED, but its
    [ConfigurationError] is thrown again by the last handler and leaves [run]:
    the worker thread, and with it the process, ends.  (The HTTP handlers
    refuse such a job before it is queued.) *)
Theorem unknown_layer_ends_worker fuel now job c c' :
  layers configuration !! layerName job = None ->
  reconnect (db_connection_string configuration) true c = (Ret true, c') ->
  exists job', process have_pq configuration (S fuel) now (job, c) =
    (Throw (ConfigurationError (cat ["Layer "; layerName job; " not found"])), (job', c')) /\
    status job' = FAILED /\ message job' = cat ["Layer "; layerName job; " not found"].
Proof.
  intros Hl Hc.
  assert (Hg : getLayer configuration (layerName job) =
               Throw (ConfigurationError (cat ["Layer "; layerName job; " not found"])))
    by (unfold getLayer; by rewrite Hl).
  set (j1 := setMessage "" (setStatus IN_PROCESS now job)).
  assert (Hd : (match type j1 with
                | PULL => pull have_pq configuration now
                | REMOVE_BY_ATTRIBUTES => removeByAttributes have_pq configuration now
                end) (j1, c') =
               (Throw (ConfigurationError (cat ["Layer "; layerName job; " not found"])), (j1, c'))).
  { destruct (type j1); unfold pull, removeByAttributes; erewrite bind_step by reflexivity;
      change (layerName (j1, c').1) with (layerName job); rewrite Hg; reflexivity. }
  eexists. unfold process, try_catch. erewrite bind_step by reflexivity.
  erewrite bind_step by (cbn [await_connection]; erewrite bind_step by (unfold on_db; by rewrite Hc);
                         reflexivity).
  cbn iota. erewrite bind_step by reflexivity. erewrite bind_step by reflexivity.
  erewrite bind_throw by exact Hd. split; [reflexivity|]. by split.
Qed.

(** A job whose layer is configured. *)
Definition known (s : JobStorage) (p : JobPtr) : Prop :=
  exists j layer, heap s !! p = Some j /\ getLayer configuration (layerName j) = Ret layer.

Definition done_at (s : JobStorage) (p : JobPtr) : Prop :=
  exists j, heap s !! p = Some j /\ isDone j = true.

Definition reachable_database : Prop :=
  forall c, exists c', reconnect (db_connection_string configuration) true c = (Ret true, c').

(** Nobody waits for a database that can be reached. *)
Lemma process_connected fuel now j c s :
  reachable_database -> process have_pq configuration (S fuel) now (j, c) <> (Ret false, s).
Proof.
  intros Hc. destruct (Hc c) as [c1 Hc1]. unfold process, try_catch. erewrite bind_step by reflexivity.
  erewrite bind_step by (cbn [await_connection]; erewrite bind_step by (unfold on_db; by rewrite Hc1); reflexivity).
  cbn iota. erewrite bind_step by reflexivity. erewrite bind_step by reflexivity. unfold mbind, M_bind.
  set (m := match type _ with PULL => pull _ _ _ | REMOVE_BY_ATTRIBUTES => _ end).
  destruct (m _) as [[u|e|] s1]; [by intros [=]| |by intros [=]].
  destruct e; cbn; by intros [=].
Qed.

(** The turn that takes the front of the queue. *)
Record item_turn (fuel : nat) (w : Worker) (p : JobPtr) (rest : list JobPtr) (r : result turn) (w' : Worker) : Prop := {
  it_queue : queue (jobs w') = mkQueue rest (continue_ (queue (jobs w)));
  it_known : forall p', known (jobs w) p' -> known (jobs w') p';
  it_done : forall p', p' <> p -> done_at (jobs w) p' -> done_at (jobs w') p';
  it_result : match r with
    | Ret (Handled p') => p' = p /\ done_at (jobs w') p
    | Ret WaitsForDatabase =>
      (exists j, heap (jobs w') !! p = Some j /\ status j = IN_PROCESS) /\ (0 < fuel -> ~ reachable_database)
    | Terminated => True
    | _ => False
    end
}.

Lemma run_turn_item fuel now w p rest :
  queue_ (queue (jobs w)) = p :: rest -> known (jobs w) p ->
  exists r w', run_turn have_pq configuration fuel now w = (r, w') /\ item_turn fuel w p rest r w'.
Proof.
  intros Hq (j & layer & Hj & Hl).
  destruct (process have_pq configuration fuel now (j, db w)) as [r [j' c']] eqn:Hr.
  pose proof (process_result fuel now j (db w) layer Hl) as Hpost. unfold wp in Hpost. rewrite Hr in Hpost.
  destruct Hpost as (_ & Hn & Hd). simpl in Hn, Hd.
  set (w' := mkWorker (update_job p j' (set_queue (mkQueue rest (continue_ (queue (jobs w)))) (jobs w))) c').
  assert (Hitem : forall r', match r' with
    | Ret (Handled p') => p' = p /\ done_at (jobs w') p
    | Ret WaitsForDatabase =>
      (exists j, heap (jobs w') !! p = Some j /\ status j = IN_PROCESS) /\ (0 < fuel -> ~ reachable_database)
    | Terminated => True
    | _ => False
    end -> item_turn fuel w p rest r' w').
  { intros r' Hr'. split; [done|..|exact Hr']; unfold known, done_at; simpl; intros p'.
    - intros (j1 & l1 & Hj1 & Hl1). destruct (decide (p = p')) as [<-|Hne].
      + exists j', layer. rewrite lookup_insert_eq, Hn. by split.
      + exists j1, l1. by rewrite lookup_insert_ne.
    - intros Hne (j1 & Hj1 & Hd1). exists j1. by rewrite lookup_insert_ne. }
  assert (Hturn : run_turn have_pq configuration fuel now w =
    (match r with Ret true => Ret (Handled p) | Ret false => Ret WaitsForDatabase
                | Throw e => Throw e | Terminated => Terminated end, w')).
  { unfold run_turn.
    erewrite bind_step by (unfold on_jobs, storage_popNoWait, popNoWait; rewrite Hq; cbn iota beta; reflexivity).
    unfold process_pointer. cbn [jobs heap set_queue db]. rewrite Hj, Hr. by destruct r as [[]|e|]. }
  eexists _, w'. split; [exact Hturn|]. apply Hitem. unfold done_at. cbn. rewrite lookup_insert_eq.
  destruct r as [[]|e|]; [|split|done|done].
  - split; [done|]. exists j'. by destruct Hd.
  - by exists j'.
  - intros Hf Hreach. destruct fuel as [|fuel]; [lia|]. by eapply process_connected.
Qed.

Lemma run_turn_quit fuel now w :
  queue (jobs w) = mkQueue [] false ->
  exists w', run_turn have_pq configuration fuel now w = (Ret Exited, w') /\
    queue (jobs w') = mkQueue [] false /\ heap (jobs w') = heap (jobs w).
Proof.
  destruct w as [[h m q a] c]. simpl. intros ->. unfold run_turn.
  destruct (use_persistent_connections configuration); eexists; (split; [reflexivity|]); by split.
Qed.

(** The loop after [quit]; what was done before stays done. *)
Lemma run_drains fuel now l w r w' :
  queue (jobs w) = mkQueue l false -> (forall p, p ∈ l -> known (jobs w) p) ->
  run have_pq configuration fuel now (S (length l)) w = (r, w') ->
  exists finished rest, l = finished ++ rest /\
    (forall p, p ∈ finished -> p ∉ rest -> done_at (jobs w') p) /\
    match r with
    | Ret Exited => rest = [] /\ queue (jobs w') = mkQueue [] false
    | Ret WaitsForDatabase =>
      (0 < fuel -> ~ reachable_database) /\
      exists p rest' j, rest = p :: rest' /\ queue (jobs w') = mkQueue rest' false /\
        heap (jobs w') !! p = Some j /\ status j = IN_PROCESS
    | Terminated => exists p rest', rest = p :: rest' /\ queue (jobs w') = mkQueue rest' false
    | _ => False
    end.
Proof.
  intros Hq Hk Hr. assert (Hmain : exists finished rest, l = finished ++ rest /\
    (forall p, p ∈ finished \/ done_at (jobs w) p -> p ∉ rest -> done_at (jobs w') p) /\
    match r with
    | Ret Exited => rest = [] /\ queue (jobs w') = mkQueue [] false
    | Ret WaitsForDatabase =>
      (0 < fuel -> ~ reachable_database) /\
      exists p rest' j, rest = p :: rest' /\ queue (jobs w') = mkQueue rest' false /\
        heap (jobs w') !! p = Some j /\ status j = IN_PROCESS
    | Terminated => exists p rest', rest = p :: rest' /\ queue (jobs w') = mkQueue rest' false
    | _ => False
    end).
  2: { destruct Hmain as (fi & rest & E & Hd & H). exists fi, rest. by auto. }
  revert w Hq Hk Hr. induction l as [|p l IH]; intros w Hq Hk Hr.
  - destruct (run_turn_quit fuel now w Hq) as (w1 & H1 & Hq1 & Hh). cbn [length run] in Hr.
    erewrite bind_step in Hr by exact H1. injection Hr as <- <-. exists [], []. split; [done|]. split; [|done].
    intros p [Hp|Hp] _; [by apply not_elem_of_nil in Hp|]. unfold done_at in *. by rewrite Hh.
  - destruct (run_turn_item fuel now w p l) as (r1 & w1 & H1 & [Hq1 Hk1 Hd1 Hres]); [by rewrite Hq|apply Hk; left|].
    rewrite Hq in Hq1. cbn [continue_] in Hq1. change (length (p :: l)) with (S (length l)) in Hr.
    assert (Hstop : forall p', p' ∈ [] \/ done_at (jobs w) p' -> p' ∉ p :: l -> done_at (jobs w1) p').
    { intros p' [Hp|Hp] Hn; [by apply not_elem_of_nil in Hp|]. apply Hd1; [|done]. intros ->. apply Hn. left. }
    remember (S (length l)) as turns eqn:Ht. cbn [run] in Hr. unfold mbind, M_bind in Hr. rewrite H1 in Hr.
    destruct r1 as [[| | |p1]|e|]; [done| |done| |done|].
    + injection Hr as <- <-. destruct Hres as [(j & Hj & Hst) Hw]. exists [], (p :: l). split; [done|].
      split; [exact Hstop|]. split; [exact Hw|]. by exists p, l, j.
    + destruct Hres as [-> Hdp]. subst turns.
      destruct (IH w1 Hq1) as (fi & rest & -> & Hd & H); [intros p' Hp'; apply Hk1, Hk; by right|exact Hr|].
      exists (p :: fi), rest. split; [done|]. split; [|exact H]. intros p' Hp' Hn. apply Hd; [|done].
      destruct (decide (p' = p)) as [->|N]; [by right|]. destruct Hp' as [[->|Hp']%elem_of_cons|Hp']; [done|by left|].
      right. by apply Hd1.
    + injection Hr as <- <-. exists [], (p :: l). split; [done|]. split; [exact Hstop|]. by exists p, l.
Qed.

(** [C11] [quit] does not drop jobs.  With [n] jobs in the queue, all of
    configured layers, and whatever the database answers, a worker that is told to
    quit takes them one after the other with [popNoWait], which ignores the flag,
    and is out of its loop after at most [n + 1] turns: it has left [run] with an
    empty queue and every job done, or it was stopped in the middle of one job by
    the end of the process or, with the jobs before it done and the rest still
    queued, by a database that it keeps waiting for.  It never blocks in [popWait]
    and no exception ends it; with a database that can be reached it does not
    wait either. *)
Theorem run_drains_queue fuel now w l r w' :
  queue (jobs w) = mkQueue l false -> (forall p, p ∈ l -> known (jobs w) p) ->
  run have_pq configuration fuel now (S (length l)) w = (r, w') ->
  exists finished rest, l = finished ++ rest /\
    (forall p, p ∈ finished -> p ∉ rest -> done_at (jobs w') p) /\
    match r with
    | Ret Exited => rest = [] /\ queue (jobs w') = mkQueue [] false
    | Ret WaitsForDatabase =>
      (0 < fuel -> ~ reachable_database) /\
      exists p rest' j, rest = p :: rest' /\ queue (jobs w') = mkQueue rest' false /\
        heap (jobs w') !! p = Some j /\ status j = IN_PROCESS
    | Terminated => exists p rest', rest = p :: rest' /\ queue (jobs w') = mkQueue rest' false
    | _ => False
    end.
Proof. intros Hq Hk. by apply run_drains. Qed.
End Properties.

(** ** Witnesses *)
Module WorkerExample.
(** A server on which everything succeeds, with a table [public.trees]. *)
Definition server : LibPQ := PullExample.server false.
Definition connection0 : @Connection server := PullExample.connection0 false.

Definition layer (allow : bool) : Layer :=
  mkLayer "trees" "trees.shp" "trees" "" "trees" "public" "" allow false [] true false BULK_DELETE.
Definition configuration (allow : bool) : Configuration :=
  set_layers {["trees" := layer allow]} Configuration_default.
Definition removal : Job :=
  with_attributeSets [{["title" := Nullable_of "oak"]}]
    (with_layerName "trees" (Job_new REMOVE_BY_ATTRIBUTES "ab-cd" 5)).

(** The conditions of a removal of the trees with a given title. *)
Definition conditions (title : string) :=
  set_conditions (PQ := server) true "trees" "trees" {["title" := mkField "title" "text" 0 false]}
    [{["title" := Nullable_of title]}] ("", []) (mkTransaction connection0 [] false).
End WorkerExample.

Lemma removal_is_parameterised_witness :
  exists s v1 v2,
    (WorkerExample.conditions "oak").1 = Ret (s, v1) /\
    (WorkerExample.conditions "' or 1=1").1 = Ret (s, v2) /\ v1 <> v2.
Proof.
  pose proof (removal_is_parameterised (PQ := WorkerExample.server) true "trees" "trees"
    {["title" := mkField "title" "text" 0 false]} [{["title" := Nullable_of "oak"]}]
    [{["title" := Nullable_of "' or 1=1"]}] (mkTransaction WorkerExample.connection0 [] false) eq_refl) as H.
  unfold WorkerExample.conditions.
  destruct (set_conditions _ _ _ _ [{["title" := Nullable_of "oak"]}] _ _) as [r1 t1] eqn:E1.
  destruct (set_conditions _ _ _ _ [{["title" := Nullable_of "' or 1=1"]}] _ _) as [r2 t2] eqn:E2.
  apply (f_equal fst) in E1, E2. vm_compute in E1, E2.
  destruct r1 as [[s1 v1]|e1|]; [|discriminate E1|discriminate E1].
  destruct r2 as [[s2 v2]|e2|]; [|discriminate E2|discriminate E2].
  destruct H as [_ H]. exists s1, v1, v2. split; [reflexivity|].
  split; [by rewrite (proj1 H)|]. injection E1 as _ <-. injection E2 as _ <-. discriminate.
Defined.

Lemma removal_needs_permission_witness :
  exists r job' c', removeByAttributes (PQ := WorkerExample.server) true (WorkerExample.configuration false) 9
    (WorkerExample.removal, WorkerExample.connection0) = (r, (job', c')) /\
    c' = WorkerExample.connection0 /\ status job' = FAILED.
Proof.
  destruct (removeByAttributes (PQ := WorkerExample.server) true (WorkerExample.configuration false) 9
    (WorkerExample.removal, WorkerExample.connection0)) as [r [job' c']] eqn:Hr.
  exists r, job', c'. split; [reflexivity|].
  destruct (removal_needs_permission (PQ := WorkerExample.server) true
    (WorkerExample.configuration false) 9 WorkerExample.removal WorkerExample.connection0 r job' c'
    (WorkerExample.layer false) eq_refl Hr) as (_ & Hc & Hs & _).
  split; [exact Hc|exact Hs].
Defined.

Lemma process_completes_witness :
  exists r job' c', process (PQ := WorkerExample.server) (GD := PullExample.library) true
    (WorkerExample.configuration true) 1 9 (WorkerExample.removal, WorkerExample.connection0) =
    (r, (job', c')) /\ r = Ret true /\ (status job' = FINISHED \/ status job' = FAILED).
Proof.
  destruct (process (PQ := WorkerExample.server) (GD := PullExample.library) true
    (WorkerExample.configuration true) 1 9 (WorkerExample.removal, WorkerExample.connection0))
    as [r [job' c']] eqn:Hr.
  exists r, job', c'. split; [reflexivity|].
  pose proof (process_completes (PQ := WorkerExample.server) (GD := PullExample.library) true
    (WorkerExample.configuration true) 1 9 WorkerExample.removal WorkerExample.connection0 r job' c'
    (WorkerExample.layer true) eq_refl Hr) as [_ H].
  assert (Ht : r = Ret true) by (apply (f_equal fst) in Hr; vm_compute in Hr; symmetry; exact Hr).
  split; [exact Ht|]. rewrite Ht in H. exact (proj1 H).
Defined.

Lemma unknown_layer_ends_worker_witness :
  exists job' c', process (PQ := WorkerExample.server) (GD := PullExample.library) true
    Configuration_default 1 9 (WorkerExample.removal, WorkerExample.connection0) =
    (Throw (ConfigurationError "Layer trees not found"), (job', c')) /\ status job' = FAILED.
Proof.
  destruct (reconnect (PQ := WorkerExample.server) "" true WorkerExample.connection0) as [r c1] eqn:Hc.
  assert (Hr : r = Ret true) by (apply (f_equal fst) in Hc; vm_compute in Hc; symmetry; exact Hc).
  subst r.
  destruct (unknown_layer_ends_worker (PQ := WorkerExample.server) (GD := PullExample.library) true
    Configuration_default 0 9 WorkerExample.removal WorkerExample.connection0 c1
    (lookup_empty _) Hc) as (job' & Hp & Hs & _).
  exists job', c1. split; [exact Hp|exact Hs].
Defined.

Definition down_server : LibPQ := mock_pq (fun _ => mock_error "57P03" "starting up").

Definition quitting : @Worker down_server :=
  mkWorker (PQ := down_server)
    (mkJobStorage {[0 := WorkerExample.removal]} {["abcd" := 0]} (mkQueue [0] false) 10)
    (@mkConnection down_server None true []).
Definition drained : result turn * Worker :=
  run (PQ := down_server) (GD := PullExample.library) true (WorkerExample.configuration true) 1 9 2 quitting.

Lemma run_drains_queue_witness : drained.1 = Ret Exited /\ done_at (jobs drained.2) 0.
Proof.
  split; [vm_compute; reflexivity|].
  destruct (run_drains_queue (PQ := down_server) (GD := PullExample.library) true
    (WorkerExample.configuration true) 1 9 quitting [0] (Ret Exited) drained.2 eq_refl) as (fi & rest & E & Hd & -> & _).
  - intros p ->%list_elem_of_singleton.
    exists WorkerExample.removal, (WorkerExample.layer true). split; reflexivity.
  - vm_compute. reflexivity.
  - apply Hd; [|by apply not_elem_of_nil]. rewrite app_nil_r in E. rewrite <- E. left.
Defined.
