(* ===== verification/Removal.v ===== *)
(** * A removal deletes the rows that match

    The statement of [Worker::removeByAttributes] against a server that does what
    the PostgreSQL manual says of [delete] and [is not distinct from]: [sets_text]
    writes the condition, [removal_server] is what is assumed of the server for
    one job, and the property says which rows are left. *)
From S2P Require Import Prelude Numbers StringUtils NullableValue Configuration Job.
From S2P Require Import LibPQ Connection Transaction Requests Pull Calls Worker WorkerSpec.

Section Removal.
Context {PQ : LibPQ} (have_pq : bool).

(** ** One removal: its table, the columns of it and the attribute sets *)
Context (schema table : string) (fields : FieldMap) (sets : list AttributeSet).
Context (quote : string -> string).
#[local] Abbreviation q := (q quote).
#[local] Abbreviation qj := (qj quote).

(** ** The text of the statement, [n] values before *)
Definition condition_text (k : string) (n : nat) : string :=
  cat [qj table k; " is not distinct from $"; to_string (Z.of_nat n); "::"; pgTypeName (table_field fields k)].

Fixpoint conditions_text (first : bool) (n : nat) (attributes : list (string * NullableValue)) : string :=
  match attributes with
  | [] => ""
  | (k, _) :: l => cat [if first then "" else " and "; condition_text k (S n); conditions_text false (S n) l]
  end.

Fixpoint sets_text (n : nat) (l : list AttributeSet) : string :=
  match l with
  | [] => ""
  | s :: l' =>
    if decide (0 < base.size s)
    then cat [if decide (n = 0) then "" else " or "; " ( "; conditions_text true n (ordered s); " ) ";
              sets_text (n + length (ordered s)) l']
    else sets_text n l'
  end.

Definition delete_text : string :=
  cat ["delete from "; qj schema table; " where "; sets_text 0 sets].

(** ** What the statement means *)
Context {cell : Type}.
(** The value of a parameter cast to a type, and the equality of the type. *)
Context (cast : string -> string -> cell) (equal : string -> cell -> cell -> bool).

(** [a is not distinct from b]. *)
Definition not_distinct (type : string) (a b : option cell) : bool :=
  match a, b with
  | Some x, Some y => equal type x y
  | None, None => true
  | _, _ => false
  end.

(** A row, without entry for a column that is NULL, against an attribute set;
    one without attributes matches nothing. *)
Definition attribute_matches (row : gmap string cell) (attribute : string * NullableValue) : bool :=
  let type := pgTypeName (table_field fields attribute.1) in
  not_distinct type (row !! attribute.1) (cast type ∘ c_str <$> nv_option attribute.2).
Definition set_matches (row : gmap string cell) (s : AttributeSet) : bool :=
  negb (bool_decide (s = ∅)) && forallb (attribute_matches row) (map_to_list s).
Definition matches (row : gmap string cell) : bool := existsb (set_matches row) sets.

(** The requests that only read. *)
Definition removal_quiet (r : request) : bool :=
  match r with
  | Exec sql => bool_decide (sql = "set DateStyle to SQL, YMD")
  | ExecParams sql _ => String.prefix "select " sql
  | _ => false
  end.

Record removal_answers (r : request) (rows : list (gmap string cell)) (res : PGresult)
  (rows' : list (gmap string cell)) : Prop := {
  ra_quiet : removal_quiet r = true -> rows' = rows;
  ra_quote : forall l, r = ExecParams (c_str ("select " +:+ quote_ident_list 0 (length l)))
                             ((fun x => Some (c_str x)) <$> l) -> tuples res = [q <$> l];
  ra_fields : r = ExecParams (c_str table_fields_query) [Some (c_str table); Some (c_str schema)] ->
    forall m, fold_result (read_field res) (seq 0 (PQntuples res)) ∅ = Ret m -> m = fields;
  ra_delete : r = ExecParams (c_str delete_text) (PGParams (set_values sets)) ->
    rows' ≡ₚ List.filter (fun row => negb (matches row)) rows /\
    cmdTuples res = to_string (Z.of_nat (length (List.filter matches rows)))
}.

Record removal_server (rows_of : PGconn -> list (gmap string cell)) : Prop := {
  rs_answers : forall r p res p', PQrequest r p = (Some res, p') ->
    resultStatus res <> PGRES_FATAL_ERROR -> removal_answers r (rows_of p) res (rows_of p');
  rs_escape : forall p s e, PQescapeIdentifier p s = Some e -> e = quote s;
  rs_nul : forall s, nul_free (quote s);
  rs_ends : Transactional rows_of []
}.

(** A removal that returned and was not rolled back. *)
Record committed_removal (configuration : Configuration) (now : Z) (job : Job) (c : Connection) (p : PGconn)
  (job' : Job) (c' : Connection) : Prop := {
  cr_layer : exists layer, getLayer configuration (layerName job) = Ret layer /\
    allow_feature_deletion layer = true /\ target_table_schema layer = schema /\
    target_table_name layer = table;
  cr_sets : attributeSets job = sets;
  cr_pgconn : pgconn c = Some p;
  cr_run : removeByAttributes have_pq configuration now (job, c) = (Ret tt, (job', c'));
  cr_committed : exists new, sent c' = sent c ++ new /\ (Exec "rollback;", true) ∉ new
}.

Section Server.
Context {rows_of : PGconn -> list (gmap string cell)} (Hrs : removal_server rows_of).

#[local] Instance removal_view : Server rows_of := {|
  Calls.answers := removal_answers;
  Calls.quiet := removal_quiet;
  Calls.quote := quote;
  sv_answers := rs_answers _ Hrs;
  sv_quiet := ra_quiet;
  sv_select := fun sql _ => prefix_app "select " sql;
  sv_escape := rs_escape _ Hrs;
  sv_nul := rs_nul _ Hrs;
  sv_remote := fun l s res s' H => ra_quote _ _ _ _ H l eq_refl
|}.
#[local] Abbreviation ran := (ran rows_of).
#[local] Abbreviation reads := (reads rows_of).

(** ** The statement is built as it is rendered *)
Lemma attribute_conditions_reads n i l acc :
  reads (attribute_conditions have_pq n table fields i l acc) (fun acc' =>
    acc' = (cat [acc.1; conditions_text (bool_decide (i = 0)) (length acc.2) l], acc.2 ++ l.*2) /\
    Forall (fun k => is_Some (fields !! k)) l.*1).
Proof.
  revert i acc. induction l as [|[k v] l IH]; intros i [s vs]; cbn [attribute_conditions conditions_text fst snd].
  - eapply ran_mono; [apply reads_ret|]. intros ? acc' ? [-> <-]. cbn.
    by rewrite app_nil_r, string_app_nil_r.
  - destruct (fields !! k) as [f|] eqn:Hf; [|by intros ????].
    eapply ran_after; [apply quoteAndJoinIdent_reads|]. intros qk <-. eapply ran_mono; [apply IH|].
    intros ? acc' ? [-> [-> Hl]]. split; [done|]. cbn [fst snd fmap list_fmap]. split; [|by constructor].
    rewrite length_app, Nat.add_1_r, <- app_assoc. f_equal.
    unfold condition_text, table_field. rewrite Hf. cbn [default from_option id].
    rewrite !cat_cons, !string_app_assoc. by destruct i.
Qed.

Lemma set_conditions_reads n l acc :
  reads (set_conditions have_pq n table fields l acc) (fun acc' =>
    acc' = (cat [acc.1; sets_text (length acc.2) l], acc.2 ++ set_values l) /\
    Forall (fun s => Forall (fun k => is_Some (fields !! k)) (ordered s).*1) l).
Proof.
  revert acc. induction l as [|s l IH]; intros [text vs]; cbn [set_conditions sets_text fst snd].
  - eapply ran_mono; [apply reads_ret|]. intros ? acc' ? [-> <-]. cbn. by rewrite app_nil_r, string_app_nil_r.
  - case_decide as Hs.
    + eapply ran_after; [apply attribute_conditions_reads|]. intros acc1 [-> Hl1].
      eapply ran_mono; [apply IH|]. intros ? acc' ? [-> [-> Hl]]. split; [done|]. cbn [fst snd].
      split; [|by constructor]. unfold set_values. cbn [flat_map].
      rewrite length_app, length_fmap, <- app_assoc. f_equal. rewrite !cat_cons, !string_app_assoc. by destruct vs.
    + eapply ran_mono; [apply IH|]. intros ? acc' ? [-> [-> Hl]]. split; [done|]. cbn [fst snd].
      assert (Hz : base.size s = 0) by lia. pose proof (ordered_empty s Hz) as He. split.
      * unfold set_values. cbn [flat_map]. by rewrite He.
      * constructor; [|done]. destruct (ordered s); [constructor|done].
Qed.
(** Without values there is no attribute set that could match. *)
Lemma set_values_nil row : set_values sets = [] -> matches row = false.
Proof.
  unfold set_values, matches. induction sets as [|s l IH]; [done|]. cbn [flat_map existsb].
  intros [Hs Hl]%app_eq_nil. rewrite IH by done. rewrite orb_false_r. unfold set_matches.
  rewrite bool_decide_eq_true_2; [done|]. apply fmap_nil_inv in Hs. unfold ordered in Hs.
  apply map_to_list_empty_iff, Permutation_nil. rewrite <- Hs. apply merge_sort_Permutation.
Qed.

Definition removed (rows rows' : list (gmap string cell)) (n : Z) : Prop :=
  rows' ≡ₚ List.filter (fun row => negb (matches row)) rows /\ counted n (length (List.filter matches rows)).

Lemma unmatched_removed rows : (forall row, matches row = false) -> removed rows rows 0.
Proof.
  intros H. unfold removed, counted. induction rows as [|row rows [IH1 IH2]]; [done|].
  cbn [List.filter]. rewrite H. cbn [negb]. by split; [rewrite <- IH1|].
Qed.

Lemma delete_by_attributes_ran layer n :
  target_table_schema layer = schema -> target_table_name layer = table ->
  ran (delete_by_attributes have_pq layer n sets) (fun s z s' =>
    s'.2 = s.2 /\ removed s.1 s'.1 z /\
    Forall (fun s => Forall (fun k => is_Some (fields !! k)) (ordered s).*1) sets).
Proof.
  intros Hs Ht. unfold delete_by_attributes. rewrite Hs, Ht.
  eapply ran_after; [by apply (exec_reads rows_of)|intros _ _].
  eapply ran_after; [apply (getTableFields_reads rows_of _ _ fields)|intros ? <-].
  { intros s res s' Ha. exact (ra_fields _ _ _ _ Ha eq_refl). }
  eapply ran_after; [apply quoteAndJoinIdent_reads|intros ? <-].
  eapply ran_after; [apply set_conditions_reads|]. intros [text vs] [[= -> ->] Hf].
  cbn [fst snd length app]. case_bool_decide as Hv; cbn [negb].
  - eapply ran_mono; [apply reads_ret|]. intros s z s' [-> <-]. split; [done|]. split; [|done].
    apply unmatched_removed. intros row. by apply set_values_nil.
  - eapply ran_mono; [eapply ran_bind; [apply (execParams_ran rows_of)|intros res; apply reads_ret]|].
    intros s z s' (res & s1 & [He Ha] & -> & <-). split; [done|]. split; [|done].
    destruct (ra_delete _ _ _ _ Ha eq_refl) as [Hrows Hn]. split; [done|]. by apply affected_counted.
Qed.
End Server.

(** The rows that are left. *)
Lemma removal_rows rows_of configuration now job c p job' c' :
  removal_server rows_of -> committed_removal configuration now job c p job' c' ->
  exists p', pgconn c' = Some p' /\
    rows_of p' ≡ₚ List.filter (fun row => negb (matches row)) (rows_of p) /\
    counted (numDeleted job') (length (List.filter matches (rows_of p))) /\ status job' = FINISHED /\
    Forall (fun s => Forall (fun k => is_Some (fields !! k)) (ordered s).*1) sets.
Proof.
  intros Hrs [(layer & Hl & Ha & Hschema & Htable) Hsets Hc Hrun (new & Hsent & Hnew)].
  unfold removeByAttributes, get_job, gets, lift, mbind, M_bind in Hrun. cbn [fst] in Hrun.
  rewrite Hl, Ha in Hrun. cbn [negb] in Hrun.
  apply with_transaction_inv in Hrun as (res & t1 & t2 & u & t3 & H1 & H2 & H3 & ->).
  pose proof (rs_ends _ Hrs) as Hends.
  destruct (begin_observed rows_of rows_of [] _ _ _ _ Hc H1) as (p1 & Hs1 & Ht1 & Hsent1).
  unfold remove_body in H2. apply M_bind_inv in H2 as (j & [j0 t0] & [= <- <- <-] & H2).
  rewrite Hsets in H2. apply tx_inv in H2 as (z & t2' & H2 & H4).
  injection H4 as <- <-.
  destruct (delete_by_attributes_ran Hrs _ _ Hschema Htable _ _ _ _ H2 Hs1) as ([rows' ex'] & Hs' & He & Hr & Hf).
  cbn [fst snd] in *. subst ex'.
  unfold snap in Hs'. destruct (pgconn (connection t2')) as [p2|] eqn:Hp2; [|done]. injection Hs' as Hrows Hex.
  destruct (destroy_observed rows_of [] t2' u t3 p2) as [(more & Hm)|(p' & Hp' & Ht')]; try done.
  - by rewrite Hex.
  - destruct Hnew. destruct (le_sent (keeps_run _ _ _ _ _ _ _ (delete_by_attributes_tx _ _ _ _) H2))
      as (mid & exits & Hmid & _).
    rewrite Hm, Hmid, Hsent1, <- !app_assoc in Hsent. apply app_inv_head in Hsent as <-. set_solver.
  - exists p'. split; [done|]. rewrite Ht', Hrows, <- Ht1. by destruct Hr.
Qed.

(** ** Properties *)

(** [C5] What a removal is for: when it returns on a layer that allows it and was
    committed, on a server that does what the manual says, the rows that are left
    are those that match none of the attribute sets of the job, the number of the
    job is that of the rows removed, and every attribute named a column.  A set
    matches a row when it has an attribute and the columns have its values, NULL
    for a null; a set without attributes matches nothing. *)
Theorem removal_removes_matching rows_of configuration now job c p job' c' :
  removal_server rows_of -> committed_removal configuration now job c p job' c' ->
  exists p', pgconn c' = Some p' /\
    rows_of p' ≡ₚ List.filter (fun row => negb (matches row)) (rows_of p) /\
    counted (numDeleted job') (length (List.filter matches (rows_of p))) /\ status job' = FINISHED /\
    Forall (fun s => Forall (fun k => is_Some (fields !! k)) (ordered s).*1) sets.
Proof. apply removal_rows. Qed.
End Removal.

(** ** Witness: a table of trees on a server that runs the statement *)
Module RemovalExample.
Definition layer : Layer :=
  mkLayer "trees" "trees.shp" "trees" "" "trees" "public" "" true false [] true false BULK_DELETE.
Definition configuration : Configuration := set_layers {["trees" := layer]} Configuration_default.

Definition catalogue : list (list string) := [["gid"; "int4"; "23"; "Y"]; ["title"; "text"; "25"; "N"]].
Definition fields : FieldMap :=
  {["gid" := mkField "gid" "int4" 23 true; "title" := mkField "title" "text" 25 false]}.

Definition quote (s : string) : string := cat [dquote; c_str s; dquote].
Definition cast (_ v : string) : string := v.
Definition equal (_ : string) : string -> string -> bool := String.eqb.
(** The server, for the attribute sets of one job. *)
Section Run.
Context (sets : list AttributeSet).

Definition statement : string := c_str (delete_text "public" "trees" fields sets quote).
Definition failure : option PGresult := mock_error "42601" "not understood".

Definition run_request (r : request) (rows : list (gmap string string))
  : option PGresult * list (gmap string string) :=
  match r with
  | Exec sql =>
    (if bool_decide (sql ∈ ["begin;"; "commit;"; "set DateStyle to SQL, YMD"]) then mock_ok [] "" else failure, rows)
  | ExecParams sql vs =>
    if bool_decide (sql = c_str table_fields_query) then (mock_ok catalogue "2", rows)
    else if bool_decide (sql = statement /\ vs = PGParams (set_values sets))
    then (mock_ok [] (to_string (Z.of_nat (length (List.filter (matches fields sets cast equal) rows)))),
          List.filter (fun row => negb (matches fields sets cast equal row)) rows)
    else (failure, rows)
  | _ => (failure, rows)
  end.

Definition server : LibPQ := {|
  PGconn := list (gmap string string);
  PQconnectdb := fun _ => [];
  PQreset := fun c => c;
  PQstatus_ok := fun _ => true;
  PQrequest := run_request;
  PQtransactionStatus := fun _ => PQTRANS_INTRANS;
  PQerrorMessage := fun _ => "";
  PQserverVersion := fun _ => 90100%Z;
  PQescapeIdentifier := fun _ s => Some (quote s);
  PQescapeLiteral := fun _ s => Some (cat ["'"; s; "'"]);
  PQsetClientEncoding := fun _ c => (0%Z, c)
|}.

Lemma statement_head : exists rest, statement = "d" +:+ rest.
Proof. by eexists. Qed.

Lemma exec_keeps_rows sql rows res rows' : run_request (Exec sql) rows = (res, rows') -> rows' = rows.
Proof. by intros [= _ <-]. Qed.

Lemma removal_answers_ok r rows res rows' :
  run_request r rows = (Some res, rows') -> resultStatus res <> PGRES_FATAL_ERROR ->
  removal_answers "public" "trees" fields sets quote cast equal r rows res rows'.
Proof.
  intros Hr Hf. split.
  - intros Hq. destruct r as [sql|sql vs|n sql k|n vs]; [by injection Hr as _ <-| |done|done].
    cbn [run_request removal_quiet] in *. case_bool_decide; [by injection Hr as _ <-|].
    case_bool_decide as Hs; [|by injection Hr as _ <-]. destruct Hs as [-> _]. destruct statement_head as [rest E].
    by rewrite E in Hq.
  - intros l ->. cbn [run_request] in Hr.
    assert (Hn : forall n, let sql := c_str ("select " +:+ quote_ident_list 0 n) in
                   sql <> c_str table_fields_query /\ sql <> statement).
    { intros n. split; intros H.
      - destruct n as [|n]; [vm_compute in H; discriminate H|]. cbn [quote_ident_list] in H.
        rewrite decide_False in H by lia. cbn in H. discriminate H.
      - destruct statement_head as [r E]. rewrite E in H. cbn in H. discriminate H. }
    destruct (Hn (length l)) as [H1 H2]. rewrite (bool_decide_eq_false_2 _ H1) in Hr.
    rewrite bool_decide_eq_false_2 in Hr by (intros [H _]; exact (H2 H)).
    apply (f_equal fst) in Hr. unfold failure, mock_error in Hr. cbn [fst] in Hr. injection Hr as <-. by destruct Hf.
  - intros -> m. cbn [run_request] in Hr. rewrite bool_decide_eq_true_2 in Hr by reflexivity.
    apply (f_equal fst) in Hr. unfold mock_ok in Hr. cbn [fst] in Hr. injection Hr as <-.
    intros [= <-]. reflexivity.
  - intros ->. cbn [run_request] in Hr. destruct (statement_head) as [rest E].
    fold statement in Hr. rewrite bool_decide_eq_false_2 in Hr by (intros H; rewrite E in H; discriminate H).
    rewrite bool_decide_eq_true_2 in Hr by (by split). by injection Hr as <- <-.
Qed.

Lemma removal_server_ok :
  removal_server (PQ := server) "public" "trees" fields sets quote cast equal (fun rows => rows).
Proof.
  split.
  - intros r p res p'. apply removal_answers_ok.
  - by intros p s e [= <-].
  - intros s. unfold quote, cat. cbn [String.concat].
    repeat (apply nul_free_app; split); try apply c_str_nul_free; vm_compute; set_solver.
  - split; [| |by intros sql ? ? ? ?%not_elem_of_nil].
    + intros p res p' H _. by apply exec_keeps_rows in H.
    + intros p res p' H _ _ _. by apply exec_keeps_rows in H.
Qed.

Definition job : Job := with_attributeSets sets (with_layerName "trees" (Job_new REMOVE_BY_ATTRIBUTES "ab-cd" 5)).
Definition row (gid : Z) (title : option string) : gmap string string :=
  partial_alter (fun _ => title) "title" {["gid" := to_string gid]}.
Definition before : list (gmap string string) :=
  [row 1 (Some "oak"); row 2 None; row 3 (Some "fir"); row 4 (Some "oak")].
Definition connection0 : @Connection server := @mkConnection server (Some before) true [].
Definition run := removeByAttributes (PQ := server) true configuration 9 (job, connection0).
End Run.

(** The first tree, those without a title, and an empty set. *)
Definition sets : list AttributeSet :=
  [{["gid" := Nullable_of "1"; "title" := Nullable_of "oak"]}; ∅; {["title" := Nullable_new]}].
End RemovalExample.

Lemma removal_removes_matching_witness :
  numDeleted (RemovalExample.run RemovalExample.sets).2.1 = 2%Z /\
  exists p' : list (gmap string string), pgconn (RemovalExample.run RemovalExample.sets).2.2 = Some p' /\
    p' ≡ₚ [RemovalExample.row 3 (Some "fir"); RemovalExample.row 4 (Some "oak")].
Proof.
  split; [vm_compute; reflexivity|].
  assert (Hc : committed_removal (PQ := (RemovalExample.server RemovalExample.sets)) true "public" "trees"
    RemovalExample.sets
    RemovalExample.configuration 9 (RemovalExample.job RemovalExample.sets) (RemovalExample.connection0
      RemovalExample.sets) RemovalExample.before
    (RemovalExample.run RemovalExample.sets).2.1 (RemovalExample.run RemovalExample.sets).2.2).
  { split; [|reflexivity|reflexivity| |].
    - exists RemovalExample.layer. repeat split.
    - change ((RemovalExample.run RemovalExample.sets) = (Ret tt, ((RemovalExample.run RemovalExample.sets).2.1,
        (RemovalExample.run RemovalExample.sets).2.2))).
      assert (Hr : (RemovalExample.run RemovalExample.sets).1 = Ret tt) by (vm_compute; reflexivity). revert Hr.
      destruct (RemovalExample.run RemovalExample.sets) as [r [j c]]. cbn. by intros ->.
    - exists (sent (RemovalExample.run RemovalExample.sets).2.2). split; [reflexivity|].
      refine (proj1 (bool_decide_eq_true _) _). vm_compute. reflexivity. }
  destruct (removal_removes_matching (PQ := (RemovalExample.server RemovalExample.sets)) true "public" "trees"
    RemovalExample.fields
    RemovalExample.sets RemovalExample.quote RemovalExample.cast RemovalExample.equal (fun rows => rows)
    RemovalExample.configuration 9 (RemovalExample.job RemovalExample.sets) (RemovalExample.connection0
      RemovalExample.sets) RemovalExample.before _ _
    (RemovalExample.removal_server_ok RemovalExample.sets) Hc) as (p' & Hp & Hrows & _).
  exists p'. split; [exact Hp|]. rewrite Hrows. vm_compute. reflexivity.
Defined.
