(* ===== verification/Http.v ===== *)
(** * The HTTP interface: the handlers

    [src/server/error.h], [src/server/error.cpp] and the handlers of
    [src/server/http/].  Poco's request and response are the data that the
    handlers read from the one and set in the other; a handler is a call whose
    state is the job storage it can lock, if it still exists, and the response.
    Theorems about them are in [HttpSpec]. *)
From S2P Require Import Prelude NullableValue Configuration Json Job QuitableQueue JobStorage.

(** ** [Batyr::Error] *)
Record Error := mkError { err_message : string }.
Definition Error_new (msg : string) : Error := mkError msg.
Definition err_setMessage (m : string) (e : Error) : Error := mkError m.
Definition getMessage (e : Error) : string := err_message e.
Definition Error_toJsonValue (e : Error) : value :=
  AddMember "message" (toValue (err_message e)) (VObject []).
(** [operator<<(std::ostream &, const Error &)]. *)
Definition error_text (e : Error) : result string := stringify (Error_toJsonValue e).

(** ** Requests and responses *)
Inductive HTTPStatus :=
  | HTTP_OK | HTTP_NOT_MODIFIED | HTTP_BAD_REQUEST | HTTP_NOT_FOUND | HTTP_INTERNAL_SERVER_ERROR.

Record Request := mkRequest {
  method : string;
  uri : string;
  req_headers : gmap string string;
  req_body : string
}.

(** What a handler has set; [body] is [None] until [send()], and holds what went
    to the stream after it. *)
Record Response := mkResponse {
  resp_status : HTTPStatus;
  reason : string;
  headers : gmap string string;
  body : option string
}.

(** A response that nothing was set in. *)
Definition Response_new : Response := mkResponse HTTP_OK "OK" ∅ None.

Record HttpState := mkHttp { jobs : option JobStorage; resp : Response }.

Abbreviation H := (M HttpState).

Definition on_resp (f : Response -> Response) : H unit :=
  modify (fun st => mkHttp (jobs st) (f (resp st))).

Definition set_status (s : HTTPStatus) : H unit :=
  on_resp (fun r => mkResponse s (reason r) (headers r) (body r)).
Definition set_reason (s : string) : H unit :=
  on_resp (fun r => mkResponse (resp_status r) s (headers r) (body r)).
Definition set_header (n v : string) : H unit :=
  on_resp (fun r => mkResponse (resp_status r) (reason r) (<[n := v]> (headers r)) (body r)).
Definition set_content_type (v : string) : H unit := set_header "Content-Type" v.
(** [resp.send()] and the writes to its stream. *)
Definition send (text : string) : H unit :=
  on_resp (fun r => mkResponse (resp_status r) (reason r) (headers r) (Some text)).

(** [if (auto s = jobs.lock()) ... else ...]: [None] when the storage is gone. *)
Definition with_jobs {A} (m : M JobStorage A) : H (option A) := fun st =>
  match jobs st with
  | None => (Ret None, st)
  | Some s =>
    let '(r, s') := m s in
    let st' := mkHttp (Some s') (resp st) in
    match r with
    | Ret a => (Ret (Some a), st')
    | Throw e => (Throw e, st')
    | Terminated => (Terminated, st')
    end
  end.

(** [std::make_shared<Job>] together with the copy of the pointer into the
    storage: the job lives at an address that no other job has. *)
Definition new_job (j : Job) : M JobStorage JobPtr := fun s =>
  let p := fresh (dom (heap s)) in (Ret p, update_job p j s).

Section Handlers.
(** [VERSION_FULL] and [VERSION_GIT_FULL]: the build writes them into
    [config.h]. *)
Context (version_full version_git_full : string).
(** The order of the map of jobs. *)
Context (iteration : gmap string JobPtr -> list (string * JobPtr)).
Context (configuration : Configuration).

Definition APP_NAME_SERVER : string := "batyrd".
Definition APP_NAME_SERVER_FULL : string := cat [APP_NAME_SERVER; " v"; version_full].

Definition prepareResponse : H unit := set_header "Server" APP_NAME_SERVER_FULL.

Definition prepareApiResponse : H unit :=
  _ ← prepareResponse;
  _ ← set_content_type "application/json";
  _ ← set_header "Cache-Control" "no-cache";
  if negb (is_empty (access_control_allow_origin configuration)) then
    set_header "Access-Control-Allow-Origin" (access_control_allow_origin configuration)
  else mret tt.

(** The blocks that end a request early: status, reason and an [Error]. *)
Definition send_error (s : HTTPStatus) (r msg : string) : H unit :=
  _ ← set_status s;
  _ ← set_reason r;
  text ← lift (error_text (Error_new msg));
  send text.

(** [handleRequest] of the two handlers that take jobs, which differ in the
    type of the job only; [uuid] and [now] are what its constructor draws. *)
Definition post_job (jobtype : JobType) (uuid : string) (now : Z) (req : Request) : H unit :=
  _ ← prepareApiResponse;
  if negb (String.eqb (method req) "POST") then
    send_error HTTP_BAD_REQUEST "Bad Request" "Only POST requests are supported"
  else
    let '(parsed, job) := fromString (req_body req) (Job_new jobtype uuid now) in
    match parsed with
    | Terminated => terminate
    | Throw e => send_error HTTP_BAD_REQUEST "Bad Request" (what e)
    | Ret _ =>
      match getLayer configuration (layerName job) with
      | Terminated => terminate
      | Throw (ConfigurationError _) =>
        send_error HTTP_NOT_FOUND "Not Found"
          (cat ["Layer "; quoted (layerName job); " does not exist"])
      | Throw e => throw e
      | Ret _ =>
        pushed ← with_jobs (p ← new_job job; _ ← storage_push p; deref p);
        match pushed with
        | None =>
          send_error HTTP_INTERNAL_SERVER_ERROR "Internal Server Error"
            "Could not get a lock on jobstorage"
        | Some job =>
          _ ← set_status HTTP_OK;
          text ← lift (job_text job);
          send text
        end
      end
    end.

Definition PullHandler_handleRequest : string -> Z -> Request -> H unit := post_job PULL.
Definition RemoveByAttributesHandler_handleRequest : string -> Z -> Request -> H unit :=
  post_job REMOVE_BY_ATTRIBUTES.

(** The [try] block of [GetJobHandler]: only [std::out_of_range] is caught. *)
Definition find_job (jobId : string) : M JobStorage (option value) :=
  try_catch (p ← getJob jobId; job ← deref p; mret (Some (toJsonValue job)))
    (fun e => match e with OutOfRange _ => mret None | _ => throw e end).

Definition GetJobHandler_handleRequest (jobId : string) : H unit :=
  _ ← prepareApiResponse;
  _ ← set_status HTTP_OK;
  found ← with_jobs (find_job jobId);
  doc ← match found with
        | Some (Some doc) => mret doc
        | _ =>
          _ ← set_reason "Not Found";
          _ ← set_status HTTP_NOT_FOUND;
          mret (Error_toJsonValue (Error_new (cat ["No job with the id "; jobId; " exists."])))
        end;
  text ← lift (stringify doc);
  send text.

(** The loop over the ordered jobs. *)
Fixpoint job_values (l : list JobPtr) : M JobStorage (list value) :=
  match l with
  | [] => mret []
  | p :: l' => job ← deref p; vs ← job_values l'; mret (toJsonValue job :: vs)
  end.

Definition JobListHandler_handleRequest : H unit :=
  _ ← prepareApiResponse;
  _ ← set_status HTTP_OK;
  let doc := AddMember "maxAgeDoneJobsSeconds" (VInt (max_age_done_jobs configuration)) (VObject []) in
  vJobs ← with_jobs (jobsVec ← getOrderedJobs iteration; job_values jobsVec);
  text ← lift (stringify (AddMember "jobs" (VArray (default [] vJobs)) doc));
  send text.

Definition layer_value (layer : Layer) : value :=
  AddMember "description" (toValue (description layer))
    (AddMember "name" (toValue (name layer)) (VObject [])).

Definition LayerListHandler_handleRequest : H unit :=
  _ ← prepareApiResponse;
  _ ← set_status HTTP_OK;
  let vLayers := VArray (layer_value <$> getOrderedLayers configuration) in
  text ← lift (stringify (AddMember "layers" vLayers (VObject [])));
  send text.

(** The four counters, or a question mark for each. *)
Definition stats_members (jobStats : option JobStats) (doc : value) : value :=
  let count (f : JobStats -> Z) :=
    match jobStats with Some st => VInt (f st) | None => VString "?" end in
  AddMember "numFinishedJobs" (count numFinishedJobs)
    (AddMember "numInProcessJobs" (count numInProcessJobs)
      (AddMember "numFailedJobs" (count numFailedJobs)
        (AddMember "numQueuedJobs" (count numQueuedJobs) doc))).

Definition StatusHandler_handleRequest : H unit :=
  _ ← prepareApiResponse;
  _ ← set_status HTTP_OK;
  let doc := AddMember "appName" (VString APP_NAME_SERVER) (VObject []) in
  let doc := AddMember "appVersion" (VString (c_str version_full)) doc in
  let doc := AddMember "appGitVersion" (VString (c_str version_git_full)) doc in
  let doc := AddMember "numLayers" (VInt (getLayerCount configuration)) doc in
  jobStats ← with_jobs (getStats iteration);
  let doc := stats_members jobStats doc in
  let doc := AddMember "numWorkers" (VInt (num_worker_threads configuration)) doc in
  text ← lift (stringify doc);
  send text.

Definition NotFoundHandler_handleRequest (req : Request) : H unit :=
  _ ← prepareResponse;
  _ ← set_status HTTP_NOT_FOUND;
  _ ← set_content_type "text/plain";
  _ ← set_reason "Not Found";
  send (cat ["Endpoint "; uri req; " not found"]).

(** [BufferHandler]: the members its constructor sets. *)
Record Buffer := mkBuffer {
  contentType : string;
  etag : string;
  buffer : string;
  bufferLen : nat
}.

Definition BufferHandler_handleRequest (b : Buffer) (req : Request) : H unit :=
  _ ← prepareResponse;
  _ ← set_header "ETag" (etag b);
  _ ← set_header "Cache-Control" "max-age=300, private";
  if String.eqb (default "" (req_headers req !! "If-None-Match")) (etag b) then
    _ ← set_status HTTP_NOT_MODIFIED;
    _ ← set_reason "Not Modified";
    send ""
  else
    _ ← set_status HTTP_OK;
    _ ← set_content_type (contentType b);
    _ ← set_header "Content-Length" (to_string (Z.of_nat (bufferLen b)));
    send (String.substring 0 (bufferLen b) (buffer b)).

(** ** [HTTPRequestHandlerFactory]

    An entry of the table [resources] that the build generates; [None] without
    [ENABLE_HTTP_WEB_GUI]. *)
Record resource_info := mkResource {
  filename : string;
  resource_etag : string;
  mimetype : string;
  data : string;
  size_in_bytes : nat
}.

Definition normalizeUri (uri : string) : result string :=
  let pos_end := len uri in
  if decide (0 < pos_end)%Z then
    let pos_start := find_first_not_of uri "./" 0 in
    let pos_start := if decide (pos_start = npos) then 1%Z else pos_start in
    let params_start := find_first_of uri "?" in
    let pos_end := if decide (params_start < pos_end)%Z then params_start else pos_end in
    substr uri pos_start (size_sub pos_end pos_start)
  else Ret "".

(** [s.compare(pos, n, t) == 0]. *)
Definition compare_eq (s : string) (pos n : Z) (t : string) : result bool :=
  if decide (len s < pos)%Z then Throw (OutOfRange "basic_string::compare")
  else sub ← substr s pos n; Ret (String.eqb sub t).

Inductive Handler :=
  | PullHandler
  | RemoveByAttributesHandler
  | JobListHandler
  | LayerListHandler
  | StatusHandler
  | GetJobHandler (jobId : string)
  | BufferHandler (b : Buffer)
  | NotFoundHandler.

Definition resource_matches (endpoint : string) (resource : resource_info) : bool :=
  String.eqb endpoint (filename resource) ||
  (is_empty endpoint && String.eqb "index.html" (filename resource)).

Definition resource_buffer (resource : resource_info) : Buffer :=
  mkBuffer (mimetype resource) (resource_etag resource) (data resource) (size_in_bytes resource).

(** The [while] over the resources. *)
Fixpoint find_resource (endpoint : string) (resources : list resource_info) : option resource_info :=
  match resources with
  | [] => None
  | resource :: l => if resource_matches endpoint resource then Some resource else find_resource endpoint l
  end.

Definition getJobPath : string := "api/v1/job/".

(** The branch of the single job; [None] goes on to the resources. *)
Definition job_endpoint (endpoint : string) : result (option string) :=
  is_path ← compare_eq endpoint 0 (len getJobPath) getJobPath;
  if is_path : bool then
    let posEndId := find_first_not_of endpoint "abcdef0123456789" (len getJobPath) in
    is_json ← compare_eq endpoint posEndId (size_sub (len endpoint) posEndId) ".json";
    if is_json && negb (bool_decide (posEndId = len getJobPath)) then
      jobId ← substr endpoint (len getJobPath) (size_sub posEndId (len getJobPath));
      Ret (Some jobId)
    else Ret None
  else Ret None.

Definition dispatch (resources : option (list resource_info)) (endpoint : string) : result Handler :=
  if String.eqb endpoint "api/v1/pull" then Ret PullHandler
  else if String.eqb endpoint "api/v1/remove-by-attributes" then Ret RemoveByAttributesHandler
  else if String.eqb endpoint "api/v1/jobs.json" then Ret JobListHandler
  else if String.eqb endpoint "api/v1/layers.json" then Ret LayerListHandler
  else if String.eqb endpoint "api/v1/status.json" then Ret StatusHandler
  else
    job ← job_endpoint endpoint;
    match job with
    | Some jobId => Ret (GetJobHandler jobId)
    | None =>
      match find_resource endpoint (default [] resources) with
      | Some resource => Ret (BufferHandler (resource_buffer resource))
      | None => Ret NotFoundHandler
      end
    end.

Definition createRequestHandler (resources : option (list resource_info)) (req : Request)
  : result Handler :=
  endpoint ← normalizeUri (uri req); dispatch resources endpoint.

(** The virtual call [handleRequest]. *)
Definition handleRequest (h : Handler) (uuid : string) (now : Z) (req : Request) : H unit :=
  match h with
  | PullHandler => PullHandler_handleRequest uuid now req
  | RemoveByAttributesHandler => RemoveByAttributesHandler_handleRequest uuid now req
  | JobListHandler => JobListHandler_handleRequest
  | LayerListHandler => LayerListHandler_handleRequest
  | StatusHandler => StatusHandler_handleRequest
  | GetJobHandler jobId => GetJobHandler_handleRequest jobId
  | BufferHandler b => BufferHandler_handleRequest b req
  | NotFoundHandler => NotFoundHandler_handleRequest req
  end.

(** One request as the server of Poco handles it: the factory, then the
    handler. *)
Definition serve (resources : option (list resource_info)) (uuid : string) (now : Z) (req : Request)
  : H unit :=
  h ← lift (createRequestHandler resources req);
  handleRequest h uuid now req.
End Handlers.
