(* ===== verification/HttpSpec.v ===== *)
(** * The HTTP interface: theorems

    Which handler a request reaches, that every handler answers, and what the
    handlers that take or show a job do. *)
From S2P Require Import Prelude NullableValue StringUtils Configuration Json Job QuitableQueue JobStorage Http.

Lemma Ret_bind {A B} (x : A) (k : A -> result B) : (Ret x ≫= k) = k x.
Proof. done. Qed.

(** ** Routing *)
Section Routing.
Definition is_slash (c : ascii) : Prop := char_in "./" c = true.
Definition is_query (s : string) : Prop := s = "" \/ exists s', s = String "?"%char s'.

(** The path of a URI between the leading slashes and the query. *)
Record uri_parts (uri slashes path query : string) : Prop := {
  up_uri : uri = slashes +:+ path +:+ query;
  up_slashes : Forall is_slash (chars slashes);
  up_head : exists c rest, path = String c rest /\ ~ is_slash c;
  up_path : "?"%char ∉ chars path;
  up_query : is_query query;
  up_len : (len uri < npos)%Z
}.

Lemma char_in_single c d : char_in (String c "") d = Ascii.eqb d c.
Proof. unfold char_in. simpl. by rewrite orb_false_r. Qed.

Lemma slash_no_query l : Forall is_slash l -> Forall (fun c => char_in "?" c = false) l.
Proof.
  intros H. eapply Forall_impl; [exact H|]. intros c Hc. rewrite char_in_single.
  destruct (Ascii.eqb_spec c "?"); [|done]. by subst.
Qed.

Lemma path_no_query l : "?"%char ∉ l -> Forall (fun c => char_in "?" c = false) l.
Proof.
  intros H. apply Forall_forall. intros c Hc. rewrite char_in_single.
  destruct (Ascii.eqb_spec c "?"); [|done]. by subst.
Qed.

(** [normalizeUri] takes the path out of the URI. *)
Lemma normalizeUri_path uri slashes path query :
  uri_parts uri slashes path query -> normalizeUri uri = Ret path.
Proof.
  intros [-> Hs (c & rest & -> & Hc) Hp Hq Hl].
  set (u := slashes +:+ String c rest +:+ query) in *.
  assert (Hu : chars u = chars slashes ++ c :: (chars rest ++ chars query))
    by (unfold u; rewrite !chars_app; reflexivity).
  assert (Hlen : len u = Z.of_nat (length (chars slashes) + S (length (chars rest) + length (chars query)))).
  { rewrite len_chars, Hu, length_app. simpl. by rewrite length_app. }
  assert (Hstart : find_first_not_of u "./" 0 = Z.of_nat (length (chars slashes))).
  { unfold find_first_not_of. rewrite drop_0, Hu. rewrite find_from_at; [lia| |].
    - eapply Forall_impl; [exact Hs|]. intros d Hd. by rewrite Hd.
    - destruct (char_in "./" c) eqn:E; [|done]. by destruct Hc. }
  assert (Hend : (if decide (find_first_of u "?" < len u)%Z then find_first_of u "?" else len u) =
                 Z.of_nat (length (chars slashes) + S (length (chars rest)))).
  { unfold find_first_of. destruct Hq as [->|[q ->]].
    - rewrite find_from_none.
      + rewrite decide_False by lia. rewrite Hlen. simpl. lia.
      + rewrite Hu. simpl. rewrite app_nil_r. apply Forall_app. split; [by apply slash_no_query|].
        apply (path_no_query (chars (String c rest)) Hp).
    - replace (chars u) with ((chars slashes ++ chars (String c rest)) ++ "?"%char :: chars q)
        by (rewrite Hu; simpl; by rewrite <- app_assoc).
      rewrite find_from_at; [|apply Forall_app; split; [by apply slash_no_query|by apply path_no_query]|done].
      rewrite length_app. cbn [chars length]. rewrite decide_True by (rewrite Hlen; simpl; lia). lia. }
  unfold normalizeUri. rewrite decide_True by lia. rewrite Hstart, Hend.
  rewrite decide_False by (unfold npos, size_modulus in *; lia).
  rewrite size_sub_small by (unfold npos, size_modulus in *; lia).
  rewrite substr_ok by lia. f_equal. apply chars_inj. rewrite chars_substring, Hu.
  rewrite Nat2Z.id, drop_app_length.
  replace (Z.to_nat _) with (length (c :: chars rest)) by (simpl; lia).
  change (c :: chars rest ++ chars query) with ((c :: chars rest) ++ chars query).
  by rewrite take_app_length.
Qed.

(** A URI of slashes and dots only keeps all of them but the first. *)
Lemma normalizeUri_slashes uri :
  Forall is_slash (chars uri) -> (len uri < npos)%Z ->
  normalizeUri uri = Ret (unchars (drop 1 (chars uri))).
Proof.
  intros Hs Hl. unfold normalizeUri. case_decide as Hpos.
  - unfold find_first_not_of, find_first_of. rewrite drop_0, !find_from_none.
    + rewrite decide_True by done. rewrite decide_False by lia.
      rewrite size_sub_small by (unfold npos, size_modulus in *; lia).
      rewrite substr_ok by lia. f_equal. apply chars_inj. rewrite chars_substring, chars_unchars.
      rewrite take_ge; [done|]. rewrite length_drop, len_chars. lia.
    + by apply slash_no_query.
    + eapply Forall_impl; [exact Hs|]. intros d Hd. by rewrite Hd.
  - rewrite len_chars in Hpos. destruct (chars uri) eqn:E; [done|simpl in Hpos; lia].
Qed.

(** ** The endpoint of a single job *)
Definition hexadecimal (s : string) : Prop :=
  Forall (fun c => char_in "abcdef0123456789" c = true) (chars s).

Lemma chars_prefix a b s : chars s = chars a ++ b -> s = a +:+ unchars b.
Proof. intros H. apply chars_inj. by rewrite chars_app, chars_unchars. Qed.

Lemma compare_eq_path s :
  compare_eq s 0 (len getJobPath) getJobPath =
    Ret (bool_decide (take (length (chars getJobPath)) (chars s) = chars getJobPath)).
Proof.
  unfold compare_eq. rewrite decide_False by (pose proof (len_nonneg s); lia).
  rewrite substr_ok by (split; [lia|apply len_nonneg]).
  rewrite !Ret_bind. f_equal.
  set (sub := String.substring _ _ s).
  assert (Hsub : chars sub = take (length (chars getJobPath)) (chars s)).
  { unfold sub. rewrite chars_substring. change (Z.to_nat 0) with 0. rewrite drop_0.
    rewrite !len_chars. change (length (chars getJobPath)) with 11.
    destruct (decide (11 <= length (chars s))).
    - f_equal. lia.
    - rewrite !take_ge; [done|lia..]. }
  rewrite <- Hsub. destruct (String.eqb_spec sub getJobPath) as [->|Hne].
  - by rewrite bool_decide_true.
  - rewrite bool_decide_false; [done|]. by intros H%chars_inj.
Qed.

Lemma compare_eq_is_path s rest :
  chars s = chars getJobPath ++ rest -> compare_eq s 0 (len getJobPath) getJobPath = Ret true.
Proof.
  intros Hs. rewrite compare_eq_path, Hs, take_app_length. by rewrite bool_decide_true.
Qed.

Lemma job_endpoint_hex s rest :
  chars s = chars getJobPath ++ rest -> Forall (fun c => char_in "abcdef0123456789" c = true) rest ->
  (len s < npos)%Z -> job_endpoint s = Throw (OutOfRange "basic_string::compare").
Proof.
  intros Hs Hr Hl.
  assert (Hpos : find_first_not_of s "abcdef0123456789" (len getJobPath) = npos).
  { unfold find_first_not_of. rewrite Hs, (len_chars getJobPath), Nat2Z.id, drop_app_length.
    apply find_from_none. eapply Forall_impl; [exact Hr|]. intros c Hc. by rewrite Hc. }
  unfold job_endpoint. rewrite (compare_eq_is_path s _ Hs).
  rewrite Ret_bind. cbn iota.
  rewrite Hpos. unfold compare_eq. by rewrite decide_True.
Qed.

Lemma job_endpoint_split s pre c post :
  chars s = chars getJobPath ++ pre ++ c :: post ->
  Forall (fun c => char_in "abcdef0123456789" c = true) pre -> char_in "abcdef0123456789" c = false ->
  (len s < npos)%Z ->
  job_endpoint s = Ret (if bool_decide (c :: post = chars ".json") && negb (bool_decide (pre = []))
                        then Some (unchars pre) else None).
Proof.
  intros Hs Hp Hc Hl. assert (Hlen : len s = Z.of_nat (11 + (length pre + S (length post)))).
  { rewrite len_chars, Hs, !length_app. simpl. done. }
  assert (Hpos : find_first_not_of s "abcdef0123456789" (len getJobPath) = Z.of_nat (11 + length pre)).
  { unfold find_first_not_of. rewrite Hs, (len_chars getJobPath), Nat2Z.id, drop_app_length.
    rewrite find_from_at; [simpl; lia| |by rewrite Hc].
    eapply Forall_impl; [exact Hp|]. intros d Hd. by rewrite Hd. }
  unfold job_endpoint. rewrite (compare_eq_is_path s _ Hs).
  rewrite Ret_bind. cbn iota.
  rewrite Hpos. unfold compare_eq. rewrite decide_False by lia.
  rewrite (size_sub_small (len s)) by (unfold npos, size_modulus in *; lia).
  rewrite (substr_ok s (Z.of_nat (11 + length pre))) by lia.
  set (tail := String.substring _ _ s).
  assert (Ht : chars tail = c :: post).
  { unfold tail. rewrite chars_substring, Hs, Nat2Z.id, app_assoc.
    rewrite drop_app_length' by (rewrite length_app; reflexivity).
    apply take_ge. simpl. rewrite Hlen. lia. }
  assert (Hj : String.eqb tail ".json" = bool_decide (c :: post = chars ".json")).
  { destruct (String.eqb_spec tail ".json") as [E|E].
    - rewrite bool_decide_true; [done|]. by rewrite <- Ht, E.
    - rewrite bool_decide_false; [done|]. rewrite <- Ht. by intros H%chars_inj. }
  rewrite !Ret_bind. rewrite Hj.
  assert (Hn : bool_decide (Z.of_nat (11 + length pre) = len getJobPath) = bool_decide (pre = [])).
  { apply bool_decide_ext. change (len getJobPath) with 11%Z. destruct pre; simpl; split; done || lia. }
  rewrite Hn. case_match; [|reflexivity].
  change (len getJobPath) with (Z.of_nat 11). rewrite size_sub_small by (unfold npos, size_modulus in *; lia).
  rewrite (substr_ok s (Z.of_nat 11)) by (rewrite Hlen; lia). rewrite Ret_bind.
  do 2 f_equal. apply chars_inj. rewrite chars_substring, chars_unchars, Hs, Nat2Z.id.
  rewrite drop_app_length' by done. rewrite take_app_length'; [done|]. lia.
Qed.

Lemma job_endpoint_other s :
  take (length (chars getJobPath)) (chars s) <> chars getJobPath -> job_endpoint s = Ret None.
Proof.
  intros H. unfold job_endpoint. rewrite compare_eq_path, Ret_bind.
  case_bool_decide; done.
Qed.

(** The paths that belong to the API. *)
Definition fixed_paths : list string :=
  ["api/v1/pull"; "api/v1/remove-by-attributes"; "api/v1/jobs.json"; "api/v1/layers.json";
   "api/v1/status.json"].
Definition job_path (path id : string) : Prop :=
  hexadecimal id /\ id <> "" /\ path = getJobPath +:+ id +:+ ".json".
Definition cut_job_path (path : string) : Prop :=
  exists id, hexadecimal id /\ path = getJobPath +:+ id.

Lemma job_path_split path id id' rest :
  job_path path id -> chars path = chars getJobPath ++ id' ++ rest ->
  Forall (fun c => char_in "abcdef0123456789" c = true) id' ->
  match rest with [] => False | c :: _ => char_in "abcdef0123456789" c = false end ->
  id' = chars id /\ rest = chars ".json".
Proof.
  intros (Hh & _ & ->) Hs Hf Hr. rewrite !chars_app in Hs. apply app_inv_head in Hs.
  unfold hexadecimal in Hh. destruct rest as [|c rest]; [done|].
  revert id' Hs Hf. induction Hh as [|x l Hx Hl IH]; intros id' Hs Hf.
  - destruct id' as [|y id']; [by simpl in *|]. simpl in Hs. injection Hs as <- Hs.
    apply Forall_cons in Hf as [Hf _]. discriminate Hf.
  - destruct id' as [|y id']; simpl in Hs; injection Hs as <- Hs; [congruence|].
    apply Forall_cons in Hf as [_ Hf]. destruct (IH id' Hs Hf) as [-> ->]. done.
Qed.

Lemma job_endpoint_spec path :
  (len path < npos)%Z ->
  match job_endpoint path with
  | Ret (Some id) => job_path path id
  | Ret None => ~ cut_job_path path /\ forall id, ~ job_path path id
  | Throw e => e = OutOfRange "basic_string::compare" /\ cut_job_path path
  | Terminated => False
  end.
Proof.
  intros Hl. destruct (decide (take (length (chars getJobPath)) (chars path) = chars getJobPath)) as [Hp|Hp].
  2: { rewrite job_endpoint_other by done. split.
       - intros (id & _ & ->). apply Hp. by rewrite chars_app, take_app_length.
       - intros id (_ & _ & ->). apply Hp. by rewrite chars_app, take_app_length. }
  assert (Hs : chars path = chars getJobPath ++ drop (length (chars getJobPath)) (chars path))
    by (rewrite <- Hp at 1; by rewrite take_drop).
  set (rest := drop _ _) in Hs. clearbody rest.
  destruct (split_first (fun c => char_in "abcdef0123456789" c = true) rest) as [Hr|(pre & c & post & -> & Hpre & Hc)].
  - rewrite (job_endpoint_hex path rest) by done. split; [done|].
    exists (unchars rest). split; [unfold hexadecimal; by rewrite chars_unchars|by apply chars_prefix].
  - apply not_true_is_false in Hc. rewrite (job_endpoint_split path pre c post) by done.
    case_bool_decide as Hj; case_bool_decide as Hn; cbn [andb negb].
    2: { split; [unfold hexadecimal; by rewrite chars_unchars|]. split; [by destruct pre|].
         apply chars_inj. by rewrite Hs, !chars_app, chars_unchars, Hj. }
    all: split; [intros (id & Hid & ->); unfold hexadecimal in Hid; rewrite chars_app in Hs;
                 apply app_inv_head in Hs; rewrite Hs, Forall_app, Forall_cons in Hid;
                 destruct Hid as (_ & Hid & _); congruence|].
    all: intros id Hid; destruct (job_path_split path id pre (c :: post) Hid Hs Hpre Hc) as [H1 H2].
    1: subst pre; destruct Hid as (_ & Hid & _); destruct id; done.
    all: done.
Qed.
End Routing.

(** ** The handlers *)
Section Handlers.
Context (version_full version_git_full : string).
Context (iteration : gmap string JobPtr -> list (string * JobPtr)).
Context (iteration_perm : forall m, iteration m ≡ₚ map_to_list m).
Context (configuration : Configuration).

(** The storage after a new job has been pushed. *)
Definition with_job (s : JobStorage) (job : Job) : JobStorage :=
  let p := fresh (dom (heap s)) in
  let s := update_job p job s in
  let s := set_jobMap (<[id job := p]> (jobMap s)) s in
  set_queue (push p (queue s)) s.

Definition error_json (msg : string) : string := print (Error_toJsonValue (Error_new msg)).

(** A handler that returns, with a response that was sent. *)
Definition answers (out : result unit * HttpState) (js : option JobStorage) (code : HTTPStatus)
  (text : string) : Prop :=
  exists st', out = (Ret tt, st') /\ jobs st' = js /\ resp_status (resp st') = code /\
    body (resp st') = Some text.

Lemma error_text_print msg : error_text (Error_new msg) = Ret (error_json msg).
Proof. by apply stringify_text. Qed.

Lemma prepareApiResponse_run st :
  exists rs, prepareApiResponse version_full configuration st = (Ret tt, mkHttp (jobs st) rs) /\
    resp_status rs = resp_status (resp st).
Proof.
  unfold prepareApiResponse. do 3 (erewrite bind_step by reflexivity).
  destruct (negb _); by eexists.
Qed.

Lemma send_error_answers s r msg st :
  answers (send_error s r msg st) (jobs st) s (error_json msg).
Proof.
  unfold send_error. rewrite error_text_print. do 3 (erewrite bind_step by reflexivity).
  by eexists.
Qed.

(** A document is sent as its text. *)
Lemma send_document doc st : root doc = true -> no_double doc = true ->
  answers ((text ← lift (stringify doc); send text) st) (jobs st) (resp_status (resp st)) (print doc).
Proof.
  intros Hr Hd. erewrite bind_step by (unfold lift; by rewrite stringify_text). by eexists.
Qed.

Lemma push_pushed s job :
  (p ← new_job job; _ ← storage_push p; deref p) s = (Ret job, with_job s job).
Proof.
  unfold storage_push, addJob. erewrite bind_step by reflexivity.
  set (p := fresh (dom (heap s))). set (s1 := update_job p job s).
  assert (H1 : deref p s1 = (Ret job, s1)) by (unfold deref; simpl; by rewrite lookup_insert_eq).
  erewrite (bind_step (addJob p ≫= _)); [|
    erewrite bind_step by (unfold addJob; erewrite bind_step by exact H1; reflexivity); reflexivity].
  unfold deref, with_job. simpl. by rewrite lookup_insert_eq.
Qed.

(** The handlers that take a job, case by case. *)
Lemma post_job_answers jt uuid now req st :
  let out := post_job version_full configuration jt uuid now req st in
  let '(parsed, job) := fromString (req_body req) (Job_new jt uuid now) in
  if negb (String.eqb (method req) "POST") then
    answers out (jobs st) HTTP_BAD_REQUEST (error_json "Only POST requests are supported")
  else
    match parsed with
    | Terminated => False
    | Throw e => answers out (jobs st) HTTP_BAD_REQUEST (error_json (what e))
    | Ret _ =>
      match layers configuration !! layerName job, jobs st with
      | None, js =>
        answers out js HTTP_NOT_FOUND
          (error_json (cat ["Layer "; quoted (layerName job); " does not exist"]))
      | Some _, None =>
        answers out None HTTP_INTERNAL_SERVER_ERROR (error_json "Could not get a lock on jobstorage")
      | Some _, Some s => answers out (Some (with_job s job)) HTTP_OK (print (toJsonValue job))
      end
    end.
Proof.
  intros out. subst out.
  destruct (fromString_post (req_body req) (Job_new jt uuid now)) as (doc & _ & Hp).
  unfold wp in Hp. unfold post_job.
  destruct (prepareApiResponse_run st) as (rs & Hr & _).
  destruct (fromString _ _) as [parsed job]. rewrite (bind_step _ _ _ _ _ Hr). clear Hr.
  assert (Hse : forall js c r msg, answers (send_error c r msg (mkHttp js rs)) js c (error_json msg))
    by (intros; apply (send_error_answers _ _ _ (mkHttp _ rs))).
  destruct (negb _); [apply Hse|].
  destruct parsed as [u|e|]; [|apply Hse|done]. unfold getLayer.
  destruct (layers configuration !! layerName job) as [layer|]; [|apply Hse].
  destruct (jobs st) as [s|] eqn:Hs.
  - erewrite bind_step by (unfold with_jobs; cbn [jobs]; rewrite push_pushed; reflexivity).
    cbn iota. erewrite bind_step by reflexivity. rewrite job_text_print.
    erewrite bind_step by reflexivity. by eexists.
  - erewrite bind_step by (unfold with_jobs; cbn [jobs]; reflexivity). apply Hse.
Qed.

(** A request that was accepted: what the parser and the checks established. *)
Definition accepted (jt : JobType) (uuid : string) (now : Z) (job : Job) : Prop :=
  type job = jt /\ id job = erase_dashes uuid /\ status job = QUEUED /\ timeAdded job = now /\
  timeFinished job = 0%Z /\ is_Some (layers configuration !! layerName job).

Lemma fromString_accepted jt uuid now data u job :
  fromString data (Job_new jt uuid now) = (Ret u, job) ->
  is_Some (layers configuration !! layerName job) -> accepted jt uuid now job.
Proof.
  intros Hf Hl. destruct (fromString_post data (Job_new jt uuid now)) as (doc & _ & Hp).
  unfold wp in Hp. rewrite Hf in Hp.
  destruct Hp as (ms & s & sets & _ & _ & _ & _ & _ & _ & (H1 & H2 & H3 & _ & H5 & H6)).
  unfold accepted. by rewrite H1, H2, H3, H5, H6.
Qed.

Lemma find_job_run jobId s : pointers_ok s ->
  find_job jobId s =
    (Ret (p ← jobMap s !! jobId; toJsonValue <$> heap s !! p), s).
Proof.
  intros Hp. unfold find_job, try_catch, getJob, deref, mbind at 1, M_bind.
  destruct (jobMap s !! jobId) as [p|] eqn:Hk; [|done].
  destruct (Hp _ _ Hk) as [j Hj]. unfold mbind, M_bind. rewrite Hj. simpl. by rewrite Hj.
Qed.

Lemma job_values_run l s : (forall p, p ∈ l -> is_Some (heap s !! p)) ->
  exists vs, job_values l s = (Ret vs, s) /\ forallb no_double vs = true.
Proof.
  induction l as [|p l IH]; intros Hl; [by exists []|].
  destruct (Hl p) as [j Hj]; [left|]. destruct IH as (vs & Hr & Hd); [set_solver|].
  exists (toJsonValue j :: vs). cbn [job_values].
  erewrite bind_step by (unfold deref; by rewrite Hj). erewrite bind_step by exact Hr.
  split; [done|]. simpl. by rewrite no_double_job.
Qed.

(** The ordered jobs of the storage as documents. *)
Lemma job_list_run s : pointers_ok s ->
  exists vs, (jobsVec ← getOrderedJobs iteration; job_values jobsVec) s = (Ret vs, s) /\
    forallb no_double vs = true.
Proof.
  intros Hp.
  destruct (getOrderedJobs_run iteration iteration_perm s Hp) as (l & Hr & Hl & _).
  destruct (job_values_run l s) as (vs & Hv & Hd).
  { intros p Hin. rewrite Hl in Hin. apply list_elem_of_fmap in Hin as ([k p'] & -> & Hin).
    apply elem_of_map_to_list in Hin. eapply Hp, Hin. }
  exists vs. split; [|done]. by erewrite bind_step by exact Hr.
Qed.

(** A handler that shows a document and leaves the storage alone. *)
Definition shows (m : H unit) : Prop := forall js rs,
  (forall s, js = Some s -> pointers_ok s) -> exists code text, answers (m (mkHttp js rs)) js code text.

Lemma shows_api (m : H unit) :
  shows m -> shows (_ ← prepareApiResponse version_full configuration; _ ← set_status HTTP_OK; m).
Proof.
  intros Hm js rs Hp. destruct (prepareApiResponse_run (mkHttp js rs)) as (rs' & Hr & _).
  erewrite bind_step by exact Hr. erewrite bind_step by reflexivity. by apply Hm.
Qed.

Lemma shows_document doc : root doc = true -> no_double doc = true ->
  shows (text ← lift (stringify doc); send text).
Proof. intros Hr Hd js rs _. eexists _, _. by apply (send_document doc (mkHttp js rs)). Qed.

(** A part of the document that comes out of the storage. *)
Lemma shows_with_jobs {A} (m : M JobStorage A) (k : option A -> H unit) (P : A -> Prop) :
  (forall s, pointers_ok s -> exists a, m s = (Ret a, s) /\ P a) ->
  shows (k None) -> (forall a, P a -> shows (k (Some a))) -> shows (x ← with_jobs m; k x).
Proof.
  intros Hm Hn Hk [s|] rs Hp.
  - destruct (Hm s) as (a & Ha & HP); [by apply Hp|].
    erewrite bind_step by (unfold with_jobs; cbn [jobs]; rewrite Ha; reflexivity).
    by apply Hk.
  - erewrite bind_step by (unfold with_jobs; cbn [jobs]; reflexivity). by apply Hn.
Qed.

Lemma GetJobHandler_shows jobId : shows (GetJobHandler_handleRequest version_full configuration jobId).
Proof.
  unfold GetJobHandler_handleRequest. apply shows_api.
  assert (Hnone : forall msg, shows
    (doc ← (_ ← set_reason "Not Found"; _ ← set_status HTTP_NOT_FOUND;
            mret (Error_toJsonValue (Error_new msg))); text ← lift (stringify doc); send text)).
  { intros msg js rs Hp. erewrite bind_step by reflexivity. by apply shows_document. }
  apply (shows_with_jobs _ _ (fun found => match found with
           Some doc => root doc = true /\ no_double doc = true | None => True end)).
  - intros s Hp. rewrite find_job_run by done. eexists. split; [done|].
    destruct (jobMap s !! jobId) as [p|]; [|done]. simpl. destruct (heap s !! p) as [j|]; [|done].
    simpl. rewrite toJsonValue_members at 1. split; [done|apply no_double_job].
  - apply Hnone.
  - intros [doc|] Hd; [|apply Hnone]. intros js rs Hp. erewrite bind_step by reflexivity.
    destruct Hd. by apply shows_document.
Qed.

Lemma JobListHandler_shows : shows (JobListHandler_handleRequest version_full iteration configuration).
Proof.
  unfold JobListHandler_handleRequest. apply shows_api.
  apply (shows_with_jobs _ _ (fun vs => forallb no_double vs = true));
    [apply job_list_run|by apply shows_document|].
  intros vs Hd. apply shows_document; [done|]. simpl. by rewrite Hd.
Qed.

Lemma LayerListHandler_shows : shows (LayerListHandler_handleRequest version_full configuration).
Proof.
  unfold LayerListHandler_handleRequest. apply shows_api, shows_document; [done|]. simpl.
  rewrite !andb_true_r. apply forallb_forall. intros v Hv. apply in_map_iff in Hv as (l & <- & _). done.
Qed.

Lemma StatusHandler_shows :
  shows (StatusHandler_handleRequest version_full version_git_full iteration configuration).
Proof.
  unfold StatusHandler_handleRequest. apply shows_api.
  apply (shows_with_jobs _ _ (fun _ => True)); [|by apply shows_document|intros; by apply shows_document].
  intros s Hp. destruct (count_jobs_spec (iteration (jobMap s)) JobStats_new s) as (st & Hr & _).
  { intros [k p] Hkv. apply (iteration_elem iteration iteration_perm) in Hkv. eauto. }
  exists st. split; [|done]. unfold getStats. by erewrite bind_step by reflexivity.
Qed.

Lemma shows_resp f (m : H unit) : shows m -> shows (_ ← on_resp f; m).
Proof. intros Hm js rs. apply (Hm js (f rs)). Qed.

Lemma shows_send text : shows (send text).
Proof. intros js rs _. do 3 eexists. by split. Qed.

Lemma BufferHandler_shows b req : shows (BufferHandler_handleRequest version_full b req).
Proof.
  unfold BufferHandler_handleRequest, prepareResponse. do 3 apply shows_resp.
  destruct (String.eqb _ _); [do 2 apply shows_resp|do 3 apply shows_resp]; apply shows_send.
Qed.

Lemma NotFoundHandler_shows req : shows (NotFoundHandler_handleRequest version_full req).
Proof. unfold NotFoundHandler_handleRequest, prepareResponse. do 4 apply shows_resp. apply shows_send. Qed.

(** ** Properties *)

Lemma post_job_result jt uuid now req storage rs :
  let out := post_job version_full configuration jt uuid now req (mkHttp storage rs) in
  let '(parsed, job) := fromString (req_body req) (Job_new jt uuid now) in
  let valid := method req = "POST" /\ parsed = Ret tt /\ is_Some (layers configuration !! layerName job) in
  (valid /\ accepted jt uuid now job /\
   match storage with
   | Some s => exists s' p, answers out (Some s') HTTP_OK (print (toJsonValue job)) /\
       heap s !! p = None /\ heap s' = <[p := job]> (heap s) /\
       getJob (id job) s' = (Ret p, s') /\ queue_ (queue s') = queue_ (queue s) ++ [p]
   | None => exists msg, answers out None HTTP_INTERNAL_SERVER_ERROR (error_json msg)
   end) \/
  (~ valid /\
   exists code msg, answers out storage code (error_json msg) /\
     (code = HTTP_BAD_REQUEST \/ code = HTTP_NOT_FOUND)).
Proof.
  intros out. pose proof (post_job_answers jt uuid now req (mkHttp storage rs)) as Ha.
  cbv zeta in Ha. fold out in Ha. cbn [jobs] in Ha.
  destruct (fromString _ _) as [parsed job] eqn:Hf. cbv zeta.
  destruct (String.eqb_spec (method req) "POST") as [Hm|Hm]; cbn [negb] in Ha.
  2: { right. split; [naive_solver|]. eauto. }
  destruct parsed as [[]|e|]; [| |done].
  2: { right. split; [naive_solver|]. eauto. }
  destruct (layers configuration !! layerName job) as [layer|] eqn:Hl.
  2: { right. split; [by intros (_ & _ & [? H])|]. eauto. }
  left. split; [by eauto|]. split; [by eapply fromString_accepted; eauto|].
  destruct storage as [s|]; [|by eexists].
  exists (with_job s job), (fresh (dom (heap s))). split; [exact Ha|].
  split; [apply not_elem_of_dom, is_fresh|]. split; [done|].
  split; [|done]. unfold getJob, with_job. simpl. by rewrite lookup_insert_eq.
Qed.

(** [C25] Posting a job: the handler always answers.  A request is valid when the
    method is POST, the body is a request and its layer is configured.  A valid
    request is answered with 200 as long as the storage is alive: then one new
    job of the handler's type is in the storage, queued behind the others and
    found by its id, no other job has changed, and the answer is the JSON text of
    the job.  When the storage has been destroyed, it is answered with 500.  To
    every other request the answer is 400 or 404 with an error document, and the
    storage is untouched. *)
Theorem post_job_spec jt uuid now req storage rs :
  let out := post_job version_full configuration jt uuid now req (mkHttp storage rs) in
  let '(parsed, job) := fromString (req_body req) (Job_new jt uuid now) in
  let valid := method req = "POST" /\ parsed = Ret tt /\ is_Some (layers configuration !! layerName job) in
  (valid /\ accepted jt uuid now job /\
   match storage with
   | Some s => exists s' p, answers out (Some s') HTTP_OK (print (toJsonValue job)) /\
       heap s !! p = None /\ heap s' = <[p := job]> (heap s) /\
       getJob (id job) s' = (Ret p, s') /\ queue_ (queue s') = queue_ (queue s) ++ [p]
   | None => exists msg, answers out None HTTP_INTERNAL_SERVER_ERROR (error_json msg)
   end) \/
  (~ valid /\
   exists code msg, answers out storage code (error_json msg) /\
     (code = HTTP_BAD_REQUEST \/ code = HTTP_NOT_FOUND)).
Proof. apply post_job_result. Qed.

(** What one request makes of the storage. *)
Definition request_effect (uuid : string) (now : Z) (js js' : option JobStorage) : Prop :=
  js' = js \/
  exists jt s job, js = Some s /\ js' = Some (with_job s job) /\ accepted jt uuid now job.

Lemma post_job_effect jt uuid now req js rs :
  exists js' code text,
    answers (post_job version_full configuration jt uuid now req (mkHttp js rs)) js' code text /\
    request_effect uuid now js js'.
Proof.
  pose proof (post_job_answers jt uuid now req (mkHttp js rs)) as Ha. cbv zeta in Ha. cbn [jobs] in Ha.
  destruct (fromString _ _) as [parsed job] eqn:Hf.
  destruct (negb _); [do 3 eexists; split; [exact Ha|by left]|].
  destruct parsed as [u|e|]; [|do 3 eexists; split; [exact Ha|by left]|done].
  destruct (layers configuration !! layerName job) as [layer|] eqn:Hl;
    [|do 3 eexists; split; [exact Ha|by left]].
  destruct js as [s|]; do 3 eexists; (split; [exact Ha|]); [|by left].
  right. exists jt, s, job. do 2 (split; [done|]).
  eapply fromString_accepted; [exact Hf|by eexists].
Qed.

Lemma handleRequest_effect h uuid now req js rs :
  (forall s, js = Some s -> pointers_ok s) ->
  exists js' code text,
    answers (handleRequest version_full version_git_full iteration configuration h uuid now req
               (mkHttp js rs)) js' code text /\
    request_effect uuid now js js'.
Proof.
  intros Hp.
  assert (Hs : forall m : H unit, shows m -> exists js' code text,
    answers (m (mkHttp js rs)) js' code text /\ request_effect uuid now js js').
  { intros m Hm. destruct (Hm js rs Hp) as (code & text & Ha). exists js, code, text.
    split; [exact Ha|by left]. }
  destruct h; cbn [handleRequest]; try apply post_job_effect; apply Hs.
  - apply JobListHandler_shows.
  - apply LayerListHandler_shows.
  - apply StatusHandler_shows.
  - apply GetJobHandler_shows.
  - apply BufferHandler_shows.
  - apply NotFoundHandler_shows.
Qed.

(** Every request that the factory routes to a handler is answered: no
    handler throws or hits an assertion of the JSON writer, whether or not the
    job storage still exists, and the storage either stays as it was or has got
    one accepted job, whose layer is configured. *)
Theorem serve_answers resources uuid now req h js :
  createRequestHandler resources req = Ret h -> (forall s, js = Some s -> pointers_ok s) ->
  exists js' code text,
    answers (serve version_full version_git_full iteration configuration resources uuid now req
               (mkHttp js Response_new)) js' code text /\
    request_effect uuid now js js'.
Proof.
  intros Hh Hp. unfold serve. rewrite Hh. by apply handleRequest_effect.
Qed.
End Handlers.

(** [C26] Routing.  A request whose path lies between slashes and a query reaches
    the handler of its endpoint, or the resource of that name, or the 404
    handler; [api/v1/job/<id>.json] reaches the handler of that job for every
    non-empty hexadecimal id and nothing else does.  But on [api/v1/job/<id>]
    without the suffix, and on [api/v1/job/] itself, [std::string::compare] is
    called with the position [npos], and the factory throws. *)
Theorem request_routing (resources : option (list resource_info)) (req : Request) (slashes path query : string) :
  uri_parts (uri req) slashes path query ->
  let page := ~ (path ∈ fixed_paths) /\ ~ cut_job_path path /\ forall id, ~ job_path path id in
  match createRequestHandler resources req with
  | Ret PullHandler => path = "api/v1/pull"
  | Ret RemoveByAttributesHandler => path = "api/v1/remove-by-attributes"
  | Ret JobListHandler => path = "api/v1/jobs.json"
  | Ret LayerListHandler => path = "api/v1/layers.json"
  | Ret StatusHandler => path = "api/v1/status.json"
  | Ret (GetJobHandler id) => job_path path id
  | Ret (BufferHandler b) =>
    page /\ exists r, r ∈ default [] resources /\ path = filename r /\ b = resource_buffer r
  | Ret NotFoundHandler => page /\ forall r, r ∈ default [] resources -> path <> filename r
  | Throw e => e = OutOfRange "basic_string::compare" /\ cut_job_path path
  | Terminated => False
  end.
Proof.
  intros Hu page. assert (Hl : (len path < npos)%Z).
  { pose proof (up_len _ _ _ _ Hu) as H. rewrite (up_uri _ _ _ _ Hu) in H.
    rewrite len_chars, !chars_app, !length_app in H. rewrite len_chars. lia. }
  destruct (up_head _ _ _ _ Hu) as (c & rest & Hc & _).
  unfold createRequestHandler. rewrite (normalizeUri_path _ _ _ _ Hu), Ret_bind. unfold dispatch.
  repeat match goal with
  | |- context [if String.eqb path ?x then _ else _] => destruct (String.eqb_spec path x); [done|]
  end.
  pose proof (job_endpoint_spec path Hl) as Hj. destruct (job_endpoint path) as [[id|]|e|]; try done.
  rewrite Ret_bind. cbn iota. assert (Hpage : page).
  { split; [|exact Hj]. unfold fixed_paths. rewrite !elem_of_cons, elem_of_nil. naive_solver. }
  assert (Hm : forall r, resource_matches path r = true <-> path = filename r).
  { intros r. unfold resource_matches. replace (is_empty path) with false by (by rewrite Hc).
    cbn [andb]. rewrite orb_false_r. apply String.eqb_eq. }
  assert (Hf : match find_resource path (default [] resources) with
    | Some r => r ∈ default [] resources /\ path = filename r
    | None => forall r, r ∈ default [] resources -> path <> filename r
    end).
  { induction (default [] resources) as [|r l IH]; simpl; [intros r Hr; by apply elem_of_nil in Hr|].
    pose proof (Hm r) as Hr. destruct (resource_matches path r); [split; [left|by apply Hr]|].
    destruct (find_resource path l) as [r'|]; [destruct IH; split; [by right|done]|].
    intros r' [->|Hin]%elem_of_cons; [|auto]. intros H. apply Hr in H. done. }
  destruct (find_resource _ _) as [r|]; [|done]. split; [done|]. exists r. naive_solver.
Qed.

(** ** Witnesses *)
Definition job_request : Request := mkRequest "GET" "/api/v1/job/1a2b.json?x=1" ∅ "".
Definition cut_request : Request := mkRequest "GET" "/api/v1/job/1a2b" ∅ "".

Lemma uri_parts_example path query : path = getJobPath +:+ "1a2b.json" \/ path = getJobPath +:+ "1a2b" ->
  query = "" \/ query = "?x=1" -> uri_parts ("/" +:+ path +:+ query) "/" path query.
Proof.
  intros Hp Hq. split; [done|by repeat constructor| | | |].
  - destruct Hp as [-> | ->]; do 2 eexists; (split; [reflexivity|by vm_compute]).
  - destruct Hp as [-> | ->]; apply (bool_decide_unpack _); vm_compute; done.
  - destruct Hq as [-> | ->]; [by left|right; by eexists].
  - destruct Hp as [-> | ->], Hq as [-> | ->]; vm_compute; reflexivity.
Qed.

Lemma request_routing_witness :
  createRequestHandler None job_request = Ret (GetJobHandler "1a2b") /\
  job_path (getJobPath +:+ "1a2b.json") "1a2b" /\
  createRequestHandler None cut_request = Throw (OutOfRange "basic_string::compare") /\
  cut_job_path (getJobPath +:+ "1a2b").
Proof.
  assert (H1 : createRequestHandler None job_request = Ret (GetJobHandler "1a2b")) by (vm_compute; reflexivity).
  assert (H2 : createRequestHandler None cut_request = Throw (OutOfRange "basic_string::compare"))
    by (vm_compute; reflexivity).
  pose proof (request_routing None job_request "/" (getJobPath +:+ "1a2b.json") "?x=1"
    (uri_parts_example _ _ (or_introl eq_refl) (or_intror eq_refl))) as R1.
  pose proof (request_routing None cut_request "/" (getJobPath +:+ "1a2b") ""
    (uri_parts_example _ _ (or_intror eq_refl) (or_introl eq_refl))) as R2.
  cbv zeta in R1, R2. rewrite H1 in R1. rewrite H2 in R2.
  split; [exact H1|]. split; [exact R1|]. split; [exact H2|exact (proj2 R2)].
Defined.

Lemma serve_answers_witness :
  exists js' code text,
    answers (serve "1.0.0" "" map_to_list Configuration_default None "ab" 1
               (mkRequest "GET" "/api/v1/status.json" ∅ "") (mkHttp (Some (JobStorage_new 1)) Response_new))
      js' code text.
Proof.
  destruct (serve_answers "1.0.0" "" map_to_list (fun _ => reflexivity _)
    Configuration_default None "ab" 1 (mkRequest "GET" "/api/v1/status.json" ∅ "") StatusHandler
    (Some (JobStorage_new 1)) ltac:(vm_compute; reflexivity)) as (js' & code & text & Ha & _).
  - intros s [= <-] k p Hk. discriminate Hk.
  - exists js', code, text. exact Ha.
Defined.
