(* ===== verification/EndToEnd.v ===== *)
(** * From the request to the table

    The parts together, for one job: what the client posts, what the worker does
    with it, what is then in the table, and what the client is shown. *)
From S2P Require Import Prelude Numbers StringUtils NullableValue Configuration Json Job QuitableQueue JobStorage.
From S2P Require Import LibPQ Connection Transaction Requests Gdal FieldConversion PullSource Pull PullSpec Calls.
From S2P Require Import Sql Sync Worker WorkerSpec Removal Http HttpSpec.

Section EndToEnd.
Context {PQ : LibPQ} {GD : Gdal} (have_pq : bool).
Context (version_full version_git_full : string).
Context (iteration : gmap string JobPtr -> list (string * JobPtr)).
Context (resources : option (list resource_info)) (configuration : Configuration).

Definition serve_storage (uuid : string) (now : Z) (req : Request) (s : JobStorage) : result unit * HttpState :=
  serve version_full version_git_full iteration configuration resources uuid now req
    (mkHttp (Some s) Response_new).

(** ** Posting *)
(** A job that waits: known by its id, at address [p], and in the queue. *)
Definition waits (p : JobPtr) (job : Job) (s : JobStorage) : Prop :=
  heap s !! p = Some job /\ jobMap s !! id job = Some p /\ p ∈ queue_ (queue s).

Record posted (h : Handler) (jt : JobType) (uuid : string) (now : Z) (req : Request) (job : Job) (layer : Layer)
  : Prop := {
  po_method : method req = "POST";
  po_route : createRequestHandler resources req = Ret h;
  po_handler : h = PullHandler /\ jt = PULL \/ h = RemoveByAttributesHandler /\ jt = REMOVE_BY_ATTRIBUTES;
  po_body : fromString (req_body req) (Job_new jt uuid now) = (Ret tt, job);
  po_layer : getLayer configuration (layerName job) = Ret layer
}.

Lemma posted_waits h jt uuid now req job layer s :
  posted h jt uuid now req job layer ->
  exists s' p, answers (serve_storage uuid now req s) (Some s') HTTP_OK (print (toJsonValue job)) /\
    waits p job s' /\ queue_ (queue s') = queue_ (queue s) ++ [p] /\ type job = jt.
Proof.
  intros [Hm Hr Hh Hb Hl]. unfold serve_storage, serve. rewrite Hr.
  pose proof (post_job_result version_full configuration jt uuid now req (Some s) Response_new) as Hp.
  cbv zeta in Hp. rewrite Hb in Hp.
  assert (Hs : is_Some (layers configuration !! layerName job)).
  { unfold getLayer in Hl. by destruct (layers configuration !! layerName job). }
  destruct Hp as [(_ & Hacc & s' & p & Ha & _ & Hheap & Hget & Hq)|[Hno _]]; [|naive_solver].
  exists s', p. split; [by destruct Hh as [[-> ->]|[-> ->]]|]. split; [|split; [done|by apply Hacc]].
  split; [by rewrite Hheap, lookup_insert_eq|]. split; [|rewrite Hq; apply elem_of_app; right; left].
  unfold getJob in Hget. destruct (jobMap s' !! id job) as [p'|] eqn:Hk; [|done]. by injection Hget as ->.
Qed.

(** ** Showing *)
Lemma job_shown jobId uuid now req s p job :
  createRequestHandler resources req = Ret (GetJobHandler jobId) ->
  pointers_ok s -> jobMap s !! jobId = Some p -> heap s !! p = Some job ->
  answers (serve_storage uuid now req s) (Some s) HTTP_OK (print (toJsonValue job)).
Proof.
  intros Hr Hok Hm Hh. unfold serve_storage, serve. rewrite Hr. unfold lift. erewrite bind_step by reflexivity.
  cbn [handleRequest]. unfold GetJobHandler_handleRequest.
  destruct (prepareApiResponse_run version_full configuration (mkHttp (Some s) Response_new)) as (rs & Hp & Hst).
  erewrite bind_step by exact Hp. erewrite bind_step by reflexivity.
  erewrite bind_step.
  2: { unfold with_jobs. cbn [jobs]. rewrite find_job_run by done. rewrite Hm. cbn. rewrite Hh. reflexivity. }
  cbn [fmap option_fmap option_map]. erewrite bind_step by reflexivity.
  refine (send_document (toJsonValue job)
    (mkHttp (Some s) (mkResponse HTTP_OK (reason rs) (headers rs) (body rs))) _ (no_double_job job)).
  by rewrite toJsonValue_members.
Qed.

(** ** Working: the turn in which the job at [p] is handled *)
Lemma turn_processes fuel now s c p job w :
  waits p job s -> run_turn have_pq configuration fuel now (mkWorker s c) = (Ret (Handled p), w) ->
  exists job' c' q, process have_pq configuration fuel now (job, c) = (Ret true, (job', c')) /\
    w = mkWorker (update_job p job' (set_queue q s)) c'.
Proof.
  intros (Hh & _ & _). unfold run_turn.
  assert (Hpp : forall q p' c0, process_pointer have_pq configuration fuel now p' (mkWorker (set_queue q s) c0)
      = (Ret (Handled p), w) -> p' = p /\
      exists job' c', process have_pq configuration fuel now (job, c0) = (Ret true, (job', c')) /\
        w = mkWorker (update_job p job' (set_queue q s)) c').
  { intros q p' c0. unfold process_pointer. cbn [Worker.jobs heap set_queue db].
    destruct (heap s !! p') as [j|] eqn:Hj; [|done].
    destruct (process _ _ _ _ (j, c0)) as [r [j' c']] eqn:Hr. destruct r as [[]|e|]; intros [=].
    subst. rewrite Hh in Hj. injection Hj as <-. eauto. }
  unfold mbind at 1, M_bind, on_jobs at 1, storage_popNoWait, popNoWait. cbn [Worker.jobs db].
  destruct (queue_ (queue s)) as [|p' rest] eqn:Hq.
  - intros Hr. exfalso. revert Hr.
    destruct (negb (use_persistent_connections configuration));
      unfold mbind, M_bind, modify, mret, M_ret, on_jobs, storage_popWait, popWait, pop_locked;
      cbn [Worker.jobs db queue set_queue queue_]; rewrite Hq;
      by destruct (continue_ (queue s)).
  - intros (-> & job' & c' & Hp & ->)%Hpp. eauto 6.
Qed.

(** The job is FINISHED only when its function returned. *)
Definition handler_of (job : Job) (now : Z) : M (Job * Connection) unit :=
  match type job with
  | PULL => pull have_pq configuration now
  | REMOVE_BY_ATTRIBUTES => removeByAttributes have_pq configuration now
  end.

Definition started (now : Z) (job : Job) : Job := setMessage "" (setStatus IN_PROCESS now job).

Lemma process_finished fuel now job c c1 job' c' :
  reconnect (db_connection_string configuration) true c = (Ret true, c1) ->
  process have_pq configuration (S fuel) now (job, c) = (Ret true, (job', c')) -> status job' = FINISHED ->
  handler_of job now (started now job, c1) = (Ret tt, (job', c')).
Proof.
  intros Hc. unfold process, try_catch.
  match goal with |- context [match ?m ?s with _ => _ end] =>
    assert (Hm : m s = (_ ← handler_of job now; mret true) (started now job, c1)) end.
  { erewrite bind_step by reflexivity. cbn [await_connection].
    erewrite bind_step.
    2: { erewrite bind_step by (unfold on_db; rewrite Hc; reflexivity). reflexivity. }
    cbn [mret]. erewrite bind_step by reflexivity. erewrite bind_step by reflexivity. reflexivity. }
  rewrite Hm. unfold mbind at 1, M_bind.
  destruct (handler_of job now (started now job, c1)) as [[[]|e|] [j2 c2]] eqn:Hh; [by intros [= <- <-]| |done].
  intros Hf Hst. exfalso. revert Hf Hst. unfold handle_error.
  destruct e; cbn; intros [= <- <-]; try done.
Qed.

(** The storage after the turn shows the job as it was left. *)
Lemma turn_shows fuel now s c p job layer w :
  getLayer configuration (layerName job) = Ret layer -> waits p job s -> pointers_ok s ->
  run_turn have_pq configuration fuel now (mkWorker s c) = (Ret (Handled p), w) ->
  exists job', process have_pq configuration fuel now (job, c) = (Ret true, (job', db w)) /\ id job' = id job /\
    heap (Worker.jobs w) !! p = Some job' /\
    forall uuid now' req, createRequestHandler resources req = Ret (GetJobHandler (id job)) ->
      answers (serve_storage uuid now' req (Worker.jobs w)) (Some (Worker.jobs w)) HTTP_OK
        (print (toJsonValue job')).
Proof.
  intros Hl Hw Hok Hr. pose proof Hw as (Hh & Hm & _).
  destruct (turn_processes _ _ _ _ _ _ _ Hw Hr) as (job' & c' & q & Hp & ->). cbn [db Worker.jobs].
  exists job'. split; [exact Hp|]. split.
  - pose proof (process_result have_pq configuration fuel now job c layer Hl) as Hres. unfold wp in Hres.
    rewrite Hp in Hres. apply Hres.
  - split; [apply lookup_insert_eq|]. intros uuid now' req Hroute.
    apply (job_shown (id job) uuid now' req _ p job'); [done| |exact Hm|apply lookup_insert_eq].
    intros k p' Hk. cbn. destruct (decide (p = p')) as [->|N]; [rewrite lookup_insert_eq; by eexists|].
    rewrite lookup_insert_ne by done. eapply Hok, Hk.
Qed.

(** ** Properties *)

(** A turn that handled the job at [p], which waited until then. *)
Record handled (p : JobPtr) (job : Job) (fuel : nat) (now : Z) (s : JobStorage) (c : Connection) (w : Worker) : Prop := {
  ha_waits : waits p job s;
  ha_pointers : pointers_ok s;
  ha_turn : run_turn have_pq configuration (S fuel) now (mkWorker s c) = (Ret (Handled p), w)
}.

(** The connection of a turn was there, with the state [pg], and nothing was rolled back. *)
Record committed (c c1 : Connection) (pg : PGconn) (w : Worker) : Prop := {
  co_reconnect : reconnect (db_connection_string configuration) true c = (Ret true, c1);
  co_pgconn : pgconn c1 = Some pg;
  co_committed : exists new, sent (db w) = sent c1 ++ new /\ (Exec "rollback;", true) ∉ new
}.

(** What the client is shown of a job. *)
Definition shown (w : Worker) (job' : Job) : Prop :=
  forall uuid now req, createRequestHandler resources req = Ret (GetJobHandler (id job')) ->
    answers (serve_storage uuid now req (Worker.jobs w)) (Some (Worker.jobs w)) HTTP_OK (print (toJsonValue job')).

(** [C6] A removal from the request to the table and back, on a layer that allows
    the deletion of features.  The request is answered with 200 and the document
    of a job that is then found by its id and is the last in the queue.  Whenever
    a worker takes the job from the queue and its turn ends, whatever happened in
    between, the client is shown the document of the same job as the worker left
    it.  When this says FINISHED, the connection was there at once and nothing was
    rolled back, on a server that does what the manual says, the table has lost
    exactly the rows that match the attribute sets of the request, and
    [numDeleted] of the document is their number. *)
Theorem posted_removal_carried_out {cell} fields quote (cast : string -> string -> cell) equal rows_of
    uuid now req s job layer :
  let schema := target_table_schema layer in
  let table := target_table_name layer in
  removal_server schema table fields (attributeSets job) quote cast equal rows_of ->
  posted RemoveByAttributesHandler REMOVE_BY_ATTRIBUTES uuid now req job layer ->
  allow_feature_deletion layer = true ->
  exists s' p,
    answers (serve_storage uuid now req s) (Some s') HTTP_OK (print (toJsonValue job)) /\ waits p job s' /\
    queue_ (queue s') = queue_ (queue s) ++ [p] /\
    forall fuel now' s2 c w, handled p job fuel now' s2 c w ->
      exists job', heap (Worker.jobs w) !! p = Some job' /\ id job' = id job /\ shown w job' /\
        forall c1 pg, status job' = FINISHED -> committed c c1 pg w ->
         exists pg', pgconn (db w) = Some pg' /\
           rows_of pg' ≡ₚ List.filter (fun row => negb (matches fields (attributeSets job) cast equal row)) (rows_of
             pg) /\
           counted (numDeleted job') (length (List.filter (matches fields (attributeSets job) cast equal) (rows_of
             pg))).
Proof.
  intros schema table Hrs Hpost Ha.
  destruct (posted_waits _ _ _ _ _ _ _ s Hpost) as (s' & p & Hans & Hw & Hq & Ht).
  exists s', p. split; [exact Hans|]. split; [exact Hw|]. split; [exact Hq|].
  intros fuel now' s2 c w [Hw2 Hok Hturn].
  pose proof (po_layer _ _ _ _ _ _ _ Hpost) as Hl.
  destruct (turn_shows _ _ _ _ _ _ _ _ Hl Hw2 Hok Hturn) as (job' & Hp & Hid & Hj & Hshown).
  exists job'. split; [exact Hj|]. split; [exact Hid|]. split; [unfold shown; by rewrite Hid|].
  intros c1 pg Hst [Hc Hpg Hcom].
  pose proof (process_finished _ _ _ _ _ _ _ Hc Hp Hst) as Hrun. unfold handler_of in Hrun. rewrite Ht in Hrun.
  destruct (removal_rows have_pq schema table fields (attributeSets job) quote cast equal rows_of configuration now'
    (started now' job) c1 pg job' (db w) Hrs) as (pg' & Hpg' & Hrows & Hn & _); [|eauto].
  split; [exists layer; by repeat split|done|exact Hpg|exact Hrun|exact Hcom].
Qed.

(** [C7] A pull from the request to the table and back, outside of bulk mode.  The
    request is answered with 200 and the document of a job that is then found by
    its id and is the last in the queue.  Whenever a worker takes the job from the
    queue and its turn ends, the client is shown the document of the same job as
    the worker left it.  When this says FINISHED with no feature ignored, the
    connection was there at once and nothing was rolled back, on a server that
    does what the manual says and with complete keys, different in the source,
    the table is that of the source in the sense of [synchronised], and the
    counters of the document are those of [default_pull_synchronises]. *)
Theorem posted_pull_carried_out {ST : SqlTypes} (ly : Layout) quote value_of view uuid now req s job layer :
  posted PullHandler PULL uuid now req job layer ->
  postgres ly quote value_of view -> layout_ok ly -> ly_layer ly = layer -> bulk_mode layer = false ->
  open_source layer (Job.filter job) = Ret (ly_source ly) -> ly_name ly = layerName job -> ly_id ly = id job ->
  (forall rows, feature_rows ly value_of 0 (features (ly_source ly)) = Ret rows ->
     NoDup (key_of (primaryKeyColumns (ly_columns ly)) <$> rows) /\
     Forall (key_complete (primaryKeyColumns (ly_columns ly))) rows) ->
  exists s' p,
    answers (serve_storage uuid now req s) (Some s') HTTP_OK (print (toJsonValue job)) /\ waits p job s' /\
    queue_ (queue s') = queue_ (queue s) ++ [p] /\
    forall fuel now' s2 c w, handled p job fuel now' s2 c w ->
      exists job', heap (Worker.jobs w) !! p = Some job' /\ id job' = id job /\ shown w job' /\
        forall c1 pg, status job' = FINISHED -> numIgnored job' = 0%Z -> committed c c1 pg w ->
         Forall (key_complete (primaryKeyColumns (ly_columns ly))) (target_of view pg) ->
         exists pg' rows created updated deleted,
           pgconn (db w) = Some pg' /\ feature_rows ly value_of 0 (features (ly_source ly)) = Ret rows /\
           synchronised (bool_decide (2 <= (ly_version ly).1.1)%Z) (primaryKeyColumns (ly_columns ly))
             (insertColumns (ly_columns ly))
             ((fun c => (c, is_geometry ly c)) <$> updateColumns (ly_columns ly)) (allows ly job)
             (mkTables (target_of view pg) rows) (mkTables (target_of view pg') rows) /\
           created = length (missing (primaryKeyColumns (ly_columns ly)) (target_of view pg) rows) /\
           updated = length (changed (bool_decide (2 <= (ly_version ly).1.1)%Z) (primaryKeyColumns (ly_columns ly))
             ((fun c => (c, is_geometry ly c)) <$> updateColumns (ly_columns ly)) (target_of view pg) rows) /\
           length (target_of view pg') + deleted = length (target_of view pg) + created /\
           counted (numCreated job') created /\ counted (numUpdated job') updated /\
           counted (numDeleted job') deleted.
Proof.
  intros Hpost Hpg Hly Hlayer Hbulk Hsrc Hname Hid Hrows.
  destruct (posted_waits _ _ _ _ _ _ _ s Hpost) as (s' & p & Hans & Hw & Hq & Ht).
  exists s', p. split; [exact Hans|]. split; [exact Hw|]. split; [exact Hq|].
  intros fuel now' s2 c w [Hw2 Hok Hturn].
  pose proof (po_layer _ _ _ _ _ _ _ Hpost) as Hl.
  destruct (turn_shows _ _ _ _ _ _ _ _ Hl Hw2 Hok Hturn) as (job' & Hp & Hid' & Hj & Hshown).
  exists job'. split; [exact Hj|]. split; [exact Hid'|]. split; [unfold shown; by rewrite Hid'|].
  intros c1 pg Hst Hign [Hc Hpgc Hcom] Htarget.
  pose proof (process_finished _ _ _ _ _ _ _ Hc Hp Hst) as Hrun. unfold handler_of in Hrun. rewrite Ht in Hrun.
  destruct (committed_pull_synchronises have_pq ly quote value_of view configuration now'
    (started now' job) c1 pg job' (db w) Hpg Hly) as (pg' & rows & cr & u & d & Hpg' & Hr & Hs & Hcounts);
    [|by rewrite Hlayer|exact Hrows|exact Htarget|].
  - split; rewrite ?Hlayer; [exact Hl|exact Hsrc|done|done|exact Hpgc|exact Hrun|exact Hign|exact Hcom].
  - exists pg', rows, cr, u, d. exact (conj Hpg' (conj Hr (conj Hs Hcounts))).
Qed.
End EndToEnd.

Lemma pair_of_fst {A B} (x : A * B) (a : A) : x.1 = a -> x = (a, x.2).
Proof. destruct x. by intros <-. Qed.

(** ** Witness: a removal that is posted, handled and shown *)
Module EndToEndExample.
Definition sets : list AttributeSet :=
  [{["gid" := Nullable_of "1"; "title" := Nullable_of "oak"]}; {["title" := Nullable_new]}].
Definition server : LibPQ := RemovalExample.server sets.
Definition request : Request :=
  mkRequest "POST" "/api/v1/remove-by-attributes" ∅ (print (toJsonValue (RemovalExample.job sets))).
Definition job : Job := (fromString (req_body request) (Job_new REMOVE_BY_ATTRIBUTES "ab-cd" 5)).2.
Definition served : result unit * HttpState :=
  serve_storage "1.0.0" "" map_to_list None RemovalExample.configuration "ab-cd" 5 request (JobStorage_new 60).
Definition storage : JobStorage := default (JobStorage_new 0) (Http.jobs served.2).
Abbreviation connection1 := ((reconnect (PQ := server) "" true (RemovalExample.connection0 sets)).2).
Abbreviation turn_result :=
  (run_turn (PQ := server) (GD := PullExample.library) true RemovalExample.configuration 1 9
    (mkWorker (PQ := server) storage (RemovalExample.connection0 sets))).

Lemma request_posted :
  posted None RemovalExample.configuration RemoveByAttributesHandler REMOVE_BY_ATTRIBUTES "ab-cd" 5 request job
    RemovalExample.layer.
Proof.
  split; [reflexivity|vm_compute; reflexivity|by right| |reflexivity].
  apply pair_of_fst. vm_compute. reflexivity.
Qed.

Lemma job_waits p s :
  answers served (Some s) HTTP_OK (print (toJsonValue job)) -> waits p job s -> s = storage /\ p = 0.
Proof.
  intros (st & Hr & Hj & _) (_ & Hw & _).
  assert (s = storage) as -> by (unfold storage; rewrite Hr; cbn; by rewrite Hj). split; [done|].
  assert (H0 : jobMap storage !! id job = Some 0) by (vm_compute; reflexivity).
  rewrite H0 in Hw. by injection Hw.
Qed.
Lemma turn_handled : turn_result = (Ret (Handled 0), turn_result.2).
Proof. apply pair_of_fst. vm_compute. reflexivity. Qed.

Lemma job_handled :
  waits 0 job storage ->
  handled (PQ := server) (GD := PullExample.library) true RemovalExample.configuration 0 job 0 9 storage
    (RemovalExample.connection0 sets) turn_result.2.
Proof.
  intros Hw. split; [exact Hw| |exact turn_handled].
  assert (E : map_to_list (jobMap storage) = [(id job, 0)]) by (vm_compute; reflexivity).
  intros k p Hk. apply elem_of_map_to_list in Hk. rewrite E in Hk.
  apply list_elem_of_singleton in Hk. apply pair_equal_spec in Hk as [_ ->]. destruct Hw as [-> _]. by eexists.
Qed.

Lemma job_committed :
  committed (PQ := server) RemovalExample.configuration (RemovalExample.connection0 sets) connection1
    RemovalExample.before turn_result.2.
Proof.
  split; [apply pair_of_fst; vm_compute; reflexivity|vm_compute; reflexivity|].
  exists (drop 1 (sent (db turn_result.2))). split; [vm_compute; reflexivity|].
  refine (proj1 (bool_decide_eq_true _) _). vm_compute. reflexivity.
Qed.

Lemma job_left :
  (fun j => (status j, numDeleted j)) <$> heap (Worker.jobs turn_result.2) !! 0 = Some (FINISHED, 2%Z).
Proof. vm_compute. reflexivity. Qed.

Lemma rows_left :
  List.filter (fun row => negb (matches RemovalExample.fields (attributeSets job) RemovalExample.cast
    RemovalExample.equal row)) RemovalExample.before = [RemovalExample.row 3 (Some "fir");
      RemovalExample.row 4 (Some "oak")].
Proof. vm_compute. reflexivity. Qed.

Lemma job_server :
  removal_server (PQ := server) "public" "trees" RemovalExample.fields (attributeSets job) RemovalExample.quote
    RemovalExample.cast RemovalExample.equal (fun rows => rows).
Proof.
  assert (E : attributeSets job = sets) by (vm_compute; reflexivity). rewrite E.
  exact (RemovalExample.removal_server_ok sets).
Qed.
End EndToEndExample.

Lemma posted_removal_carried_out_witness :
  exists job', status job' = FINISHED /\ numDeleted job' = 2%Z /\
    shown "1.0.0" "" map_to_list None RemovalExample.configuration EndToEndExample.turn_result.2 job' /\
    exists rows : list (gmap string string), pgconn (db EndToEndExample.turn_result.2) = Some rows /\
      rows ≡ₚ [RemovalExample.row 3 (Some "fir"); RemovalExample.row 4 (Some "oak")].
Proof.
  destruct (posted_removal_carried_out (PQ := EndToEndExample.server) (GD := PullExample.library) true
    "1.0.0" "" map_to_list None RemovalExample.configuration RemovalExample.fields
    RemovalExample.quote RemovalExample.cast RemovalExample.equal (fun rows => rows) "ab-cd" 5
    EndToEndExample.request (JobStorage_new 60) EndToEndExample.job RemovalExample.layer
    EndToEndExample.job_server EndToEndExample.request_posted eq_refl) as (s & p & Ha & Hw & _ & H).
  destruct (EndToEndExample.job_waits p s Ha Hw) as [-> ->].
  destruct (H _ _ _ _ _ (EndToEndExample.job_handled Hw)) as (job' & Hj & _ & Hshown & Hdone).
  pose proof EndToEndExample.job_left as Hl. rewrite Hj in Hl. injection Hl as Hst Hn.
  destruct (Hdone _ _ Hst EndToEndExample.job_committed) as (rows & Hp & Hrows & _). rewrite EndToEndExample.rows_left in Hrows.
  exists job'. split; [exact Hst|]. split; [exact Hn|]. split; [exact Hshown|]. exists rows.
  split; [exact Hp|exact Hrows].
Defined.

(** ** Witness: a pull that is posted, handled and shown *)
Module EndToEndPull.
Abbreviation trees := SyncExample.source_trees.
Definition server : LibPQ := SyncExample.server false trees.
Definition library : Gdal := SyncExample.library trees.
Definition configuration : Configuration := SyncExample.configuration false.
Definition request : Request := mkRequest "POST" "/api/v1/pull" ∅ (print (toJsonValue SyncExample.job)).
Definition job : Job := (fromString (req_body request) (Job_new PULL "ab-cd" 5)).2.
Definition served : result unit * HttpState :=
  serve_storage "1.0.0" "" map_to_list None configuration "ab-cd" 5 request (JobStorage_new 60).
Definition storage : JobStorage := default (JobStorage_new 0) (Http.jobs served.2).
Definition connection0 : @Connection server := SyncExample.connection0 false trees SyncExample.before.
Abbreviation connection1 := ((reconnect (PQ := server) "" true connection0).2).
Abbreviation turn_result :=
  (run_turn (PQ := server) (GD := library) true configuration 1 9 (mkWorker (PQ := server) storage connection0)).

Lemma pull_request_posted : posted None configuration PullHandler PULL "ab-cd" 5 request job (SyncExample.layer false).
Proof.
  split; [reflexivity|vm_compute; reflexivity|by left| |reflexivity].
  apply pair_of_fst. vm_compute. reflexivity.
Qed.

Lemma pull_job_waits p s :
  answers served (Some s) HTTP_OK (print (toJsonValue job)) -> waits p job s -> s = storage /\ p = 0.
Proof.
  intros (st & Hr & Hj & _) (_ & Hw & _).
  assert (s = storage) as -> by (unfold storage; rewrite Hr; cbn; by rewrite Hj). split; [done|].
  assert (H0 : jobMap storage !! id job = Some 0) by (vm_compute; reflexivity).
  rewrite H0 in Hw. by injection Hw.
Qed.

Lemma pull_turn_handled : turn_result = (Ret (Handled 0), turn_result.2).
Proof. apply pair_of_fst. vm_compute. reflexivity. Qed.

Lemma pull_job_handled :
  waits 0 job storage ->
  handled (PQ := server) (GD := library) true configuration 0 job 0 9 storage connection0 turn_result.2.
Proof.
  intros Hw. split; [exact Hw| |exact pull_turn_handled].
  assert (E : map_to_list (jobMap storage) = [(id job, 0)]) by (vm_compute; reflexivity).
  intros k p Hk. apply elem_of_map_to_list in Hk. rewrite E in Hk.
  apply list_elem_of_singleton in Hk. apply pair_equal_spec in Hk as [_ ->]. destruct Hw as [-> _]. by eexists.
Qed.

Lemma pull_job_committed :
  committed (PQ := server) configuration connection0 connection1
    (@mkSession SyncExample.types (@mkTables SyncExample.types SyncExample.before []) ∅) turn_result.2.
Proof.
  split; [apply pair_of_fst; vm_compute; reflexivity|vm_compute; reflexivity|].
  exists (drop 1 (sent (db turn_result.2))). split; [vm_compute; reflexivity|].
  refine (proj1 (bool_decide_eq_true _) _). vm_compute. reflexivity.
Qed.

Lemma pull_job_left :
  (fun j => (status j, numIgnored j, numCreated j)) <$> heap (Worker.jobs turn_result.2) !! 0
  = Some (FINISHED, 0%Z, 1%Z).
Proof. vm_compute. reflexivity. Qed.

Lemma keys_left :
  SyncExample.keys_ok (SyncExample.rows_of false trees) = true /\ SyncExample.keys_ok SyncExample.before = true.
Proof. split; vm_compute; reflexivity. Qed.
End EndToEndPull.

Lemma posted_pull_carried_out_witness :
  exists job', status job' = FINISHED /\ numCreated job' = 1%Z /\
    shown "1.0.0" "" map_to_list None EndToEndPull.configuration EndToEndPull.turn_result.2 job' /\
    exists p' rows, pgconn (db EndToEndPull.turn_result.2) = Some p' /\
      synchronised (ST := SyncExample.types) true ["gid"] ["geom"; "gid"; "title"]
        [("geom", true); ("title", false)] true (@mkTables SyncExample.types SyncExample.before rows)
        (@mkTables SyncExample.types (target (tables p')) rows).
Proof.
  destruct EndToEndPull.keys_left as [Hk1 Hk2].
  destruct (posted_pull_carried_out (PQ := EndToEndPull.server) (GD := EndToEndPull.library) true
    "1.0.0" "" map_to_list None EndToEndPull.configuration (ST := SyncExample.types)
    (SyncExample.layout false SyncExample.source_trees) SyncExample.quote SyncExample.value_of (fun s => s) "ab-cd" 5
    EndToEndPull.request (JobStorage_new 60) EndToEndPull.job (SyncExample.layer false)
    EndToEndPull.pull_request_posted (SyncExample.server_ok false _) (SyncExample.layout_is_ok false _) eq_refl eq_refl
    eq_refl) as (s & p & Ha & Hw & _ & H); [vm_compute; reflexivity|vm_compute; reflexivity| |].
  - intros rows ->%SyncExample.rows_of_eq. by apply SyncExample.keys_ok_spec.
  - destruct (EndToEndPull.pull_job_waits p s Ha Hw) as [-> ->].
    destruct (H _ _ _ _ _ (EndToEndPull.pull_job_handled Hw)) as (job' & Hj & _ & Hshown & Hdone).
    pose proof EndToEndPull.pull_job_left as Hl. rewrite Hj in Hl. injection Hl as Hst Hi Hn.
    destruct (Hdone _ _ Hst Hi EndToEndPull.pull_job_committed) as (p' & rows & _ & _ & _ & Hp & _ & Hs & _).
    { apply (SyncExample.keys_ok_spec SyncExample.before), Hk2. }
    exists job'. split; [exact Hst|]. split; [exact Hn|]. split; [exact Hshown|]. exists p', rows.
    split; [exact Hp|exact Hs].
Defined.
