(* ===== verification/System.v ===== *)
(** * The running server

    The HTTP interface, the job storage, the workers and the cleanup thread
    together: what the checks of the handlers promise to the workers. *)
From S2P Require Import Prelude Configuration Json Job QuitableQueue JobStorage LibPQ Connection Gdal.
From S2P Require Import Transaction Pull PullSpec Worker WorkerSpec Http HttpSpec.

Section System.
Context {PQ : LibPQ} {GD : Gdal} (have_pq : bool).
Context (version_full version_git_full : string).
Context (iteration : gmap string JobPtr -> list (string * JobPtr)).
Context (iteration_perm : forall m, iteration m ≡ₚ map_to_list m).
Context (resources : option (list resource_info)) (configuration : Configuration).

(** The storage and the database connection of each worker thread that runs. *)
Record System := mkSystem { sys_jobs : JobStorage; sys_workers : gmap nat Connection }.

Definition serve_request (uuid : string) (now : Z) (req : Request) (s : JobStorage)
  : result unit * HttpState :=
  serve version_full version_git_full iteration configuration resources uuid now req
    (mkHttp (Some s) Response_new).

(** A request, a turn of a worker, a pass of the cleanup thread and [quit] in
    any order; an exception that leaves a turn ends the process, so that there
    is no next state. *)
Inductive sys_step : System -> System -> Prop :=
  | sys_request uuid now req S r st s' :
    serve_request uuid now req (sys_jobs S) = (r, st) -> jobs st = Some s' ->
    sys_step S (mkSystem s' (sys_workers S))
  | sys_turn t fuel now S c r w :
    sys_workers S !! t = Some c ->
    run_turn have_pq configuration fuel now (mkWorker (sys_jobs S) c) = (Ret r, w) ->
    sys_step S (mkSystem (Worker.jobs w)
                  (match r with
                   | Exited => delete t (sys_workers S)
                   | _ => <[t := db w]> (sys_workers S)
                   end))
  | sys_cleanup now S s' :
    cleanup iteration now (sys_jobs S) = (Ret tt, s') ->
    sys_step S (mkSystem s' (sys_workers S))
  | sys_quit S :
    sys_step S (mkSystem (storage_quit (sys_jobs S)).2 (sys_workers S)).

Definition sys_start (workers : gmap nat Connection) : System :=
  mkSystem (JobStorage_new (max_age_done_jobs configuration)) workers.

Definition sys_reachable (workers : gmap nat Connection) : System -> Prop :=
  rtc sys_step (sys_start workers).

(** Every job has a layer of the configuration, every pointer is valid. *)
Record jobs_ok (s : JobStorage) : Prop := {
  jo_layers : forall p j, heap s !! p = Some j -> is_Some (layers configuration !! layerName j);
  jo_map : pointers_ok s;
  jo_queue : forall p, p ∈ queue_ (queue s) -> is_Some (heap s !! p)
}.

Lemma jobs_ok_start age : jobs_ok (JobStorage_new age).
Proof.
  split.
  - intros p j. simpl. by rewrite lookup_empty.
  - intros k p. simpl. by rewrite lookup_empty.
  - intros p Hp. simpl in Hp. by apply not_elem_of_nil in Hp.
Qed.

(** Writing a job back, at a new or an old address. *)
Lemma jobs_ok_update s p j :
  jobs_ok s -> is_Some (layers configuration !! layerName j) -> jobs_ok (update_job p j s).
Proof.
  intros [Hl Hm Hq] Hj.
  assert (Hs : forall p', is_Some (heap s !! p') -> is_Some (<[p := j]> (heap s) !! p')).
  { intros p' Hp'. destruct (decide (p = p')) as [<-|?];
      [rewrite lookup_insert_eq; by eexists|by rewrite lookup_insert_ne]. }
  split; simpl.
  - intros p' j'. rewrite lookup_insert_Some. naive_solver.
  - intros k p' Hk. apply Hs. eapply Hm, Hk.
  - intros p' Hp'. by apply Hs, Hq.
Qed.

Lemma jobs_ok_queue s q : jobs_ok s -> (forall p, p ∈ queue_ q -> p ∈ queue_ (queue s)) ->
  jobs_ok (set_queue q s).
Proof. intros [Hl Hm Hq] H. split; [done|done|]. intros p Hp. by apply Hq, H. Qed.

Lemma jobs_ok_pushed s jt uuid now job :
  jobs_ok s -> accepted configuration jt uuid now job -> jobs_ok (with_job s job).
Proof.
  intros Hok (_ & _ & _ & _ & _ & Hl). unfold with_job. set (p := fresh (dom (heap s))).
  pose proof (jobs_ok_update s p job Hok Hl) as [H1 H2 H3]. split; simpl in *.
  - exact H1.
  - intros k p'. simpl. rewrite lookup_insert_Some. intros [[_ <-]|[_ Hk]]; [rewrite lookup_insert_eq; by eexists|].
    eapply H2, Hk.
  - intros p' [Hp'| ->%list_elem_of_singleton]%elem_of_app; [by apply H3|].
    rewrite lookup_insert_eq. by eexists.
Qed.

Lemma serve_ok uuid now req s r st s' :
  jobs_ok s -> serve_request uuid now req s = (r, st) -> jobs st = Some s' -> jobs_ok s'.
Proof.
  intros Hok. unfold serve_request, serve, lift.
  destruct (createRequestHandler resources req) as [h|e|]; [|by intros [= <- <-] [= <-]..].
  erewrite bind_step by reflexivity. intros Hr Hs.
  destruct (handleRequest_effect version_full version_git_full iteration iteration_perm
    configuration h uuid now req (Some s) Response_new) as (js' & code & text & (st1 & Ha & Hj & _) & He).
  { intros s0 [= <-]. apply Hok. }
  rewrite Hr in Ha. injection Ha as -> ->. rewrite Hs in Hj. subst js'.
  destruct He as [[= ->]|(jt & s0 & job & [= <-] & [= ->] & Ha)]; [done|]. by eapply jobs_ok_pushed.
Qed.

Definition turn_ok (r : result turn) (w : Worker) : Prop :=
  jobs_ok (Worker.jobs w) /\ match r with Throw _ => False | _ => True end.

Lemma process_pointer_ok fuel now p w :
  jobs_ok (Worker.jobs w) -> is_Some (heap (Worker.jobs w) !! p) ->
  wp (process_pointer have_pq configuration fuel now p) turn_ok w.
Proof.
  intros Hok [j Hj]. unfold wp, process_pointer. rewrite Hj.
  destruct (jo_layers _ Hok p j Hj) as [layer Hl].
  pose proof (process_result have_pq configuration fuel now j (db w) layer) as Hp. unfold wp in Hp.
  destruct (process have_pq configuration fuel now (j, db w)) as [r [j' c']].
  destruct Hp as (_ & Hn & Hr); [unfold getLayer; by rewrite Hl|]. simpl in Hn, Hr.
  assert (Hok' : jobs_ok (update_job p j' (Worker.jobs w)))
    by (apply jobs_ok_update; [done|rewrite Hn, Hl; by eexists]).
  by destruct r as [[]|e|]; split.
Qed.

Lemma run_turn_ok fuel now w :
  jobs_ok (Worker.jobs w) -> wp (run_turn have_pq configuration fuel now) turn_ok w.
Proof.
  intros Hok.
  assert (Hitem : forall c p rest, queue_ (queue (Worker.jobs w)) = p :: rest ->
    wp (process_pointer have_pq configuration fuel now p) turn_ok
      (mkWorker (set_queue (mkQueue rest (continue_ (queue (Worker.jobs w)))) (Worker.jobs w)) c)).
  { intros c p rest Hq. apply process_pointer_ok; cbn [Worker.jobs].
    - apply jobs_ok_queue; [done|]. intros p' Hp'. rewrite Hq. by right.
    - apply (jo_queue _ Hok). rewrite Hq. left. }
  unfold run_turn. apply wp_bind. unfold wp at 1, on_jobs, storage_popNoWait, popNoWait.
  destruct (queue_ (queue (Worker.jobs w))) as [|p rest] eqn:Hq; cbn [seq_post];
    [|by apply Hitem].
  set (w1 := mkWorker _ _).
  assert (Hw1 : jobs_ok (Worker.jobs w1) /\ queue_ (queue (Worker.jobs w1)) = [])
    by (split; [apply jobs_ok_queue; [done|]; by intros p Hp|exact Hq]).
  clearbody w1. apply wp_bind.
  assert (Hclose : wp (if negb (use_persistent_connections configuration)
         then modify (fun w => mkWorker (Worker.jobs w) (set_pgconn None (db w))) else mret tt)
       (fun r w2 => r = Ret tt /\ jobs_ok (Worker.jobs w2) /\ queue_ (queue (Worker.jobs w2)) = []) w1).
  { by destruct (negb _). }
  eapply wp_mono; [exact Hclose|]. intros r w2 (-> & Hok2 & Hq2). cbn [seq_post].
  apply wp_bind. unfold wp at 1, on_jobs, storage_popWait, popWait, pop_locked.
  rewrite Hq2. destruct (continue_ (queue (Worker.jobs w2))) eqn:Hc; cbn [negb seq_post].
  - by split.
  - split; [by apply (jobs_ok_queue _ _ Hok2)|done].
Qed.

Lemma sys_step_ok S S' : jobs_ok (sys_jobs S) -> sys_step S S' -> jobs_ok (sys_jobs S').
Proof.
  intros Hok Hs. destruct Hs as [uuid now req S r st s' Hr Hj|t fuel now S c r w _ Hr|now S s' Hr|S]; simpl.
  - by eapply serve_ok.
  - pose proof (run_turn_ok fuel now (mkWorker (sys_jobs S) c) Hok) as H. unfold wp in H.
    rewrite Hr in H. apply H.
  - destruct (cleanup_spec iteration iteration_perm now (sys_jobs S)) as (m & Hc & Hm); [apply Hok|].
    rewrite Hc in Hr. injection Hr as <-. destruct Hok as [H1 H2 H3].
    split; [done| |done]. intros k p Hk. simpl in Hk. apply Hm in Hk as [Hk _]. eapply H2, Hk.
  - by apply (jobs_ok_queue _ _ Hok).
Qed.

Lemma sys_reachable_ok workers S : sys_reachable workers S -> jobs_ok (sys_jobs S).
Proof.
  intros Hr. unfold sys_reachable in Hr.
  assert (Hok : jobs_ok (sys_jobs (sys_start workers))) by apply jobs_ok_start.
  induction Hr as [|S1 S2 S3 Hs _ IH]; [done|]. apply IH. by eapply sys_step_ok.
Qed.

(** [C9] No request can end a worker: in every state that requests, workers,
    cleanup passes and [quit] reach in any order, each turn of a worker handles
    its job without letting an exception out of [run], because the handlers have
    queued only jobs whose layer is configured; and every request that is
    routed to a handler is still answered. *)
Theorem workers_survive workers S c fuel now uuid req h :
  sys_reachable workers S ->
  (forall e w, run_turn have_pq configuration fuel now (mkWorker (sys_jobs S) c) <> (Throw e, w)) /\
  (createRequestHandler resources req = Ret h ->
   exists st text, serve_request uuid now req (sys_jobs S) = (Ret tt, st) /\ body (resp st) = Some text).
Proof.
  intros Hr. pose proof (sys_reachable_ok workers S Hr) as Hok. split.
  - intros e w He. pose proof (run_turn_ok fuel now (mkWorker (sys_jobs S) c) Hok) as H. unfold wp in H.
    rewrite He in H. by destruct H.
  - intros Hh. unfold serve_request, serve. rewrite Hh.
    destruct (handleRequest_effect version_full version_git_full iteration iteration_perm
      configuration h uuid now req (Some (sys_jobs S)) Response_new)
      as (js & code & text & (st & Ha & _ & _ & Hb) & _); [intros s [= <-]; apply Hok|].
    exists st, text. split; [exact Ha|exact Hb].
Qed.
End System.

(** ** Witness: a worker, and a request for a pull that was accepted *)
Module SystemExample.
Definition body : string :=
  cat ["{ "; dquote; "layerName"; dquote; ": "; dquote; "trees"; dquote; " }"].
Definition request : Request := mkRequest "POST" "/api/v1/pull" ∅ body.
Definition workers : gmap nat (@Connection WorkerExample.server) := {[0 := WorkerExample.connection0]}.
Definition configuration : Configuration := WorkerExample.configuration true.
Definition served : result unit * HttpState :=
  serve_request "1.0.0" "" map_to_list None configuration "ab-cd" 5 request
    (sys_jobs (sys_start configuration workers)).
Definition state1 : @System WorkerExample.server :=
  mkSystem (default (JobStorage_new 0) (Http.jobs served.2)) workers.

Lemma served_storage :
  Http.jobs served.2 = Some (default (JobStorage_new 0) (Http.jobs served.2)).
Proof. vm_compute. reflexivity. Qed.
End SystemExample.

Lemma workers_survive_witness :
  queue_ (queue (sys_jobs SystemExample.state1)) = [0] /\
  forall e w, run_turn (GD := PullExample.library) true SystemExample.configuration 1 9
    (mkWorker (sys_jobs SystemExample.state1) WorkerExample.connection0) <> (Throw e, w).
Proof.
  split; [vm_compute; reflexivity|].
  refine (proj1 (workers_survive (PQ := WorkerExample.server) (GD := PullExample.library) true
    "1.0.0" "" map_to_list (fun _ => reflexivity _) None SystemExample.configuration
    SystemExample.workers SystemExample.state1 WorkerExample.connection0 1 9 "" SystemExample.request
    PullHandler _)).
  apply rtc_once.
  refine (sys_request (GD := PullExample.library) true "1.0.0" "" map_to_list None
    SystemExample.configuration "ab-cd" 5 SystemExample.request
    (sys_start SystemExample.configuration SystemExample.workers)
    SystemExample.served.1 SystemExample.served.2
    (default (JobStorage_new 0) (Http.jobs SystemExample.served.2)) (surjective_pairing _) _).
  exact SystemExample.served_storage.
Defined.
