(* ===== verification/Server.v ===== *)
(** * Startup and shutdown

    [src/server/baselistener.h], [src/server/http/listener.cpp],
    [src/server/broker.cpp] and [src/server/server.cpp].  The sockets, the log
    channel and the option parser of Poco are parameters, and so is libpq, for
    every worker anew: the database may go away between two connections.  A
    worker thread counts from its creation to its [join]. *)
From S2P Require Import Prelude Configuration QuitableQueue JobStorage LibPQ Connection.

(** ** The HTTP listener *)
Record Listener := mkListener {
  (** [BaseListener::jobs] and the factory's copy: set or not. *)
  has_jobs : bool;
  factory_has_jobs : bool;
  isRunning : bool
}.

(** [Listener(configuration)]: binding the port may fail with a message. *)
Definition Listener_new (bind : Z -> option string) (configuration : Configuration) : string + Listener :=
  match bind (http_port configuration) with
  | Some e => inl e
  | None => inr (mkListener false false false)
  end.

Definition listener_setJobs (l : Listener) : Listener :=
  mkListener true (factory_has_jobs l) (isRunning l).

(** The listener does not override [BaseListener::runInThread]. *)
Definition runInThread (l : Listener) : bool := false.

Definition listener_run (l : Listener) : Listener :=
  if negb (isRunning l) then mkListener (has_jobs l) (has_jobs l) true else l.

Definition listener_stop (l : Listener) : Listener :=
  if isRunning l then mkListener (has_jobs l) (factory_has_jobs l) false else l.

(** ** The broker *)
Record Broker := mkBroker {
  configuration : Configuration;
  broker_jobs : JobStorage;
  listeners : list Listener;
  workerThreads : nat;
  listenerThreads : nat
}.

Definition Broker_new (_configuration : Configuration) : Broker :=
  mkBroker _configuration (JobStorage_new (max_age_done_jobs _configuration)) [] 0 0.

Definition addListener (l : Listener) (b : Broker) : Broker :=
  mkBroker (configuration b) (broker_jobs b) (listeners b ++ [listener_setJobs l]) (workerThreads b)
    (listenerThreads b).

Section Run.
(** libpq as the worker of a number finds it. *)
Context (database : nat -> LibPQ).

(** [new Worker(configuration, jobs)]: all that can fail is its connection. *)
Definition Worker_new (nW : nat) (_configuration : Configuration) : result unit :=
  (@Connection_new (database nW) (db_connection_string _configuration)).1.

Definition add_worker (b : Broker) : Broker :=
  mkBroker (configuration b) (broker_jobs b) (listeners b) (S (workerThreads b)) (listenerThreads b).

(** The loop over the workers; [n] are still to be started. *)
Fixpoint start_workers (n nW : nat) : M Broker unit :=
  match n with
  | 0 => mret tt
  | S n =>
    b ← get;
    _ ← lift (Worker_new nW (configuration b));
    _ ← modify add_worker;
    start_workers n (S nW)
  end.

(** A listener that blocks runs in a thread of its own, any other at once. *)
Definition start_listeners (b : Broker) : Broker :=
  mkBroker (configuration b) (broker_jobs b) (listener_run <$> listeners b) (workerThreads b)
    (listenerThreads b + length (List.filter runInThread (listeners b))).

Definition Broker_run : M Broker unit :=
  b ← get;
  _ ← start_workers (Z.to_nat (num_worker_threads (configuration b))) 0;
  modify start_listeners.
End Run.

(** The steps of [Broker::stop] in their order.  [join] is taken to return, with
    the thread at its end; that the workers end after [quit] is the subject of
    [WorkerSpec.run_drains_queue], and what follows for the storage that of
    [Lifetime]. *)
Definition stop_listeners (b : Broker) : Broker :=
  match listeners b with
  | [] => b
  | _ => mkBroker (configuration b) (broker_jobs b) (listener_stop <$> listeners b) (workerThreads b) 0
  end.
Definition quit_jobs (b : Broker) : Broker :=
  mkBroker (configuration b) (storage_quit (broker_jobs b)).2 (listeners b) (workerThreads b)
    (listenerThreads b).
Definition join_workers (b : Broker) : Broker :=
  mkBroker (configuration b) (broker_jobs b) (listeners b) 0 (listenerThreads b).

Definition Broker_stop (b : Broker) : Broker := join_workers (quit_jobs (stop_listeners b)).

(** ** The application *)
Inductive ExitCode := EXIT_OK | EXIT_USAGE | EXIT_SOFTWARE.

(** The options of the command line. *)
Inductive Callback := call_handleHelp | call_handleConfigfile.
#[export] Instance Callback_eq_dec : EqDecision Callback.
Proof. solve_decision. Defined.

Record Option_ := mkOption {
  fullName : string;
  shortName : string;
  description : string;
  required : bool;
  repeatable : bool;
  argument : option string;
  callback : Callback
}.

(** [options] holds those of [ServerApplication]. *)
Definition defineOptions (options : list Option_) : list Option_ :=
  options ++
  [mkOption "help" "h" "Display help information and exit." false false None call_handleHelp;
   mkOption "configfile" "c" "Path to the configuration file." true false (Some "file") call_handleConfigfile].

(** What [displayHelp] hands to the [HelpFormatter]; the versions come from the
    build. *)
Record HelpText := mkHelpText { help_options : list Option_; command : string; usage : string; header : string }.
Record Build := mkBuild { VERSION_FULL : string; VERSION_GIT_FULL : string; debug_build : bool }.

Definition displayHelp (build : Build) (options : list Option_) (commandName : string) : HelpText :=
  mkHelpText options commandName "-c=CONFIGFILE [OPTIONS]"
    (cat ["On-demand synchronization of vector datasources to a PostgreSQL/PostGIS database."; nl; nl; "version: ";
          VERSION_FULL build; " [git: "; VERSION_GIT_FULL build; "]"]).

(** [shown] is what was written to [std::cout], [optionsStopped] whether
    [stopOptionsProcessing] was called. *)
Record Server := mkServer {
  server_configuration : option Configuration;
  _helpRequested : bool;
  _configOk : bool;
  optionsStopped : bool;
  shown : list HelpText
}.
Definition Server_new : Server := mkServer None false false false [].

Section Options.
Context (build : Build) (options : list Option_) (commandName : string) (files : string -> option string).

Definition handleHelp (s : Server) : Server :=
  mkServer (server_configuration s) true (_configOk s) true (shown s ++ [displayHelp build options commandName]).

Definition handleConfigfile (value : string) (s : Server) : result Server :=
  match Configuration_new (debug_build build) value (files value) with
  | Ret c => Ret (mkServer (Some c) (_helpRequested s) true (optionsStopped s) (shown s))
  | Throw (ConfigurationError _) =>
    Ret (mkServer (server_configuration s) (_helpRequested s) false true (shown s))
  | Throw e => Throw e
  | Terminated => Terminated
  end.

(** The calls that the option parser makes for a command line, in their order. *)
Definition handle_option (call : Callback * string) (s : Server) : result Server :=
  match call.1 with
  | call_handleHelp => Ret (handleHelp s)
  | call_handleConfigfile => handleConfigfile call.2 s
  end.
Fixpoint handle_options (calls : list (Callback * string)) (s : Server) : result Server :=
  match calls with
  | [] => Ret s
  | call :: calls => s ← handle_option call s; handle_options calls s
  end.
End Options.

(** [initLogging]: [open_log] is whether the file can be opened. *)
Definition initLogging (open_log : string -> bool) (c : Configuration) : bool :=
  if is_empty (logfile c) then true else open_log (logfile c).

(** [Server::main]: the exit code, and when the [try] block was entered, the
    broker as far as it was started and after its destructor.  [during] is what
    requests, workers and the cleanup thread make of the jobs until the
    termination request.  Every exception of [run] is a [std::exception]. *)
Definition Server_main (open_log : string -> bool) (bind : Z -> option string) (database : nat -> LibPQ)
  (during : JobStorage -> JobStorage) (s : Server) : ExitCode * option (Broker * Broker) :=
  if _helpRequested s then (EXIT_OK, None)
  else if negb (_configOk s) then (EXIT_USAGE, None)
  else
    match server_configuration s with
    | None => (EXIT_USAGE, None) (* [_configOk] excludes it *)
    | Some c =>
      if negb (initLogging open_log c) then (EXIT_USAGE, None)
      else
        let broker := Broker_new c in
        match Listener_new bind c with
        | inl e => (EXIT_SOFTWARE, Some (broker, Broker_stop broker))
        | inr httplistener =>
          match Broker_run database (addListener httplistener broker) with
          | (Ret _, started) =>
            let running := mkBroker (configuration started) (during (broker_jobs started))
                             (listeners started) (workerThreads started) (listenerThreads started) in
            (EXIT_OK, Some (started, Broker_stop (Broker_stop running)))
          | (_, started) => (EXIT_SOFTWARE, Some (started, Broker_stop started))
          end
        end
    end.

Section OptionCalls.
Context (build : Build) (options : list Option_) (commandName : string) (files : string -> option string).
Context (Hlen : forall value text, files value = Some text -> (len text < npos)%Z).

(** The configuration is fine when it is said to be, and help was shown when it
    was asked for. *)
Record options_ok (asked : bool) (s : Server) : Prop := {
  oo_config : _configOk s = true ->
    exists c, server_configuration s = Some c /\ settings_ok c /\ is_empty (db_connection_string c) = false;
  oo_help : _helpRequested s = asked;
  oo_shown : asked = negb (bool_decide (shown s = []))
}.

Lemma handle_option_ok call asked s :
  options_ok asked s ->
  exists s', handle_option build options commandName files call s = Ret s' /\
    options_ok (asked || match call.1 with call_handleHelp => true | _ => false end) s'.
Proof.
  intros [Hc Hh Hs]. destruct call as [[] value]; unfold handle_option; cbn [fst snd].
  - eexists. split; [done|]. split; cbn; [done|by rewrite orb_true_r|]. rewrite orb_true_r. by destruct (shown s).
  - pose proof (Configuration_new_throws (debug_build build) value (files value) (Hlen value)) as He.
    rewrite orb_false_r. unfold handleConfigfile. destruct (Configuration_new _ _ _) as [c|e|] eqn:Hn; [| |done].
    + eexists. split; [done|]. split; [|done..]. intros _. exists c. split; [done|].
      by eapply Configuration_new_settings.
    + destruct He as [m ->]. eexists. split; [done|]. by split.
Qed.

Lemma handle_options_ok calls asked s :
  options_ok asked s ->
  exists s', handle_options build options commandName files calls s = Ret s' /\
    options_ok (asked || bool_decide (call_handleHelp ∈ calls.*1)) s'.
Proof.
  revert asked s. induction calls as [|[c value] calls IH]; intros asked s Hs.
  - exists s. by rewrite orb_false_r.
  - destruct (handle_option_ok (c, value) asked s Hs) as (s1 & H1 & Hs1). destruct (IH _ s1 Hs1) as (s2 & H2 & Hs2).
    exists s2. cbn [handle_options]. rewrite H1. split; [done|]. rewrite <- orb_assoc in Hs2.
    assert (E : bool_decide (call_handleHelp ∈ ((c, value) :: calls).*1) =
                match c with call_handleHelp => true | _ => false end || bool_decide (call_handleHelp ∈ calls.*1)).
    { destruct c; cbn; [apply bool_decide_eq_true; left|]. apply bool_decide_ext. rewrite elem_of_cons. naive_solver. }
    by rewrite E.
Qed.
End OptionCalls.

(** [stop] twice, as [main] and then the destructor do, is [stop] once. *)
Lemma Broker_stop_idempotent b : Broker_stop (Broker_stop b) = Broker_stop b.
Proof.
  destruct b as [c j [|l ls] w n]; [done|]. unfold Broker_stop, join_workers, quit_jobs, stop_listeners.
  cbn [configuration broker_jobs listeners fmap list_fmap listenerThreads].
  f_equal. f_equal; [by destruct l as [? ? []]|]. rewrite <- list_fmap_compose.
  apply list_fmap_ext. intros i x _. by destruct x as [? ? []].
Qed.

(** What [stop] leaves behind. *)
Definition shut_down (b : Broker) : Prop :=
  workerThreads b = 0 /\ continue_ (queue (broker_jobs b)) = false /\
  Forall (fun l => isRunning l = false) (listeners b).

Lemma Broker_stop_shut_down b : shut_down (Broker_stop b).
Proof.
  destruct b as [c j ls w n]. unfold shut_down, Broker_stop. cbn. split; [done|]. split; [by destruct ls|].
  destruct ls as [|l ls]; [constructor|]. cbn [listeners stop_listeners quit_jobs join_workers].
  apply Forall_fmap, Forall_true. by intros [? ? []].
Qed.

(** The loop starts workers up to the first whose connection fails; an exception
    comes from the class [DbError]. *)
Lemma start_workers_run database n nW b :
  exists m r,
    start_workers database n nW b =
      (r, mkBroker (configuration b) (broker_jobs b) (listeners b) (workerThreads b + m) (listenerThreads b)) /\
    (forall i, i < m -> is_ret (Worker_new database (nW + i) (configuration b)) = true) /\
    match r with
    | Ret _ => m = n
    | _ => m < n /\ is_ret (Worker_new database (nW + m) (configuration b)) = false
    end.
Proof.
  revert nW b. induction n as [|n IH]; intros nW b.
  - exists 0, (Ret tt). split; [rewrite Nat.add_0_r; by destruct b|]. split; [lia|done].
  - cbn [start_workers]. erewrite bind_step by reflexivity.
    destruct (Worker_new database nW (configuration b)) as [[]|e|] eqn:Hc.
    + erewrite bind_step by reflexivity. erewrite bind_step by reflexivity.
      destruct (IH (S nW) (add_worker b)) as (m & r & -> & Hm & Hr). cbn in *. exists (S m), r.
      split; [by rewrite <- plus_n_Sm|]. split.
      * intros [|i] Hi; [by rewrite Nat.add_0_r, Hc|]. rewrite <- plus_n_Sm. apply Hm. lia.
      * rewrite <- plus_n_Sm. destruct r; [by f_equal|..]; (split; [lia|apply Hr]).
    + exists 0, (Throw e). split; [rewrite Nat.add_0_r; by destruct b|]. split; [lia|].
      rewrite Nat.add_0_r, Hc. split; [lia|done].
    + exists 0, Terminated. split; [rewrite Nat.add_0_r; by destruct b|]. split; [lia|].
      rewrite Nat.add_0_r, Hc. split; [lia|done].
Qed.

(** [C40] Startup and shutdown, for every sequence of options.  Their handlers
    never throw; a server that was asked for help shows it, exits with success
    and starts nothing; the broker is started only with a configuration that was
    read without error.  When the port can be bound and every worker reaches the
    database, there are exactly the configured number of workers, at least one,
    and an HTTP listener whose factory knows the jobs; otherwise the exit code is
    [EXIT_SOFTWARE], no listener has accepted a request, and just the workers
    before the first without connection were started.  In both cases, at the end
    no listener accepts requests, every worker has been joined and the queue has
    been told to quit. *)
Theorem server_lifecycle build options commandName files calls open_log bind database during :
  (forall value text, files value = Some text -> (len text < npos)%Z) ->
  exists s, handle_options build options commandName files calls Server_new = Ret s /\
    match Server_main open_log bind database during s with
    | (EXIT_OK, None) => (call_handleHelp ∈ calls.*1) /\ shown s <> []
    | (_, None) => call_handleHelp ∉ calls.*1
    | (code, Some (started, stopped)) =>
      let c := configuration started in
      (call_handleHelp ∉ calls.*1) /\ settings_ok c /\ shut_down stopped /\
      (forall n, n < workerThreads started -> is_ret (Worker_new database n c) = true) /\
      match code with
      | EXIT_OK => Z.of_nat (workerThreads started) = num_worker_threads c /\ 1 <= workerThreads started /\
          listeners started = [mkListener true true true]
      | EXIT_SOFTWARE => Forall (fun l => isRunning l = false) (listeners started) /\
          (Z.of_nat (workerThreads started) < num_worker_threads c)%Z /\
          (is_Some (bind (http_port c)) \/ is_ret (Worker_new database (workerThreads started) c) = false)
      | EXIT_USAGE => False
      end
    end.
Proof.
  intros Hlen. destruct (handle_options_ok build options commandName files Hlen calls false Server_new)
    as (s & Hs & [Hc Hh Hsh]);
    [by split|]. exists s. split; [done|]. unfold Server_main. rewrite Hh. cbn [orb] in *.
  case_bool_decide as Hhelp; [split; [done|]; by destruct (shown s)|].
  destruct (_configOk s); [|done]. destruct (Hc eq_refl) as (c & -> & Hok & _). cbn [negb].
  destruct (initLogging open_log c); [|done]. unfold Listener_new. cbn [negb].
  pose proof (so_workers _ Hok) as Hw. pose proof Broker_stop_shut_down as Hd.
  destruct (bind _) eqn:Hb; cbn -[Broker_stop Broker_run].
  - split; [done|]. split; [done|]. split; [apply Hd|]. split; [lia|]. split; [constructor|]. split; [lia|].
    left. by eexists.
  - unfold Broker_run. erewrite bind_step by reflexivity. cbn [configuration addListener Broker_new].
    destruct (start_workers_run database (Z.to_nat (num_worker_threads c)) 0
      (addListener (mkListener false false false) (Broker_new c))) as (m & r & Hr & Hm & Hend).
    cbn in Hr, Hm, Hend. destruct r as [[]|e|].
    + erewrite bind_step by exact Hr. cbn -[Broker_stop]. subst m.
      split; [done|]. split; [done|]. split; [apply Hd|]. split; [done|]. repeat split; lia.
    + erewrite bind_throw by exact Hr. cbn -[Broker_stop].
      split; [done|]. split; [done|]. split; [apply Hd|]. split; [done|]. split; [by repeat constructor|].
      destruct Hend as [? He]. split; [lia|]. by right.
    + unfold mbind at 1, M_bind at 1. rewrite Hr. cbn -[Broker_stop].
      split; [done|]. split; [done|]. split; [apply Hd|]. split; [done|]. split; [by repeat constructor|].
      destruct Hend as [? He]. split; [lia|]. by right.
Qed.

(** A database that goes away when [reachable] workers have connected to it. *)
Module ServerExample.
Definition build := mkBuild "1.0" "abcdef" false.
Definition files : string -> option string := fun _ => Some cfg_example.
Lemma files_fit value text : files value = Some text -> (len text < npos)%Z.
Proof. intros [= <-]. vm_compute. reflexivity. Qed.
Definition database (reachable nW : nat) : LibPQ := {|
  PGconn := unit;
  PQconnectdb := fun _ => tt;
  PQreset := fun c => c;
  PQstatus_ok := fun _ => Nat.ltb nW reachable;
  PQrequest := fun r c => (mock_ok [] "", c);
  PQtransactionStatus := fun _ => PQTRANS_IDLE;
  PQerrorMessage := fun _ => "";
  PQserverVersion := fun _ => 90100%Z;
  PQescapeIdentifier := fun _ s => Some s;
  PQescapeLiteral := fun _ s => Some s;
  PQsetClientEncoding := fun _ c => (0%Z, c)
|}.
Definition main (reachable : nat) (s : Server) : ExitCode * option (Broker * Broker) :=
  Server_main (fun _ => true) (fun _ => None) (database reachable) (fun j => j) s.
Definition run (reachable : nat) (calls : list (Callback * string)) : option (ExitCode * option (Broker * Broker)) :=
  match handle_options build (defineOptions []) "batyrd" files calls Server_new with
  | Ret s => Some (main reachable s)
  | _ => None
  end.
Definition config := [(call_handleConfigfile, "batyrd.cfg")].
Definition code_workers (o : option (ExitCode * option (Broker * Broker))) : option (ExitCode * nat) :=
  match o with Some (code, Some (started, _)) => Some (code, workerThreads started) | _ => None end.
Lemma run_started : code_workers (run 9 config) = Some (EXIT_OK, 4).
Proof. vm_compute. reflexivity. Qed.
Lemma run_failed : code_workers (run 2 config) = Some (EXIT_SOFTWARE, 2).
Proof. vm_compute. reflexivity. Qed.
Lemma run_help : run 9 [(call_handleHelp, "")] = Some (EXIT_OK, None).
Proof. reflexivity. Qed.
End ServerExample.

Lemma server_lifecycle_witness :
  (forall reachable calls, exists s,
     handle_options ServerExample.build (defineOptions []) "batyrd" ServerExample.files calls Server_new = Ret s /\
     ServerExample.run reachable calls = Some (ServerExample.main reachable s) /\
     match ServerExample.main reachable s with
     | (_, Some (started, stopped)) => shut_down stopped
     | _ => True
     end) /\
  ServerExample.code_workers (ServerExample.run 9 ServerExample.config) = Some (EXIT_OK, 4) /\
  ServerExample.code_workers (ServerExample.run 2 ServerExample.config) = Some (EXIT_SOFTWARE, 2).
Proof.
  split; [|split; [exact ServerExample.run_started|exact ServerExample.run_failed]].
  intros reachable calls.
  destruct (server_lifecycle ServerExample.build (defineOptions []) "batyrd" ServerExample.files calls
    (fun _ => true) (fun _ => None) (ServerExample.database reachable) (fun j => j) ServerExample.files_fit)
    as (s & Hs & H).
  exists s. split; [exact Hs|]. split; [unfold ServerExample.run; rewrite Hs; reflexivity|].
  unfold ServerExample.main.
  destruct (Server_main _ _ _ _ s) as [[] [[started stopped]|]]; first [exact I|exact (proj1 (proj2 (proj2 H)))].
Defined.
