(* ===== verification/Threads.v ===== *)
(** * Threads that share the job storage

    The functions of [JobStorage] and the steps of its [lstep] take a whole
    critical section at once.  Here a thread is a program of single accesses to
    the members that threads share: the mutexes, the map, the queue, its
    [continue_] and the fields of the jobs ([server/jobstorage.h],
    [server/quitablequeue.h], [server/job.h]).  A machine runs any number of such
    programs interleaved; the programs of the server are in
    [StorageThreads], and what can be said of whole sections in [Atomic].

    [safe] is a small program logic: a thread that holds a mutex owns what the
    mutex guards.  A program that is [safe] never meets an undefined behaviour
    other than a data race, and races only where it reads without the mutex. *)
From Stdlib Require Import FunctionalExtensionality.
From S2P Require Import Prelude NullableValue Job QuitableQueue JobStorage.

(** ** What threads share *)
Inductive mutex := mapModificationMutex | mutex_.
#[export] Instance mutex_eq_dec : EqDecision mutex.
Proof. solve_decision. Defined.
#[export] Instance mutex_countable : Countable mutex.
Proof.
  apply (inj_countable' (fun m => match m with mapModificationMutex => true | mutex_ => false end)
    (fun b : bool => if b then mapModificationMutex else mutex_)). by intros [].
Defined.

(** The fields of a job that are set before other threads see it, and those that
    change afterwards. *)
Inductive cfield := C_id | C_type | C_timeAdded | C_layerName | C_filter | C_attributeSets.
Inductive mfield :=
  | M_status | M_timeFinished | M_message | M_numPulled | M_numCreated | M_numUpdated | M_numDeleted | M_numIgnored.
#[export] Instance mfield_eq_dec : EqDecision mfield.
Proof. solve_decision. Defined.

Definition ctype (c : cfield) : Type :=
  match c with
  | C_id | C_layerName | C_filter => string
  | C_type => JobType
  | C_timeAdded => Z
  | C_attributeSets => list AttributeSet
  end.
Definition mtype (f : mfield) : Type :=
  match f with M_status => Status | M_message => string | _ => Z end.

Definition cget (c : cfield) (j : Job) : ctype c :=
  match c return ctype c with
  | C_id => id j
  | C_type => type j
  | C_timeAdded => timeAdded j
  | C_layerName => layerName j
  | C_filter => filter j
  | C_attributeSets => attributeSets j
  end.
Definition mget (f : mfield) (j : Job) : mtype f :=
  match f return mtype f with
  | M_status => status j
  | M_timeFinished => timeFinished j
  | M_message => message j
  | M_numPulled => numPulled j
  | M_numCreated => numCreated j
  | M_numUpdated => numUpdated j
  | M_numDeleted => numDeleted j
  | M_numIgnored => numIgnored j
  end.
Definition mset (f : mfield) : mtype f -> Job -> Job :=
  match f return mtype f -> Job -> Job with
  | M_status => with_status
  | M_timeFinished => with_timeFinished
  | M_message => with_message
  | M_numPulled => fun n j => setStatistics n (numCreated j) (numUpdated j) (numDeleted j) (numIgnored j) j
  | M_numCreated => fun n j => setStatistics (numPulled j) n (numUpdated j) (numDeleted j) (numIgnored j) j
  | M_numUpdated => fun n j => setStatistics (numPulled j) (numCreated j) n (numDeleted j) (numIgnored j) j
  | M_numDeleted => fun n j => setStatistics (numPulled j) (numCreated j) (numUpdated j) n (numIgnored j) j
  | M_numIgnored => fun n j => setStatistics (numPulled j) (numCreated j) (numUpdated j) (numDeleted j) n j
  end.

Lemma cget_mset c f v j : cget c (mset f v j) = cget c j.
Proof. by destruct c, f. Qed.

(** ** Programs

    A read is [Guarded] where the code holds the mutex of what it reads, and
    [Loose] where it takes none; writes to map and queue are always guarded.
    [Wait] is [cond_.wait(mlock)], [Loop] repeats its body until that leaves the
    loop with a value, and [Undefined] is undefined behaviour. *)
Inductive site := Guarded | Loose.

Inductive prog (A : Type) : Type :=
  | Done (a : A)
  | Undefined
  | Lock (m : mutex) (k : prog A)
  | Unlock (m : mutex) (k : prog A)
  | Wait (k : prog A)
  | Notify (all : bool) (k : prog A)
  | ReadMap (g : site) (k : gmap string JobPtr -> prog A)
  | WriteMap (f : gmap string JobPtr -> gmap string JobPtr) (k : prog A)
  | ReadQueue (g : site) (k : list JobPtr -> prog A)
  | WriteQueue (f : list JobPtr -> list JobPtr) (k : prog A)
  | ReadContinue (g : site) (k : bool -> prog A)
  | WriteContinue (b : bool) (k : prog A)
  | ReadConst (c : cfield) (p : JobPtr) (k : ctype c -> prog A)
  | ReadField (f : mfield) (p : JobPtr) (k : mtype f -> prog A)
  | WriteField (f : mfield) (p : JobPtr) (v : mtype f) (k : prog A)
  | NewJob (j : Job) (k : JobPtr -> prog A)
  | Clock (k : Z -> prog A)
  | Loop {R : Type} (body : prog (option R)) (k : R -> prog A).
Arguments Done {A} _.
Arguments Undefined {A}.
Arguments Lock {A} _ _.
Arguments Unlock {A} _ _.
Arguments Wait {A} _.
Arguments Notify {A} _ _.
Arguments ReadMap {A} _ _.
Arguments WriteMap {A} _ _.
Arguments ReadQueue {A} _ _.
Arguments WriteQueue {A} _ _.
Arguments ReadContinue {A} _ _.
Arguments WriteContinue {A} _ _.
Arguments ReadConst {A} _ _ _.
Arguments ReadField {A} _ _ _.
Arguments WriteField {A} _ _ _ _.
Arguments NewJob {A} _ _.
Arguments Clock {A} _.
Arguments Loop {A R} _ _.

Fixpoint pbind {A B} (f : A -> prog B) (p : prog A) : prog B :=
  match p with
  | Done a => f a
  | Undefined => Undefined
  | Lock m k => Lock m (pbind f k)
  | Unlock m k => Unlock m (pbind f k)
  | Wait k => Wait (pbind f k)
  | Notify all k => Notify all (pbind f k)
  | ReadMap g k => ReadMap g (fun m => pbind f (k m))
  | WriteMap u k => WriteMap u (pbind f k)
  | ReadQueue g k => ReadQueue g (fun l => pbind f (k l))
  | WriteQueue u k => WriteQueue u (pbind f k)
  | ReadContinue g k => ReadContinue g (fun b => pbind f (k b))
  | WriteContinue b k => WriteContinue b (pbind f k)
  | ReadConst c p k => ReadConst c p (fun v => pbind f (k v))
  | ReadField n p k => ReadField n p (fun v => pbind f (k v))
  | WriteField n p v k => WriteField n p v (pbind f k)
  | NewJob j k => NewJob j (fun p => pbind f (k p))
  | Clock k => Clock (fun now => pbind f (k now))
  | Loop body k => Loop body (fun r => pbind f (k r))
  end.

#[export] Instance prog_ret : MRet prog := fun _ a => Done a.
#[export] Instance prog_bind : MBind prog := fun _ _ f p => pbind f p.

(** One turn of a loop and what follows it. *)
Definition unfold_loop {A R} (body : prog (option R)) (k : R -> prog A) : prog A :=
  pbind (fun o => match o with None => Loop body k | Some r => k r end) body.

(** One access of a thread that needs no mutex to be free; [None] at the end of
    the program, at a mutex, at [Wait] and [Notify], and for a pointer without a
    job.  [now] is what the clock shows. *)
Definition exec {A} (now : Z) (p : prog A) (s : JobStorage) : option (prog A * JobStorage) :=
  match p with
  | Done _ | Undefined | Lock _ _ | Unlock _ _ | Wait _ | Notify _ _ => None
  | ReadMap _ k => Some (k (jobMap s), s)
  | WriteMap f k => Some (k, set_jobMap (f (jobMap s)) s)
  | ReadQueue _ k => Some (k (queue_ (queue s)), s)
  | WriteQueue f k => Some (k, set_queue (mkQueue (f (queue_ (queue s))) (continue_ (queue s))) s)
  | ReadContinue _ k => Some (k (continue_ (queue s)), s)
  | WriteContinue b k => Some (k, set_queue (mkQueue (queue_ (queue s)) b) s)
  | ReadConst c p k => j ← heap s !! p; Some (k (cget c j), s)
  | ReadField f p k => j ← heap s !! p; Some (k (mget f j), s)
  | WriteField f p v k => j ← heap s !! p; Some (k, update_job p (mset f v j) s)
  | NewJob j k => let p := fresh (dom (heap s)) in Some (k p, update_job p j s)
  | Clock k => Some (k now, s)
  | Loop body k => Some (unfold_loop body k, s)
  end.

Lemma pbind_pbind {A B C} (f : A -> prog B) (g : B -> prog C) (p : prog A) :
  pbind g (pbind f p) = pbind (fun a => pbind g (f a)) p.
Proof.
  revert f. induction p as [A a|A|A m k IH|A m k IH|A k IH|A b k IH|A g' k IH|A f' k IH|A g' k IH|A f' k IH|
    A g' k IH|A b k IH|A c p k IH|A f' p k IH|A f' p v k IH|A j k IH|A k IH|A R body IHb k IH]; intros f; cbn [pbind];
    f_equal; auto; by apply functional_extensionality; intros x.
Qed.

(** What follows a program does not matter for its accesses. *)
Lemma exec_bind {A B} now (f : A -> prog B) p s p1 s1 :
  exec now p s = Some (p1, s1) -> exec now (pbind f p) s = Some (pbind f p1, s1).
Proof.
  destruct p; cbn [exec pbind]; try (by intros [= <- <-]); try (destruct (heap s !! _); cbn;
    by intros [= <- <-]); [done..|].
  intros [= <- <-]. do 2 f_equal. unfold unfold_loop. rewrite pbind_pbind. f_equal.
  apply functional_extensionality. by intros [r|].
Qed.

(** ** The machine

    A thread runs, or it sleeps in [cond_.wait], and goes on by locking the mutex
    again when it is woken. *)
Inductive tstate := Running (p : prog unit) | Sleeping (p : prog unit).
Definition program (ts : tstate) : prog unit := match ts with Running p | Sleeping p => p end.
Definition awake (ts : tstate) : tstate := Running (program ts).

Record machine := mkMachine {
  mem : JobStorage;
  owners : gmap mutex nat;
  threads : gmap nat tstate
}.

Inductive step_of (t : nat) (M : machine) : machine -> Prop :=
  | m_exec p now p' s' :
    threads M !! t = Some (Running p) -> exec now p (mem M) = Some (p', s') ->
    step_of t M (mkMachine s' (owners M) (<[t := Running p']> (threads M)))
  | m_lock m k :
    threads M !! t = Some (Running (Lock m k)) -> owners M !! m = None ->
    step_of t M (mkMachine (mem M) (<[m := t]> (owners M)) (<[t := Running k]> (threads M)))
  (** Only the owner may unlock; [wait] unlocks as well. *)
  | m_unlock m k :
    threads M !! t = Some (Running (Unlock m k)) -> owners M !! m = Some t ->
    step_of t M (mkMachine (mem M) (delete m (owners M)) (<[t := Running k]> (threads M)))
  | m_wait k :
    threads M !! t = Some (Running (Wait k)) -> owners M !! mutex_ = Some t ->
    step_of t M (mkMachine (mem M) (delete mutex_ (owners M)) (<[t := Sleeping (Lock mutex_ k)]> (threads M)))
  (** [notify_one] with and without a thread to wake up, and [notify_all]. *)
  | m_notify_none k :
    threads M !! t = Some (Running (Notify false k)) -> (forall u p, threads M !! u <> Some (Sleeping p)) ->
    step_of t M (mkMachine (mem M) (owners M) (<[t := Running k]> (threads M)))
  | m_notify_one k u p :
    threads M !! t = Some (Running (Notify false k)) -> threads M !! u = Some (Sleeping p) ->
    step_of t M (mkMachine (mem M) (owners M) (<[u := Running p]> (<[t := Running k]> (threads M))))
  | m_notify_all k :
    threads M !! t = Some (Running (Notify true k)) ->
    step_of t M (mkMachine (mem M) (owners M) (<[t := Running k]> (awake <$> threads M)))
  (** A wakeup that nobody caused. *)
  | m_spurious p :
    threads M !! t = Some (Sleeping p) ->
    step_of t M (mkMachine (mem M) (owners M) (<[t := Running p]> (threads M))).

Definition any_step (M M' : machine) : Prop := exists t, step_of t M M'.

Definition start (s : JobStorage) (ts : gmap nat (prog unit)) : machine := mkMachine s ∅ (Running <$> ts).
Definition reachable (s : JobStorage) (ts : gmap nat (prog unit)) : machine -> Prop := rtc any_step (start s ts).

(** ** Accesses and races *)
Inductive location :=
  | TheMap | TheQueue | TheContinue | JobConst (p : JobPtr) (c : cfield) | JobField (p : JobPtr) (f : mfield).

(** The access that comes next: where, whether it writes, and whether the code
    holds the mutex. *)
Definition next_access {A} (p : prog A) : option (location * bool * site) :=
  match p with
  | ReadMap g _ => Some (TheMap, false, g)
  | WriteMap _ _ => Some (TheMap, true, Guarded)
  | ReadQueue g _ => Some (TheQueue, false, g)
  | WriteQueue _ _ => Some (TheQueue, true, Guarded)
  | ReadContinue g _ => Some (TheContinue, false, g)
  | WriteContinue _ _ => Some (TheContinue, true, Guarded)
  | ReadConst c p _ => Some (JobConst p c, false, Loose)
  | ReadField f p _ => Some (JobField p f, false, Loose)
  | WriteField f p _ _ => Some (JobField p f, true, Loose)
  | _ => None
  end.

(** A data race: two threads are about to access one location, one to write it. *)
Definition race (M : machine) (l : location) : Prop :=
  exists t u p q w1 w2 g1 g2, t <> u /\
    threads M !! t = Some (Running p) /\ threads M !! u = Some (Running q) /\
    next_access p = Some (l, w1, g1) /\ next_access q = Some (l, w2, g2) /\ (w1 || w2) = true.

(** ** The logic *)

(** What a thread owns: nothing, or the part that its mutex guards. *)
Inductive held := Free | HeldMap (jm : gmap string JobPtr) | HeldQueue (q : QuitableQueue JobPtr).

(** All pointers are among the jobs [V]. *)
Definition map_ok (V : gset JobPtr) (jm : gmap string JobPtr) : Prop := forall k p, jm !! k = Some p -> p ∈ V.
Definition list_ok (V : gset JobPtr) (l : list JobPtr) : Prop := forall p, p ∈ l -> p ∈ V.

Lemma map_ok_mono V V' jm : V ⊆ V' -> map_ok V jm -> map_ok V' jm.
Proof. intros H Hm k p Hk. apply H. by apply (Hm k). Qed.
Lemma list_ok_mono V V' l : V ⊆ V' -> list_ok V l -> list_ok V' l.
Proof. intros H Hl p Hp. by apply H, Hl. Qed.
#[export] Hint Resolve map_ok_mono list_ok_mono : cpp.

Section Safe.
(** Which loose reads the program may do, of the map, the queue, [continue_], and
    whether it may come to undefined behaviour while it holds no mutex. *)
Context (loose : location -> bool) (crash : bool).

(** [safe p V h Q]: with valid pointers [V] and what it owns, [p] meets no
    undefined behaviour (unless [crash]), and ends with a value, pointers and ownership in [Q].
    Other threads may create jobs, and change what is not owned. *)
Fixpoint safe {A} (p : prog A) (V : gset JobPtr) (h : held) (Q : A -> gset JobPtr -> held -> Prop) : Prop :=
  match p with
  | Done a => Q a V h
  | Undefined => crash = true /\ h = Free
  | Lock mapModificationMutex k =>
    h = Free /\ forall jm V', V ⊆ V' -> map_ok V' jm -> safe k V' (HeldMap jm) Q
  | Lock mutex_ k =>
    h = Free /\ forall q V', V ⊆ V' -> list_ok V' (queue_ q) -> safe k V' (HeldQueue q) Q
  | Unlock mapModificationMutex k => exists jm, h = HeldMap jm /\ safe k V Free Q
  | Unlock mutex_ k => exists q, h = HeldQueue q /\ safe k V Free Q
  | Wait k =>
    exists q, h = HeldQueue q /\ forall q' V', V ⊆ V' -> list_ok V' (queue_ q') -> safe k V' (HeldQueue q') Q
  | Notify _ k => safe k V h Q
  | ReadMap Guarded k => exists jm, h = HeldMap jm /\ safe (k jm) V h Q
  | ReadMap Loose k =>
    h = Free /\ loose TheMap = true /\ forall jm V', V ⊆ V' -> map_ok V' jm -> safe (k jm) V' h Q
  | WriteMap f k => exists jm, h = HeldMap jm /\ map_ok V (f jm) /\ safe k V (HeldMap (f jm)) Q
  | ReadQueue Guarded k => exists q, h = HeldQueue q /\ safe (k (queue_ q)) V h Q
  | ReadQueue Loose k =>
    h = Free /\ loose TheQueue = true /\ forall l V', V ⊆ V' -> list_ok V' l -> safe (k l) V' h Q
  | WriteQueue f k =>
    exists q, h = HeldQueue q /\ list_ok V (f (queue_ q)) /\
      safe k V (HeldQueue (mkQueue (f (queue_ q)) (continue_ q))) Q
  | ReadContinue Guarded k => exists q, h = HeldQueue q /\ safe (k (continue_ q)) V h Q
  | ReadContinue Loose k => h = Free /\ loose TheContinue = true /\ forall b, safe (k b) V h Q
  | WriteContinue b k => exists q, h = HeldQueue q /\ safe k V (HeldQueue (mkQueue (queue_ q) b)) Q
  | ReadConst c p k => p ∈ V /\ forall v, safe (k v) V h Q
  | ReadField f p k => p ∈ V /\ forall v, safe (k v) V h Q
  | WriteField f p v k => h = Free /\ p ∈ V /\ safe k V h Q
  | NewJob j k => h = Free /\ forall p V', V ⊆ V' -> p ∈ V' -> safe (k p) V' h Q
  | Clock k => forall now, safe (k now) V h Q
  | Loop body k =>
    exists I : gset JobPtr -> held -> Prop, I V h /\
      forall V1 h1, V ⊆ V1 -> I V1 h1 ->
        safe body V1 h1 (fun o V2 h2 =>
          match o with None => V1 ⊆ V2 /\ I V2 h2 | Some r => safe (k r) V2 h2 Q end)
  end.

(** More jobs, and a weaker end. *)
Lemma safe_mono {A} (p : prog A) V V' h (Q Q' : A -> gset JobPtr -> held -> Prop) :
  V ⊆ V' ->
  (forall a W W' h', V ⊆ W -> V' ⊆ W' -> W ⊆ W' -> Q a W h' -> Q' a W' h') ->
  safe p V h Q -> safe p V' h Q'.
Proof.
  revert V V' h Q Q'. induction p as [A a|A|A [] k IH|A [] k IH|A k IH|A b k IH|A [] k IH|A f k IH|A [] k IH|A f k IH|
    A [] k IH|A b k IH|A c p k IH|A f p k IH|A f p v k IH|A j k IH|A k IH|A R body IHb k IH];
    intros V V' h Q Q' HV HQ; cbn [safe]; intros H.
  23: {
    destruct H as (I & HI & Hb). exists (fun V1 h1 => exists W, V ⊆ W /\ W ⊆ V1 /\ I W h1).
    split; [by exists V|]. intros V1 h1 HV1 (W & HW & HW1 & HIW).
    eapply IHb; [exact HW1| |by apply Hb].
    intros [r|] W2 W2' h2 H1 H2 H3; cbn.
    - apply IH; [done|]. intros a W3 W3' h3 ???. apply HQ; set_solver.
    - intros [H4 H5]. split; [done|]. exists W2. split; [set_solver|]. by split. }
  all: try (destruct H as (q & -> & H); exists q; split; [done|]);
    try (destruct H as [-> H]; split; [done|]);
    try (destruct H as [Hx H]; split; [first [exact Hx|by apply HV|by eauto with cpp]|]).
  all: try (by eapply HQ; eauto); try done.
  all: try (destruct H as [Hy H]; split; [first [exact Hy|by apply HV]|]).
  all: try (by apply (HQ a V V')).
  all: try (by apply (IH V V' _ Q Q')).
  all: try (intros; by apply (IH _ V V' _ Q Q')).
  all: intros x V1 HV1 Hnew; eapply IH; [reflexivity| |apply H; [set_solver|done]].
  all: intros a W W' h' ???; apply HQ; set_solver.
Qed.

(** The same for the end alone. *)
Lemma safe_weaken {A} (p : prog A) V h (Q Q' : A -> gset JobPtr -> held -> Prop) :
  (forall a W h', V ⊆ W -> Q a W h' -> Q' a W h') -> safe p V h Q -> safe p V h Q'.
Proof.
  revert V h Q Q'. induction p as [A a|A|A [] k IH|A [] k IH|A k IH|A b k IH|A [] k IH|A f k IH|A [] k IH|A f k IH|
    A [] k IH|A b k IH|A c p k IH|A f p k IH|A f p v k IH|A j k IH|A k IH|A R body IHb k IH];
    intros V h Q Q' HQ; cbn [safe]; try done.
  all: try (by apply HQ).
  all: try (by apply IH).
  all: try (intros [H1 H2]; split; [done|]; intros; eapply IH; [|by apply H2]; intros; apply HQ; [|done]; by etrans).
  all: try (intros (H1 & H2 & H3); split; [done|]; split; [done|]; intros; eapply IH; [|by apply H3]; intros;
    apply HQ; [|done]; by try etrans).
  all: try (intros (q & -> & H1); exists q; split; [done|]; intros; eapply IH; [|by apply H1]; intros; apply HQ;
    [|done]; by try etrans).
  all: try (intros (q & -> & H1 & H2); exists q; split; [done|]; split; [done|]; by eapply IH; [|by apply H2]).
  all: try (intros [H1 H2]; split; [done|]; intros; by eapply IH; [|by apply H2]).
  all: try (intros H x; by eapply IH; [|by apply H]).
  intros (I & HI & Hb). exists I. split; [done|]. intros V1 h1 HV1 HI1. eapply IHb; [|by apply Hb].
  intros [r|] W h2 HW; [|done]. apply IH. intros a W' h' HW'. apply HQ. by do 2 (etrans; [eassumption|]).
Qed.

(** A program and what follows it. *)
Lemma safe_bind {A B} (f : A -> prog B) (p : prog A) V h (Q : B -> gset JobPtr -> held -> Prop) :
  safe p V h (fun a V' h' => safe (f a) V' h' Q) -> safe (pbind f p) V h Q.
Proof.
  revert V h. induction p as [A a|A|A [] k IH|A [] k IH|A k IH|A b k IH|A [] k IH|A u k IH|A [] k IH|
    A u k IH|A [] k IH|A b k IH|A c p k IH|A n p k IH|A n p v k IH|A j k IH|A k IH|A R body _ k IH];
    intros V h; cbn [safe pbind]; try done.
  all: try (intros H; by apply IH).
  all: try (intros [H1 H2]; split; [done|]; intros; apply IH; auto; fail).
  all: try (intros (H1 & H2 & H3); split; [done|]; split; [done|]; intros; apply IH; auto; fail).
  all: try (intros (q & -> & H1); exists q; split; [done|]; intros; apply IH; auto; fail).
  all: try (intros (q & -> & H1 & H2); exists q; split; [done|]; split; [done|]; apply IH; auto; fail).
  { intros H now. apply IH, H. }
  intros (I & HI & Hb). exists I. split; [done|]. intros V1 h1 HV1 HI1. specialize (Hb V1 h1 HV1 HI1).
  revert Hb. apply safe_weaken. intros [r|] W h' _; [|done]. apply IH.
Qed.

Lemma safe_unfold_loop {A R} (body : prog (option R)) (k : R -> prog A) V h (Q : A -> gset JobPtr -> held -> Prop) :
  safe (Loop body k) V h Q -> safe (unfold_loop body k) V h Q.
Proof.
  intros (I & HI & Hb). apply safe_bind. specialize (Hb V h (reflexivity _) HI) as Hb1.
  revert Hb1. apply safe_weaken. intros [r|] W h' HW; [done|]. intros [HW' HIW]. exists I. split; [done|].
  intros V1 h1 HV1. apply Hb. by etrans.
Qed.

(** ** The machine keeps its threads safe *)
Definition valid (s : JobStorage) : gset JobPtr := dom (heap s).
Definition pointers_safe (s : JobStorage) : Prop := map_ok (valid s) (jobMap s) /\ list_ok (valid s) (queue_
  (queue s)).

(** What is owned is what the memory holds. *)
Definition fits (h : held) (s : JobStorage) : Prop :=
  match h with Free => True | HeldMap jm => jm = jobMap s | HeldQueue q => q = queue s end.
Definition refit (h : held) (s : JobStorage) : held :=
  match h with Free => Free | HeldMap _ => HeldMap (jobMap s) | HeldQueue _ => HeldQueue (queue s) end.

(** An access of a safe program: it does not get stuck, keeps the pointers, and
    changes map and queue only when it owns them. *)
Record exec_result {A} (h : held) (s : JobStorage) (p' : prog A) (s' : JobStorage)
  (Q : A -> gset JobPtr -> held -> Prop) : Prop := {
  er_pointers : pointers_safe s';
  er_valid : valid s ⊆ valid s';
  er_map : (forall jm, h <> HeldMap jm) -> jobMap s' = jobMap s;
  er_queue : (forall q, h <> HeldQueue q) -> queue s' = queue s;
  er_safe : safe p' (valid s') (refit h s') Q
}.

Definition sequential {A} (p : prog A) : bool :=
  match p with Done _ | Undefined | Lock _ _ | Unlock _ _ | Wait _ | Notify _ _ => false | _ => true end.

Lemma valid_lookup p s : p ∈ valid s -> is_Some (heap s !! p).
Proof. apply elem_of_dom. Qed.

Lemma valid_update p j s : valid s ⊆ valid (update_job p j s).
Proof. unfold valid. cbn. rewrite dom_insert. set_solver. Qed.

Lemma pointers_update p j s : pointers_safe s -> pointers_safe (update_job p j s).
Proof.
  intros [H1 H2]. pose proof (valid_update p j s). split; [by eapply map_ok_mono|by eapply list_ok_mono].
Qed.

Lemma refit_fits h s : fits h s -> refit h s = h.
Proof. destruct h; cbn; congruence. Qed.

Lemma exec_update {A} h s (k : prog A) p j (Q : A -> gset JobPtr -> held -> Prop) :
  h = Free -> pointers_safe s -> safe k (valid (update_job p j s)) Free Q ->
  exec_result h s k (update_job p j s) Q.
Proof. intros -> Hp Hs. split; [by apply pointers_update|apply valid_update|done..]. Qed.

Lemma exec_same {A} h s (k : prog A) (Q : A -> gset JobPtr -> held -> Prop) :
  fits h s -> pointers_safe s -> safe k (valid s) h Q -> exec_result h s k s Q.
Proof. intros Hf Hp Hs. split; [done..|]. by rewrite refit_fits. Qed.

Lemma exec_safe {A} now (p : prog A) h s (Q : A -> gset JobPtr -> held -> Prop) :
  fits h s -> pointers_safe s -> sequential p = true -> safe p (valid s) h Q ->
  exists p' s', exec now p s = Some (p', s') /\ exec_result h s p' s' Q.
Proof.
  intros Hf Hp Hq Hs. destruct p as [a| |m k|m k|k|b k|[] k|f k|[] k|f k|[] k|b k|c p k|f p k|f p v k|j k|k|R body k];
    try done; cbn [safe exec] in *; destruct Hp as [Hm Hl].
  - destruct Hs as (jm & -> & Hs). cbn in Hf. subst jm. do 2 eexists. split; [done|]. by apply exec_same.
  - destruct Hs as (-> & _ & Hs). do 2 eexists. split; [done|]. apply exec_same; [done..|]. by apply Hs.
  - destruct Hs as (jm & -> & Hj & Hs). cbn in Hf. subst jm. do 2 eexists. split; [done|].
    split; [by split|done|..]; cbn; [|done|done]. intros N. by destruct (N (jobMap s)).
  - destruct Hs as (q & -> & Hs). cbn in Hf. subst q. do 2 eexists. split; [done|]. by apply exec_same.
  - destruct Hs as (-> & _ & Hs). do 2 eexists. split; [done|]. apply exec_same; [done..|]. by apply Hs.
  - destruct Hs as (q & -> & Hj & Hs). cbn in Hf. subst q. do 2 eexists. split; [done|].
    split; [by split|done|..]; cbn; [done| |done]. intros N. by destruct (N (queue s)).
  - destruct Hs as (q & -> & Hs). cbn in Hf. subst q. do 2 eexists. split; [done|]. by apply exec_same.
  - destruct Hs as (-> & _ & Hs). do 2 eexists. split; [done|]. by apply exec_same.
  - destruct Hs as (q & -> & Hs). cbn in Hf. subst q. do 2 eexists. split; [done|].
    split; [by split|done|..]; cbn; [done| |done]. intros N. by destruct (N (queue s)).
  - destruct Hs as [[j Hj]%valid_lookup Hs]. rewrite Hj. do 2 eexists. split; [done|].
    by apply exec_same.
  - destruct Hs as [[j Hj]%valid_lookup Hs]. rewrite Hj. do 2 eexists. split; [done|].
    by apply exec_same.
  - destruct Hs as (-> & [j Hj]%valid_lookup & Hs). rewrite Hj. do 2 eexists. split; [done|].
    apply exec_update; [done..|]. unfold valid in *. cbn. by rewrite dom_insert_lookup_L.
  - destruct Hs as [-> Hs]. do 2 eexists. split; [done|]. apply exec_update; [done..|].
    apply Hs; [apply valid_update|]. unfold valid. cbn. set_solver.
  - do 2 eexists. split; [done|]. by apply exec_same.
  - do 2 eexists. split; [done|]. apply exec_same; [done..|]. by apply safe_unfold_loop.
Qed.

End Safe.

(** *** All threads

    Every thread may come to undefined behaviour or not, [crash] says which. *)
Section Machine.
Context (loose : location -> bool) (crash : nat -> bool).

Definition at_end (_ : unit) (_ : gset JobPtr) (h : held) : Prop := h = Free.

Definition thread_ok (t : nat) (V : gset JobPtr) (h : held) (ts : tstate) : Prop :=
  match ts with
  | Running p => safe loose (crash t) p V h at_end
  | Sleeping p => h = Free /\ safe loose (crash t) p V Free at_end
  end.

Definition holding (M : machine) (t : nat) : held :=
  if decide (owners M !! mapModificationMutex = Some t) then HeldMap (jobMap (mem M))
  else if decide (owners M !! mutex_ = Some t) then HeldQueue (queue (mem M))
  else Free.

Record machine_ok (M : machine) : Prop := {
  mo_pointers : pointers_safe (mem M);
  mo_one : forall t, owners M !! mapModificationMutex = Some t -> owners M !! mutex_ <> Some t;
  mo_owner : forall m t, owners M !! m = Some t -> is_Some (threads M !! t);
  mo_threads : forall t ts, threads M !! t = Some ts -> thread_ok t (valid (mem M)) (holding M t) ts
}.

Lemma thread_ok_mono t V V' h ts : V ⊆ V' -> thread_ok t V h ts -> thread_ok t V' h ts.
Proof.
  intros HV. assert (Hs : forall p h, safe loose (crash t) p V h at_end -> safe loose (crash t) p V' h at_end)
    by (intros p h'; apply safe_mono; [done|]; by intros).
  destruct ts; cbn; [apply Hs|]. intros [-> H]. split; [done|]. by apply Hs.
Qed.

Lemma thread_ok_awake t V h ts : thread_ok t V h ts -> thread_ok t V h (awake ts).
Proof. destruct ts; cbn; [done|]. by intros [-> H]. Qed.

Lemma holding_fits M t : fits (holding M t) (mem M).
Proof. unfold holding. by repeat case_decide. Qed.

Lemma holding_Map M t jm : holding M t = HeldMap jm -> owners M !! mapModificationMutex = Some t.
Proof. unfold holding. by repeat case_decide. Qed.
Lemma holding_Queue M t q : holding M t = HeldQueue q -> owners M !! mutex_ = Some t.
Proof. unfold holding. by repeat case_decide. Qed.
Lemma holding_Free M t m : holding M t = Free -> owners M !! m <> Some t.
Proof. unfold holding. repeat case_decide; try done. by destruct m. Qed.

(** The owners as another thread sees them. *)
Definition same_for (u : nat) (M M' : machine) : Prop :=
  (forall m, owners M' !! m = Some u <-> owners M !! m = Some u) /\
  (owners M !! mapModificationMutex = Some u -> jobMap (mem M') = jobMap (mem M)) /\
  (owners M !! mutex_ = Some u -> queue (mem M') = queue (mem M)).

Lemma holding_same u M M' : same_for u M M' -> holding M' u = holding M u.
Proof.
  intros (Ho & Hm & Hq). unfold holding. repeat case_decide; try done; try (by f_equal; auto).
  all: exfalso; naive_solver.
Qed.

(** One thread goes on, the others stay. *)
Lemma step_ok M M' t ts' :
  machine_ok M -> threads M' = <[t := ts']> (threads M) -> pointers_safe (mem M') ->
  valid (mem M) ⊆ valid (mem M') -> (forall u, u <> t -> same_for u M M') ->
  (owners M' !! mapModificationMutex = Some t -> owners M' !! mutex_ <> Some t) ->
  thread_ok t (valid (mem M')) (holding M' t) ts' -> machine_ok M'.
Proof.
  intros [Hp H1 Ho Ht] Hts Hp' HV Hsame Hone Hts'. split; [done| | |].
  - intros u Hu. destruct (decide (u = t)) as [->|N]; [by apply Hone|].
    destruct (Hsame u N) as [Hsu _]. rewrite Hsu in Hu |- *. by apply H1.
  - intros m u Hu. rewrite Hts. destruct (decide (u = t)) as [->|N]; [rewrite lookup_insert_eq; by eexists|].
    rewrite lookup_insert_ne by done. apply (Ho m). by apply Hsame.
  - intros u ts Hu. rewrite Hts in Hu. destruct (decide (u = t)) as [->|N].
    + rewrite lookup_insert_eq in Hu. by injection Hu as <-.
    + rewrite lookup_insert_ne in Hu by done. rewrite (holding_same u M M') by auto.
      eapply thread_ok_mono; [exact HV|]. by apply Ht.
Qed.

(** Threads may be woken at any time. *)
Lemma wake_ok M ts :
  machine_ok M -> (forall u, ts !! u = threads M !! u \/ ts !! u = awake <$> threads M !! u) ->
  machine_ok (mkMachine (mem M) (owners M) ts).
Proof.
  intros [Hp H1 Ho Ht] Hts. split; cbn; [done..| |].
  - intros m u Hu. destruct (Ho m u Hu) as [x Hx]. destruct (Hts u) as [-> | ->]; rewrite Hx; by eexists.
  - intros u x Hu. change (holding _ u) with (holding M u). destruct (Hts u) as [E|E]; rewrite E in Hu;
      [by apply Ht|].
    apply fmap_Some in Hu as (y & Hy & ->). by apply thread_ok_awake, Ht.
Qed.

(** A thread goes on with what it holds, and a thread that gives a mutex back. *)
Lemma resume_ok M t ts' :
  machine_ok M -> thread_ok t (valid (mem M)) (holding M t) ts' ->
  machine_ok (mkMachine (mem M) (owners M) (<[t := ts']> (threads M))).
Proof.
  intros HM Hok. pose proof HM as [Hp H1 _ _].
  eapply (step_ok M _ t); [done..| | |]; cbn; [done|apply H1|exact Hok].
Qed.

Lemma release_ok M t m ts' :
  machine_ok M -> owners M !! m = Some t -> thread_ok t (valid (mem M)) Free ts' ->
  machine_ok (mkMachine (mem M) (delete m (owners M)) (<[t := ts']> (threads M))).
Proof.
  intros HM Hm Hok. pose proof HM as [Hp H1 _ _]. eapply (step_ok M _ t); [done..| | |]; cbn.
  - intros u N. split; [|done]. intros m'. cbn. rewrite lookup_delete_Some. naive_solver.
  - rewrite !lookup_delete_Some. intros [? ?%H1]. naive_solver.
  - unfold holding. cbn [owners mem]. rewrite !decide_False; [done|..].
    + rewrite lookup_delete_Some. intros [N Ho]. destruct m; [by apply (H1 t)|done].
    + rewrite lookup_delete_Some. intros [N Ho]. destruct m; [done|by apply (H1 t)].
Qed.

Lemma acquire_ok M t m k :
  machine_ok M -> threads M !! t = Some (Running (Lock m k)) -> owners M !! m = None ->
  machine_ok (mkMachine (mem M) (<[m := t]> (owners M)) (<[t := Running k]> (threads M))).
Proof.
  intros HM Ht Hm. pose proof HM as [[Hpm Hpq] H1 _ Hth]. specialize (Hth t _ Ht) as Hok. cbn [thread_ok] in Hok.
  assert (Hf : holding M t = Free) by (destruct m; by destruct Hok).
  pose proof (holding_Free M t mapModificationMutex Hf) as Nm. eapply (step_ok M _ t); [done..| | |]; cbn.
  - intros u N. split; [|done]. intros m'. cbn. rewrite lookup_insert_Some. naive_solver.
  - rewrite !lookup_insert_Some. pose proof (holding_Free M t). naive_solver.
  - rewrite Hf in Hok. unfold holding. cbn [owners mem]. destruct m, Hok as [_ Hok].
    + rewrite lookup_insert_eq, decide_True by done. by apply Hok.
    + rewrite lookup_insert_ne, decide_False, lookup_insert_eq, decide_True by done. by apply Hok.
Qed.

Lemma exec_sequential {A} now (p : prog A) s x : exec now p s = Some x -> sequential p = true.
Proof. by destruct p. Qed.

Lemma exec_ok M t p now p' s' :
  machine_ok M -> threads M !! t = Some (Running p) -> exec now p (mem M) = Some (p', s') ->
  machine_ok (mkMachine s' (owners M) (<[t := Running p']> (threads M))).
Proof.
  intros HM Ht He. pose proof HM as [Hp H1 _ Hth]. specialize (Hth t _ Ht) as Hok. cbn [thread_ok] in Hok.
  destruct (exec_safe _ _ now p _ _ _ (holding_fits M t) Hp (exec_sequential _ _ _ _ He) Hok)
    as (p2 & s2 & He2 & [E1 E2 E3 E4 E5]).
  rewrite He in He2. injection He2 as <- <-. eapply (step_ok M _ t); [done..| | |]; cbn.
  - intros u N. split; [done|]. split; intros Hu; [apply E3|apply E4]; intros x Hx;
      [apply holding_Map in Hx|apply holding_Queue in Hx]; cbn in *; congruence.
  - apply H1.
  - revert E5. unfold holding. cbn. by repeat case_decide.
Qed.

Lemma machine_ok_step M M' : machine_ok M -> any_step M M' -> machine_ok M'.
Proof.
  intros HM [t Hs]. pose proof (mo_threads _ HM) as Hth. destruct Hs as [p now p' s' Ht He|m k Ht Hm|m k Ht Hm|
    k Ht Hm|k Ht Hn|k u p Ht Hu|k Ht|p Ht]; specialize (Hth t _ Ht) as Hok; cbn [thread_ok] in Hok.
  - by eapply exec_ok.
  - by eapply acquire_ok.
  - apply release_ok; [done|done|]. by destruct m; destruct Hok as (x & _ & Hok).
  - apply release_ok; [done|done|]. destruct Hok as (q & _ & Hok). cbn. split; [done|]. by split.
  - by apply resume_ok.
  - pose proof (resume_ok M t (Running k) HM Hok) as HM1. apply (wake_ok _ _ HM1). intros v. cbn.
    destruct (decide (v = u)) as [->|N]; [right|left; by rewrite lookup_insert_ne].
    assert (t <> u) by congruence. by rewrite lookup_insert_eq, lookup_insert_ne, Hu by done.
  - pose proof (resume_ok M t (Running k) HM Hok) as HM1. apply (wake_ok _ _ HM1). intros v. cbn.
    destruct (decide (v = t)) as [->|N]; [left; by rewrite !lookup_insert_eq|right].
    by rewrite !lookup_insert_ne, lookup_fmap.
  - apply wake_ok; [done|]. intros u. destruct (decide (u = t)) as [->|N]; [right|left].
    + by rewrite lookup_insert_eq, Ht.
    + by rewrite lookup_insert_ne.
Qed.

(** Threads that are safe with the jobs of a storage, and start without mutex. *)
Definition threads_safe (s : JobStorage) (ts : gmap nat (prog unit)) : Prop :=
  pointers_safe s /\ forall t p, ts !! t = Some p -> safe loose (crash t) p (valid s) Free at_end.

Lemma reachable_ok s ts M : threads_safe s ts -> reachable s ts M -> machine_ok M.
Proof.
  intros [Hp Hs] Hr. assert (H0 : machine_ok (start s ts)).
  { split; cbn; [done|done|..].
    - intros m t Hm. by rewrite lookup_empty in Hm.
    - intros t x Hx. rewrite lookup_fmap in Hx. apply fmap_Some in Hx as (p & Hx & ->). by apply (Hs t). }
  unfold reachable in Hr. induction Hr as [|x y z Hxy _ IH]; [done|]. apply IH. by eapply machine_ok_step.
Qed.

(** ** Races are loose *)

(** An access that the code guards is made by the owner of the mutex. *)
Lemma guarded_owner c V M t p l w :
  safe loose c p V (holding M t) at_end -> next_access p = Some (l, w, Guarded) ->
  (l = TheMap /\ owners M !! mapModificationMutex = Some t) \/
  ((l = TheQueue \/ l = TheContinue) /\ owners M !! mutex_ = Some t).
Proof.
  intros Hs Ha. destruct p as [| | | | | |[] k|f k|[] k|f k|[] k|b k| | | | | |]; try done; cbn in Ha, Hs;
    injection Ha as <- <-; destruct Hs as (x & Hx & _);
    first [apply holding_Map in Hx|apply holding_Queue in Hx]; auto.
Qed.

(** The locations that a mutex guards for its writers. *)
Definition protected (l : location) : bool :=
  match l with TheMap | TheQueue | TheContinue => true | _ => false end.

Lemma loose_access c V h p l w :
  safe loose c p V h at_end -> next_access p = Some (l, w, Loose) -> protected l = true -> loose l = true /\ w = false.
Proof.
  intros Hs Ha Hl. destruct p as [| | | | | |[] k|f k|[] k|f k|[] k|b k| | | | | |]; try done; cbn in Ha, Hs;
    injection Ha as <- <-; try done; naive_solver.
Qed.

Lemma race_loose M l :
  machine_ok M -> race M l -> (protected l = true /\ loose l = true) \/ exists p f, l = JobField p f.
Proof.
  intros [_ _ _ Hth] (t & u & p & q & w1 & w2 & g1 & g2 & N & Hp & Hq & Ap & Aq & Hw).
  pose proof (Hth t _ Hp) as Sp. pose proof (Hth u _ Hq) as Sq. cbn in Sp, Sq.
  destruct (protected l) eqn:Hl.
  - left. split; [done|]. destruct g1; [|by apply (loose_access _ _ _ _ _ _ Sp Ap)].
    destruct g2; [|by apply (loose_access _ _ _ _ _ _ Sq Aq)].
    exfalso. destruct (guarded_owner _ _ _ _ _ _ _ Sp Ap) as [[E1 O1]|[[E1|E1] O1]],
      (guarded_owner _ _ _ _ _ _ _ Sq Aq) as [[E2 O2]|[[E2|E2] O2]]; congruence.
  - right. destruct l as [| | |j c|j f]; try done; [|by do 2 eexists].
    exfalso. destruct p; try done; cbn in Ap; try (destruct g); injection Ap as <- <- <-; destruct q; try done;
      cbn in Aq; try (destruct g); injection Aq as <- <- <-; done.
Qed.

(** ** No deadlock *)
Definition finished (ts : tstate) : bool := match ts with Running (Done _) => true | _ => false end.
Definition crashed (ts : tstate) : bool := match ts with Running Undefined => true | _ => false end.
Definition asleep (ts : tstate) : bool := match ts with Sleeping _ => true | _ => false end.

Lemma notify_progress M t b k : threads M !! t = Some (Running (Notify b k)) -> exists M', step_of t M M'.
Proof.
  intros Ht. destruct b; [eexists; by eapply m_notify_all|].
  destruct (decide (map_Exists (fun _ ts => asleep ts = true) (threads M))) as [(u & ts & Hu & Hs)|N].
  - destruct ts as [|q]; [done|]. eexists. by eapply m_notify_one.
  - eexists. eapply m_notify_none; [done|]. intros u q Hu. apply N. by exists u, (Sleeping q).
Qed.

(** A thread that owns a mutex can go on, and one whose next access needs none. *)
Lemma thread_progress M t p :
  machine_ok M -> threads M !! t = Some (Running p) -> sequential p = true \/ owners M !! mutex_ = Some t \/
    owners M !! mapModificationMutex = Some t -> exists M', step_of t M M'.
Proof.
  intros [Hp H1 Ho Hth] Ht Hq. pose proof (Hth t _ Ht) as Hs. cbn in Hs.
  destruct (sequential p) eqn:Hseq.
  - destruct (exec_safe _ _ 0%Z p _ _ _ (holding_fits M t) Hp Hseq Hs) as (p' & s' & He & _). eexists. by eapply m_exec.
  - destruct Hq as [Hq|Hq]; [done|].
    assert (Hn : holding M t <> Free) by (intros Hf; destruct Hq as [Hq|Hq]; by apply holding_Free with
      (m := _) in Hq).
    destruct p as [a| |m k|m k|k|b k| | | | | | | | | | | |]; try done; cbn in Hs.
    + by destruct Hs.
    + destruct m; by destruct Hs.
    + eexists. apply (m_unlock t M m k); [done|].
      destruct m, Hs as (x & Hx & _); first [by apply holding_Map in Hx|by apply holding_Queue in Hx].
    + destruct Hs as (x & Hx & _). eexists. apply (m_wait t M k); [done|]. by apply holding_Queue in Hx.
    + by eapply notify_progress.
Qed.

(** A thread that waits at a mutex, whose owner can go on. *)
Definition waits_for_owner (M : machine) (ts : tstate) : Prop :=
  exists m k u M', ts = Running (Lock m k) /\ owners M !! m = Some u /\ step_of u M M'.

Lemma progress M t ts :
  machine_ok M -> threads M !! t = Some ts -> finished ts = false -> asleep ts = false -> crashed ts = false ->
  (exists M', step_of t M M') \/ waits_for_owner M ts.
Proof.
  intros HM Ht Hf Ha Hc. destruct ts as [p|]; [|done].
  destruct (sequential p) eqn:Hq; [left; by eapply thread_progress; eauto|].
  pose proof HM as [_ H1 Ho Hth]. pose proof (Hth t _ Ht) as Hs. cbn in Hs.
  destruct p as [a| |m k|m k|k|b k| | | | | | | | | | | |]; try done.
  - destruct (owners M !! m) as [u|] eqn:Hm; [right|left; eexists; by eapply m_lock].
    destruct (Ho m u Hm) as [ts Hu]. destruct ts as [q|q].
    + destruct (thread_progress M u q HM Hu) as [M' HM']; [destruct m; auto|]. by exists m, k, u, M'.
    + pose proof (Hth u _ Hu) as [Hf' _]. by destruct (holding_Free M u m Hf').
  - left. eapply thread_progress; [done|exact Ht|]. cbn in Hs.
    destruct m, Hs as (x & Hx & _); [apply holding_Map in Hx|apply holding_Queue in Hx]; auto.
  - left. eapply thread_progress; [done|exact Ht|]. cbn in Hs. destruct Hs as
      (x & Hx & _). apply holding_Queue in Hx. auto.
  - left. by eapply notify_progress.
Qed.
End Machine.

(** ** Schedules

    A run of the machine that can be computed: the threads that go on, in their
    order, with a clock that stands still. *)
Definition next (now : Z) (t : nat) (M : machine) : option machine :=
  match threads M !! t with
  | Some (Running p) =>
    match p with
    | Lock m k =>
      if decide (owners M !! m = None)
      then Some (mkMachine (mem M) (<[m := t]> (owners M)) (<[t := Running k]> (threads M))) else None
    | Unlock m k =>
      if decide (owners M !! m = Some t)
      then Some (mkMachine (mem M) (delete m (owners M)) (<[t := Running k]> (threads M))) else None
    | Wait k =>
      if decide (owners M !! mutex_ = Some t)
      then Some (mkMachine (mem M) (delete mutex_ (owners M)) (<[t := Sleeping (Lock mutex_ k)]>
        (threads M))) else None
    | Notify true k => Some (mkMachine (mem M) (owners M) (<[t := Running k]> (awake <$> threads M)))
    | Notify false k =>
      match List.find (fun x => asleep x.2) (map_to_list (threads M)) with
      | Some (u, Sleeping q) =>
        Some (mkMachine (mem M) (owners M) (<[u := Running q]> (<[t := Running k]> (threads M))))
      | Some _ => None
      | None => Some (mkMachine (mem M) (owners M) (<[t := Running k]> (threads M)))
      end
    | p => '(p', s') ← exec now p (mem M); Some (mkMachine s' (owners M) (<[t := Running p']> (threads M)))
    end
  | _ => None
  end.

Lemma exec_step now t p M M' :
  threads M !! t = Some (Running p) ->
  ('(p', s') ← exec now p (mem M); Some (mkMachine s' (owners M) (<[t := Running p']> (threads M)))) = Some M' ->
  step_of t M M'.
Proof. intros Ht ([p' s'] & He & [= <-])%bind_Some. by apply (m_exec t M p now). Qed.

Lemma next_step now t M M' : next now t M = Some M' -> step_of t M M'.
Proof.
  unfold next. destruct (threads M !! t) as [[p|p]|] eqn:Ht; [|done..].
  destruct p as [a| |m k|m k|k|[] k| | | | | | | | | | | |];
    try exact (exec_step now t _ M M' Ht).
  - case_decide; [|done]. intros [= <-]. by apply m_lock.
  - case_decide; [|done]. intros [= <-]. by apply m_unlock.
  - case_decide; [|done]. intros [= <-]. by apply m_wait.
  - intros [= <-]. by apply m_notify_all.
  - destruct (List.find _ _) as [[u [q|q]]|] eqn:Hf; [done|..]; intros [= <-].
    + apply find_some in Hf as [Hin _]. apply m_notify_one; [done|]. by apply elem_of_map_to_list, list_elem_of_In.
    + apply m_notify_none; [done|]. intros u q Hu.
      by specialize (List.find_none _ _ Hf (u, Sleeping q) (proj1 (list_elem_of_In _ _) (proj2
        (elem_of_map_to_list _ _ _) Hu))).
Qed.

Fixpoint schedule (now : Z) (ts : list nat) (M : machine) : option machine :=
  match ts with
  | [] => Some M
  | t :: ts => M' ← next now t M; schedule now ts M'
  end.

Lemma schedule_steps now ts M M' : schedule now ts M = Some M' -> rtc any_step M M'.
Proof.
  revert M. induction ts as [|t ts IH]; intros M; cbn [schedule]; [intros [= <-]; done|].
  intros (M1 & H1 & H2)%bind_Some. eapply rtc_l; [exists t; by eapply next_step|]. by apply IH.
Qed.

Lemma schedule_app now ts ts' M : schedule now (ts ++ ts') M = schedule now ts M ≫= schedule now ts'.
Proof. revert M. induction ts as [|t ts IH]; intros M; cbn; [done|]. by destruct (next now t M); cbn. Qed.

Definition access_of (M : machine) (t : nat) : option (location * bool * site) :=
  match threads M !! t with Some (Running p) => next_access p | _ => None end.

Lemma access_race M t u l w1 w2 g1 g2 :
  t <> u -> access_of M t = Some (l, w1, g1) -> access_of M u = Some (l, w2, g2) -> (w1 || w2) = true -> race M l.
Proof.
  unfold access_of. intros N Ht Hu Hw. destruct (threads M !! t) as [[p|]|] eqn:Et; [|done..].
  destruct (threads M !! u) as [[q|]|] eqn:Eu; [|done..]. by exists t, u, p, q, w1, w2, g1, g2.
Qed.
