(* ===== verification/Atomic.v ===== *)
(** * Critical sections in one piece

    The machine of [Threads] runs the accesses of all threads interleaved.  Most
    accesses that a thread makes while it owns a mutex can be put off past the
    accesses of other threads, because nobody else sees what they write and nobody
    else changes what they read: they are right movers.  Every state
    that is reached access by access is therefore reached by blocks, in each of
    which a single thread makes any number of movers and one other access, and by
    movers at the end.  A section that consists of movers is one
    block from its [Lock] to its [Unlock] or [Wait]; a section that also reads
    fields of jobs, or writes where others read without the mutex, is interrupted
    at those accesses. *)
From S2P Require Import Prelude Job QuitableQueue JobStorage Threads.

Section Movers.
Context (loose : location -> bool) (crash : nat -> bool).

(** Accesses of the owner of a mutex that other threads cannot tell from later
    ones: reads under the mutex, of constant fields, of the clock, and writes to
    what is never read without the mutex. *)
Definition hidden {A} (p : prog A) : bool :=
  match p with
  | ReadMap Guarded _ | ReadQueue Guarded _ | ReadContinue Guarded _ => true
  | ReadConst _ _ _ | Clock _ | Loop _ _ => true
  | WriteMap _ _ => negb (loose TheMap)
  | WriteQueue _ _ => negb (loose TheQueue)
  | WriteContinue _ _ => negb (loose TheContinue)
  | _ => false
  end.

Definition is_owner (M : machine) (t : nat) : bool :=
  bool_decide (owners M !! mapModificationMutex = Some t \/ owners M !! mutex_ = Some t).

(** The next access of [t] is a mover: it locks a mutex, or is hidden. *)
Definition moves (M : machine) (t : nat) : bool :=
  match threads M !! t with
  | Some (Running (Lock _ _)) => true
  | Some (Running p) => is_owner M t && hidden p
  | _ => false
  end.

Definition mover (t : nat) (M M' : machine) : Prop := moves M t = true /\ step_of t M M'.
Definition some_mover (M M' : machine) : Prop := exists t, mover t M M'.

(** Nobody interrupts a block. *)
Definition block (t : nat) (M M' : machine) : Prop :=
  exists M1, rtc (mover t) M M1 /\ moves M1 t = false /\ step_of t M1 M'.
Definition any_block (M M' : machine) : Prop := exists t, block t M M'.

(** ** Accesses of two threads commute *)

Definition part_eq (m : mutex) (s s' : JobStorage) : Prop :=
  match m with mapModificationMutex => jobMap s = jobMap s' | mutex_ => queue s = queue s' end.

(** Jobs stay, with the fields that are set once. *)
Definition heap_le (h h' : gmap JobPtr Job) : Prop :=
  forall p j, h !! p = Some j -> exists j', h' !! p = Some j' /\ forall c, cget c j' = cget c j.

#[export] Instance heap_le_refl : Reflexive heap_le.
Proof. intros h p j Hj. by exists j. Qed.

Lemma heap_le_update p j h : (forall j0, h !! p = Some j0 -> forall c, cget c j = cget c j0) -> heap_le h
  (<[p := j]> h).
Proof.
  intros H r jr Hr. destruct (decide (r = p)) as [->|N].
  - exists j. rewrite lookup_insert_eq. split; [done|]. by apply H.
  - exists jr. by rewrite lookup_insert_ne.
Qed.

(** What an access leaves alone. *)
Lemma exec_frame {A} c now (q q' : prog A) V h Q s s' :
  safe loose c q V h Q -> exec now q s = Some (q', s') ->
  heap_le (heap s) (heap s') /\
  ((forall jm, h <> HeldMap jm) -> part_eq mapModificationMutex s s') /\
  ((forall x, h <> HeldQueue x) -> part_eq mutex_ s s').
Proof.
  intros Hs He. destruct q as [| | | | | |[] k|f k|[] k|f k|[] k|b k|c0 p k|f p k|f p v k|j k|k|R body k];
    try done; cbn [exec safe] in *;
    try (injection He as <- <-); try (by split; [reflexivity|split; done]).
  - split; [reflexivity|]. split; [|done]. destruct Hs as (jm & -> & _). intros N. by destruct (N jm).
  - split; [reflexivity|]. split; [done|]. destruct Hs as (x & -> & _). intros N. by destruct (N x).
  - split; [reflexivity|]. split; [done|]. destruct Hs as (x & -> & _). intros N. by destruct (N x).
  - apply bind_Some in He as (j & Hj & [= <- <-]). by split; [reflexivity|split; done].
  - apply bind_Some in He as (j & Hj & [= <- <-]). by split; [reflexivity|split; done].
  - apply bind_Some in He as (j & Hj & [= <- <-]). split; [|by split].
    apply heap_le_update. intros j0 Hj0 c1. rewrite cget_mset. congruence.
  - split; [|by split]. apply heap_le_update. intros j0 Hj0.
    destruct (is_fresh (dom (heap s))). apply elem_of_dom. by eexists.
Qed.

(** Two threads never own the same part. *)
Definition apart (h h' : held) : Prop :=
  match h, h' with HeldMap _, HeldMap _ | HeldQueue _, HeldQueue _ => False | _, _ => True end.

(** A hidden write, and an access that neither reads nor writes that part. *)
Lemma write_swap {A B} c c' now now' (p p' : prog A) (q q' : prog B) V V' hp hq Q Q' s s1 s2 :
  (exists f, p = WriteMap f p') \/ (exists f, p = WriteQueue f p') \/ (exists b, p = WriteContinue b p') ->
  hidden p = true -> safe loose c p V hp Q -> safe loose c' q V' hq Q' -> apart hp hq ->
  exec now p s = Some (p', s1) -> exec now' q s1 = Some (q', s2) ->
  exists s1', exec now' q s = Some (q', s1') /\ exec now p s1' = Some (p', s2).
Proof.
  intros Hp Hh Hs Hs' Ha He He'. destruct Hp as [[f ->]|[[f ->]|[b ->]]]; cbn [exec safe hidden] in *;
    injection He as <-; destruct Hs as (x & -> & _); apply negb_true_iff in Hh;
    (destruct q as [| | | | | |[] k|f' k|[] k|f' k|[] k|b' k|c0 r k|f' r k|f' r v k|j k|k|R body k]; try done;
      cbn [exec safe] in *; try (destruct Hs' as (y & -> & _); done); try (destruct Hs' as (-> & ? & _); congruence);
      try (by injection He' as <- <-; eexists; split; [done|cbn]);
      apply bind_Some in He' as (jr & Hj & [= <- <-]); cbn in Hj; rewrite Hj; by eexists).
Qed.

Lemma exec_swap {A B} c c' now now' (p p' : prog A) (q q' : prog B) V V' hp hq Q Q' s s1 s2 :
  hidden p = true -> safe loose c p V hp Q -> safe loose c' q V' hq Q' -> apart hp hq ->
  exec now p s = Some (p', s1) -> exec now' q s1 = Some (q', s2) ->
  exists s1', exec now' q s = Some (q', s1') /\ exec now p s1' = Some (p', s2).
Proof.
  intros Hh Hs Hs' Ha He He'.
  assert (Hread : s1 = s -> exec now p s2 = Some (p', s2) ->
    exists s1', exec now' q s = Some (q', s1') /\ exec now p s1' = Some (p', s2)).
  { intros -> H. by exists s2. }
  destruct p as [| | | | | |[] k|f k|[] k|f k|[] k|b k|c0 r k|f r k|f r v k|j k|k|R body k]; try done.
  - injection He as <- <-. destruct (exec_frame c' now' q q' V' hq Q' s s2 Hs' He') as (_ & H1 & _).
    apply Hread; [done|]. cbn in *. destruct Hs as (x & -> & _). rewrite H1; [done|]. by intros jm ->.
  - eapply write_swap; [|done..]. left. exists f. cbn in He. congruence.
  - injection He as <- <-. destruct (exec_frame c' now' q q' V' hq Q' s s2 Hs' He') as (_ & _ & H1).
    apply Hread; [done|]. cbn in *. destruct Hs as (x & -> & _). rewrite H1; [done|]. by intros jm ->.
  - eapply write_swap; [|done..]. right. left. exists f. cbn in He. congruence.
  - injection He as <- <-. destruct (exec_frame c' now' q q' V' hq Q' s s2 Hs' He') as (_ & _ & H1).
    apply Hread; [done|]. cbn in *. destruct Hs as (x & -> & _). rewrite H1; [done|]. by intros jm ->.
  - eapply write_swap; [|done..]. right. right. exists b. cbn in He. congruence.
  - cbn in He. apply bind_Some in He as (j & Hj & [= <- <-]).
    destruct (exec_frame c' now' q q' V' hq Q' s s2 Hs' He') as (H1 & _). apply Hread; [done|]. cbn.
    destruct (H1 r j Hj) as (j' & -> & Hc). cbn. by rewrite Hc.
  - injection He as <- <-. by apply Hread.
  - injection He as <- <-. by apply Hread.
Qed.

(** ** Steps of two threads commute *)

(** A mover as a lock, or as a hidden access. *)
Lemma mover_inv u M M1 :
  mover u M M1 ->
  exists p p', threads M !! u = Some (Running p) /\ threads M1 = <[u := Running p']> (threads M) /\
    ((exists m, p = Lock m p' /\ owners M !! m = None /\ mem M1 = mem M /\ owners M1 = <[m := u]> (owners M)) \/
     (exists now, is_owner M u = true /\ hidden p = true /\ exec now p (mem M) = Some (p', mem M1) /\
        owners M1 = owners M)).
Proof.
  intros [Hm Hs]. unfold moves in Hm. destruct Hs as [p now p' s' Ht He|m k Ht Ho|m k Ht Ho|k Ht Ho|k Ht Hn|
    k v p Ht Hv|k Ht|p Ht];
    rewrite Ht in Hm; try (by destruct (is_owner M u)); [exists p, p'|exists (Lock m k), k]; split; [done| |done|];
    (split; [done|]); [right|left; by exists m].
  exists now. destruct p; try done; apply andb_true_iff in Hm as [H1 H2]; done.
Qed.

Lemma is_owner_spec M t : is_owner M t = true <-> exists m, owners M !! m = Some t.
Proof. unfold is_owner. rewrite bool_decide_eq_true. split; [intros [H|H]; by eexists|]. intros ([] & ?); auto. Qed.

Lemma is_owner_ext M M' t :
  (forall m, owners M' !! m = Some t <-> owners M !! m = Some t) -> is_owner M' t = is_owner M t.
Proof. intros H. unfold is_owner. apply bool_decide_ext. by rewrite !H. Qed.

Lemma moves_ext M M' t : threads M' !! t = threads M !! t -> is_owner M' t = is_owner M t -> moves M' t = moves M t.
Proof. intros H1 H2. unfold moves. by rewrite H1, H2. Qed.

(** What a mover leaves to the other threads. *)
Lemma mover_others u t M M1 :
  u <> t -> mover u M M1 -> threads M1 !! t = threads M !! t /\ is_owner M1 t = is_owner M t.
Proof.
  intros N (p & p' & Hu & Ht & Hp)%mover_inv. split; [by rewrite Ht, lookup_insert_ne|].
  apply is_owner_ext. intros m. destruct Hp as [(m' & -> & Ho & _ & ->)|(now & _ & _ & _ & ->)]; [|done].
  rewrite lookup_insert_Some. naive_solver.
Qed.

Lemma mover_heap u M M1 : mover u M M1 -> heap (mem M1) = heap (mem M).
Proof.
  intros (p & p' & _ & _ & [(m & -> & _ & -> & _)|(now & _ & Hh & He & _)])%mover_inv; [done|].
  destruct p as [| | | | | |[] k|f k|[] k|f k|[] k|b k|c r k|f r k|f r v k|j k|k|R body k]; try done; cbn in He;
    try (by injection He as _ <-). apply bind_Some in He as (j & Hj & [= _ <-]). done.
Qed.

Lemma mover_owns u M M1 : mover u M M1 -> is_owner M1 u = true.
Proof.
  intros (p & p' & _ & _ & [(m & _ & _ & _ & Ho)|(now & H & _ & _ & Ho)])%mover_inv; rewrite is_owner_spec, Ho;
    [exists m; by rewrite lookup_insert_eq|by apply is_owner_spec].
Qed.

Lemma holding_apart M u t : u <> t -> apart (holding M u) (holding M t).
Proof. intros N. unfold holding. repeat case_decide; cbn; try done; congruence. Qed.

Lemma thread_safe M t p :
  machine_ok loose crash M -> threads M !! t = Some (Running p) -> safe loose (crash t) p (valid (mem M))
    (holding M t) at_end.
Proof. intros [_ _ _ H] Ht. by apply (H t _ Ht). Qed.

Lemma mover_lock u s o ths m k M' :
  ths !! u = Some (Running (Lock m k)) -> o !! m = None ->
  M' = mkMachine s (<[m := u]> o) (<[u := Running k]> ths) -> mover u (mkMachine s o ths) M'.
Proof. intros Hu Ho ->. split; [by unfold moves; cbn; rewrite Hu|]. by apply (m_lock u (mkMachine s o ths)). Qed.

Lemma mover_hidden u s o ths now p p' s' M' :
  ths !! u = Some (Running p) -> is_owner (mkMachine s o ths) u = true -> hidden p = true ->
  exec now p s = Some (p', s') -> M' = mkMachine s' o (<[u := Running p']> ths) -> mover u (mkMachine s o ths) M'.
Proof.
  intros Hu Ho Hh He ->. split; [|by apply (m_exec u (mkMachine s o ths) p now)].
  unfold moves. cbn. rewrite Hu, Ho, Hh. by destruct p.
Qed.

(** A step of another thread can go first. *)
Lemma lock_commutes u t s o ths m k M2 :
  u <> t -> ths !! u = Some (Running (Lock m k)) -> o !! m = None ->
  step_of t (mkMachine s (<[m := u]> o) (<[u := Running k]> ths)) M2 ->
  exists M1', step_of t (mkMachine s o ths) M1' /\ mover u M1' M2.
Proof.
  intros N Hu Ho Hs. inversion Hs as [q now q' s' Ht He|m' k' Ht Hm|m' k' Ht Hm|k' Ht Hm|k' Ht Hn|k' v q Ht Hv|
    k' Ht|q Ht];
    subst; cbn in *; rewrite lookup_insert_ne in Ht by done.
  - eexists. split; [by eapply m_exec|]. eapply mover_lock; cbn; [by rewrite lookup_insert_ne|done|].
    f_equal. by rewrite insert_insert_ne.
  - apply lookup_insert_None in Hm as [Hm Nm]. eexists. split; [by eapply m_lock|].
    eapply mover_lock; cbn; [by rewrite lookup_insert_ne|by rewrite lookup_insert_ne|].
    f_equal; by rewrite insert_insert_ne.
  - assert (m <> m') as Nm by (intros ->; rewrite lookup_insert_eq in Hm; congruence).
    rewrite lookup_insert_ne in Hm by done. eexists. split; [by eapply m_unlock|].
    eapply mover_lock; cbn; [by rewrite lookup_insert_ne|by rewrite lookup_delete_ne|].
    f_equal; [by rewrite delete_insert_ne|by rewrite insert_insert_ne].
  - assert (m <> mutex_) as Nm by (intros ->; rewrite lookup_insert_eq in Hm; congruence).
    rewrite lookup_insert_ne in Hm by done. eexists. split; [by eapply m_wait|].
    eapply mover_lock; cbn; [by rewrite lookup_insert_ne|by rewrite lookup_delete_ne|].
    f_equal; [by rewrite delete_insert_ne|by rewrite insert_insert_ne].
  - eexists. split; [eapply m_notify_none; [done|]|].
    { cbn. intros v q Hv. apply (Hn v q). rewrite lookup_insert_ne; [done|]. intros <-. cbn in Hv. congruence. }
    eapply mover_lock; cbn; [by rewrite lookup_insert_ne|done|]. f_equal. by rewrite insert_insert_ne.
  - assert (u <> v) as Nv by (intros <-; rewrite lookup_insert_eq in Hv; congruence).
    rewrite lookup_insert_ne in Hv by done. eexists. split; [by eapply m_notify_one|].
    eapply mover_lock; cbn; [by rewrite !lookup_insert_ne|done|]. f_equal.
    rewrite (insert_insert_ne _ t u) by done. by rewrite (insert_insert_ne _ v u).
  - eexists. split; [by eapply m_notify_all|]. eapply mover_lock; cbn.
    + by rewrite lookup_insert_ne, lookup_fmap, Hu.
    + done.
    + f_equal. rewrite fmap_insert. by rewrite insert_insert_ne.
  - eexists. split; [by eapply m_spurious|]. eapply mover_lock; cbn; [by rewrite lookup_insert_ne|done|].
    f_equal. by rewrite insert_insert_ne.
Qed.

Lemma hidden_commutes u t s o ths now p p' s1 M2 :
  machine_ok loose crash (mkMachine s o ths) -> u <> t -> ths !! u = Some (Running p) ->
  is_owner (mkMachine s o ths) u = true -> hidden p = true -> exec now p s = Some (p', s1) ->
  step_of t (mkMachine s1 o (<[u := Running p']> ths)) M2 ->
  exists M1', step_of t (mkMachine s o ths) M1' /\ mover u M1' M2.
Proof.
  intros HM N Hu Ho Hh He Hs. inversion Hs as [q now' q' s' Ht He'|m' k' Ht Hm|m' k' Ht Hm|k' Ht Hm|k' Ht Hn|
    k' v q Ht Hv|k' Ht|q Ht];
    subst; cbn in *; rewrite lookup_insert_ne in Ht by done.
  - destruct (exec_swap _ _ now now' p p' q q' _ _ _ _ _ _ s s1 s' Hh (thread_safe _ u _ HM Hu) (thread_safe _ t _ HM Ht)
      (holding_apart _ u t N) He He') as (s1' & E1 & E2).
    eexists. split; [by eapply m_exec|]. eapply (mover_hidden u s1' o _ now); cbn; [by rewrite lookup_insert_ne|
      done..|].
    f_equal. by rewrite insert_insert_ne.
  - eexists. split; [by eapply m_lock|]. eapply (mover_hidden u _ _ _ now); cbn; [by rewrite lookup_insert_ne| |
      done..|].
    + rewrite is_owner_spec in Ho |- *. destruct Ho as [m Ho]. exists m. cbn in *. rewrite lookup_insert_ne;
      [done|congruence].
    + f_equal. by rewrite insert_insert_ne.
  - eexists. split; [by eapply m_unlock|]. eapply (mover_hidden u _ _ _ now); cbn; [by rewrite lookup_insert_ne| |
      done..|].
    + rewrite is_owner_spec in Ho |- *. destruct Ho as [m Ho]. exists m. cbn in *. rewrite lookup_delete_ne;
      [done|congruence].
    + f_equal. by rewrite insert_insert_ne.
  - eexists. split; [by eapply m_wait|]. eapply (mover_hidden u _ _ _ now); cbn; [by rewrite lookup_insert_ne| |
      done..|].
    + rewrite is_owner_spec in Ho |- *. destruct Ho as [m Ho]. exists m. cbn in *. rewrite lookup_delete_ne;
      [done|congruence].
    + f_equal. by rewrite insert_insert_ne.
  - eexists. split; [eapply m_notify_none; [done|]|].
    { cbn. intros v q Hv. apply (Hn v q). rewrite lookup_insert_ne; [done|]. intros <-. cbn in Hv. congruence. }
    eapply (mover_hidden u _ _ _ now); cbn; [by rewrite lookup_insert_ne|done..|].
      f_equal. by rewrite insert_insert_ne.
  - assert (u <> v) as Nv by (intros <-; rewrite lookup_insert_eq in Hv; congruence).
    rewrite lookup_insert_ne in Hv by done. eexists. split; [by eapply m_notify_one|].
    eapply (mover_hidden u _ _ _ now); cbn; [by rewrite !lookup_insert_ne|done..|]. f_equal.
    rewrite (insert_insert_ne _ t u) by done. by rewrite (insert_insert_ne _ v u).
  - eexists. split; [by eapply m_notify_all|]. eapply (mover_hidden u _ _ _ now); cbn.
    + by rewrite lookup_insert_ne, lookup_fmap, Hu.
    + done.
    + done.
    + done.
    + f_equal. rewrite fmap_insert. by rewrite insert_insert_ne.
  - eexists. split; [by eapply m_spurious|]. eapply (mover_hidden u _ _ _ now); cbn; [by rewrite lookup_insert_ne|
      done..|].
    f_equal. by rewrite insert_insert_ne.
Qed.

Lemma mover_commutes u t M M1 M2 :
  machine_ok loose crash M -> u <> t -> mover u M M1 -> step_of t M1 M2 ->
  exists M1', step_of t M M1' /\ mover u M1' M2.
Proof.
  intros HM N (p & p' & Hu & Hth & Hp)%mover_inv Hs. destruct M as [s o ths], M1 as [s1 o1 ths1]; cbn in *;
    subst ths1.
  destruct Hp as [(m & -> & Ho & -> & ->)|(now & Ho & Hh & He & ->)]; [by eapply lock_commutes|
    by eapply hidden_commutes].
Qed.

(** ** Every run is one of blocks, but for movers at its end *)

Lemma step_keeps_ok t M M' : machine_ok loose crash M -> step_of t M M' -> machine_ok loose crash M'.
Proof. intros HM Hs. eapply machine_ok_step; [done|]. by exists t. Qed.

Lemma mover_after_movers u t M M1 M2 :
  machine_ok loose crash M -> u <> t -> mover u M M1 -> rtc (mover t) M1 M2 ->
  exists M1', rtc (mover t) M M1' /\ mover u M1' M2.
Proof.
  intros HM N Hu Hr. revert M HM Hu. induction Hr as [M1|M1 M3 M2 [Hm Hs] _ IH]; intros M HM Hu; [by exists M|].
  destruct (mover_commutes u t M M1 M3 HM N Hu Hs) as (M' & H1 & H2).
  destruct (mover_others u t M M1 N Hu) as [E1 E2].
  assert (Hmt : mover t M M') by (split; [by rewrite <- (moves_ext M M1 t)|done]).
  destruct (IH M' (step_keeps_ok t M M' HM H1) H2) as (M1' & H3 & H4). exists M1'. split; [by eapply rtc_l|done].
Qed.

(** The movers of others go behind the block of a thread. *)
Lemma block_first t M M1 M2 :
  machine_ok loose crash M -> rtc some_mover M M1 -> moves M1 t = false -> step_of t M1 M2 ->
  exists M', block t M M' /\ rtc some_mover M' M2.
Proof.
  intros HM Hr Hm Hs. induction Hr as [M1|M M3 M1 [u Hu] _ IH]; [exists M2; split; [by exists M1|done]|].
  pose proof (step_keeps_ok u M M3 HM (proj2 Hu)) as HM3. destruct (IH HM3 Hm Hs) as (M' &
    (Mb & Hb & Hmb & Hsb) & Hr').
  destruct (decide (u = t)) as [->|N].
  { exists M'. split; [|done]. exists Mb. split; [by eapply rtc_l|done]. }
  destruct (mover_after_movers u t M M3 Mb HM N Hu Hb) as (Mc & Hc & Huc).
  assert (HMc : machine_ok loose crash Mc).
  { clear - HM Hc. induction Hc as [|x y z [_ Hxy] _ IH]; [done|]. apply IH. by eapply step_keeps_ok. }
  destruct (mover_commutes u t Mc Mb M' HMc N Huc Hsb) as (Md & Hd & Hud).
  exists Md. split; [|eapply rtc_l; [by exists u|done]]. exists Mc. split; [done|]. split; [|done].
  destruct (mover_others u t Mc Mb N Huc) as [E1 E2]. by rewrite <- (moves_ext Mc Mb t).
Qed.

Lemma movers_keep_ok M M' : machine_ok loose crash M -> rtc some_mover M M' -> machine_ok loose crash M'.
Proof. intros HM Hr. induction Hr as [|x y z [t [_ Hxy]] _ IH]; [done|]. apply IH. by eapply step_keeps_ok. Qed.

Lemma block_keeps_ok t M M' : machine_ok loose crash M -> block t M M' -> machine_ok loose crash M'.
Proof.
  intros HM (M1 & Hr & _ & Hs). eapply step_keeps_ok; [|done]. eapply movers_keep_ok; [done|].
  eapply rtc_subrel; [|done]. intros x y Hxy. by exists t.
Qed.

Lemma steps_as_blocks M M' :
  machine_ok loose crash M -> rtc any_step M M' ->
  exists a, machine_ok loose crash a /\ rtc any_block M a /\ rtc some_mover a M'.
Proof.
  intros HM. revert M'. apply rtc_ind_r; [by exists M|]. intros M1 M2 _ [t Ht] (a & Ha & Hb & Hm).
  destruct (moves M1 t) eqn:Hmt.
  - exists a. split; [done|]. split; [done|]. eapply rtc_r; [done|]. exists t. by split.
  - destruct (block_first t a M1 M2 Ha Hm Hmt Ht) as (a' & Hba & Hma). exists a'.
    split; [by eapply block_keeps_ok|]. split; [|done]. eapply rtc_r; [done|]. by exists t.
Qed.

(** ** The movers at the end are not visible *)

Lemma movers_heap M M' : rtc some_mover M M' -> heap (mem M') = heap (mem M).
Proof. intros Hr. induction Hr as [|x y z [t Hxy] _ IH]; [done|]. by rewrite IH, (mover_heap t x y). Qed.

Lemma mover_part u M M1 m :
  machine_ok loose crash M -> mover u M M1 -> owners M1 !! m = None -> owners M !! m = None /\ part_eq m (mem M1)
    (mem M).
Proof.
  intros HM (p & p' & Hu & _ & [(m' & -> & Ho & -> & ->)|(now & _ & Hh & He & ->)])%mover_inv Hm.
  - apply lookup_insert_None in Hm as [Hm _]. by destruct m.
  - split; [done|]. pose proof (thread_safe M u p HM Hu) as Hs. destruct (exec_frame _ now p p' _ _ _ _ _ Hs He) as
      (_ & H1 & H2).
    destruct m; symmetry; [apply H1|apply H2]; intros x Hx; [apply holding_Map in Hx|apply holding_Queue in Hx];
      congruence.
Qed.

Lemma movers_part M M' m :
  machine_ok loose crash M -> rtc some_mover M M' -> owners M' !! m = None ->
  owners M !! m = None /\ part_eq m (mem M') (mem M).
Proof.
  intros HM Hr Ho. induction Hr as [|x y z [t Hxy] _ IH]; [by destruct m|].
  destruct (IH (step_keeps_ok t x y HM (proj2 Hxy)) Ho) as [H1 H2].
  destruct (mover_part t x y m HM Hxy H1) as [H3 H4]. split; [done|]. destruct m; cbn in *; congruence.
Qed.

Lemma movers_free M M' : rtc some_mover M M' -> owners M' = ∅ -> M = M'.
Proof.
  intros [->|(M1 & _ & [t Ht])]%rtc_inv_r Ho; [done|].
  apply mover_owns, is_owner_spec in Ht as [m Hm]. by rewrite Ho, lookup_empty in Hm.
Qed.

End Movers.

(** ** Sections that are one block *)
Section Blocks.
Context (loose : location -> bool).

Abbreviation hidden := (hidden loose).
Abbreviation moves := (moves loose).
Abbreviation mover := (mover loose).
Abbreviation block := (block loose).

(** A hidden access whose result does not depend on the clock. *)
Definition quiet {A} (x y : prog A * JobStorage) : Prop := hidden x.1 = true /\ forall now, exec now x.1 x.2 = Some y.
Definition quietly {A} (p : prog A) (s : JobStorage) (a : A) (s' : JobStorage) : Prop := rtc quiet (p, s)
  (Done a, s').

Lemma hidden_bind {A B} (f : A -> prog B) p : hidden p = true -> hidden (pbind f p) = true.
Proof. by destruct p. Qed.

Lemma quiet_bind {A B} (f : A -> prog B) p s q s' :
  rtc quiet (p, s) (q, s') -> rtc quiet (pbind f p, s) (pbind f q, s').
Proof.
  intros Hr. remember (p, s) as x eqn:Ex. remember (q, s') as y eqn:Ey. revert p s Ex.
  induction Hr as [x|x [p1 s1] y [H1 H2] _ IH]; intros p s Ex; subst; [by injection Ex as <- <-|].
  eapply rtc_l; [|by apply IH]. split; [by apply hidden_bind|]. intros now. by apply exec_bind.
Qed.

Lemma quietly_bind {A B} (f : A -> prog B) p s a s1 y :
  quietly p s a s1 -> rtc quiet (f a, s1) y -> rtc quiet (pbind f p, s) y.
Proof. intros Hp Hf. etrans; [by apply (quiet_bind f)|done]. Qed.

Definition stops {A} (p : prog A) : bool := match p with Lock _ _ => false | p => negb (hidden p) end.

Lemma moves_hidden M t p :
  threads M !! t = Some (Running p) -> is_owner M t = true -> hidden p = true -> moves M t = true.
Proof. intros Ht Ho Hh. unfold moves. rewrite Ht, Ho, Hh. by destruct p. Qed.
Lemma moves_stops M t p : threads M !! t = Some (Running p) -> stops p = true -> moves M t = false.
Proof.
  intros Ht Hs. unfold moves. rewrite Ht. unfold stops in Hs. destruct p; try done; apply negb_true_iff in Hs;
    rewrite Hs; by rewrite andb_false_r.
Qed.

Definition with_thread (t : nat) (x : prog unit * JobStorage) (M : machine) : machine :=
  mkMachine x.2 (owners M) (<[t := Running x.1]> (threads M)).

Lemma with_thread_id t M p : threads M !! t = Some (Running p) -> with_thread t (p, mem M) M = M.
Proof. intros Ht. unfold with_thread. cbn. rewrite insert_id by done. by destruct M. Qed.
Lemma with_thread_twice t x y M : with_thread t x (with_thread t y M) = with_thread t x M.
Proof. unfold with_thread. cbn. by rewrite insert_insert_eq. Qed.

(** A quiet access is the only step of its thread. *)
Lemma quiet_step t M x y M' :
  threads M !! t = Some (Running x.1) -> mem M = x.2 -> quiet x y -> step_of t M M' <-> M' = with_thread t y M.
Proof.
  intros Ht Hmem [Hh He]. destruct x as [p s], y as [p1 s1]; cbn in *; subst s. split.
  - intros Hs. destruct Hs as [q now p' s' Hq Hx|m k Hq Ho|m k Hq Ho|k Hq Ho|k Hq Hn|k v q Hq Hv|k Hq|q Hq];
      rewrite Ht in Hq; simplify_eq; try done. rewrite He in Hx. by injection Hx as <- <-.
  - intros ->. apply (m_exec t M p 0%Z); [done|apply He].
Qed.

Lemma quiet_run t M x y :
  threads M !! t = Some (Running x.1) -> mem M = x.2 -> is_owner M t = true -> rtc quiet x y ->
  rtc (mover t) M (with_thread t y M).
Proof.
  intros Ht Hm Ho Hr. revert M Ht Hm Ho. induction Hr as [x|x y z Hxy _ IH]; intros M Ht Hm Ho.
  - destruct x as [p s]. cbn in *. subst s. by rewrite with_thread_id.
  - eapply rtc_l; [split; [eapply moves_hidden; [done|done|by destruct Hxy]|by apply (quiet_step t M x y)]|].
    rewrite <- (with_thread_twice t z y). apply IH; [cbn; by rewrite lookup_insert_eq|done|done].
Qed.

(** The movers of a thread lead to where a quiet run stops. *)
Lemma quiet_forced t M x y M1 :
  threads M !! t = Some (Running x.1) -> mem M = x.2 -> is_owner M t = true -> rtc quiet x y -> stops y.1 = true ->
  rtc (mover t) M M1 -> moves M1 t = false -> M1 = with_thread t y M.
Proof.
  intros Ht Hm Ho Hr Hy. revert M Ht Hm Ho. induction Hr as [x|x y z Hxy _ IH]; intros M Ht Hm Ho H1 H2.
  - destruct H1 as [M|M M' M1 [Hmv _] _]; [|by rewrite (moves_stops M t x.1) in Hmv].
    destruct x as [p s]. cbn in *. subst s. by rewrite with_thread_id.
  - destruct H1 as [M|M M' M1 [_ Hs] H1]; [by rewrite (moves_hidden M t x.1) in H2 by (by destruct Hxy)|].
    apply (quiet_step t M x y M' Ht Hm Hxy) in Hs as ->. rewrite <- (with_thread_twice t z y).
    apply IH; [done|cbn; by rewrite lookup_insert_eq|done..].
Qed.

Definition locked (t : nat) (m : mutex) (x : prog unit * JobStorage) (M : machine) : machine :=
  mkMachine x.2 (<[m := t]> (owners M)) (<[t := Running x.1]> (threads M)).

Lemma section_block t M M' m k y :
  threads M !! t = Some (Running (Lock m k)) -> rtc quiet (k, mem M) y -> stops y.1 = true ->
  block t M M' <-> owners M !! m = None /\ step_of t (locked t m y M) M'.
Proof.
  intros Ht Hr Hy.
  assert (Hown : is_owner (locked t m (k, mem M) M) t = true)
    by (apply is_owner_spec; exists m; apply lookup_insert_eq).
  assert (Hy' : locked t m y M = with_thread t y (locked t m (k, mem M) M))
    by (unfold locked, with_thread; cbn; by rewrite insert_insert_eq).
  assert (Hk : threads (locked t m (k, mem M) M) !! t = Some (Running k)) by apply lookup_insert_eq.
  rewrite Hy'. split.
  - intros (M1 & Hb & Hm & Hs). destruct Hb as [M|M M0 M1 [_ H0] Hb]; [unfold moves in Hm; by rewrite Ht in Hm|].
    assert (owners M !! m = None /\ M0 = locked t m (k, mem M) M) as [Ho ->].
    { destruct H0 as [q now p' s' Hq Hx|m' k' Hq Ho|m' k' Hq Ho|k' Hq Ho|k' Hq Hn|k' v q Hq Hv|k' Hq|q Hq];
        rewrite Ht in Hq; simplify_eq; done. }
    split; [done|]. by rewrite <- (quiet_forced t _ (k, mem M) y M1 Hk eq_refl Hown Hr Hy Hb Hm).
  - intros [Ho Hs]. exists (with_thread t y (locked t m (k, mem M) M)). split; [|split; [|done]].
    + eapply rtc_l; [split; [by unfold moves; rewrite Ht|by apply m_lock]|]. by apply (quiet_run t _ (k, mem M)).
    + eapply moves_stops; [apply lookup_insert_eq|done].
Qed.

(** A section that ends with its unlock, and one that ends with a wait. *)
Lemma section_unlock t M M' m k k' s' :
  threads M !! t = Some (Running (Lock m k)) -> rtc quiet (k, mem M) (Unlock m k', s') ->
  block t M M' <-> owners M !! m = None /\ M' = mkMachine s' (owners M) (<[t := Running k']> (threads M)).
Proof.
  intros Ht Hr. rewrite (section_block t M M' m k _ Ht Hr) by done.
  split; intros [Ho H]; (split; [done|]).
  - inversion H as [q now p' s1 Hq Hx|m' k1 Hq Ho'|m' k1 Hq Ho'|k1 Hq Ho'|k1 Hq Hn|k1 v q Hq Hv|k1 Hq|q Hq]; subst;
      cbn in *; rewrite lookup_insert_eq in Hq; simplify_eq; cbn in *; try done.
    by rewrite delete_insert_id, insert_insert_eq.
  - subst M'. replace (mkMachine _ _ _) with (mkMachine (mem (locked t m (Unlock m k', s') M))
      (delete m (owners (locked t m (Unlock m k', s') M)))
      (<[t := Running k']> (threads (locked t m (Unlock m k', s') M)))).
    + apply m_unlock; apply lookup_insert_eq.
    + cbn. by rewrite delete_insert_id, insert_insert_eq.
Qed.

Lemma section_wait t M M' k k' s' :
  threads M !! t = Some (Running (Lock mutex_ k)) -> rtc quiet (k, mem M) (Wait k', s') ->
  block t M M' <->
  owners M !! mutex_ = None /\ M' = mkMachine s' (owners M) (<[t := Sleeping (Lock mutex_ k')]> (threads M)).
Proof.
  intros Ht Hr. rewrite (section_block t M M' mutex_ k _ Ht Hr) by done. split; intros [Ho H]; (split; [done|]).
  - inversion H as [q now p' s1 Hq Hx|m' k1 Hq Ho'|m' k1 Hq Ho'|k1 Hq Ho'|k1 Hq Hn|k1 v q Hq Hv|k1 Hq|q Hq]; subst;
      cbn in *; rewrite lookup_insert_eq in Hq; simplify_eq; cbn in *; try done.
    by rewrite delete_insert_id, insert_insert_eq.
  - subst M'. replace (mkMachine _ _ _) with (mkMachine (mem (locked t mutex_ (Wait k', s') M))
      (delete mutex_ (owners (locked t mutex_ (Wait k', s') M)))
      (<[t := Sleeping (Lock mutex_ k')]> (threads (locked t mutex_ (Wait k', s') M)))).
    + apply m_wait; apply lookup_insert_eq.
    + cbn. by rewrite delete_insert_id, insert_insert_eq.
Qed.

(** The section [p] is one block, which does what [op] does. *)
Definition one_block {A} (pre : JobStorage -> Prop) (m : mutex) (p : prog A) (op : M JobStorage A) : Prop :=
  forall t (f : A -> prog unit) a a', pre (mem a) -> threads a !! t = Some (Running (pbind f p)) ->
    block t a a' <-> owners a !! m = None /\
      exists r s', op (mem a) = (Ret r, s') /\ a' = mkMachine s' (owners a) (<[t := Running (f r)]> (threads a)).

Lemma one_block_quiet {A} pre m k (op : M JobStorage A) :
  (forall s, pre s -> exists r s', op s = (Ret r, s') /\ rtc quiet (k, s) (Unlock m (Done r), s')) ->
  one_block pre m (Lock m k) op.
Proof.
  intros H t f a a' Hp Ht. destruct (H (mem a) Hp) as (r & s' & Hop & Hr). apply
    (quiet_bind f) in Hr. cbn [pbind] in *.
  rewrite (section_unlock t a a' m _ (f r) s' Ht Hr). rewrite Hop. split; intros [Ho Ha]; (split; [done|]).
  - by exists r, s'.
  - by destruct Ha as (? & ? & [= <- <-] & ->).
Qed.
End Blocks.
