(* ===== verification/StorageThreads.v ===== *)
(** * The threads of the server, access by access

    The functions of [server/quitablequeue.h], [server/jobstorage.cpp] and
    [server/job.h], and the way handlers, workers, the cleanup thread and the
    broker call them, as programs of [Threads].  A reference that a [pop] may
    leave untouched is an option; sorting reads the time of each job once. *)
From S2P Require Import Prelude NullableValue Json Job QuitableQueue JobStorage Threads Atomic.

(** ** The queue *)
Definition t_popWait_locked : prog (option JobPtr) :=
  Lock mutex_
    (Loop
       (ReadContinue Guarded (fun continue_ =>
        if continue_ then
          ReadQueue Guarded (fun queue_ => if bool_decide (queue_ = []) then Wait (Done None) else Done (Some tt))
        else Done (Some tt)))
       (fun _ =>
        ReadContinue Guarded (fun continue_ =>
        if negb continue_ then Unlock mutex_ (Done None)
        else
          ReadQueue Guarded (fun queue_ =>
          match queue_ with
          | [] => Undefined
          | item :: _ => WriteQueue tail (Unlock mutex_ (Done (Some item)))
          end)))).

Definition t_popWait : prog (option JobPtr) :=
  ReadContinue Loose (fun continue_ => if negb continue_ then Done None else t_popWait_locked).

Definition t_popNoWait : prog (option JobPtr) :=
  Lock mutex_
    (ReadQueue Guarded (fun queue_ =>
     if bool_decide (queue_ = []) then Unlock mutex_ (Done None)
     else
       ReadQueue Guarded (fun queue_ =>
       match queue_ with
       | [] => Undefined
       | item :: _ => WriteQueue tail (Unlock mutex_ (Done (Some item)))
       end))).

Definition t_quit : prog unit :=
  Lock mutex_ (WriteContinue false (Notify true (Unlock mutex_ (Done tt)))).

Definition t_push_locked (item : JobPtr) : prog unit :=
  Lock mutex_ (WriteQueue (fun queue_ => queue_ ++ [item]) (Unlock mutex_ (Done tt))).
Definition t_queue_push (item : JobPtr) : prog unit := _ ← t_push_locked item; Notify false (Done tt).

Definition t_size : prog nat := ReadQueue Loose (fun queue_ => Done (length queue_)).

(** ** The storage *)
Definition t_addJob (_job : JobPtr) : prog unit :=
  Lock mapModificationMutex
    (ReadConst C_id _job (fun id => WriteMap <[id := _job]> (Unlock mapModificationMutex (Done tt)))).

Definition t_removeJob (_id : string) : prog unit :=
  Lock mapModificationMutex (WriteMap (delete _id) (Unlock mapModificationMutex (Done tt))).

(** [find], and the element that the iterator points to, without a lock: when
    the element has been erased in between, the iterator points to nothing. *)
Definition t_getJob (_id : string) : prog (result JobPtr) :=
  ReadMap Loose (fun jobMap =>
  match jobMap !! _id with
  | None => Done (Throw (OutOfRange "job is not contained in jobstorage"))
  | Some _ =>
    ReadMap Loose (fun jobMap => match jobMap !! _id with Some p => Done (Ret p) | None => Undefined end)
  end).

Definition t_storage_push (_job : JobPtr) : prog unit := _ ← t_addJob _job; t_queue_push _job.

(** ** Jobs *)
Definition t_isDone (p : JobPtr) : prog bool :=
  ReadField M_status p (fun st =>
  if bool_decide (st = FINISHED) then Done true
  else ReadField M_status p (fun st => Done (bool_decide (st = FAILED)))).

Definition t_setStatus (p : JobPtr) (_status : Status) : prog unit :=
  WriteField M_status p _status
    (done ← t_isDone p;
     if (done : bool) then Clock (fun now => WriteField M_timeFinished p now (Done tt)) else Done tt).

Definition t_setMessage (p : JobPtr) (m : string) : prog unit := WriteField M_message p m (Done tt).

Definition t_setStatistics (p : JobPtr)
  (_numPulled _numCreated _numUpdated _numDeleted _numIgnored : Z) : prog unit :=
  WriteField M_numPulled p _numPulled
    (WriteField M_numCreated p _numCreated
       (WriteField M_numUpdated p _numUpdated
          (WriteField M_numDeleted p _numDeleted (WriteField M_numIgnored p _numIgnored (Done tt))))).

(** [Job::toJsonValue] with its reads in their order. *)
Definition t_counters (p : JobPtr) (o : value) : prog value :=
  ReadField M_numCreated p (fun c =>
  ReadField M_numUpdated p (fun u =>
  ReadField M_numDeleted p (fun d =>
  ReadField M_numPulled p (fun n =>
  ReadField M_numIgnored p (fun i =>
  Done (AddMember "numIgnored" (VInt i) (AddMember "numPulled" (VInt n) (AddMember "numDeleted" (VInt d)
    (AddMember "numUpdated" (VInt u) (AddMember "numCreated" (VInt c) o)))))))))).

Definition t_request (p : JobPtr) (o : value) : prog value :=
  ReadConst C_type p (fun type =>
  match type with
  | PULL => ReadConst C_filter p (fun filter => Done (AddMember "filter" (toValue filter) o))
  | REMOVE_BY_ATTRIBUTES =>
    ReadConst C_attributeSets p (fun sets => Done (AddMember "attributeSets" (VArray
      (attributeSet_value <$> sets)) o))
  end).

Definition t_toJsonValue (p : JobPtr) : prog value :=
  ReadConst C_id p (fun id =>
  ReadConst C_timeAdded p (fun timeAdded =>
  let o := AddMember "id" (VString (c_str id)) (VObject []) in
  let o := AddMember "timeAdded" (toValue_time timeAdded) o in
  done ← t_isDone p;
  o ← (if (done : bool) then
         ReadField M_timeFinished p (fun t => Done (AddMember "timeFinished" (toValue_time t) o))
       else Done o);
  ReadConst C_type p (fun type =>
  let o := AddMember "type" (toValue (typeString type)) o in
  ReadField M_status p (fun status =>
  let o := AddMember "status" (toValue (statusString status)) o in
  ReadConst C_layerName p (fun layerName =>
  let o := AddMember "layerName" (toValue layerName) o in
  o ← t_request p o;
  ReadField M_message p (fun message =>
  let o := AddMember "message" (toValue message) o in
  done ← t_isDone p;
  if (done : bool) then t_counters p o else Done o)))))).

(** ** Loops over the map *)
Section Iteration.
Context (iteration : gmap string JobPtr -> list (string * JobPtr)).

Fixpoint t_count (l : list (string * JobPtr)) (jobStats : JobStats) : prog JobStats :=
  match l with
  | [] => Done jobStats
  | jobPair :: l => ReadField M_status jobPair.2 (fun st => t_count l (count_status st jobStats))
  end.

Definition t_getStats : prog JobStats :=
  Lock mapModificationMutex
    (ReadMap Guarded (fun jobMap =>
     jobStats ← t_count (iteration jobMap) JobStats_new;
     Unlock mapModificationMutex (Done jobStats))).

Fixpoint t_times (l : list (string * JobPtr)) : prog (list (JobPtr * Z)) :=
  match l with
  | [] => Done []
  | kv :: l => ReadConst C_timeAdded kv.2 (fun time => rest ← t_times l; Done ((kv.2, time) :: rest))
  end.

Definition time_later (x y : JobPtr * Z) : Prop := (y.2 <= x.2)%Z.
#[local] Instance time_later_dec : RelDecision time_later := fun x y => decide (y.2 <= x.2)%Z.

Definition t_getOrderedJobs : prog (list JobPtr) :=
  Lock mapModificationMutex
    (ReadMap Guarded (fun jobMap =>
     orderedJobs ← t_times (iteration jobMap);
     Unlock mapModificationMutex (Done (merge_sort time_later orderedJobs).*1))).

(** One turn of the loop of the cleanup thread, and one pass. *)
Definition t_cleanup_turn (minTime : Z) (it : string * JobPtr) : prog unit :=
  done ← t_isDone it.2;
  if (done : bool) then
    ReadField M_timeFinished it.2 (fun t =>
    if decide (t < minTime)%Z then WriteMap (delete it.1) (Done tt) else Done tt)
  else Done tt.

Fixpoint t_cleanup_loop (minTime : Z) (l : list (string * JobPtr)) : prog unit :=
  match l with
  | [] => Done tt
  | it :: l => _ ← t_cleanup_turn minTime it; t_cleanup_loop minTime l
  end.

Definition t_cleanup (maxAgeDoneJobs : Z) : prog unit :=
  Lock mapModificationMutex
    (Clock (fun now =>
     ReadMap Guarded (fun jobMap =>
     _ ← t_cleanup_loop (now - maxAgeDoneJobs * 1000000000) (iteration jobMap);
     Unlock mapModificationMutex (Done tt)))).

(** ** The threads *)

(** The cleanup thread makes [n] passes before it is told to exit. *)
Fixpoint t_cleaner (maxAgeDoneJobs : Z) (n : nat) : prog unit :=
  match n with 0 => Done tt | S n => _ ← t_cleanup maxAgeDoneJobs; t_cleaner maxAgeDoneJobs n end.

(** What a worker does to its job: whether it has to wait for the database, the
    statistics it writes on the way, and how the job ends: as FINISHED with its
    statistics, or as FAILED with a message. *)
Record stats := mkStats { s_pulled : Z; s_created : Z; s_updated : Z; s_deleted : Z; s_ignored : Z }.
Inductive ending := Finishes (s : stats) | Fails (m : string).
Record work := mkWork { waits_for_db : bool; interim : list stats; ends : ending }.

Definition t_stats (p : JobPtr) (s : stats) : prog unit :=
  t_setStatistics p (s_pulled s) (s_created s) (s_updated s) (s_deleted s) (s_ignored s).
Fixpoint t_interim (p : JobPtr) (l : list stats) : prog unit :=
  match l with [] => Done tt | s :: l => _ ← t_stats p s; t_interim p l end.

(** The accesses of [Worker::run] to a job that it has taken; layer, filter and
    attribute sets are read by [pull] and [removeByAttributes]. *)
Definition t_process (p : JobPtr) (w : work) : prog unit :=
  _ ← t_setStatus p IN_PROCESS;
  _ ← (if waits_for_db w then t_setMessage p "Waiting to aquire a database connection" else Done tt);
  _ ← t_setMessage p "";
  ReadConst C_type p (fun type =>
  ReadConst C_layerName p (fun layerName =>
  ReadConst C_id p (fun id =>
  _ ← match type with
      | PULL => ReadConst C_filter p (fun _ => Done tt)
      | REMOVE_BY_ATTRIBUTES => ReadConst C_attributeSets p (fun _ => Done tt)
      end;
  _ ← t_interim p (interim w);
  match ends w with
  | Finishes s => _ ← t_setStatus p FINISHED; t_stats p s
  | Fails m => _ ← t_setStatus p FAILED; t_setMessage p m
  end))).

(** [Worker::run]: one work for every job it takes; the thread ends when
    [popWait] has none. *)
Fixpoint t_worker (works : list work) : prog unit :=
  match works with
  | [] => Done tt
  | w :: works =>
    job ← t_popNoWait;
    job ← match job with Some p => Done (Some p) | None => t_popWait end;
    match job with
    | None => Done tt
    | Some p => _ ← t_process p w; t_worker works
    end
  end.

Fixpoint t_show (l : list JobPtr) : prog (list value) :=
  match l with [] => Done [] | p :: l => v ← t_toJsonValue p; vs ← t_show l; Done (v :: vs) end.

(** The handlers, as far as they use the storage: of a request for a new job,
    [job] being what [Job::fromString] and [setId] made of it, for a single job,
    for the list of the jobs, and for the page with the numbers of jobs. *)
Definition t_post (job : Job) : prog unit :=
  NewJob job (fun p => _ ← t_storage_push p; _ ← t_toJsonValue p; Done tt).
Definition t_get (jobId : string) : prog unit :=
  found ← t_getJob jobId;
  match found with Ret p => _ ← t_toJsonValue p; Done tt | _ => Done tt end.
Definition t_list : prog unit := l ← t_getOrderedJobs; _ ← t_show l; Done tt.
Definition t_statusPage : prog unit := _ ← t_getStats; Done tt.

(** The threads of the server: handlers, workers, the cleanup thread, and
    [Broker::stop]. *)
Inductive role :=
  | Posts (job : Job) | Gets (jobId : string) | Lists | ShowsStatus
  | Works (works : list work) | Cleans (maxAgeDoneJobs : Z) (passes : nat) | Quits.

Definition code (r : role) : prog unit :=
  match r with
  | Posts job => t_post job
  | Gets jobId => t_get jobId
  | Lists => t_list
  | ShowsStatus => t_statusPage
  | Works works => t_worker works
  | Cleans maxAgeDoneJobs passes => t_cleaner maxAgeDoneJobs passes
  | Quits => t_quit
  end.
End Iteration.

(** ** Every thread is safe *)
Section SafeCode.
Context (loose : location -> bool) (crash : bool).

Abbreviation safe := (safe loose crash).

(** The rule for code that owns nothing, needs the jobs [V] and ends without
    ownership with a value in [P]. *)
Definition safe_code {A} (V : gset JobPtr) (P : A -> gset JobPtr -> Prop) (p : prog A) : Prop :=
  forall V', V ⊆ V' -> safe p V' Free (fun a W h => h = Free /\ V' ⊆ W /\ P a W).

Definition anything {A} (_ : A) (_ : gset JobPtr) : Prop := True.

Lemma safe_code_done {A} V P (a : A) : (forall W, V ⊆ W -> P a W) -> safe_code V P (Done a).
Proof. intros H V' HV. cbn. auto. Qed.

Lemma safe_code_bind {A B} V P P' (p : prog A) (f : A -> prog B) :
  safe_code V P p -> (forall a W, V ⊆ W -> P a W -> safe_code W P' (f a)) -> safe_code V P' (p ≫= f).
Proof.
  intros Hp Hf V' HV. apply safe_bind. eapply safe_weaken; [|by apply Hp].
  intros a W h HW (-> & _ & Ha). eapply safe_weaken; [|by apply (Hf a W); [etrans|..]].
  intros b W' h HW' (-> & _ & Hb). split; [done|]. split; [by etrans|done].
Qed.

Lemma safe_code_weaken {A} V V' P (p : prog A) : V ⊆ V' -> safe_code V P p -> safe_code V' P p.
Proof. intros HV Hp W HW. apply Hp. by etrans. Qed.

Lemma safe_code_const {A} V P c p (k : ctype c -> prog A) :
  p ∈ V -> (forall v, safe_code V P (k v)) -> safe_code V P (ReadConst c p k).
Proof. intros Hp Hk V' HV. cbn. split; [by apply HV|]. intros v. by apply Hk. Qed.
Lemma safe_code_field {A} V P f p (k : mtype f -> prog A) :
  p ∈ V -> (forall v, safe_code V P (k v)) -> safe_code V P (ReadField f p k).
Proof. intros Hp Hk V' HV. cbn. split; [by apply HV|]. intros v. by apply Hk. Qed.
Lemma safe_code_write {A} V P f p v (k : prog A) : p ∈ V -> safe_code V P k -> safe_code V P (WriteField f p v k).
Proof. intros Hp Hk V' HV. cbn. split; [done|]. split; [by apply HV|]. by apply Hk. Qed.
Lemma safe_code_clock {A} V P (k : Z -> prog A) : (forall now, safe_code V P (k now)) -> safe_code V P (Clock k).
Proof. intros Hk V' HV now. by apply Hk. Qed.

(** Reads of a job under any ownership. *)
Lemma safe_isDone V h p : p ∈ V -> safe (t_isDone p) V h (fun _ W h' => h' = h /\ W = V).
Proof.
  intros Hp. split; [done|]. intros st. case_bool_decide; [done|]. cbn. split; [done|]. by intros.
Qed.

Lemma safe_popWait V :
  loose TheContinue = true -> safe_code V (fun o W => forall p, o = Some p -> p ∈ W) t_popWait.
Proof.
  intros Hl V1 HV1. split; [done|]. split; [done|]. intros b. destruct b; cbn; [|by split].
  split; [done|]. intros q V2 HV2 Hq.
  exists (fun V h => V1 ⊆ V /\ exists q, h = HeldQueue q /\ list_ok V (queue_ q)). split; [by eauto|].
  intros V3 h3 HV3 (H13 & q3 & -> & Hq3). exists q3. split; [done|].
  assert (Hexit : continue_ q3 = false \/ queue_ q3 <> [] -> exists q, HeldQueue q3 = HeldQueue q /\
    safe (if negb (continue_ q) then Unlock mutex_ (Done None) else ReadQueue Guarded (fun queue_ =>
            match queue_ with [] => Undefined | item :: _ => WriteQueue tail (Unlock mutex_ (Done (Some item))) end))
      V3 (HeldQueue q3) (fun (o : option JobPtr) W h => h = Free /\ V1 ⊆ W /\ forall p, o = Some p -> p ∈ W)).
  { intros Hx. exists q3. split; [done|]. destruct (continue_ q3) eqn:Hc; cbn.
    - exists q3. split; [done|]. destruct (queue_ q3) as [|item l] eqn:Hl3; [by destruct Hx|].
      exists q3. rewrite Hl3. split; [done|]. split; [intros p Hp; apply Hq3; by right|].
      eexists. split; [done|]. split; [done|]. split; [done|]. intros p [= <-]. apply Hq3. left.
    - exists q3. split; [done|]. by split. }
  destruct (continue_ q3) eqn:Hc; cbn.
  - exists q3. split; [done|]. case_bool_decide as Hl3; cbn.
    + exists q3. split; [done|]. intros q4 V4 HV4 Hq4. split; [done|]. split; [by etrans|]. by eauto.
    + apply Hexit. by right.
  - apply Hexit. by left.
Qed.

Lemma safe_popNoWait V : safe_code V (fun o W => forall p, o = Some p -> p ∈ W) t_popNoWait.
Proof.
  intros V1 HV1. split; [done|]. intros q V2 HV2 Hq. exists q. split; [done|]. case_bool_decide as Hl; cbn.
  - exists q. by split.
  - exists q. split; [done|]. destruct (queue_ q) as [|item l] eqn:Hl'; [done|]. exists q. rewrite Hl'. split;
      [done|].
    split; [intros p Hp; apply Hq; by right|]. eexists. split; [done|]. split; [done|]. split; [done|].
    intros p [= <-]. apply Hq. left.
Qed.

Lemma safe_quit V : safe_code V anything t_quit.
Proof. intros V1 HV1. split; [done|]. intros q V2 HV2 Hq. exists q. split; [done|]. eexists. by repeat split. Qed.

Lemma safe_storage_push V p : p ∈ V -> safe_code V anything (t_storage_push p).
Proof.
  intros Hp. apply (safe_code_bind _ anything).
  - intros V1 HV1. split; [done|]. intros jm V2 HV2 Hjm. split; [set_solver|]. intros v. exists jm. split; [done|].
    split; [|eexists; by repeat split]. intros k x [[<- <-]|[_ Hk]]%lookup_insert_Some; [set_solver|by apply (Hjm k)].
  - intros _ W HW _ V1 HV1. split; [done|]. intros q V2 HV2 Hq. exists q. split; [done|].
    split; [|eexists; by repeat split]. intros x [Hx| ->%list_elem_of_singleton]%elem_of_app; [by apply Hq|
      set_solver].
Qed.

Lemma safe_getJob V jobId :
  loose TheMap = true -> crash = true ->
  safe_code V (fun r W => forall p, r = Ret p -> p ∈ W) (t_getJob jobId).
Proof.
  intros Hl Hc V1 HV1. split; [done|]. split; [done|]. intros jm V2 HV2 Hm.
  destruct (jm !! jobId); [|by split]. split; [done|]. split; [done|]. intros jm' V3 HV3 Hm'.
  destruct (jm' !! jobId) as [p|] eqn:Hp; [|by split]. split; [done|]. split; [by etrans|].
  intros p' [= <-]. by apply (Hm' jobId).
Qed.

Lemma safe_code_isDone V p : p ∈ V -> safe_code V anything (t_isDone p).
Proof.
  intros Hp V' HV. eapply safe_weaken; [|apply safe_isDone; by apply HV].
  intros a W h _ [-> ->]. by split.
Qed.

Create HintDb code discriminated.
#[local] Hint Resolve safe_code_isDone safe_quit safe_storage_push : code.
#[local] Hint Extern 1 (_ ∈ _) => set_solver : code.

(** Accesses one after the other. *)
Ltac code_step :=
  match goal with
  | |- forall _, _ => intros ?
  | |- _ ∈ _ => set_solver
  | |- safe_code _ anything (Done _) => by apply safe_code_done
  | |- safe_code _ _ (ReadConst _ _ _) => apply safe_code_const
  | |- safe_code _ _ (ReadField _ _ _) => apply safe_code_field
  | |- safe_code _ _ (WriteField _ _ _ _) => apply safe_code_write
  | |- safe_code _ _ (Clock _) => apply safe_code_clock
  | |- safe_code _ _ (_ ≫= _) => apply (safe_code_bind _ anything)
  | |- safe_code _ anything (match ?x with _ => _ end) => destruct x
  | |- safe_code _ _ _ => solve [eauto 2 with code]
  end.
Ltac code_steps := repeat code_step.

Lemma safe_setStatus V p st : p ∈ V -> safe_code V anything (t_setStatus p st).
Proof. intros Hp. unfold t_setStatus. code_steps. Qed.
Lemma safe_setMessage V p m : p ∈ V -> safe_code V anything (t_setMessage p m).
Proof. intros Hp. unfold t_setMessage. code_steps. Qed.
Lemma safe_stats V p s : p ∈ V -> safe_code V anything (t_stats p s).
Proof. intros Hp. unfold t_stats, t_setStatistics. code_steps. Qed.
#[local] Hint Resolve safe_setStatus safe_setMessage safe_stats : code.
Lemma safe_interim l V p : p ∈ V -> safe_code V anything (t_interim p l).
Proof. revert V. induction l as [|s l IH]; intros V Hp; cbn [t_interim]; code_steps. Qed.
#[local] Hint Resolve safe_interim : code.
Lemma safe_process V p w : p ∈ V -> safe_code V anything (t_process p w).
Proof. intros Hp. unfold t_process. code_steps. Qed.
#[local] Hint Resolve safe_process : code.

Lemma safe_toJsonValue V p : p ∈ V -> safe_code V anything (t_toJsonValue p).
Proof. intros Hp. unfold t_toJsonValue, t_request, t_counters. code_steps. Qed.
#[local] Hint Resolve safe_toJsonValue : code.

Lemma safe_show l V : list_ok V l -> safe_code V anything (t_show l).
Proof.
  revert V. induction l as [|p l IH]; intros V Hl; cbn [t_show]; code_steps.
  apply IH. eapply list_ok_mono; [eassumption|]. intros q Hq. apply Hl. by right.
Qed.

Lemma safe_worker works V : loose TheContinue = true -> safe_code V anything (t_worker works).
Proof.
  intros Hl. revert V. induction works as [|w works IH]; intros V; cbn [t_worker]; [code_steps|].
  eapply safe_code_bind; [apply safe_popNoWait|]. intros o W HW Ho.
  apply (safe_code_bind _ (fun o W => forall p, o = Some p -> p ∈ W)).
  - destruct o as [p|]; [|by apply safe_popWait]. apply safe_code_done. intros W' HW' q [= <-]. by apply HW', Ho.
  - intros [p|] W' HW' Hp; code_steps.
Qed.

(** Loops over the map, which own it. *)
Section SafeIteration.
Context (iteration : gmap string JobPtr -> list (string * JobPtr)).
Context (iteration_perm : forall m, iteration m ≡ₚ map_to_list m).

Definition keys_ok (V : gset JobPtr) (l : list (string * JobPtr)) : Prop := forall kv, kv ∈ l -> kv.2 ∈ V.

Lemma iteration_ok V jm : map_ok V jm -> keys_ok V (iteration jm).
Proof. intros Hm [k p]. rewrite iteration_perm. intros H%elem_of_map_to_list. by apply (Hm k). Qed.

Lemma iteration_valid s : pointers_safe s -> forall kv, kv ∈ iteration (jobMap s) -> is_Some (heap s !! kv.2).
Proof. intros [Hm _] kv Hkv. apply valid_lookup. by apply (iteration_ok _ _ Hm). Qed.

Lemma keys_ok_cons V kv l : keys_ok V (kv :: l) -> kv.2 ∈ V /\ keys_ok V l.
Proof. intros H. split; [apply H; left|]. intros x Hx. apply H. by right. Qed.

Lemma safe_count l V h st : keys_ok V l -> safe (t_count l st) V h (fun _ W h' => h' = h /\ W = V).
Proof.
  revert st. induction l as [|kv l IH]; intros st Hl; cbn [t_count]; [by split|].
  apply keys_ok_cons in Hl as [Hp Hl]. split; [done|]. intros v. by apply IH.
Qed.

Lemma safe_times l V h : keys_ok V l -> safe (t_times l) V h (fun ts W h' => h' = h /\ W = V /\ ts.*1 = l.*2).
Proof.
  induction l as [|kv l IH]; intros Hl; cbn [t_times]; [by split|].
  apply keys_ok_cons in Hl as [Hp Hl]. split; [done|]. intros v. apply safe_bind.
  eapply safe_weaken; [|by apply IH]. intros ts W h' _ (-> & -> & Ht). split; [done|]. split; [done|].
  cbn. by f_equal.
Qed.

Lemma safe_getStats V : safe_code V anything (t_getStats iteration).
Proof.
  intros V1 HV1. split; [done|]. intros jm V2 HV2 Hm. exists jm. split; [done|]. apply safe_bind.
  eapply safe_weaken; [|apply safe_count; by apply iteration_ok]. intros st W h _ [-> ->].
  exists jm. split; [done|]. by split.
Qed.

Lemma safe_getOrderedJobs V : safe_code V (fun l W => list_ok W l) (t_getOrderedJobs iteration).
Proof.
  intros V1 HV1. split; [done|]. intros jm V2 HV2 Hm. exists jm. split; [done|]. apply safe_bind.
  eapply safe_weaken; [|apply safe_times; by apply iteration_ok]. intros ts W h _ (-> & -> & Hts).
  exists jm. split; [done|]. split; [done|]. split; [done|]. intros p Hp.
  rewrite merge_sort_Permutation, Hts in Hp. apply list_elem_of_fmap in Hp as (kv & -> & Hkv).
  by apply (iteration_ok _ _ Hm).
Qed.

Lemma safe_cleanup_loop minTime l V jm :
  keys_ok V l -> map_ok V jm ->
  safe (t_cleanup_loop minTime l) V (HeldMap jm)
    (fun _ W h => exists jm', h = HeldMap jm' /\ W = V /\ map_ok V jm').
Proof.
  revert jm. induction l as [|it l IH]; intros jm Hl Hm; cbn [t_cleanup_loop]; [by exists jm|].
  apply keys_ok_cons in Hl as [Hp Hl]. apply safe_bind. unfold t_cleanup_turn. apply safe_bind.
  eapply safe_weaken; [|by apply safe_isDone]. intros done W h _ [-> ->]. destruct done; [|by apply IH].
  split; [done|]. intros t. case_decide; [|by apply IH]. exists jm. split; [done|].
  assert (Hd : map_ok V (delete it.1 jm)) by (intros k p [_ Hk]%lookup_delete_Some; by apply (Hm k)).
  split; [done|]. by apply IH.
Qed.

Lemma safe_cleaner maxAge n V : safe_code V anything (t_cleaner iteration maxAge n).
Proof.
  revert V. induction n as [|n IH]; intros V; cbn [t_cleaner]; code_steps.
  intros V1 HV1. split; [done|]. intros jm V2 HV2 Hm now. exists jm. split; [done|]. apply safe_bind.
  eapply safe_weaken; [|apply safe_cleanup_loop; [by apply iteration_ok|done]].
  intros [] W h _ (jm' & -> & -> & Hm'). exists jm'. split; [done|]. by split.
Qed.

(** The loose reads of a role, and whether it may come to undefined behaviour. *)
Definition role_ok (r : role) : Prop :=
  match r with
  | Gets _ => loose TheMap = true /\ crash = true
  | Works _ => loose TheContinue = true
  | _ => True
  end.

Lemma safe_role r V : role_ok r -> safe_code V anything (code iteration r).
Proof.
  destruct r as [job|jobId| | |works|maxAge n|]; cbn [code role_ok]; intros Hr.
  - intros V1 HV1. split; [done|]. intros p V2 HV2 Hp.
    assert (Hc : safe_code {[p]} anything (_ ← t_storage_push p; _ ← t_toJsonValue p; Done tt)) by code_steps.
    eapply safe_weaken; [|apply Hc; set_solver]. intros [] W h _ (-> & HW & _). split; [done|]. split; [by etrans|
      done].
  - destruct Hr. eapply safe_code_bind; [by apply safe_getJob|]. intros [p|e|] W HW Hp; code_steps.
  - eapply safe_code_bind; [apply safe_getOrderedJobs|]. intros l W HW Hl. code_steps. by apply safe_show.
  - unfold t_statusPage. code_steps. apply safe_getStats.
  - by apply safe_worker.
  - apply safe_cleaner.
  - apply safe_quit.
Qed.

(** Any number of threads of any roles. *)
Definition server_threads (rs : gmap nat role) : gmap nat (prog unit) := code iteration <$> rs.

End SafeIteration.
End SafeCode.

(** ** Sections in one piece *)
Section Blocks.
Context (loose : location -> bool) (iteration : gmap string JobPtr -> list (string * JobPtr)).
Context (iteration_perm : forall m, iteration m ≡ₚ map_to_list m).

(** The section of [popWait]: it waits, or leaves with or without an item. *)
Definition wait_block : Prop :=
  forall t (f : option JobPtr -> prog unit) a a', threads a !! t = Some (Running (pbind f t_popWait_locked)) ->
    block loose t a a' <-> owners a !! mutex_ = None /\
      a' = match pop_locked (queue (mem a)) with
           | PopWaits =>
             mkMachine (mem a) (owners a) (<[t := Sleeping (pbind f t_popWait_locked)]> (threads a))
           | PopQuit => mkMachine (mem a) (owners a) (<[t := Running (f None)]> (threads a))
           | PopItem item q' =>
             mkMachine (set_queue q' (mem a)) (owners a) (<[t := Running (f (Some item))]> (threads a))
           end.

Ltac quiet_step := eapply rtc_l; [split; [reflexivity|intros ?; cbn; reflexivity]|cbn].

Lemma section_push item :
  loose TheQueue = false ->
  one_block loose (fun _ => True) mutex_ (t_push_locked item) (fun s => (Ret tt, set_queue (push item (queue s)) s)).
Proof.
  intros Hl. apply one_block_quiet. intros s _. do 2 eexists. split; [done|].
  eapply rtc_l; [split; [cbn; by rewrite Hl|done]|]. apply rtc_refl.
Qed.

Lemma section_popNoWait : loose TheQueue = false -> one_block loose
  (fun _ => True) mutex_ t_popNoWait storage_popNoWait.
Proof.
  intros Hl. apply one_block_quiet. intros [h jm [[|x l] c] n] _; unfold storage_popNoWait, popNoWait; cbn;
    do 2 eexists; (split; [done|]); quiet_step; [apply rtc_refl|]. quiet_step.
  eapply rtc_l; [split; [cbn; by rewrite Hl|done]|]. apply rtc_refl.
Qed.

Lemma section_popWait : loose TheQueue = false -> wait_block.
Proof.
  intros Hl t f [[h jm [l c] n] o ths] a' Ht. cbn in Ht. unfold pop_locked. cbn. destruct c; [destruct l as [|x l]|].
  - etrans; [eapply section_wait; [exact Ht|]|done]. cbn. do 3 quiet_step. apply rtc_refl.
  - etrans; [eapply section_unlock; [exact Ht|]|done]. cbn. do 5 quiet_step.
    eapply rtc_l; [split; [cbn; by rewrite Hl|done]|]. apply rtc_refl.
  - etrans; [eapply section_unlock; [exact Ht|]|done]. cbn. do 3 quiet_step. apply rtc_refl.
Qed.

Lemma section_addJob p :
  loose TheMap = false -> one_block loose (fun s => p ∈ valid s) mapModificationMutex (t_addJob p) (addJob p).
Proof.
  intros Hl. apply one_block_quiet. intros s [j Hj]%valid_lookup. do 2 eexists. split.
  - unfold addJob. by erewrite bind_step by (unfold deref; by rewrite Hj).
  - eapply rtc_l; [split; [done|intros now; cbn; by rewrite Hj]|].
    eapply rtc_l; [split; [cbn; by rewrite Hl|done]|]. apply rtc_refl.
Qed.

Lemma section_removeJob k :
  loose TheMap = false -> one_block loose (fun _ => True) mapModificationMutex (t_removeJob k) (removeJob k).
Proof.
  intros Hl. apply one_block_quiet. intros s _. do 2 eexists. split; [done|].
  eapply rtc_l; [split; [cbn; by rewrite Hl|done]|]. apply rtc_refl.
Qed.

#[local] Existing Instance added_later_dec.
#[local] Existing Instance time_later_dec.

Definition job_time (x : JobPtr * Job) : JobPtr * Z := (x.1, timeAdded x.2).

Lemma quietly_times l s :
  (forall kv, kv ∈ l -> is_Some (heap s !! kv.2)) ->
  exists js, derefs l s = (Ret js, s) /\ quietly loose (t_times l) s (job_time <$> js) s.
Proof.
  induction l as [|kv l IH]; intros Hl; [exists []; split; [done|apply rtc_refl]|].
  destruct (Hl kv) as [j Hj]; [left|]. destruct IH as (js & H1 & H2); [intros x Hx; apply Hl; by right|].
  exists ((kv.2, j) :: js). cbn [derefs t_times]. split.
  - erewrite bind_step by (unfold deref; by rewrite Hj). by erewrite bind_step by exact H1.
  - eapply rtc_l; [split; [done|intros now; cbn; by rewrite Hj]|]. eapply quietly_bind; [exact H2|]. apply rtc_refl.
Qed.

Lemma section_getOrderedJobs :
  one_block loose pointers_safe mapModificationMutex (t_getOrderedJobs iteration) (getOrderedJobs iteration).
Proof.
  apply one_block_quiet. intros s Hp.
  destruct (quietly_times _ s (iteration_valid iteration iteration_perm s Hp)) as (js & H1 & H2). do 2 eexists. split.
  - unfold getOrderedJobs. erewrite bind_step by done. by erewrite bind_step by exact H1.
  - quiet_step. eapply quietly_bind; [exact H2|].
    replace (merge_sort time_later (job_time <$> js)).*1 with (merge_sort added_later js).*1; [apply rtc_refl|].
    rewrite (merge_sort_fmap job_time added_later time_later) by done. by rewrite <- list_fmap_compose.
Qed.
End Blocks.

(** ** Alone, a thread computes the functions of [JobStorage] and [Job] *)
Section Alone.
Context (now : Z).

(** The thread on its own: every mutex is free, and nobody sleeps. *)
Definition solo_step {A} (x : prog A * JobStorage) : option (prog A * JobStorage) :=
  match x.1 with
  | Lock _ k | Unlock _ k | Notify _ k => Some (k, x.2)
  | p => exec now p x.2
  end.

Inductive alone {A} : prog A -> JobStorage -> A -> JobStorage -> Prop :=
  | alone_done a s : alone (Done a) s a s
  | alone_step p s p1 s1 a s' : solo_step (p, s) = Some (p1, s1) -> alone p1 s1 a s' -> alone p s a s'.

Lemma solo_bind {A B} (f : A -> prog B) p s p1 s1 :
  solo_step (p, s) = Some (p1, s1) -> solo_step (pbind f p, s) = Some (pbind f p1, s1).
Proof.
  unfold solo_step. cbn [fst snd]. intros H.
  destruct p; cbn [pbind]; try (by injection H as <- <-); try done; by apply (exec_bind now f _ _ _ _ H).
Qed.

Lemma alone_bind {A B} (f : A -> prog B) p s a s1 b s2 :
  alone p s a s1 -> alone (f a) s1 b s2 -> alone (pbind f p) s b s2.
Proof.
  intros Hp Hf. induction Hp as [a s|p s p1 s1 a s' Hs _ IH]; [done|].
  eapply alone_step; [by apply solo_bind|]. by apply IH.
Qed.

(** One more step, and the end. *)
Ltac alone_step := eapply alone_step; [unfold solo_step; cbn [fst snd exec]; reflexivity|].
Ltac alone_steps := repeat (first [apply alone_done|alone_step]).

Lemma alone_const {A} c p j (k : ctype c -> prog A) s a s' :
  heap s !! p = Some j -> alone (k (cget c j)) s a s' -> alone (ReadConst c p k) s a s'.
Proof. intros Hj Hk. eapply alone_step; [|exact Hk]. unfold solo_step. cbn. by rewrite Hj. Qed.
Lemma alone_field {A} f p j (k : mtype f -> prog A) s a s' :
  heap s !! p = Some j -> alone (k (mget f j)) s a s' -> alone (ReadField f p k) s a s'.
Proof. intros Hj Hk. eapply alone_step; [|exact Hk]. unfold solo_step. cbn. by rewrite Hj. Qed.
Lemma alone_write {A} f p j v (k : prog A) s a s' :
  heap s !! p = Some j -> alone k (update_job p (mset f v j) s) a s' -> alone (WriteField f p v k) s a s'.
Proof. intros Hj Hk. eapply alone_step; [|exact Hk]. unfold solo_step. cbn. by rewrite Hj. Qed.

Lemma update_update p j j' s : update_job p j (update_job p j' s) = update_job p j s.
Proof. unfold update_job, set_heap. cbn. by rewrite insert_insert_eq. Qed.
Lemma update_lookup p j s : heap (update_job p j s) !! p = Some j.
Proof. apply lookup_insert_eq. Qed.

Lemma alone_isDone p j s : heap s !! p = Some j -> alone (t_isDone p) s (isDone j) s.
Proof.
  intros Hj. eapply alone_field; [done|]. cbn. unfold isDone. case_bool_decide as H1.
  - rewrite bool_decide_true by auto. apply alone_done.
  - eapply alone_field; [done|]. cbn. rewrite (bool_decide_ext _ (status j = FINISHED \/ status j = FAILED))
      by naive_solver. apply alone_done.
Qed.

(** The job functions. *)
Lemma alone_setStatus p st j s :
  heap s !! p = Some j -> alone (t_setStatus p st) s tt (update_job p (setStatus st now j) s).
Proof.
  intros Hj. eapply alone_write; [done|]. set (s1 := update_job _ _ _).
  assert (H1 : heap s1 !! p = Some (with_status st j)) by apply update_lookup.
  eapply alone_bind; [by apply alone_isDone|]. unfold setStatus. cbn -[isDone].
  destruct (isDone (with_status st j)); [|apply alone_done].
  alone_step. eapply alone_write; [done|]. unfold s1. rewrite update_update. apply alone_done.
Qed.

Lemma alone_setMessage p m j s :
  heap s !! p = Some j -> alone (t_setMessage p m) s tt (update_job p (setMessage m j) s).
Proof. intros Hj. eapply alone_write; [done|]. apply alone_done. Qed.

Lemma alone_setStatistics p n1 n2 n3 n4 n5 j s :
  heap s !! p = Some j ->
  alone (t_setStatistics p n1 n2 n3 n4 n5) s tt (update_job p (setStatistics n1 n2 n3 n4 n5 j) s).
Proof.
  intros Hj. eapply alone_write; [done|]. do 4 (eapply alone_write; [apply update_lookup|]; rewrite update_update).
  apply alone_done.
Qed.

Lemma alone_request p j o s :
  heap s !! p = Some j ->
  alone (t_request p o) s
    (match type j with
     | PULL => AddMember "filter" (toValue (filter j)) o
     | REMOVE_BY_ATTRIBUTES => AddMember "attributeSets" (VArray (attributeSet_value <$> attributeSets j)) o
     end) s.
Proof.
  intros Hj. unfold t_request. eapply alone_const; [done|]. cbn [cget].
  destruct (type j); (eapply alone_const; [done|]); apply alone_done.
Qed.

Lemma alone_finish_time p j (o : value) s :
  heap s !! p = Some j ->
  alone (if isDone j then ReadField M_timeFinished p (fun t => Done (AddMember "timeFinished" (toValue_time t) o))
         else Done o) s
    (if isDone j then AddMember "timeFinished" (toValue_time (timeFinished j)) o else o) s.
Proof. intros Hj. destruct (isDone j); [|apply alone_done]. eapply alone_field; [done|]. apply alone_done. Qed.

Lemma alone_toJsonValue p j s : heap s !! p = Some j -> alone (t_toJsonValue p) s (toJsonValue j) s.
Proof.
  intros Hj. unfold t_toJsonValue, toJsonValue. do 2 (eapply alone_const; [done|]). cbn [cget].
  eapply alone_bind; [by apply alone_isDone|]. eapply alone_bind; [by apply alone_finish_time|].
  eapply alone_const; [done|]. eapply alone_field; [done|]. eapply alone_const; [done|]. cbn [cget mget].
  eapply alone_bind; [by apply alone_request|]. eapply alone_field; [done|]. cbn [mget].
  eapply alone_bind; [by apply alone_isDone|].
  replace (bool_decide (status j = FINISHED) || bool_decide (status j = FAILED)) with (isDone j)
    by (unfold isDone; by destruct (status j)).
  destruct (isDone j); [|apply alone_done]. unfold t_counters. do 5 (eapply alone_field; [done|]). apply alone_done.
Qed.

(** A thread that computes a call of [JobStorage]. *)
Definition agrees {A} (p : prog A) (m : M JobStorage A) (s : JobStorage) : Prop :=
  exists a s', m s = (Ret a, s') /\ alone p s a s'.

Lemma agrees_addJob p s : p ∈ valid s -> agrees (t_addJob p) (addJob p) s.
Proof.
  intros [j Hj]%valid_lookup. exists tt, (set_jobMap (<[id j := p]> (jobMap s)) s). split.
  - unfold addJob. by erewrite bind_step by (unfold deref; by rewrite Hj).
  - alone_step. eapply alone_const; [done|]. alone_steps.
Qed.

Lemma agrees_storage_push p s : p ∈ valid s -> agrees (t_storage_push p) (storage_push p) s.
Proof.
  intros Hp. destruct (agrees_addJob p s Hp) as (a & s1 & H1 & H2).
  exists tt, (set_queue (push p (queue s1)) s1). split.
  - unfold storage_push. by erewrite bind_step by exact H1.
  - eapply alone_bind; [exact H2|]. alone_steps.
Qed.

Lemma agrees_popNoWait s : agrees t_popNoWait storage_popNoWait s.
Proof.
  unfold agrees, storage_popNoWait, popNoWait. destruct s as [h m [[|x l] c] n]; cbn.
  - do 2 eexists. split; [done|]. do 2 alone_step. cbn. alone_steps.
  - do 2 eexists. split; [done|]. do 2 alone_step. cbn. alone_steps.
Qed.

Lemma alone_popWait o q' s : popWait (queue s) = Some (o, q') -> alone t_popWait s o (set_queue q' s).
Proof.
  unfold popWait, pop_locked, t_popWait. destruct s as [h m [l c] n]. destruct c; cbn.
  - destruct l as [|x l]; [done|]. intros [= <- <-]. do 2 alone_step. cbn. do 3 alone_step. cbn. do 2 alone_step. cbn.
    alone_steps.
  - intros [= <- <-]. alone_step. cbn. apply alone_done.
Qed.

Lemma agrees_removeJob k s : agrees (t_removeJob k) (removeJob k) s.
Proof. exists tt, (set_jobMap (delete k (jobMap s)) s). split; [done|]. alone_steps. Qed.

Lemma alone_getJob k s : alone (t_getJob k) s (getJob k s).1 s.
Proof.
  unfold getJob, t_getJob. alone_step. destruct (jobMap s !! k) as [p|] eqn:Hk; [|apply alone_done].
  alone_step. rewrite Hk. apply alone_done.
Qed.

Lemma agrees_quit s : agrees t_quit storage_quit s.
Proof. exists tt, (set_queue (quit (queue s)) s). split; [done|]. alone_steps. Qed.

Lemma agrees_size s : agrees t_size queueSize s.
Proof. exists (size (queue s)), s. split; [done|]. alone_steps. Qed.

Section AloneIteration.
Context (iteration : gmap string JobPtr -> list (string * JobPtr)).
Context (iteration_perm : forall m, iteration m ≡ₚ map_to_list m).
#[local] Abbreviation iteration_valid := (iteration_valid iteration iteration_perm).

Lemma alone_count l st s :
  (forall kv, kv ∈ l -> is_Some (heap s !! kv.2)) ->
  exists st', count_jobs l st s = (Ret st', s) /\ alone (t_count l st) s st' s.
Proof.
  revert st. induction l as [|kv l IH]; intros st Hl; [exists st; split; [done|apply alone_done]|].
  destruct (Hl kv) as [j Hj]; [left|]. destruct (IH (count_status (status j) st)) as (st' & H1 & H2).
  { intros x Hx. apply Hl. by right. }
  exists st'. cbn [count_jobs t_count]. split; [by erewrite bind_step by (unfold deref; by rewrite Hj)|].
  by eapply alone_field.
Qed.

Lemma agrees_getStats s : pointers_safe s -> agrees (t_getStats iteration) (getStats iteration) s.
Proof.
  intros Hp. destruct (alone_count _ JobStats_new s (iteration_valid s Hp)) as (st & H1 & H2).
  exists st, s. split; [done|]. do 2 alone_step. eapply alone_bind; [exact H2|]. alone_steps.
Qed.

#[local] Existing Instance added_later_dec.
#[local] Existing Instance time_later_dec.

Lemma alone_times l s :
  (forall kv, kv ∈ l -> is_Some (heap s !! kv.2)) ->
  exists js, derefs l s = (Ret js, s) /\ alone (t_times l) s (job_time <$> js) s.
Proof.
  induction l as [|kv l IH]; intros Hl; [exists []; split; [done|apply alone_done]|].
  destruct (Hl kv) as [j Hj]; [left|]. destruct IH as (js & H1 & H2); [intros x Hx; apply Hl; by right|].
  exists ((kv.2, j) :: js). cbn [derefs t_times]. split.
  - erewrite bind_step by (unfold deref; by rewrite Hj). by erewrite bind_step by exact H1.
  - eapply alone_const; [done|]. eapply alone_bind; [exact H2|]. apply alone_done.
Qed.

Lemma agrees_getOrderedJobs s : pointers_safe s -> agrees (t_getOrderedJobs iteration) (getOrderedJobs iteration) s.
Proof.
  intros Hp. destruct (alone_times _ s (iteration_valid s Hp)) as (js & H1 & H2). eexists _, s. split.
  - unfold getOrderedJobs. erewrite bind_step by done. by erewrite bind_step by exact H1.
  - do 2 alone_step. eapply alone_bind; [exact H2|]. alone_step.
    replace (merge_sort time_later (job_time <$> js)).*1 with (merge_sort added_later js).*1; [apply alone_done|].
    rewrite (merge_sort_fmap job_time added_later time_later) by done. by rewrite <- list_fmap_compose.
Qed.

Lemma alone_cleanup_loop minTime l s :
  (forall kv, kv ∈ l -> is_Some (heap s !! kv.2)) ->
  exists s', foreach l (cleanup_turn minTime) s = (Ret tt, s') /\ alone (t_cleanup_loop minTime l) s tt s'.
Proof.
  revert s. induction l as [|kv l IH]; intros s Hl; [exists s; split; [done|apply alone_done]|].
  destruct (Hl kv) as [j Hj]; [left|].
  assert (Hturn : exists s1, cleanup_turn minTime kv s = (Ret tt, s1) /\ heap s1 = heap s /\
            alone (t_cleanup_turn minTime kv) s tt s1).
  { unfold cleanup_turn, t_cleanup_turn. erewrite bind_step by (unfold deref; by rewrite Hj).
    destruct (isDone j) eqn:Hd; [destruct (decide (timeFinished j < minTime)%Z) eqn:Ht|].
    - eexists. split; [done|]. split; [done|]. eapply alone_bind; [by apply alone_isDone|]. rewrite Hd.
      eapply alone_field; [done|]. cbn [mget]. rewrite Ht. alone_steps.
    - eexists. split; [done|]. split; [done|]. eapply alone_bind; [by apply alone_isDone|]. rewrite Hd.
      eapply alone_field; [done|]. cbn [mget]. rewrite Ht. alone_steps.
    - eexists. split; [done|]. split; [done|]. eapply alone_bind; [by apply alone_isDone|].
        rewrite Hd. apply alone_done. }
  destruct Hturn as (s1 & H1 & Hh & H2). destruct (IH s1) as (s2 & H3 & H4).
  { intros x Hx. rewrite Hh. apply Hl. by right. }
  exists s2. cbn [foreach t_cleanup_loop]. split; [by erewrite bind_step by exact H1|]. by eapply alone_bind.
Qed.

Lemma agrees_cleanup s :
  pointers_safe s -> agrees (t_cleanup iteration (maxAgeDoneJobs s)) (cleanup iteration now) s.
Proof.
  intros Hp. destruct (alone_cleanup_loop (now - maxAgeDoneJobs s * 1000000000) _ s (iteration_valid s Hp)) as
    (s' & H1 & H2).
  exists tt, s'. split; [done|]. do 3 alone_step. eapply alone_bind; [exact H2|]. alone_steps.
Qed.
End AloneIteration.
End Alone.

(** ** The server *)
Definition is_get (r : role) : bool := match r with Gets _ => true | _ => false end.
Definition has_get (rs : gmap nat role) : bool := bool_decide (map_Exists (fun _ r => is_get r = true) rs).
Definition role_loose (rs : gmap nat role) (l : location) : bool :=
  match l with TheMap => has_get rs | TheContinue => true | _ => false end.

Section Server.
Context (iteration : gmap string JobPtr -> list (string * JobPtr)).
Context (iteration_perm : forall m, iteration m ≡ₚ map_to_list m).

(** A thread comes to undefined behaviour only when it serves a request for a
    single job. *)
Definition role_crash (rs : gmap nat role) (t : nat) : bool := match rs !! t with Some r => is_get r | None => false end.

Lemma role_crash_get rs t : role_crash rs t = true -> exists jobId, rs !! t = Some (Gets jobId).
Proof. unfold role_crash. destruct (rs !! t) as [[]|]; try done. by eexists. Qed.

Lemma server_safe s rs :
  pointers_safe s -> threads_safe (role_loose rs) (role_crash rs) s (server_threads iteration rs).
Proof.
  intros Hp. split; [done|]. intros t p Ht. unfold server_threads in Ht. rewrite lookup_fmap in Ht.
  apply fmap_Some in Ht as (r & Ht & ->).
  assert (Hr : role_ok (role_loose rs) (role_crash rs t) r).
  { unfold role_crash. rewrite Ht. destruct r as [job|jobId| | |works|maxAge n|]; cbn; try done.
    split; [|done]. apply bool_decide_eq_true. by exists t, (Gets jobId). }
  eapply safe_weaken; [|by apply (safe_role _ _ iteration iteration_perm r (valid s) Hr)].
  by intros a W h _ [-> _].
Qed.

Lemma server_machine_ok s rs M :
  pointers_safe s -> reachable s (server_threads iteration rs) M -> machine_ok (role_loose rs) (role_crash rs) M.
Proof. intros Hp. apply reachable_ok. by apply server_safe. Qed.

(** The sections that nobody interrupts, with the functions they are. *)
Definition whole_sections (rs : gmap nat role) : Prop :=
  (forall item, one_block (role_loose rs) (fun _ => True) mutex_ (t_push_locked item)
     (fun s => (Ret tt, set_queue (push item (queue s)) s))) /\
  one_block (role_loose rs) (fun _ => True) mutex_ t_popNoWait storage_popNoWait /\
  wait_block (role_loose rs) /\
  one_block (role_loose rs) pointers_safe mapModificationMutex (t_getOrderedJobs iteration)
    (getOrderedJobs iteration) /\
  (has_get rs = false ->
   (forall p, one_block (role_loose rs) (fun s => p ∈ valid s) mapModificationMutex (t_addJob p) (addJob p)) /\
   (forall k, one_block (role_loose rs) (fun _ => True) mapModificationMutex (t_removeJob k) (removeJob k))).

Lemma section_blocks rs : whole_sections rs.
Proof.
  split; [intros; by apply section_push|]. split; [by apply section_popNoWait|]. split; [by apply section_popWait|].
  split; [by apply section_getOrderedJobs|]. intros Hg.
  split; intros; [by apply section_addJob|by apply section_removeJob].
Qed.

(** [C17] The data races of the storage, for any number of handlers, workers,
    cleanup threads and calls of [quit] that run interleaved access by access:
    the queue never races, the map only when a request asks for a single job,
    and otherwise there are just [continue_], which [popWait] reads before it
    locks, and those fields of jobs that change after the job was queued. *)
Theorem storage_races s rs M l :
  pointers_safe s -> reachable s (server_threads iteration rs) M -> race M l ->
  match l with
  | TheMap => exists t jobId, rs !! t = Some (Gets jobId)
  | TheQueue | JobConst _ _ => False
  | TheContinue | JobField _ _ => True
  end.
Proof.
  intros Hp Hr Hrace. destruct (race_loose _ _ M l
    (server_machine_ok s rs M Hp Hr) Hrace) as [[H1 H2]|(p & f & ->)]; [|done].
  destruct l; try done. cbn in H2. apply bool_decide_eq_true in H2 as (t & r & Ht & Hg).
  destruct r; try done. by exists t, jobId.
Qed.

(** [C16] No deadlock, and no undefined behaviour other than the data races of
    [storage_races].  In every state that the threads reach, a thread that is not
    at its end and does not sleep in [cond_.wait] can itself go on, unless it waits
    at a mutex that is locked; then the owner of that mutex can itself go on.  No
    thread ends or sleeps with a mutex, or holds two; every pointer of map and
    queue leads to a job; [front] is never called on an empty queue.  The
    exception is a request for a single job, whose job is erased while the iterator
    is in use: every thread at an undefined behaviour serves such a request. *)
Theorem storage_progress s rs M :
  pointers_safe s -> reachable s (server_threads iteration rs) M ->
  pointers_safe (mem M) /\
  forall t ts, threads M !! t = Some ts ->
    (crashed ts = true -> exists jobId, rs !! t = Some (Gets jobId)) /\
    (finished ts = true \/ asleep ts = true -> forall m, owners M !! m <> Some t) /\
    (owners M !! mapModificationMutex = Some t -> owners M !! mutex_ <> Some t) /\
    (finished ts = true \/ asleep ts = true \/ crashed ts = true \/
     (exists M', step_of t M M') \/ waits_for_owner M ts).
Proof.
  intros Hp Hr. pose proof (server_machine_ok s rs M Hp Hr) as HM. pose proof HM as [Hpm H1 _ Hth].
  split; [done|]. intros t ts Ht. pose proof (Hth t ts Ht) as Hok. split; [|split; [|split; [apply H1|]]].
  - intros Hc. destruct ts as [[]|]; try done. destruct Hok as [Hg _].
    by apply role_crash_get.
  - intros Hf m. apply holding_Free. destruct ts as [p|p]; [|by destruct Hok].
    destruct Hf as [Hf|]; [|done]. by destruct p.
  - destruct (finished ts) eqn:Hf; [by left|right]. destruct (asleep ts) eqn:Ha; [by left|right].
    destruct (crashed ts) eqn:Hc; [by left|right]. by eapply progress.
Qed.

(** [C18] Critical sections are atomic where their accesses allow it.  Every state
    is reached by blocks, in which a thread makes accesses that nobody else sees or
    changes and then one other access, followed by movers: accesses of threads that
    own a mutex and are in the middle of a block.  The jobs are the same as after
    the blocks, so is map or queue when its mutex is free, and without a locked
    mutex so is the whole state.  The sections of [push], [popNoWait], [popWait] (up
    to its [wait] or its end) and [getOrderedJobs] are one block each, as are those
    of [addJob] and [removeJob] when no request asks for a single job, and do just
    what the function of the other files does.  The sections of [cleanup],
    [getStats] and [quit], which read fields of jobs and write [continue_], are not
    among them. *)
Theorem sections_atomic s rs M :
  pointers_safe s -> reachable s (server_threads iteration rs) M ->
  (exists a, rtc (any_block (role_loose rs)) (start s (server_threads iteration rs)) a /\
     rtc (some_mover (role_loose rs)) a M /\ heap (mem M) = heap (mem a) /\
     (forall m, owners M !! m = None -> part_eq m (mem M) (mem a)) /\ (owners M = ∅ -> a = M)) /\
  whole_sections rs.
Proof.
  intros Hp Hr. split; [|by apply section_blocks].
  assert (H0 : machine_ok (role_loose rs) (role_crash rs) (start s (server_threads iteration rs)))
    by (by apply (server_machine_ok s); [|apply rtc_refl]).
  destruct (steps_as_blocks _ _ _ M H0 Hr) as (a & Ha & Hb & Hm). exists a. split; [done|]. split; [done|].
  split; [by eapply movers_heap|]. split; [|by eapply movers_free].
  intros m Ho. by eapply movers_part.
Qed.

(** On its own, a thread computes exactly the functions that the other
    files use for the same code: every operation of the storage and of its
    queue, one pass of the cleanup, the setters of a job and its JSON form. *)
Theorem operations_agree now s :
  pointers_safe s ->
  (forall p, p ∈ valid s -> agrees now (t_addJob p) (addJob p) s /\ agrees now (t_storage_push p)
    (storage_push p) s) /\
  (forall k, agrees now (t_removeJob k) (removeJob k) s /\ alone now (t_getJob k) s (getJob k s).1 s) /\
  agrees now t_popNoWait storage_popNoWait s /\ agrees now t_quit storage_quit s /\ agrees now t_size queueSize s /\
  (forall o q', popWait (queue s) = Some (o, q') -> alone now t_popWait s o (set_queue q' s)) /\
  agrees now (t_getStats iteration) (getStats iteration) s /\
  agrees now (t_getOrderedJobs iteration) (getOrderedJobs iteration) s /\
  agrees now (t_cleanup iteration (maxAgeDoneJobs s)) (cleanup iteration now) s /\
  (forall p j, heap s !! p = Some j ->
     (forall st, alone now (t_setStatus p st) s tt (update_job p (setStatus st now j) s)) /\
     (forall m, alone now (t_setMessage p m) s tt (update_job p (setMessage m j) s)) /\
     (forall n1 n2 n3 n4 n5, alone now (t_setStatistics p n1 n2 n3 n4 n5) s tt
        (update_job p (setStatistics n1 n2 n3 n4 n5 j) s)) /\
     alone now (t_toJsonValue p) s (toJsonValue j) s).
Proof.
  intros Hp. split; [intros p Hv; split; [by apply agrees_addJob|by apply agrees_storage_push]|].
  split; [intros k; split; [apply agrees_removeJob|apply alone_getJob]|]. split; [apply agrees_popNoWait|].
  split; [apply agrees_quit|]. split; [apply agrees_size|].
  split; [intros o q'; apply alone_popWait|]. split; [by apply agrees_getStats|].
  split; [by apply agrees_getOrderedJobs|]. split; [by apply agrees_cleanup|]. intros p j Hj.
  split; [intros; by apply alone_setStatus|]. split; [intros; by apply alone_setMessage|].
  split; [intros; by apply alone_setStatistics|by apply alone_toJsonValue].
Qed.
End Server.

(** ** Where the server races *)
Module ThreadsExample.
Definition job_of (st : Status) (k : string) : Job :=
  mkJob REMOVE_BY_ATTRIBUTES "" "africa" "" k st 0 0 [] 0 0 0 0 0.
Definition empty : JobStorage := JobStorage_new 60.
(** A job that was done long ago, and one that waits. *)
Definition storage (st : Status) (q : list JobPtr) : JobStorage :=
  mkJobStorage {[0 := job_of st "a"]} {["a" := 0]} (mkQueue q true) 60.
Definition now : Z := 1000000000000%Z.

Definition run (rs : gmap nat role) (s : JobStorage) (ts : list nat) : machine :=
  default (start s (server_threads map_to_list rs)) (schedule now ts (start s (server_threads map_to_list rs))).

Lemma run_reachable rs s ts : reachable s (server_threads map_to_list rs) (run rs s ts).
Proof.
  unfold reachable, run. destruct (schedule _ _ _) as [M|] eqn:Hs; [|apply rtc_refl]. by eapply schedule_steps.
Qed.

Lemma empty_ok : pointers_safe empty.
Proof.
  split; [intros k p Hk; cbn in Hk; by rewrite lookup_empty in Hk|]. intros p Hp. by apply not_elem_of_nil in Hp.
Qed.
Lemma storage_ok st q : list_ok {[0]} q -> pointers_safe (storage st q).
Proof.
  intros Hq. unfold pointers_safe, valid. cbn [heap jobMap queue queue_ storage]. rewrite dom_singleton_L.
  split; [|done]. intros k p Hk. apply lookup_singleton_Some in Hk as [_ <-]. set_solver.
Qed.

(** A request for a single job while another request adds a job. *)
Definition roles_map : gmap nat role := {[0 := Posts (job_of QUEUED "b"); 1 := Gets "a"]}.
Definition M_map : machine := run roles_map empty [0; 0; 0].
Lemma map_races : race M_map TheMap.
Proof. apply (access_race M_map 0 1 TheMap true false Guarded Loose); [done|vm_compute; reflexivity..]. Qed.

(** The broker tells a queue to quit while a worker looks at [continue_]. *)
Definition roles_quit : gmap nat role := {[0 := Quits; 1 := Works []; 2 := Works [mkWork false [] (Fails "")]]}.
Definition M_quit : machine := run roles_quit empty [2; 2; 2; 0].
Lemma continue_races : race M_quit TheContinue.
Proof. apply (access_race M_quit 0 2 TheContinue true false Guarded Loose); [done|vm_compute; reflexivity..]. Qed.

(** The cleanup thread erases a job between the two accesses of [getJob]. *)
Definition roles_erase : gmap nat role := {[0 := Cleans 60 1; 1 := Gets "a"]}.
Definition M_erase : machine := run roles_erase (storage FINISHED []) [1; 0; 0; 0; 0; 0; 0; 0; 1].
Lemma erase_crashes : crashed <$> threads M_erase !! 1 = Some true.
Proof. vm_compute. reflexivity. Qed.

(** A removal that counts [d] rows, up to [setStatus], and to its end. *)
Definition roles_remove (d : Z) : gmap nat role := {[0 := Works [mkWork false [] (Finishes (mkStats 0 0 0 d 0))]]}.
Definition to_status : list nat := replicate 17 0.
Definition M_finished (d : Z) : machine := run (roles_remove d) (storage QUEUED [0]) to_status.
Definition M_counted (d : Z) : machine := default (M_finished d) (schedule now (replicate 5 0) (M_finished d)).
Definition seen (M : machine) : option (Status * Z) := (fun j => (status j, numDeleted j)) <$> heap (mem M) !! 0.
Lemma seen_finished d : seen (M_finished d) = Some (FINISHED, 0%Z).
Proof. vm_compute. reflexivity. Qed.
Lemma seen_counted d : seen (M_counted d) = Some (FINISHED, d).
Proof. vm_compute. reflexivity. Qed.
Lemma counts d : rtc any_step (M_finished d) (M_counted d).
Proof.
  unfold M_counted. destruct (schedule now (replicate 5 0) _) as [M|] eqn:Hs; [|apply rtc_refl].
  by eapply schedule_steps.
Qed.
Lemma seen_inv M st n : seen M = Some (st, n) -> exists j, heap
  (mem M) !! 0 = Some j /\ status j = st /\ numDeleted j = n.
Proof. unfold seen. intros (j & Hj & [= -> ->])%fmap_Some. by exists j. Qed.
End ThreadsExample.

(** [C37] [getJob] reads the map and the element it has found without the mutex:
    the cleanup thread can erase that element in between, and the handler of a
    request for a single job uses an iterator to nothing. *)
Theorem getJob_after_erase :
  exists s M, pointers_safe s /\
    reachable s (server_threads map_to_list {[0 := Cleans 60 1; 1 := Gets "a"]}) M /\
    race (ThreadsExample.run {[0 := Cleans 60 1; 1 := Gets "a"]} s [1; 0; 0; 0; 0; 0]) TheMap /\
    crashed <$> threads M !! 1 = Some true.
Proof.
  exists (ThreadsExample.storage FINISHED []), ThreadsExample.M_erase.
  split; [apply ThreadsExample.storage_ok; intros p Hp; by apply not_elem_of_nil in Hp|].
  split; [apply ThreadsExample.run_reachable|]. split; [|exact ThreadsExample.erase_crashes].
  apply (access_race _ 0 1 TheMap true false Guarded Loose); [done|vm_compute; reflexivity..].
Qed.

(** [C38] A worker writes FINISHED before the statistics: a request in between
    shows a removal that is finished and has deleted nothing, whatever number of
    rows it has deleted and will show a moment later. *)
Theorem finished_before_counted d :
  exists s M M' j j', pointers_safe s /\
    reachable s (server_threads map_to_list {[0 := Works [mkWork false [] (Finishes (mkStats 0 0 0 d 0))]]}) M /\
    heap (mem M) !! 0 = Some j /\ status j = FINISHED /\ numDeleted j = 0%Z /\
    alone 0 (t_toJsonValue 0) (mem M) (toJsonValue j) (mem M) /\
    rtc any_step M M' /\ heap (mem M') !! 0 = Some j' /\ status j' = FINISHED /\ numDeleted j' = d.
Proof.
  destruct (ThreadsExample.seen_inv _ _ _ (ThreadsExample.seen_finished d)) as (j & Hj & H1 & H2).
  destruct (ThreadsExample.seen_inv _ _ _ (ThreadsExample.seen_counted d)) as (j' & Hj' & H3 & H4).
  exists (ThreadsExample.storage QUEUED [0]), (ThreadsExample.M_finished d), (ThreadsExample.M_counted d), j, j'.
  split; [apply ThreadsExample.storage_ok; intros p ->%list_elem_of_singleton; set_solver|].
  split; [exact (ThreadsExample.run_reachable (ThreadsExample.roles_remove d) _ _)|].
  split; [exact Hj|]. split; [exact H1|]. split; [exact H2|]. split; [by apply alone_toJsonValue|].
  split; [apply ThreadsExample.counts|]. split; [exact Hj'|]. by split.
Qed.

Lemma storage_races_witness :
  race ThreadsExample.M_map TheMap /\
  (exists t jobId, ThreadsExample.roles_map !! t = Some (Gets jobId)) /\
  race ThreadsExample.M_quit TheContinue.
Proof.
  split; [exact ThreadsExample.map_races|]. split; [|exact ThreadsExample.continue_races].
  exact (storage_races map_to_list (fun m => reflexivity _) ThreadsExample.empty ThreadsExample.roles_map
    ThreadsExample.M_map TheMap ThreadsExample.empty_ok
    (ThreadsExample.run_reachable ThreadsExample.roles_map _ _) ThreadsExample.map_races).
Defined.

Lemma storage_progress_witness :
  pointers_safe (mem ThreadsExample.M_quit) /\
  forall ts, threads ThreadsExample.M_quit !! 2 = Some ts ->
    finished ts = true \/ asleep ts = true \/ crashed ts = true \/
    (exists M', step_of 2 ThreadsExample.M_quit M') \/ waits_for_owner ThreadsExample.M_quit ts.
Proof.
  destruct (storage_progress map_to_list (fun m => reflexivity _) ThreadsExample.empty ThreadsExample.roles_quit
    ThreadsExample.M_quit ThreadsExample.empty_ok (ThreadsExample.run_reachable ThreadsExample.roles_quit _ _))
    as [Hp Hth].
  split; [exact Hp|]. intros ts Hts. exact (proj2 (proj2 (proj2 (Hth 2 ts Hts)))).
Defined.

Lemma sections_atomic_witness :
  (exists a, rtc (any_block (role_loose ThreadsExample.roles_map))
               (start ThreadsExample.empty (server_threads map_to_list ThreadsExample.roles_map)) a /\
     heap (mem ThreadsExample.M_map) = heap (mem a)) /\
  one_block (role_loose ThreadsExample.roles_map) (fun _ => True) mutex_ t_popNoWait storage_popNoWait.
Proof.
  destruct (sections_atomic map_to_list (fun m => reflexivity _) ThreadsExample.empty ThreadsExample.roles_map
    ThreadsExample.M_map ThreadsExample.empty_ok (ThreadsExample.run_reachable ThreadsExample.roles_map _ _))
    as [(a & Ha & _ & Hh & _) (_ & Hb & _)].
  split; [exists a; split; [exact Ha|exact Hh]|exact Hb].
Defined.

Lemma operations_agree_witness :
  agrees 0 t_popNoWait storage_popNoWait (ThreadsExample.storage QUEUED [0]) /\
  alone 0 (t_toJsonValue 0) (ThreadsExample.storage QUEUED [0]) (toJsonValue (ThreadsExample.job_of QUEUED "a"))
    (ThreadsExample.storage QUEUED [0]).
Proof.
  assert (Hp : pointers_safe (ThreadsExample.storage QUEUED [0])).
  { apply ThreadsExample.storage_ok. intros p ->%list_elem_of_singleton. set_solver. }
  destruct (operations_agree map_to_list (fun m => reflexivity _) 0 _ Hp)
    as (_ & _ & Hpop & _ & _ & _ & _ & _ & _ & Hj).
  split; [exact Hpop|]. exact (proj2 (proj2 (proj2 (Hj 0 _ eq_refl)))).
Defined.
