(* ===== verification/Lifetime.v ===== *)
(** * Who holds the storage, and who destroys it

    The job storage is owned by shared pointers: [Broker::jobs], the member of
    every [Worker], and for a moment the local variable of a handler, which locks
    the weak pointer that listener, factory and handler pass on
    ([server/broker.cpp], [server/worker.cpp], [server/baselistener.h],
    [server/http/]).  The thread that drops the last shared pointer runs the
    destructor.  This file follows the control block from the constructor of the
    broker to its destructor; what the destructor does is in [CleanupThread].

    Poco runs every request in a thread of its own, and its [stop] does not wait
    for them. *)
From S2P Require Import Prelude QuitableQueue JobStorage CleanupThread.

(** ** Threads *)
Inductive thread := Main | WorkerThread (n : nat) | RequestThread (n : nat).
#[export] Instance thread_eq_dec : EqDecision thread.
Proof. solve_decision. Defined.

(** The main thread, from [Broker::run] through [Broker::stop] to the end of
    [~Broker]; an exception in [run] leads to [stop] as well. *)
Inductive MainPc := Starting | Serving | ListenersStopped | JobsQuit | WorkersJoined | BrokerGone.
Inductive WorkerPc := InRun | Ended.
(** A handler: created, after [lock()] with a pointer, after [lock()] without
    one, and behind [handleRequest]. *)
Inductive RequestPc := Created | Using | Refused | Answered.
#[export] Instance MainPc_eq_dec : EqDecision MainPc.
Proof. solve_decision. Defined.
#[export] Instance WorkerPc_eq_dec : EqDecision WorkerPc.
Proof. solve_decision. Defined.
#[export] Instance RequestPc_eq_dec : EqDecision RequestPc.
Proof. solve_decision. Defined.

(** A weak pointer is set or null; there is one control block only. *)
Record Request := mkRequest { weak_jobs : bool; request_pc : RequestPc }.
#[export] Instance Request_eq_dec : EqDecision Request.
Proof. solve_decision. Defined.

Record Process := mkProcess {
  (** The number of shared pointers, and who destroyed the storage. *)
  use_count : nat;
  destroyed_by : option thread;
  main_pc : MainPc;
  (** [BaseListener::jobs], the factory's copy, and whether the HTTP server runs. *)
  listener_jobs : bool;
  factory_jobs : bool;
  accepting : bool;
  workers : gmap nat WorkerPc;
  requests : gmap nat Request
}.

(** ** Shared and weak pointers *)

(** The copy of a shared pointer, and the end of one in thread [t]. *)
Definition copy_pointer (P : Process) : Process :=
  mkProcess (S (use_count P)) (destroyed_by P) (main_pc P) (listener_jobs P) (factory_jobs P) (accepting P)
    (workers P) (requests P).
Definition drop_pointer (t : thread) (P : Process) : Process :=
  mkProcess (pred (use_count P)) (if decide (use_count P = 1) then Some t else destroyed_by P) (main_pc P)
    (listener_jobs P) (factory_jobs P) (accepting P) (workers P) (requests P).
(** [std::weak_ptr::lock()]. *)
Definition lock_pointer (weak : bool) (P : Process) : bool * Process :=
  if weak && negb (bool_decide (use_count P = 0)) then (true, copy_pointer P) else (false, P).

Definition set_main (pc : MainPc) (P : Process) : Process :=
  mkProcess (use_count P) (destroyed_by P) pc (listener_jobs P) (factory_jobs P) (accepting P) (workers P) (requests P).
Definition set_worker (n : nat) (pc : WorkerPc) (P : Process) : Process :=
  mkProcess (use_count P) (destroyed_by P) (main_pc P) (listener_jobs P) (factory_jobs P) (accepting P)
    (<[n := pc]> (workers P)) (requests P).
Definition set_request (n : nat) (r : Request) (P : Process) : Process :=
  mkProcess (use_count P) (destroyed_by P) (main_pc P) (listener_jobs P) (factory_jobs P) (accepting P)
    (workers P) (<[n := r]> (requests P)).
Definition set_listener (listener factory run : bool) (P : Process) : Process :=
  mkProcess (use_count P) (destroyed_by P) (main_pc P) listener factory run (workers P) (requests P).

(** ** The steps *)

(** After [Broker::Broker] and [addListener], which sets the weak pointer of the
    listener: [std::make_shared] leaves the pointer of the broker. *)
Definition process_new : Process := mkProcess 1 None Starting true false false ∅ ∅.

(** [new Worker(configuration, jobs)] and its thread; the thread ends with the
    destructor of the worker. *)
Definition start_worker (n : nat) (P : Process) : Process := set_worker n InRun (copy_pointer P).
Definition end_worker (n : nat) (P : Process) : Process := drop_pointer (WorkerThread n) (set_worker n Ended P).

(** [Listener::run] hands its pointer to the factory and starts the server. *)
Definition run_listener (P : Process) : Process :=
  set_main Serving (set_listener (listener_jobs P) (listener_jobs P) true P).
Definition stop_listener (P : Process) : Process :=
  set_main ListenersStopped (set_listener (listener_jobs P) (factory_jobs P) false P).

(** [~Broker] destroys its member [jobs]. *)
Definition end_broker (P : Process) : Process := drop_pointer Main (set_main BrokerGone P).

(** The factory creates a handler with its pointer, which locks it, works with
    the storage, and drops the pointer at the end of the block. *)
Definition create_handler (n : nat) (P : Process) : Process := set_request n (mkRequest (factory_jobs P) Created) P.
Definition lock_jobs (n : nat) (r : Request) (P : Process) : Process :=
  let '(locked, P) := lock_pointer (weak_jobs r) P in
  set_request n (mkRequest (weak_jobs r) (if locked then Using else Refused)) P.
Definition end_block (n : nat) (r : Request) (P : Process) : Process :=
  drop_pointer (RequestThread n) (set_request n (mkRequest (weak_jobs r) Answered) P).

Inductive pstep (P : Process) : Process -> Prop :=
  | p_start_worker n : main_pc P = Starting -> workers P !! n = None -> pstep P (start_worker n P)
  | p_run_listener : main_pc P = Starting -> pstep P (run_listener P)
  | p_stop_listener : main_pc P = Starting \/ main_pc P = Serving -> pstep P (stop_listener P)
  | p_quit : main_pc P = ListenersStopped -> pstep P (set_main JobsQuit P)
  (** [join] returns when the threads have ended. *)
  | p_join : main_pc P = JobsQuit -> (forall n, workers P !! n <> Some InRun) -> pstep P (set_main WorkersJoined P)
  | p_end_broker : main_pc P = WorkersJoined -> pstep P (end_broker P)
  | p_end_worker n : workers P !! n = Some InRun -> pstep P (end_worker n P)
  (** Requests; some handlers never ask for the storage. *)
  | p_request n : accepting P = true -> requests P !! n = None -> pstep P (create_handler n P)
  | p_lock n r : requests P !! n = Some r -> request_pc r = Created -> pstep P (lock_jobs n r P)
  | p_unlocked n r : requests P !! n = Some r -> request_pc r = Created \/ request_pc r = Refused ->
      pstep P (set_request n (mkRequest (weak_jobs r) Answered) P)
  | p_end_block n r : requests P !! n = Some r -> request_pc r = Using -> pstep P (end_block n r P).

Definition process_reachable : Process -> Prop := rtc pstep process_new.

(** ** The invariant *)
Record process_ok (P : Process) : Prop := {
  (** The count is that of the holders. *)
  pk_count : use_count P = (if decide (main_pc P = BrokerGone) then 0 else 1) +
               count_value InRun (workers P) + count_value Using (request_pc <$> requests P);
  pk_destroyed : is_Some (destroyed_by P) <-> use_count P = 0;
  (** Workers are joined before the broker goes. *)
  pk_workers : main_pc P = WorkersJoined \/ main_pc P = BrokerGone -> forall n, workers P !! n <> Some InRun;
  (** Whoever may receive a request has got the pointer. *)
  pk_listener : listener_jobs P = true;
  pk_factory : accepting P = true -> factory_jobs P = true;
  pk_requests : forall n r, requests P !! n = Some r -> weak_jobs r = true;
  (** Before the broker goes, nobody else can have destroyed the storage. *)
  pk_by : forall t, destroyed_by P = Some t -> main_pc P = BrokerGone /\ forall n, t <> WorkerThread n
}.

Lemma process_new_ok : process_ok process_new.
Proof.
  split; cbn; try done.
Qed.

(** The requests of a state, as far as the count is concerned. *)
Lemma requests_insert n r P : request_pc <$> <[n := r]> (requests P) = <[n := request_pc r]> (request_pc <$> requests P).
Proof. apply fmap_insert. Qed.

Lemma requests_lookup n r P : requests P !! n = Some r -> (request_pc <$> requests P) !! n = Some (request_pc r).
Proof. intros H. by rewrite lookup_fmap, H. Qed.

(** The count when a request goes from one place to another. *)
Lemma count_request n r r' P :
  requests P !! n = Some r ->
  count_value Using (request_pc <$> <[n := r']> (requests P)) + (if decide (request_pc r = Using) then 1 else 0) =
  count_value Using (request_pc <$> requests P) + (if decide (request_pc r' = Using) then 1 else 0).
Proof. intros H. rewrite requests_insert. apply count_value_insert. by apply requests_lookup. Qed.

(** A request that holds nothing before and after. *)
Lemma set_request_ok n r' P :
  process_ok P -> weak_jobs r' = true -> request_pc r' <> Using ->
  (forall r, requests P !! n = Some r -> request_pc r <> Using) -> process_ok (set_request n r' P).
Proof.
  intros [Hc Hd Hw Hl Hf Hr Hb] Hw' Hu Ho. split; cbn; try done.
  - rewrite Hc. f_equal. destruct (requests P !! n) as [r|] eqn:Hn.
    + pose proof (count_request n r r' P Hn) as E. rewrite !decide_False in E by auto. lia.
    + rewrite requests_insert, count_value_new by (by rewrite lookup_fmap, Hn). by rewrite decide_False.
  - intros m r [[_ <-]|[_ Hm]]%lookup_insert_Some; [done|]. by apply (Hr m).
Qed.

Lemma set_main_ok pc P :
  process_ok P -> main_pc P <> BrokerGone -> pc <> BrokerGone ->
  (pc = WorkersJoined -> forall n, workers P !! n <> Some InRun) -> process_ok (set_main pc P).
Proof.
  intros [Hc Hd Hw Hl Hf Hr Hb] N N' Hj. split; cbn; try done.
  - by rewrite Hc, !decide_False.
  - intros [H|H]; [auto|done].
  - intros t Ht. by destruct (Hb t Ht).
Qed.

(** A pointer that is dropped: the last one destroys the storage. *)
Lemma drop_ok t P pc ws rs :
  process_ok P ->
  S ((if decide (pc = BrokerGone) then 0 else 1) + count_value InRun ws + count_value Using (request_pc <$> rs)) =
    use_count P ->
  (pc = WorkersJoined \/ pc = BrokerGone -> forall n, ws !! n <> Some InRun) ->
  (forall n r, rs !! n = Some r -> weak_jobs r = true) ->
  (use_count P = 1 -> pc = BrokerGone /\ forall n, t <> WorkerThread n) ->
  process_ok (drop_pointer t (mkProcess (use_count P) (destroyed_by P) pc (listener_jobs P) (factory_jobs P)
                                (accepting P) ws rs)).
Proof.
  intros [Hc Hd Hw Hl Hf Hr Hb] Hcount Hw' Hr' Hlast. split; cbn in *; try done.
  - rewrite <- Hcount. cbn. lia.
  - destruct (decide (use_count P = 1)) as [H1|H1]; [rewrite H1; cbn; split; [done|by eexists]|]. rewrite Hd. lia.
  - intros u. destruct (decide (use_count P = 1)) as [H1|H1]; [intros [= <-]; by apply Hlast|]. intros Hu.
    assert (use_count P = 0) by (apply Hd; by eexists). lia.
Qed.

Lemma lock_jobs_ok n r P :
  process_ok P -> requests P !! n = Some r -> request_pc r = Created -> process_ok (lock_jobs n r P).
Proof.
  intros HP Hn Hpc. pose proof HP as [Hc Hd Hw Hl Hf Hr Hb].
  unfold lock_jobs, lock_pointer. rewrite (Hr n r Hn). cbn [andb].
  case_bool_decide as H0; cbn [negb].
  - apply set_request_ok; [done|done|done|]. intros r' Hr'. congruence.
  - pose proof (count_request n r (mkRequest true Using) P Hn) as E.
    rewrite decide_False, decide_True in E by (cbn; congruence).
    split; cbn; try done.
    + rewrite Hc. lia.
    + rewrite Hd. split; [|done]. by intros Hx; rewrite Hx in H0.
    + intros m r' [[_ <-]|[_ Hm]]%lookup_insert_Some; [done|]. by apply (Hr m).
Qed.

Lemma process_ok_step P P' : process_ok P -> pstep P P' -> process_ok P'.
Proof.
  intros HP Hs. pose proof HP as [Hc Hd Hw Hl Hf Hr Hb].
  destruct Hs as [n Hm Hn|Hm|Hm|Hm|Hm Hj|Hm|n Hn|n Ha Hn|n r Hn Hpc|n r Hn Hpc|n r Hn Hpc].
  - split; cbn; try done.
    + rewrite Hc, count_value_new by done. rewrite Hm, decide_False, decide_True by done. lia.
    + split; [|done]. intros Hx. apply Hd in Hx. rewrite Hc, Hm, decide_False in Hx by done. lia.
    + rewrite Hm. by intros [?|?].
  - assert (H1 : process_ok (set_main Serving P)) by (apply set_main_ok; [done|by rewrite Hm|done|done]).
    destruct H1 as [Hc1 Hd1 Hw1 Hl1 Hf1 Hr1 Hb1]. by split.
  - assert (H1 : process_ok (set_main ListenersStopped P)).
    { apply set_main_ok; [done| |done|done]. destruct Hm as [-> | ->]; done. }
    destruct H1 as [Hc1 Hd1 Hw1 Hl1 Hf1 Hr1 Hb1]. by split.
  - apply set_main_ok; [done|by rewrite Hm|done|done].
  - apply set_main_ok; [done|by rewrite Hm|done|done].
  - apply (drop_ok Main P BrokerGone (workers P) (requests P)); [done| |by auto|done|by split].
    rewrite Hc, Hm, decide_True, decide_False by done. lia.
  - pose proof (count_value_insert InRun _ n _ Ended Hn) as E. rewrite decide_True, decide_False in E by done.
    assert (Hnot : main_pc P <> BrokerGone) by (intros Hg; by apply (Hw (or_intror Hg) n)).
    apply (drop_ok (WorkerThread n) P (main_pc P) (<[n := Ended]> (workers P)) (requests P)); [done|..|done|].
    + rewrite Hc. lia.
    + intros Hg m. destruct (decide (m = n)) as [->|N]; [by rewrite lookup_insert_eq|].
      rewrite lookup_insert_ne by done. by apply Hw.
    + rewrite Hc, decide_False by done. pose proof (count_value_pos _ _ _ Hn). lia.
  - apply set_request_ok; [done|by apply Hf|done|]. intros r Hx. congruence.
  - by apply lock_jobs_ok.
  - apply set_request_ok; [done|exact (Hr n r Hn)|done|]. intros r' Hr' E. destruct Hpc; congruence.
  - pose proof (count_request n r (mkRequest (weak_jobs r) Answered) P Hn) as E.
    rewrite decide_True, decide_False in E by done.
    apply (drop_ok (RequestThread n) P (main_pc P) (workers P) (<[n := mkRequest (weak_jobs r) Answered]> (requests P)));
      [done|..].
    + rewrite Hc. lia.
    + exact Hw.
    + intros m r' [[_ <-]|[_ Hm]]%lookup_insert_Some; [exact (Hr n r Hn)|]. by apply (Hr m).
    + intros H1. split; [|done]. rewrite Hc in H1. destruct (decide (main_pc P = BrokerGone)) as [|]; [done|].
      pose proof (count_value_pos _ _ _ (requests_lookup _ _ _ Hn)) as Hp. rewrite Hpc in Hp. lia.
Qed.

Lemma process_reachable_ok P : process_reachable P -> process_ok P.
Proof.
  unfold process_reachable. pose proof process_new_ok as H0. revert H0. generalize process_new. intros P0 H0 Hr.
  induction Hr as [|x y z Hxy _ IH]; [done|]. apply IH. by eapply process_ok_step.
Qed.

(** ** After the end *)

(** Whoever may use the storage: the broker, a worker in [run], a request in its
    block. *)
Definition in_use (P : Process) : Prop :=
  main_pc P <> BrokerGone \/ (exists n, workers P !! n = Some InRun) \/
  exists n r, requests P !! n = Some r /\ request_pc r = Using.

Lemma in_use_count P : process_ok P -> in_use P <-> use_count P <> 0.
Proof.
  intros [Hc _ _ _ _ _ _]. rewrite Hc. split.
  - intros [H|[[n Hn]|(n & r & Hn & Hr)]].
    + rewrite decide_False by done. lia.
    + apply count_value_pos in Hn. lia.
    + pose proof (count_value_pos _ _ _ (requests_lookup _ _ _ Hn)) as Hp. rewrite Hr in Hp. lia.
  - intros H. destruct (decide (main_pc P = BrokerGone)) as [|N]; [|by left]. right.
    destruct (decide (count_value InRun (workers P) = 0)) as [H0|H0].
    + right. destruct (count_value_exists Using (request_pc <$> requests P)) as [n Hn]; [lia|].
      rewrite lookup_fmap in Hn. apply fmap_Some in Hn as (r & Hn & Hr). by exists n, r.
    + left. apply count_value_exists. lia.
Qed.

Lemma destroyed_step t P P' : process_ok P -> destroyed_by P = Some t -> pstep P P' -> destroyed_by P' = Some t.
Proof.
  intros HP Hd Hs. pose proof HP as [Hc Hd' Hw Hl Hf Hr Hb].
  assert (H0 : use_count P = 0) by (apply Hd'; by eexists). destruct (Hb t Hd) as [Hg _].
  assert (Hn : ~ in_use P) by (intros Hu; by apply (in_use_count P HP) in Hu).
  destruct Hs as [n Hm|Hm|Hm|Hm|Hm|Hm|n Hi|n Ha Hi|n r Hi Hpc|n r Hi Hpc|n r Hi Hpc]; try done; try congruence.
  - destruct Hn. right. left. by exists n.
  - unfold lock_jobs, lock_pointer. rewrite bool_decide_true by done. by rewrite andb_false_r.
  - destruct Hn. right. right. by exists n, r.
Qed.

Lemma destroyed_steps t P P' : process_ok P -> destroyed_by P = Some t -> rtc pstep P P' -> destroyed_by P' = Some t.
Proof.
  intros HP Hd Hr. induction Hr as [|x y z Hxy _ IH]; [done|].
  apply IH; [by eapply process_ok_step|by eapply destroyed_step].
Qed.

(** ** Properties *)

(** [C21] The life of the job storage, for any number of workers and requests and
    every order of their steps: while the broker, a worker or a handler may use
    the storage it is alive; it is destroyed once, by one thread, which is never
    a worker, and only after the broker has dropped its pointer; from then on
    [lock] fails; and when no handler is in its block at that moment, the main
    thread destroys it, the thread that constructed it. *)
Theorem storage_lifetime P :
  process_reachable P ->
  (in_use P -> destroyed_by P = None) /\
  (forall t, destroyed_by P = Some t ->
     main_pc P = BrokerGone /\ (forall n, t <> WorkerThread n) /\
     (forall weak, lock_pointer weak P = (false, P)) /\
     forall P', rtc pstep P P' -> destroyed_by P' = Some t) /\
  (main_pc P = WorkersJoined -> (forall n r, requests P !! n = Some r -> request_pc r <> Using) ->
     destroyed_by (end_broker P) = Some Main) /\
  (~ in_use P -> is_Some (destroyed_by P)).
Proof.
  intros HP%process_reachable_ok. pose proof HP as [Hc Hd Hw Hl Hf Hr Hb]. pose proof (in_use_count P HP) as Hu.
  split; [|split; [|split]].
  - intros H. destruct (destroyed_by P) eqn:E; [|done]. exfalso. apply Hu; [done|]. apply Hd. by eexists.
  - intros t Ht. destruct (Hb t Ht) as [H1 H2]. split; [done|]. split; [done|]. split.
    + intros weak. unfold lock_pointer. rewrite bool_decide_true by (apply Hd; by eexists). by rewrite andb_false_r.
    + intros P' Hr'. by eapply destroyed_steps.
  - intros Hm Hno. unfold end_broker. cbn. rewrite decide_True; [done|]. rewrite Hc, Hm, decide_False by done.
    assert (count_value InRun (workers P) = 0) by (apply count_value_zero; apply Hw; auto).
    assert (count_value Using (request_pc <$> requests P) = 0); [|lia].
    apply count_value_zero. intros n Hn. rewrite lookup_fmap in Hn. apply fmap_Some in Hn as (r & Hn & E).
    by apply (Hno n r).
  - intros Hn. apply Hd. destruct (decide (use_count P = 0)); [done|]. by destruct Hn; apply Hu.
Qed.

(** Threads as [CleanupThread] numbers them. *)
Definition tid (t : thread) : nat :=
  match t with Main => 1 | WorkerThread n => 2 + 2 * n | RequestThread n => 3 + 2 * n end.

(** A request is in its block while the server stops. *)
Module LifetimeExample.
Definition request_of (P : Process) (n : nat) : Request := default (mkRequest true Created) (requests P !! n).
Definition P1 := run_listener (start_worker 0 process_new).
Definition P2 := create_handler 7 P1.
Definition P3 := lock_jobs 7 (request_of P2 7) P2.
Definition P4 := set_main JobsQuit (stop_listener P3).
Definition P5 := set_main WorkersJoined (end_worker 0 P4).
Definition P6 := end_broker P5.
Definition P7 := end_block 7 (request_of P6 7) P6.
Lemma P5_reachable : process_reachable P5.
Proof.
  unfold process_reachable. eapply rtc_l; [by apply (p_start_worker _ 0)|].
  eapply rtc_l; [by apply p_run_listener|]. eapply rtc_l; [by apply (p_request _ 7)|].
  eapply rtc_l; [by apply (p_lock _ 7 (request_of P2 7))|]. eapply rtc_l; [apply p_stop_listener; by right|].
  eapply rtc_l; [by apply p_quit|]. eapply rtc_l; [by apply (p_end_worker _ 0)|].
  eapply rtc_l; [apply p_join|apply rtc_refl]; [done|]. intros n.
  change (workers _) with (<[0 := Ended]> (<[0 := InRun]> (∅ : gmap nat WorkerPc))).
  destruct (decide (n = 0)) as [->|N]; [by rewrite lookup_insert_eq|].
  by rewrite !lookup_insert_ne, lookup_empty.
Qed.
Lemma P7_reachable : process_reachable P7.
Proof.
  unfold process_reachable. etrans; [exact P5_reachable|]. eapply rtc_l; [by apply p_end_broker|].
  eapply rtc_l; [by apply (p_end_block _ 7 (request_of P6 7))|apply rtc_refl].
Qed.
End LifetimeExample.

(** [C39] The HTTP server stops without waiting for its requests: a handler that
    is in its block then destroys the storage in a thread that does not own
    [cleanupExitMutex].  Whatever has become of the storage, the destructor quits
    the queue and then unlocks the mutex all the same, which is undefined. *)
Theorem handler_destroys_storage :
  exists P n, process_reachable P /\ destroyed_by P = Some (RequestThread n) /\
    forall iteration maxAge l,
      (forall m, iteration m ≡ₚ map_to_list m) ->
      life_reachable (tid Main) (tid (RequestThread n)) iteration maxAge l ->
      owner l = InUse ->
      exists l', owner_step (tid (RequestThread n)) l = Some l' /\ owner l' = Quitted /\
        owner_step (tid (RequestThread n)) l' = None.
Proof.
  exists LifetimeExample.P7, 7. split; [exact LifetimeExample.P7_reachable|]. split; [vm_compute; reflexivity|].
  intros iteration maxAge l Hi Hl Ho.
  assert (Hs : exists l', owner_step (tid (RequestThread 7)) l = Some l' /\ owner l' = Quitted)
    by (unfold owner_step; rewrite Ho; by eexists).
  destruct Hs as (l' & Hs & Hq). exists l'. split; [done|]. split; [done|].
  apply (foreign_destructor (tid Main) _ iteration maxAge); [done| |done|done].
  eapply rtc_r; [exact Hl|]. apply life_own. by constructor.
Qed.

Lemma storage_lifetime_witness :
  process_reachable LifetimeExample.P7 /\
  destroyed_by LifetimeExample.P7 = Some (RequestThread 7) /\
  (forall weak, lock_pointer weak LifetimeExample.P7 = (false, LifetimeExample.P7)) /\
  destroyed_by LifetimeExample.P5 = None.
Proof.
  split; [exact LifetimeExample.P7_reachable|]. split; [vm_compute; reflexivity|]. split.
  - assert (Hd : destroyed_by LifetimeExample.P7 = Some (RequestThread 7)) by (vm_compute; reflexivity).
    destruct (storage_lifetime LifetimeExample.P7 LifetimeExample.P7_reachable) as (_ & H & _).
    exact (proj1 (proj2 (proj2 (H _ Hd)))).
  - destruct (storage_lifetime LifetimeExample.P5 LifetimeExample.P5_reachable) as (H & _).
    apply H. left. intros E. vm_compute in E. discriminate E.
Defined.
